(* ===== verification/_CoqProject ===== *)
-Q . S2P
Prelude.v
Steps.v
Utf8.v
Text.v
Telemetry.v
Interfaces.v
Types.v
StakeSets.v
Selection.v
Serialize.v
Crypto.v
Transactions.v
Chain.v
Float.v
Environment.v
Config.v
Validation.v
Keystore.v
DataProvider.v
Deserialize.v
Wire.v
Channel.v
Tokens.v
Contracts.v
Engines.v
WasmHost.v
EngineSafety.v
Scan.v
NodeRegistry.v
NodeSafety.v
StakeIndex.v
Messages.v
RoleDispatcher.v
ActionRouter.v
Packets.v
Pool.v
Registry.v
Nullifiers.v
Executor.v
Signatures.v
Epoch.v
EpochManager.v
Committer.v
Merkle.v
Roots.v
Sponge.v
Notes.v
Circuit.v
Prover.v
ShieldedPool.v
OrphanBuffer.v
CommitPipeline.v
Confirmation.v
Leadership.v
Finalizer.v
FinalizerSafety.v
Sentinel.v
SentinelSafety.v
Genesis.v
Topology.v
Emission.v
Probe.v
Fragments.v
Gossiper.v
NodeServer.v
NodeServerSafety.v
Ingress.v
Client.v
DataService.v
