(* ===== verification/Prelude.v ===== *)
(** * Verification of pneumatic_core

    pneumatic_core is a network of nodes in which every token is its own
    blockchain. A transaction is admitted by a Sentinel, which attests who is to
    finalize it; it is run by Executors, whose results are weighed by stake at
    the Finalizer; and the Finalizer's block is appended by the Committers.
    Committers also advance the epochs, keep the stakes, hold the shielded pool
    and gossip about finalized blocks. All of them keep their data in a data
    service behind a framed channel, and find each other through a registry of
    nodes. A composite host runs several roles in one process. Clients submit
    transactions over HTTP; wallets build shielded transfers; a generator writes
    the files of a test network and a probe judges the network that runs.

    This development is a shallow embedding of the Rust sources under src/: a
    function of the sources is a function here, under the same name where Rocq
    allows it, and its state is an argument and a result.

    ** How the sources are rendered

    - [u64] and [u8] are [N], [i64] is [Z], [usize] is [nat]; saturation and
      checks are written out where the code has them. Plain arithmetic on a [u64]
      that can overflow wraps, and a shift masks its distance, as in a release
      build; a debug build panics there. [f32] and [f64]
      are the Standard Library's executable IEEE-754 floats (Float.v).
    - A [HashMap] is a [gmap]. Where the code iterates over one and the order can
      be seen, the order is a parameter ([HashIter]), so that "the same on every
      node" is a theorem, or is not.
    - [Result] is [result], with the sources' error constructors. A panic is
      [None] of [may_panic], and so is a wait that never ends; a theorem that
      excludes them says so. Error texts are
      kept where they are plain and shortened where they only format values.
    - Log lines are left out. The clock, the outcome of a disk write and the
      answer of the transport are arguments; a loop that reads the clock reads it
      anew each time. Broadcasts and deliveries are lists of frames.
    - An operation on a shared map is one step. Where callers interleave
      (spent nullifiers, execution slots, refreshes of the stake index) the step
      relation is explicit.

    Third-party code is never made up: each crate is a class of Interfaces.v (or
    of the one file that uses it) with its documented laws, and each class has a
    concrete instance with which the witnesses evaluate the definitions. The
    classes are SHA-256, MessagePack ([Rmp]), [StdRng], hex, HMAC, the signature
    and KEM primitives, the RNS identity, the curve, halo2, wasmi, wasmparser, the
    JSON text of files and the escaping of strings in debug output. Binding theorems do not assume
    SHA-256 injective: they exhibit a collision as the alternative.

    ** The files

    Shared: Prelude (this file: machine integers, bytes, lists, results, hints),
    Steps (handlers as state transformers, with the tactics that take them
    apart), Utf8, Text (what the sources use of [str]), Interfaces, Types (roles,
    errors, transactions, blocks, tokens), Float, Telemetry (telemetry.rs), Config
    (config.rs), Keystore (rns/identity.rs, the file with a node's keys).

    Selection of nodes: StakeSets (src/src/epoch/stake_sets.rs), Selection
    (epoch/leader.rs: seeds, Fisher-Yates, the stake-weighted walk, shards).

    Transactions and blocks: Serialize and Transactions (transactions.rs:
    canonical forms, digests, routing decisions), Crypto (crypto.rs), Chain
    (blocks.rs), Environment (environment.rs), Validation (validation/), Tokens
    (tokens.rs, with the commit of a block to its chain).

    Data: DataProvider (data.rs, the trait), Deserialize and Wire (wire forms read
    back, of records and of transactions, blocks and tokens), Channel (conns/), DataService (data.rs client, data-service/store.rs and
    server.rs).

    Contracts: Contracts (contracts.rs, deploy.rs, upgrade.rs), Engines
    (contracts.rs interpreter, call.rs), WasmHost (wasm.rs), EngineSafety (the
    theorems on all engines), Scan (scan.rs, validation/deploy.rs, upgrade.rs).

    Nodes: NodeRegistry (node.rs, node/registry/, rns/identity.rs bindings),
    NodeSafety (its theorems), StakeIndex (node/stake_index.rs), Messages
    (messages.rs, auth.rs: envelopes), ActionRouter (action_router.rs), Packets
    (the wire forms of node.rs), Gossiper (gossiper.rs).

    In flight: Pool and Registry (transactions.rs, registry/pending.rs),
    Nullifiers (registry/nullifiers.rs), Executor (executor/src/executor.rs),
    Signatures (registry/signatures.rs, finalizer/src/signature_collector.rs).

    Committer: Epoch (epoch/), EpochManager (committer/src/epoch_manager.rs),
    Committer (the conflict gate and block_services.rs), Merkle (shielded/tree.rs),
    Roots (shielded/roots.rs, verify.rs, validation/shielded.rs), ShieldedPool
    (committer/src/shielded_pool.rs), OrphanBuffer, CommitPipeline
    (committing.rs, routing.rs), Confirmation (finalizing.rs,
    quoruming.rs, distributing.rs), Leadership (epoching.rs and the dispatch of
    messages).

    Shielded transfers: Sponge (shielded/poseidon.rs, with the field and the Grain
    generator), Notes (shielded/note.rs and the wallet's keys), Circuit
    (shielded/circuit.rs), Prover (prover/src/build.rs).

    Finalizer: Finalizer (finalizer/src: handlers, block builder, dispatcher),
    FinalizerSafety (its theorems, with the Committers that receive its blocks).

    Sentinel: Sentinel (sentinel/src: handlers, validator, notifier, and the
    targeted send of node/registry/fanout.rs), SentinelSafety (its theorems, with
    the Finalizer that receives its transactions).

    Composite host: RoleDispatcher (role_dispatcher.rs, role_selector.rs, against
    the interface [RoleHost]), NodeServer (node_server.rs and its parts),
    NodeServerSafety (its theorems), Ingress (ingress.rs and the sink), Client
    (client/src/lib.rs).

    Networks: Genesis (data-service/src/genesis.rs), Topology, Emission, Probe
    (testnet-gen/src/topology.rs, emit.rs, probe.rs), Fragments (fragment.rs of the
    registry and fragments.rs of the probe).

    ** What the theorems show

    - Shielded pool. In every pool reached by applying, reverting and restarting,
      no nullifier is spent twice and the set, the deltas, the tree and the root
      history agree; an apply is all or nothing and a revert its inverse; a
      snapshot loads back to the pool. The tree, up to the depth of 64, refines
      the Merkle tree of its leaves. One note can nevertheless be spent twice: nullifiers are compared
      as bytes but proved as field elements.
    - Shielded transfers. What the wallet builds from an owned note the network
      accepts, and the payee's scan of it gets the value paid; the values of minted
      notes are found by a scan, and nothing of their randomness. The
      circuit proves no ownership: every transfer that passes the checks outside
      it has a satisfying assignment.
    - Chains. A validated append keeps a chain valid; the tip determines the
      hashed history up to a collision; a commit restores the token on every error.
    - The commit path. Exactly the commits that succeed are booked, once, with
      the appended token in the cache. The conflict gate is characterised on
      every branch. Three consequences are proved that the code does not mean:
      contract writes are overwritten by the next commit, a leader's batch of two
      slashes the leader, an unknown key can authorise its own block.
    - From role to role. What the Sentinel admits is new and queued; unless its
      token verifies itself or a decision came with it, which is not checked, it
      carries an attested decision for one staked Finalizer, and that Finalizer
      accepts it; a finalization that succeeds has sent a block that the Committers' checks
      accept; the preload and the first vote may come in either order; what one
      node writes another reads back. What the code does not mean: a forged
      preload replaces a waiting transaction, a reused id unseats a queued one,
      a rejection can wait for itself, a reassignment deletes its transaction, and
      one claimed epoch stops a Sentinel for good.
    - Composite host. The frame of a message reaches the one installed role that
      owns its action; a request is answered with 200 exactly when it
      authenticates, can be relayed, and the Sentinel handled it, and from the client's side a receipt means the same,
      however the network cuts the request. An unsigned frame moves the Sentinel's
      epoch.
    - Gossip. Only authentic frames are handed on and every authentic message is,
      once while the cache forgets nothing. Buffered blocks follow their parent in chain order whatever order
      they came in; the buffer's count is exact. Votes are counted for the key
      their body names, so one sender can vote for all; and a refused message
      still replaces the stake set.
    - Contracts. A run stays within its gas limit; instruction contracts return,
      unless a WebAssembly module they call does not; without calls the interpreter
      computes what integer arithmetic does, or reverts; the write-set refines the
      storage map; the scanner's stack check is exact. A caller without gas left
      calls without a limit.
    - Executor. An execution that succeeds has delivered a checked result and the
      vote for it to one Finalizer; every failure leaves the entry in the state, and
      the frames delivered, that its point of failure has. Slots leak when
      a task settles before it is tracked.
    - Quorum, selection, pool. Reconciliation succeeds exactly at the stake
      quorum; selection is exact and total; an admitted nonce stays admitted; the
      leader dequeues in order; concurrent batches of nullifiers exclude each
      other and end.
    - Data service. Through encoding, framing, authentication, dispatch and store
      the provider is a map; a saved pool survives a restart. The executor set of
      an epoch overwrites its stake snapshot.
    - Node registry. What a registration does exactly; no bucket above its size;
      a query nonce is answered once. However refreshes and epoch changes
      interleave, the stake gate decides by stakes that some snapshot gave, and one
      refresh alone ends with exactly the snapshot it read.
    - Keystore. Whatever fails and wherever the process stops, the file is the old
      one or the complete new one with the old one beside it; what a start wrote
      the next start loads, the X25519 secret apart. A rename that fails leaves the keys in a temporary
      file.
    - Networks. After genesis every gate decides by the granted stakes; a generated
      mesh is mutual and on distinct addresses its ports never collide; the generated nodes pass the gate
      for exactly their roles; the probe's verdict is complete exactly when every
      registry holds what the topology says.

    ** Bounds and fuel

    Most recursions follow their data. The engines recurse on a number of levels
    ([levels]), which is bounded by the depth cap of nested calls and proved to be
    enough. A WebAssembly run is a finite tree of host calls. A handler that never
    returns, because it waits for a lock it holds, is [None]. The
    replay of orphans takes as fuel the number of buffered blocks, each round
    removes one, and the theorem is that all of them are appended. The loops of the
    Grain generator reject samples and take fuel; the theorems on the sponge hold
    for whatever parameters they give. The parser of the client takes as many turns
    as its input has bytes; readers of connections follow the list of reads. Trees have the
    depth the code gives them; theorems hold for every depth up to 64 unless they name 32.

    ** Not modelled

    The transport (rns/wrapper.rs and the asynchronous fan-out): a wrapper around
    the Reticulum stack, whose sends and deliveries reach the model as arguments
    and frames. Sockets, accept loops, threads and their ticks, timeouts, and the
    assembly of a process out of them (build_runtime): the functions they call are
    modelled, their scheduling is not, except where a step relation interleaves
    them. Command lines, log lines and printed reports. The JSON text of files:
    readers and writers work on parsed values. halo2 and the curve, wasmi and the
    signature schemes enter as interfaces. Two metadata variants of mint_token. *)

From stdpp Require Export prelude gmap strings sorting pretty.
From Stdlib Require Export NArith ZArith Lia.
From Stdlib Require Import Ascii.

(** ** Machine integers

    [u64] values are kept as [N]; every operation the sources use on them is
    written out with its saturation, check or wrap-around. *)

Definition u64_max : N := 18446744073709551615.
Definition u64_mod : N := 18446744073709551616.

Definition sat_add (a b : N) : N := N.min u64_max (a + b).
Definition sat_sub (a b : N) : N := a - b.
Definition sat_mul (a b : N) : N := N.min u64_max (a * b).

Definition checked_add (a b : N) : option N :=
  if decide (a + b ≤ u64_max)%N then Some (a + b)%N else None.

Definition wrap_add (a b : N) : N := ((a + b) mod u64_mod)%N.

Definition sat_sum (l : list N) : N := foldl sat_add 0%N l.
Definition sum_N (l : list N) : N := foldr N.add 0%N l.

(** ** Bytes

    [Vec<u8>] is a list of byte values; its [Ord] is the lexicographic order. *)

Definition bytes := list N.

Fixpoint bytes_leb (a b : bytes) : bool :=
  match a, b with
  | [], _ => true
  | _ :: _, [] => false
  | x :: a', y :: b' =>
      if (x <? y)%N then true else if (y <? x)%N then false else bytes_leb a' b'
  end.

Definition bytes_le (a b : bytes) : Prop := bytes_leb a b = true.

#[global] Instance bytes_le_dec : RelDecision bytes_le.
Proof. intros a b. unfold bytes_le. apply _. Defined.

(** [slice::sort] on keys. *)
Definition sort_bytes (l : list bytes) : list bytes := merge_sort bytes_le l.

(** Sorting by a key, as a [BTreeMap] orders its entries. *)
Definition key_le {A} (f : A → bytes) (x y : A) : Prop := bytes_le (f x) (f y).

#[global] Instance key_le_dec {A} (f : A → bytes) : RelDecision (key_le f).
Proof. intros x y. unfold key_le. apply _. Defined.

Definition sort_on {A} (f : A → bytes) (l : list A) : list A := merge_sort (key_le f) l.

(** The bytes of a string ([str::as_bytes]). *)
Fixpoint string_bytes (s : string) : bytes :=
  match s with
  | EmptyString => []
  | String c s' => N_of_ascii c :: string_bytes s'
  end.

(** [u64::to_be_bytes]. *)
Fixpoint be_bytes (n : nat) (x : N) : bytes :=
  match n with
  | O => []
  | S n' => be_bytes n' (x / 256)%N ++ [(x mod 256)%N]
  end.

Definition u64_be (x : N) : bytes := be_bytes 8 x.

(** The [Debug] text of a [Vec<u8>]. *)
Definition debug_bytes (b : bytes) : string :=
  "[" +:+ String.concat ", " (pretty <$> b) +:+ "]".

(** ** Results

    [Result<A, E>] with its [?] operator as monadic bind. *)

Inductive result (E A : Type) : Type :=
| Ok (a : A)
| Err (e : E).
Arguments Ok {E A} a.
Arguments Err {E A} e.

#[global] Instance result_eq_dec {E A} `{EqDecision E, EqDecision A} : EqDecision (result E A).
Proof. solve_decision. Defined.

#[global] Instance result_ret E : MRet (result E) := λ A a, Ok a.
#[global] Instance result_bind E : MBind (result E) :=
  λ A B f r, match r with Ok a => f a | Err e => Err e end.

Definition ok_or {E A} (e : E) (o : option A) : result E A :=
  match o with Some a => Ok a | None => Err e end.

Definition map_err {E F A} (f : E → F) (r : result E A) : result F A :=
  match r with Ok a => Ok a | Err e => Err (f e) end.

Definition is_ok {E A} (r : result E A) : bool :=
  match r with Ok _ => true | Err _ => false end.

(** A computation that may panic: an index out of range, an [unwrap] of [None],
    an empty [gen_range]. [None] is the panic. *)
Abbreviation may_panic := option (only parsing).

(** ** Hash-map iteration

    A [HashMap]'s iteration order is unspecified and differs from node to
    node. Every use of an iteration order in the sources is a use of this
    interface: one instance is one node's order, and a statement over two
    instances compares two nodes. *)

Class HashIter := {
  hash_iter {K V : Type} `{Countable K} : gmap K V → list (K * V);
  hash_iter_perm {K V : Type} `{Countable K} (m : gmap K V) :
    hash_iter m ≡ₚ map_to_list m;
}.

Definition hash_keys `{HashIter} {V} (m : gmap bytes V) : list bytes := (hash_iter m).*1.
Definition hash_values `{HashIter} {V} (m : gmap bytes V) : list V := (hash_iter m).*2.

(** [iter().map(..).collect::<BTreeMap<..>>()] and its in-order entries. *)
Definition btree_entries `{HashIter} {V} (m : gmap bytes V) : list (bytes * V) :=
  sort_on fst (hash_iter m).
Definition btree_entries_str `{HashIter} {V} (m : gmap string V) : list (string * V) :=
  sort_on (string_bytes ∘ fst) (hash_iter m).

(** Two orders that really differ, used to exhibit concrete runs. *)
Program Definition forward_iter : HashIter := {|
  hash_iter K V _ _ m := map_to_list m;
|}.
Next Obligation. done. Qed.

Program Definition backward_iter : HashIter := {|
  hash_iter K V _ _ m := reverse (map_to_list m);
|}.
Next Obligation. intros. simpl. by rewrite reverse_Permutation. Qed.

(** ** Tactics and hints *)

Create HintDb pneu.

Ltac break_match :=
  repeat case_match; simplify_eq/=; try done.

Ltac u64 := unfold sat_add, sat_sub, sat_mul, wrap_add, u64_max, u64_mod in *; lia.

(** ** Results *)

#[global] Instance Ok_inj E A : Inj (=) (=) (@Ok E A).
Proof. by intros ?? [=]. Qed.

#[global] Instance Err_inj E A : Inj (=) (=) (@Err E A).
Proof. by intros ?? [=]. Qed.

Lemma bind_Ok {E A B} (r : result E A) (f : A → result E B) b :
  r ≫= f = Ok b → ∃ a, r = Ok a ∧ f a = Ok b.
Proof. destruct r; simpl; intros; [eauto | done]. Qed.

Lemma map_err_Ok {E F A} (g : E → F) (r : result E A) a : map_err g r = Ok a ↔ r = Ok a.
Proof. destruct r; simpl; split; intros; by simplify_eq. Qed.

(** ** Saturating sums *)

Lemma sat_add_0_l a : (a ≤ u64_max)%N → sat_add 0 a = a.
Proof. intros. u64. Qed.

Lemma sat_add_min a b : sat_add (N.min u64_max a) b = N.min u64_max (a + b).
Proof. u64. Qed.

Lemma foldl_sat_add l a :
  foldl sat_add (N.min u64_max a) l = N.min u64_max (a + sum_N l).
Proof.
  revert a. induction l as [|x l IH]; intros a; simpl; [by rewrite N.add_0_r|].
  rewrite sat_add_min, IH. f_equal. lia.
Qed.

Lemma sat_sum_spec l : sat_sum l = N.min u64_max (sum_N l).
Proof. unfold sat_sum. apply (foldl_sat_add l 0). Qed.

Lemma sum_N_app l k : sum_N (l ++ k) = (sum_N l + sum_N k)%N.
Proof. induction l; simpl; lia. Qed.

#[global] Instance sum_N_Permutation : Proper ((≡ₚ) ==> (=)) sum_N.
Proof. induction 1; simpl; lia. Qed.

#[global] Instance sat_sum_Permutation : Proper ((≡ₚ) ==> (=)) sat_sum.
Proof. intros l k Hp. by rewrite !sat_sum_spec, Hp. Qed.

Lemma sum_N_elem_of x l : x ∈ l → (x ≤ sum_N l)%N.
Proof. induction 1; simpl; lia. Qed.

Lemma sum_N_zero l : sum_N l = 0%N ↔ Forall (λ x, x = 0%N) l.
Proof.
  induction l as [|x l IH]; simpl; [by split|].
  rewrite Forall_cons, <-IH. lia.
Qed.

(** ** The lexicographic order on bytes *)

#[global] Instance bytes_le_total : Total bytes_le.
Proof.
  unfold bytes_le. intros a. induction a as [|x a IH]; intros [|y b]; simpl; auto.
  destruct (N.ltb_spec x y), (N.ltb_spec y x); auto.
Qed.

#[global] Instance bytes_le_antisymm : AntiSymm (=) bytes_le.
Proof.
  unfold bytes_le. intros a. induction a as [|x a IH]; intros [|y b]; simpl; try done.
  destruct (N.ltb_spec x y), (N.ltb_spec y x); try done; try lia.
  intros ? ?. f_equal; [lia | auto].
Qed.

#[global] Instance bytes_le_trans : Transitive bytes_le.
Proof.
  unfold bytes_le. intros a. induction a as [|x a IH]; intros [|y b] [|z c]; simpl; try done.
  destruct (N.ltb_spec x y), (N.ltb_spec y z), (N.ltb_spec x z), (N.ltb_spec y x),
    (N.ltb_spec z y), (N.ltb_spec z x); try done; try lia; eauto.
Qed.

Lemma sort_bytes_perm l : sort_bytes l ≡ₚ l.
Proof. apply merge_sort_Permutation. Qed.

Lemma sort_bytes_sorted l : Sorted bytes_le (sort_bytes l).
Proof. apply Sorted_merge_sort, _. Qed.

(** Sorting forgets the order its input came in. *)
#[global] Instance sort_bytes_Permutation : Proper ((≡ₚ) ==> (=)) sort_bytes.
Proof.
  intros l k Hp. apply (Sorted_unique bytes_le); [apply sort_bytes_sorted..|].
  by rewrite !sort_bytes_perm.
Qed.

#[global] Instance key_le_total {A} (f : A → bytes) : Total (key_le f).
Proof. intros x y. apply bytes_le_total. Qed.

#[global] Instance key_le_trans {A} (f : A → bytes) : Transitive (key_le f).
Proof. intros x y z. apply bytes_le_trans. Qed.

Lemma sort_on_perm {A} (f : A → bytes) l : sort_on f l ≡ₚ l.
Proof. apply merge_sort_Permutation. Qed.

Lemma sort_on_sorted {A} (f : A → bytes) l : Sorted (key_le f) (sort_on f l).
Proof. apply Sorted_merge_sort, _. Qed.

Lemma NoDup_fmap_inj_on {A B} (f : A → B) l x y :
  NoDup (f <$> l) → x ∈ l → y ∈ l → f x = f y → x = y.
Proof.
  intros Hnd (i & Hi)%list_elem_of_lookup (j & Hj)%list_elem_of_lookup Hf.
  assert (i = j) as ->; [|congruence].
  eapply (NoDup_lookup _ _ _ (f x)); [done| |]; rewrite list_lookup_fmap.
  - by rewrite Hi.
  - rewrite Hj. simpl. by rewrite Hf.
Qed.

(** With distinct keys, sorting by key forgets the order of its input. *)
Lemma sort_on_perm_eq {A} (f : A → bytes) l k :
  NoDup (f <$> l) → l ≡ₚ k → sort_on f l = sort_on f k.
Proof.
  intros Hnd Hp. apply (Sorted_unique_strong (key_le f)); [|apply sort_on_sorted..|].
  - intros x y. rewrite (sort_on_perm f l), (sort_on_perm f k), <-Hp.
    intros Hx Hy H1 H2. eapply NoDup_fmap_inj_on; [done..|].
    by apply (anti_symm bytes_le).
  - by rewrite !sort_on_perm.
Qed.

#[global] Instance string_bytes_inj : Inj (=) (=) string_bytes.
Proof.
  intros s. induction s as [|c s IH]; intros [|d t]; simpl; try done.
  intros [= Hc Hs]. f_equal; [|auto].
  rewrite <-(ascii_N_embedding c), <-(ascii_N_embedding d). congruence.
Qed.

(** ** Hash-map iteration *)

Section hash_iter.
Context {K V : Type} `{Countable K}.

Lemma hash_iter_swap (h1 h2 : HashIter) (m : gmap K V) :
  @hash_iter h1 K V _ _ m ≡ₚ @hash_iter h2 K V _ _ m.
Proof. by rewrite !hash_iter_perm. Qed.

Lemma hash_iter_NoDup `{HashIter} (m : gmap K V) : NoDup (hash_iter m).*1.
Proof. rewrite hash_iter_perm. apply NoDup_fst_map_to_list. Qed.

Lemma elem_of_hash_iter `{HashIter} (m : gmap K V) k v : (k, v) ∈ hash_iter m ↔ m !! k = Some v.
Proof. rewrite hash_iter_perm. apply elem_of_map_to_list. Qed.
End hash_iter.

Lemma btree_entries_swap {V} (h1 h2 : HashIter) (m : gmap bytes V) :
  @btree_entries h1 V m = @btree_entries h2 V m.
Proof. apply sort_on_perm_eq; [apply hash_iter_NoDup | apply hash_iter_swap]. Qed.

Lemma btree_entries_inj {V} `{HashIter} (m1 m2 : gmap bytes V) :
  btree_entries m1 = btree_entries m2 → m1 = m2.
Proof.
  intros He. apply map_eq. intros k. apply option_eq. intros v.
  rewrite <-!(elem_of_hash_iter _ k v).
  unfold btree_entries in He.
  by rewrite <-(sort_on_perm fst (hash_iter m1)), <-(sort_on_perm fst (hash_iter m2)), He.
Qed.

Lemma btree_entries_str_swap {V} (h1 h2 : HashIter) (m : gmap string V) :
  @btree_entries_str h1 V m = @btree_entries_str h2 V m.
Proof.
  apply sort_on_perm_eq; [|apply hash_iter_swap].
  rewrite list_fmap_compose. apply (NoDup_fmap_2 string_bytes), hash_iter_NoDup.
Qed.

Lemma string_bytes_app a b : string_bytes (a +:+ b) = string_bytes a ++ string_bytes b.
Proof. induction a as [|c a IH]; [done|]. simpl. by f_equal. Qed.

Lemma be_bytes_length n x : length (be_bytes n x) = n.
Proof. revert x. induction n; intros; simpl; [done|]. rewrite length_app, IHn. simpl. lia. Qed.

Lemma be_bytes_wf n x : Forall (λ b, b < 256)%N (be_bytes n x).
Proof.
  revert x. induction n as [|n IH]; intros x; [constructor|]. cbn [be_bytes].
  apply Forall_app. split; [apply IH|]. constructor; [|constructor]. apply N.mod_lt. lia.
Qed.

Lemma be_bytes_inj n x y :
  (x < 256 ^ N.of_nat n)%N → (y < 256 ^ N.of_nat n)%N →
  be_bytes n x = be_bytes n y → x = y.
Proof.
  revert x y. induction n as [|n IH]; intros x y Hx Hy; [simpl in *; lia|].
  rewrite Nat2N.inj_succ, N.pow_succ_r' in Hx, Hy. simpl. intros He.
  apply app_inj_2 in He as [He Hm]; [|done]. simplify_eq.
  apply IH in He; [|apply N.Div0.div_lt_upper_bound; lia..].
  rewrite (N.div_mod' x 256), (N.div_mod' y 256). congruence.
Qed.

Lemma u64_be_inj x y :
  (x ≤ u64_max)%N → (y ≤ u64_max)%N → u64_be x = u64_be y → x = y.
Proof. intros. apply (be_bytes_inj 8); [u64..|done]. Qed.

#[export] Hint Resolve sort_bytes_perm sort_bytes_sorted : pneu.
#[export] Hint Resolve sum_N_elem_of : pneu.
