(* ===== verification/Steps.v ===== *)
(** * Handlers as state transformers

    The message handlers of the roles mutate the state they share and may fail
    half-way: a handler takes a state to no result at all (a panic, or a wait
    that never ends), or to the state it leaves behind with its result. *)

From S2P Require Import Prelude.

Definition step (S E A : Type) : Type := S → may_panic (S * result E A).

#[global] Instance step_ret {S E} : MRet (step S E) := λ A a s, Some (s, Ok a).
#[global] Instance step_bind {S E} : MBind (step S E) :=
  λ A B f m s, match m s with
               | Some (s', Ok a) => f a s'
               | Some (s', Err e) => Some (s', Err e)
               | None => None
               end.

Section operations.
Context {S E : Type}.

Definition fails {A} (e : E) : step S E A := λ s, Some (s, Err e).
Definition of_result {A} (r : result E A) : step S E A := λ s, Some (s, r).
(** A computation that may panic and does not change the state. *)
Definition of_panic {A} (p : may_panic A) : step S E A := λ s, (λ a, (s, Ok a)) <$> p.
Definition asks {A} (f : S → A) : step S E A := λ s, Some (s, Ok (f s)).
Definition updates (f : S → S) : step S E () := λ s, Some (f s, Ok ()).
(** A part of the state changes, with a value: an operation on a component. *)
Definition runs {A} (f : S → S * A) : step S E A := λ s, let '(s', a) := f s in Some (s', Ok a).
(** [let _ = m;] and [if let Err(e) = m { log }] *)
Definition attempt {A} (m : step S E A) : step S E (result E A) :=
  λ s, match m s with Some (s', r) => Some (s', Ok r) | None => None end.

Lemma step_bind_inv {A B} (m : step S E A) (f : A → step S E B) s s' r :
  (m ≫= f) s = Some (s', r) →
  ∃ s1 r1, m s = Some (s1, r1) ∧
    match r1 with Ok a => f a s1 = Some (s', r) | Err e => s' = s1 ∧ r = Err e end.
Proof.
  unfold mbind, step_bind. destruct (m s) as [[s1 [a|e]]|]; [..|done]; intros Hr.
  - by exists s1, (Ok a).
  - simplify_eq. by exists s', (Err e).
Qed.

Lemma step_bind_Ok {A B} (m : step S E A) (f : A → step S E B) s s' a :
  m s = Some (s', Ok a) → (m ≫= f) s = f a s'.
Proof. intros Hm. unfold mbind, step_bind. by rewrite Hm. Qed.

Lemma step_bind_Err {A B} (m : step S E A) (f : A → step S E B) s s' e :
  m s = Some (s', Err e) → (m ≫= f) s = Some (s', Err e).
Proof. intros Hm. unfold mbind, step_bind. by rewrite Hm. Qed.

(** Every outcome of the handler, errors included, is related to its start. *)
Definition preserves (R : relation S) {A} (m : step S E A) : Prop := ∀ s s' r, m s = Some (s', r) → R s s'.

Context (R : relation S) `{!PreOrder R}.

Lemma preserves_bind {A B} (m : step S E A) (f : A → step S E B) :
  preserves R m → (∀ a, preserves R (f a)) → preserves R (m ≫= f).
Proof.
  intros Hm Hf s s' r (s1 & r1 & H1 & H2)%step_bind_inv. destruct r1 as [a|e].
  - etrans; [by eapply Hm|by eapply Hf].
  - destruct H2 as [-> _]. by eapply Hm.
Qed.

Lemma preserves_ret {A} (a : A) : preserves R (mret a : step S E A).
Proof. intros s s' r [= <- _]. done. Qed.
Lemma preserves_fails {A} e : preserves R (fails e : step S E A).
Proof. intros s s' r [= <- _]. done. Qed.
Lemma preserves_of_result {A} (x : result E A) : preserves R (of_result x).
Proof. intros s s' r [= <- _]. done. Qed.
Lemma preserves_of_panic {A} (p : may_panic A) : preserves R (of_panic p).
Proof. unfold of_panic. intros s s' r. destruct p; [|done]. by intros [= <- _]. Qed.
Lemma preserves_asks {A} (f : S → A) : preserves R (asks f).
Proof. intros s s' r [= <- _]. done. Qed.
Lemma preserves_updates (f : S → S) : (∀ s, R s (f s)) → preserves R (updates f : step S E ()).
Proof. intros Hf s s' r [= <- _]. apply Hf. Qed.
Lemma preserves_runs {A} (f : S → S * A) : (∀ s, R s (f s).1) → preserves R (runs f : step S E A).
Proof. intros Hf s s' r. unfold runs. specialize (Hf s). destruct (f s). by intros [= <- _]. Qed.
Lemma preserves_attempt {A} (m : step S E A) : preserves R m → preserves R (attempt m).
Proof. intros Hm s s' r. unfold attempt. destruct (m s) as [[s1 x]|] eqn:Hs; [|done]. intros [= <- _]. by eapply Hm. Qed.
End operations.

Create HintDb handlers.
#[export] Hint Resolve preserves_ret preserves_fails preserves_of_result preserves_of_panic preserves_asks preserves_attempt : handlers.

(** One step of a handler's body at a time. *)
Ltac handler_steps :=
  repeat first
    [ solve [eauto with handlers typeclass_instances]
    | apply preserves_bind; [typeclasses eauto| |intros ?]
    | case_match ].

(** The first step of a handler that succeeded: the state [s] it leads to, its
    value [a] and the equation [K]. *)
Ltac step_ok H s a K :=
  let e := fresh "e" in
  apply step_bind_inv in H as (s & [a|e] & K & H); [|by destruct H].

(** A step that reads the state or updates it. *)
Ltac step_pure H :=
  let s := fresh "s" in let a := fresh "a" in let K := fresh "K" in
  step_ok H s a K; unfold asks, updates, mret, step_ret in K; injection K as <- <-.

(** A step that evaluates a result to [a]. *)
Ltac step_result H a K :=
  let s := fresh "s" in step_ok H s a K; unfold of_result in K; injection K as <- K.
