(* ===== verification/Utf8.v ===== *)
(** * UTF-8, as the standard library decodes it

    [String::from_utf8] and [String::from_utf8_lossy]: the longest valid
    prefix, byte by byte, and the replacement character for each maximal
    ill-formed piece. A Rust [String] is the sequence of its bytes. *)

From S2P Require Import Prelude.
From Stdlib Require Import Ascii.

Definition is_cont (b : N) : bool := N.leb 128 b && N.ltb b 192.
Definition between (lo hi b : N) : bool := N.leb lo b && N.leb b hi.

(** The second byte a three- or four-byte sequence may have. *)
Definition second3 (b c : N) : bool :=
  (N.eqb b 224 && between 160 191 c) || (between 225 236 b && between 128 191 c) ||
  (N.eqb b 237 && between 128 159 c) || (between 238 239 b && between 128 191 c).
Definition second4 (b c : N) : bool :=
  (N.eqb b 240 && between 144 191 c) || (between 241 243 b && between 128 191 c) ||
  (N.eqb b 244 && between 128 143 c).

(** How many bytes the front of a nonempty input takes, and whether they are a
    character. A byte past the end reads as zero. *)
Definition utf8_step (b : N) (rest : bytes) : bool * nat :=
  let at_ k := default 0%N (rest !! k) in
  if N.ltb b 128 then (true, 1)
  else if between 194 223 b then if is_cont (at_ 0) then (true, 2) else (false, 1)
  else if between 224 239 b then
    if second3 b (at_ 0) then if is_cont (at_ 1) then (true, 3) else (false, 2) else (false, 1)
  else if between 240 244 b then
    if second4 b (at_ 0) then
      if is_cont (at_ 1) then if is_cont (at_ 2) then (true, 4) else (false, 3) else (false, 2)
    else (false, 1)
  else (false, 1).

Definition replacement : bytes := [239; 191; 189]%N.

(** The input's length is enough steps: every step takes at least one byte. *)
Fixpoint lossy (fuel : nat) (b : bytes) : bytes :=
  match fuel, b with
  | S fuel, x :: rest =>
      let '(ok, n) := utf8_step x rest in
      (if ok then take n b else replacement) ++ lossy fuel (drop n b)
  | _, _ => []
  end.

Fixpoint utf8_valid (fuel : nat) (b : bytes) : bool :=
  match fuel, b with
  | S fuel, x :: rest => let '(ok, n) := utf8_step x rest in ok && utf8_valid fuel (drop n b)
  | _, _ => true
  end.

Fixpoint bytes_string (b : bytes) : string :=
  match b with [] => EmptyString | x :: b => String (ascii_of_N x) (bytes_string b) end.

Definition from_utf8_lossy (b : bytes) : string := bytes_string (lossy (length b) b).
Definition from_utf8 (b : bytes) : option string :=
  if utf8_valid (length b) b then Some (bytes_string b) else None.

(** ** Valid input is kept *)

Lemma utf8_step_pos x rest : 1 ≤ (utf8_step x rest).2.
Proof. unfold utf8_step. repeat case_match; simpl; lia. Qed.

Lemma lossy_valid fuel b : length b ≤ fuel → utf8_valid fuel b = true → lossy fuel b = b.
Proof.
  revert b. induction fuel as [|fuel IH]; intros [|x rest] Hl Hv; simpl in Hl; try done; [lia|].
  cbn [lossy utf8_valid] in *. pose proof (utf8_step_pos x rest) as Hn.
  destruct (utf8_step x rest) as [[] n]; [|done]. simpl in Hn, Hv.
  rewrite IH; [apply take_drop| |done]. rewrite length_drop. simpl. lia.
Qed.

Lemma from_utf8_lossy_valid b s : from_utf8 b = Some s → from_utf8_lossy b = s.
Proof.
  unfold from_utf8, from_utf8_lossy. destruct (utf8_valid (length b) b) eqn:E; [|done].
  intros [= <-]. by rewrite lossy_valid.
Qed.

Lemma bytes_string_bytes s : bytes_string (string_bytes s) = s.
Proof. induction s as [|c s IH]; [done|]. simpl. by rewrite IH, ascii_N_embedding. Qed.
