(* ===== verification/Text.v ===== *)
(** * Text operations of the standard library

    What the sources use of [str]: trimming, splitting, ASCII case, prefix and
    substring tests, decimal parsing. A [str] is its UTF-8 bytes. *)

From S2P Require Import Prelude Utf8.

(** ** White space *)

(** A [White_Space] character at the front: the bytes after it. *)
Definition strip_space (b : bytes) : option bytes :=
  match b with
  | x :: r =>
      if between 9 13 x || N.eqb x 32 then Some r
      else match r with
           | y :: r =>
               if N.eqb x 194 && (N.eqb y 133 || N.eqb y 160) then Some r
               else match r with
                    | z :: r =>
                        if (N.eqb x 225 && N.eqb y 154 && N.eqb z 128)
                           || (N.eqb x 226 && N.eqb y 128 && (between 128 138 z || N.eqb z 168 || N.eqb z 169 || N.eqb z 175))
                           || (N.eqb x 226 && N.eqb y 129 && N.eqb z 159)
                           || (N.eqb x 227 && N.eqb y 128 && N.eqb z 128)
                        then Some r else None
                    | [] => None
                    end
           | [] => None
           end
  | [] => None
  end.

(** The same character read from its last byte. *)
Definition strip_space_rev (b : bytes) : option bytes :=
  match b with
  | z :: r =>
      if between 9 13 z || N.eqb z 32 then Some r
      else match r with
           | y :: r =>
               if N.eqb y 194 && (N.eqb z 133 || N.eqb z 160) then Some r
               else match r with
                    | x :: r =>
                        if (N.eqb x 225 && N.eqb y 154 && N.eqb z 128)
                           || (N.eqb x 226 && N.eqb y 128 && (between 128 138 z || N.eqb z 168 || N.eqb z 169 || N.eqb z 175))
                           || (N.eqb x 226 && N.eqb y 129 && N.eqb z 159)
                           || (N.eqb x 227 && N.eqb y 128 && N.eqb z 128)
                        then Some r else None
                    | [] => None
                    end
           | [] => None
           end
  | [] => None
  end.

Fixpoint strip_all (strip : bytes → option bytes) (fuel : nat) (b : bytes) : bytes :=
  match fuel with
  | O => b
  | S fuel => match strip b with Some r => strip_all strip fuel r | None => b end
  end.

Definition trim_start (b : bytes) : bytes := strip_all strip_space (length b) b.
Definition trim_end (b : bytes) : bytes := rev (strip_all strip_space_rev (length b) (rev b)).
Definition trim (b : bytes) : bytes := trim_end (trim_start b).

(** ** Splitting and searching *)

Fixpoint starts_with (p b : bytes) : bool :=
  match p, b with
  | [], _ => true
  | x :: p, y :: b => N.eqb x y && starts_with p b
  | _, [] => false
  end.

(** [find]: the position of the first occurrence. *)
Fixpoint find_sub (p b : bytes) : option nat :=
  if starts_with p b then Some 0
  else match b with [] => None | _ :: b => S <$> find_sub p b end.

Definition contains_sub (p b : bytes) : bool := negb (bool_decide (find_sub p b = None)).

Definition split_once (p b : bytes) : option (bytes * bytes) :=
  (λ i, (take i b, drop (i + length p) b)) <$> find_sub p b.

(** [split] at a byte. *)
Fixpoint split_byte (c : N) (b : bytes) : list bytes :=
  match b with
  | [] => [[]]
  | x :: b =>
      if N.eqb x c then [] :: split_byte c b
      else match split_byte c b with [] => [[x]] | l :: ls => (x :: l) :: ls end
  end.

(** [lines]: a final empty piece is no line, and a carriage return before the end
    of a line is not part of it. *)
Definition strip_cr (l : bytes) : bytes := if bool_decide (last l = Some 13%N) then removelast l else l.
Definition lines (b : bytes) : list bytes :=
  let l := split_byte 10 b in
  let body := strip_cr <$> removelast l in
  match last l with Some (x :: y) => body ++ [x :: y] | _ => body end.

(** ** ASCII case and numbers *)

Definition lower_byte (x : N) : N := if between 65 90 x then (x + 32)%N else x.
Definition to_ascii_lowercase (b : bytes) : bytes := lower_byte <$> b.
Definition eq_ignore_ascii_case (a b : bytes) : bool := bool_decide (to_ascii_lowercase a = to_ascii_lowercase b).

Definition usize_max : N := u64_max.

Fixpoint parse_digits (acc : N) (b : bytes) : option N :=
  match b with
  | [] => Some acc
  | x :: b =>
      if between 48 57 x then
        let acc := (acc * 10 + (x - 48))%N in
        if N.leb acc usize_max then parse_digits acc b else None
      else None
  end.

(** [parse::<usize>]: an optional plus sign, then digits. *)
Definition parse_usize (b : bytes) : option N :=
  match b with
  | [] => None
  | x :: r => if N.eqb x 43 then match r with [] => None | _ => parse_digits 0 r end else parse_digits 0 b
  end.

(** ** Lemmas *)

Lemma starts_with_app p b : starts_with p (p ++ b) = true.
Proof. induction p as [|x p IH]; [done|]. simpl. by rewrite N.eqb_refl. Qed.

Lemma starts_with_spec p b : starts_with p b = true ↔ ∃ r, b = p ++ r.
Proof.
  split; [|intros [r ->]; apply starts_with_app]. revert b.
  induction p as [|x p IH]; intros [|y b]; simpl; try done; [by exists []|by exists (y :: b)|].
  intros [Hx%N.eqb_eq Hp]%andb_true_iff. destruct (IH _ Hp) as [r ->]. exists r. by rewrite Hx.
Qed.

Lemma find_sub_spec p b i : find_sub p b = Some i → b = take i b ++ p ++ drop (i + length p) b.
Proof.
  revert i. induction b as [|x b IH]; intros i; cbn [find_sub].
  - destruct (starts_with p []) eqn:E; [|done]. intros [= <-]. apply starts_with_spec in E as [r E].
    destruct p; [done|discriminate].
  - destruct (starts_with p (x :: b)) eqn:E.
    + intros [= <-]. apply starts_with_spec in E as [r ->]. simpl. by rewrite drop_app_length.
    + intros (j & Hj & ->)%fmap_Some. simpl. f_equal. by apply IH.
Qed.

Lemma find_sub_bound p b i : find_sub p b = Some i → i + length p ≤ length b.
Proof.
  revert i. induction b as [|x b IH]; intros i; cbn [find_sub].
  - destruct p; [by intros [= <-]|done].
  - destruct (starts_with p (x :: b)) eqn:E.
    + intros [= <-]. apply starts_with_spec in E as [r ->]. rewrite length_app. lia.
    + intros (j & Hj & ->)%fmap_Some. apply IH in Hj. cbn. lia.
Qed.

Lemma find_sub_occurs p x y : ∃ i, find_sub p (x ++ p ++ y) = Some i ∧ i ≤ length x.
Proof.
  induction x as [|a x (i & IH & Hi)]; cbn [app].
  - exists 0. split; [|done]. destruct (p ++ y) eqn:E; cbn [find_sub]; rewrite <-E, starts_with_app; done.
  - cbn [find_sub]. destruct (starts_with p (a :: x ++ p ++ y)); [exists 0; cbn; split; [done|lia]|].
    rewrite IH. exists (S i). cbn. split; [done|lia].
Qed.

(** The first occurrence stays the first when more follows. *)
Lemma find_sub_app p b c i : find_sub p b = Some i → find_sub p (b ++ c) = Some i.
Proof.
  revert i. induction b as [|x b IH]; intros i Hf.
  { cbn in Hf. destruct p; [|done]. destruct c; done. }
  cbn [app find_sub] in *. destruct (starts_with p (x :: b)) eqn:E.
  - injection Hf as <-. apply starts_with_spec in E as [r E].
    replace (x :: b ++ c) with (p ++ r ++ c) by (by rewrite app_assoc, <-E). by rewrite starts_with_app.
  - apply fmap_Some in Hf as (j & Hj & ->). rewrite (IH j Hj). pose proof (find_sub_bound _ _ _ Hj) as Hb.
    destruct (starts_with p (x :: b ++ c)) eqn:E'; [|done]. apply starts_with_spec in E' as [r E'].
    exfalso. rewrite app_comm_cons in E'. apply app_eq_inv in E' as [(k & Hp & ->)|(k & Hp & ->)].
    + by rewrite Hp, starts_with_app in E.
    + rewrite Hp, length_app in Hb. cbn in Hb. lia.
Qed.

(** A prefix shows the first occurrence exactly when it fits. *)
Lemma find_sub_prefix p b c i :
  find_sub p (b ++ c) = Some i → find_sub p b = if bool_decide (i + length p ≤ length b) then Some i else None.
Proof.
  intros Hf. destruct (find_sub p b) as [j|] eqn:Hb.
  - pose proof (find_sub_app p b c j Hb) as Hj. rewrite Hf in Hj. injection Hj as ->.
    by rewrite bool_decide_true by (by apply find_sub_bound).
  - case_bool_decide as Hl; [|done]. pose proof (find_sub_spec _ _ _ Hf) as Hs.
    rewrite (take_app_le b), (drop_app_le b) in Hs by lia. rewrite !app_assoc in Hs. apply app_inv_tail in Hs.
    rewrite <-app_assoc in Hs. destruct (find_sub_occurs p (take i b) (drop (i + length p) b)) as (k & Hk & _).
    by rewrite <-Hs, Hb in Hk.
Qed.

(** Splitting is undone by writing the separator back. *)
Lemma split_once_app p b x y : split_once p b = Some (x, y) → b = x ++ p ++ y.
Proof.
  unfold split_once. intros (i & Hi & [= -> ->])%fmap_Some. by apply find_sub_spec.
Qed.

Lemma parse_digits_bound acc b n : (acc ≤ usize_max)%N → parse_digits acc b = Some n → (n ≤ usize_max)%N.
Proof.
  revert acc. induction b as [|x b IH]; intros acc Ha; cbn [parse_digits]; [by intros [= <-]|].
  destruct (between 48 57 x); [|done]. destruct (N.leb_spec (acc * 10 + (x - 48)) usize_max) as [Hl|]; [|done].
  by apply IH.
Qed.

Lemma parse_usize_bound b n : parse_usize b = Some n → (n ≤ usize_max)%N.
Proof.
  assert (0 ≤ usize_max)%N as H0 by (unfold usize_max, u64_max; lia).
  destruct b as [|x r]; [done|]. cbn [parse_usize]. destruct (N.eqb x 43).
  - destruct r; [done|]. by apply parse_digits_bound.
  - by apply parse_digits_bound.
Qed.

(** ** Text in front of bytes *)

Lemma default_app k (rest c : bytes) (P : N → bool) :
  P 0%N = false → P (default 0%N ((rest : bytes) !! k)) = true → k < length rest ∧ default 0%N ((rest ++ c : bytes) !! k) = default 0%N (rest !! k).
Proof.
  intros H0 Hk. destruct (rest !! k) as [y|] eqn:E; [|cbn in Hk; congruence].
  pose proof (lookup_lt_Some _ _ _ E). split; [done|]. by rewrite (lookup_app_l_Some _ _ _ _ E).
Qed.

(** A character is read from its own bytes. *)
Lemma utf8_step_app x rest c n : utf8_step x rest = (true, n) → utf8_step x (rest ++ c) = (true, n) ∧ n ≤ S (length rest).
Proof.
  unfold utf8_step. 
  assert (second3 x 0 = false) as H3 by (unfold second3, between; destruct (N.eqb x 224), (N.eqb x 237); cbn; rewrite ?andb_false_r; done).
  assert (second4 x 0 = false) as H4 by (unfold second4, between; destruct (N.eqb x 240), (N.eqb x 244); cbn; rewrite ?andb_false_r; done).
  intros Hn. repeat match type of Hn with context [if ?b then _ else _] => destruct b eqn:? end; simplify_eq;
  repeat match goal with
  | H : is_cont (default 0%N (rest !! ?k)) = true |- _ => destruct (default_app k rest c is_cont eq_refl H) as [? ->]; rewrite H; clear H
  | H : second3 x (default 0%N (rest !! ?k)) = true |- _ => destruct (default_app k rest c (second3 x) H3 H) as [? ->]; rewrite H; clear H
  | H : second4 x (default 0%N (rest !! ?k)) = true |- _ => destruct (default_app k rest c (second4 x) H4 H) as [? ->]; rewrite H; clear H
  end; (split; [done|lia]).
Qed.

Lemma lossy_fuel f b : length b ≤ f → lossy f b = lossy (length b) b.
Proof.
  revert b. induction f as [f IH] using lt_wf_ind. intros [|x rest] Hf; [by destruct f|].
  destruct f as [|f]; [cbn in Hf; lia|]. cbn [lossy length]. pose proof (utf8_step_pos x rest) as Hn.
  destruct (utf8_step x rest) as [ok n]. cbn [snd] in Hn. cbn in Hf. f_equal.
  assert (length (drop n (x :: rest)) ≤ length rest) as Hd by (rewrite length_drop; cbn; lia).
  rewrite (IH f) by lia. destruct (decide (length rest = f)) as [->|]; [symmetry; apply IH; lia|].
  symmetry. apply IH; lia.
Qed.

Lemma ascii_valid b : Forall (λ x, x < 128)%N b → utf8_valid (length b) b = true.
Proof.
  induction 1 as [|x b Hx Hb IH]; [done|]. cbn [length utf8_valid]. unfold utf8_step. rewrite (proj2 (N.ltb_lt x 128)) by done.
  cbn [andb drop]. exact IH.
Qed.

(** Text in front of other bytes is read as it is. *)
Lemma lossy_app a b : utf8_valid (length a) a = true → lossy (length (a ++ b)) (a ++ b) = a ++ lossy (length b) b.
Proof.
  intros Hv. remember (length a) as f eqn:Hf. assert (length a ≤ f) as Hl by lia. clear Hf.
  rewrite <-(lossy_fuel (f + length b) (a ++ b)) by (rewrite length_app; lia).
  revert a Hv Hl. induction f as [|f IH]; intros [|x a] Hv Hl; cbn in Hl; try lia.
  - done.
  - cbn [app]. apply lossy_fuel. lia.
  - cbn [app Nat.add lossy]. cbn [utf8_valid] in Hv. destruct (utf8_step x a) as [ok n] eqn:Hs.
    pose proof (utf8_step_pos x a) as Hn. rewrite Hs in Hn. cbn [snd] in Hn. apply andb_true_iff in Hv as [-> Hv].
    destruct (utf8_step_app x a b n Hs) as [-> Hle]. rewrite app_comm_cons, take_app_le, drop_app_le by (cbn; lia).
    rewrite IH by (done || (rewrite length_drop; cbn; lia)). by rewrite app_assoc, take_drop.
Qed.
