(* ===== verification/Telemetry.v ===== *)
(** * Metrics, health and the HTTP responder (src/src/telemetry.rs)

    The counters and gauges, what a scrape of them prints, the health state, and
    the connection handler that answers a [GET]. A connection is the list of what
    its reads give; once they are over, a read runs into its timeout. *)

From S2P Require Import Prelude Utf8 Text.
From stdpp Require Import pretty.

(** ** Metrics *)

Record Metrics := mkMetrics { counters : gmap string N; gauges : gmap string N }.

Definition Metrics_new : Metrics := mkMetrics ∅ ∅.
Definition increment (name : string) (delta : N) (m : Metrics) : Metrics :=
  mkMetrics (<[name := match counters m !! name with Some c => wrap_add c delta | None => delta end]> (counters m)) (gauges m).
Definition set_gauge (name : string) (value : N) (m : Metrics) : Metrics :=
  mkMetrics (counters m) (<[name := value]> (gauges m)).
Definition metric (name : string) (m : Metrics) : option N :=
  match counters m !! name with Some v => Some v | None => gauges m !! name end.

Definition nl : string := String (Ascii.ascii_of_N 10) "".

Section render.
Context `{HashIter}.

Definition metric_names (m : Metrics) : list string := (hash_iter (counters m)).*1 ++ (hash_iter (gauges m)).*1.

Definition metric_lines (m : Metrics) (name : string) : string :=
  match counters m !! name with
  | Some v => "# TYPE " +:+ name +:+ " counter" +:+ nl +:+ name +:+ " " +:+ pretty v +:+ nl
  | None =>
      match gauges m !! name with
      | Some v => "# TYPE " +:+ name +:+ " gauge" +:+ nl +:+ name +:+ " " +:+ pretty v +:+ nl
      | None => ""
      end
  end.

Definition render (m : Metrics) : string :=
  foldr (λ name out, metric_lines m name +:+ out) "" (sort_on string_bytes (metric_names m)).
End render.

(** ** Health *)

Record HealthState := mkHealth { service : string; version : string; stopping : bool }.

Definition HealthState_new (name version : string) : HealthState := mkHealth name version false.
Definition mark_stopping (h : HealthState) : HealthState := mkHealth (service h) (version h) true.
Definition is_stopping (h : HealthState) : bool := stopping h.

Definition quoted (s : string) : string := String (Ascii.ascii_of_N 34) s +:+ String (Ascii.ascii_of_N 34) "".
Definition status_json (h : HealthState) : string :=
  "{" +:+ quoted "status" +:+ ":" +:+ quoted (if is_stopping h then "stopping" else "ok") +:+ "," +:+
  quoted "service" +:+ ":" +:+ quoted (service h) +:+ "," +:+ quoted "version" +:+ ":" +:+ quoted (version h) +:+ "}".

(** ** A connection *)

Inductive read_event :=
| Chunk (b : bytes)
| Eof
| ReadError
| ReadTimeout.

Definition crlf : bytes := [13; 10]%N.
Definition crlf2 : bytes := [13; 10; 13; 10]%N.
Definition MAX_HEAD_BYTES : nat := 8 * 1024.

(** The head and what is left to read, too large a head, or nothing to answer. *)
Inductive head_outcome :=
| HeadRead (buf : bytes) (rest : list read_event)
| HeadTooLarge
| HeadDropped.

(** A closed connection reads as closed again. *)
Fixpoint read_head (buf : bytes) (s : list read_event) : head_outcome :=
  match s with
  | Eof :: _ => if bool_decide (buf = []) then HeadDropped else HeadRead buf s
  | Chunk b :: rest =>
      let buf := buf ++ b in
      if contains_sub crlf2 buf then HeadRead buf rest
      else if bool_decide (MAX_HEAD_BYTES < length buf) then HeadTooLarge
      else read_head buf rest
  | ReadError :: _ | ReadTimeout :: _ | [] => HeadDropped
  end.

Record HttpResponse := mkHttp { status : N; content_type : string; response_body : bytes }.

Definition health_reason (status : N) : string :=
  match status with
  | 200%N => "OK" | 400%N => "Bad Request" | 404%N => "Not Found" | 405%N => "Method Not Allowed"
  | 414%N => "URI Too Long" | 503%N => "Service Unavailable" | _ => "Status"
  end.

Definition crlf_s : string := bytes_string crlf.

(** [write_response] with the reasons of its module. *)
Definition write_response (reason : N → string) (r : HttpResponse) : bytes :=
  string_bytes ("HTTP/1.1 " +:+ pretty (status r) +:+ " " +:+ reason (status r) +:+ crlf_s +:+
    "Content-Type: " +:+ content_type r +:+ crlf_s +:+
    "Content-Length: " +:+ pretty (length (response_body r)) +:+ crlf_s +:+
    "Connection: close" +:+ crlf_s +:+ crlf_s) ++ response_body r.

Definition plain (status : N) (text : string) : HttpResponse := mkHttp status "text/plain" (string_bytes text).

(** Method and path: the first two pieces of the request line. *)
Definition request_target (request_line : bytes) : option (string * string) :=
  match split_byte 32 request_line with
  | method :: path :: _ => Some (bytes_string method, bytes_string path)
  | _ => None
  end.

Definition answer_head `{HashIter} (h : HealthState) (m : Metrics) (buf : bytes) : HttpResponse :=
  let head := lossy (length buf) buf in
  let request_line := match split_once crlf head with Some (l, _) => l | None => head end in
  match request_target request_line with
  | None => plain 400 "malformed request line"
  | Some (method, path) =>
      if negb (String.eqb method "GET") && negb (String.eqb method "HEAD") then plain 405 "method not allowed"
      else if String.eqb path "/health" then
        mkHttp (if is_stopping h then 503 else 200) "application/json" (string_bytes (status_json h))
      else if String.eqb path "/metrics" then mkHttp 200 "text/plain; version=0.0.4" (string_bytes (render m))
      else plain 404 "not found"
  end.

(** [serve_connection]: the response, or a silent close. *)
Definition serve_health `{HashIter} (h : HealthState) (m : Metrics) (s : list read_event) : option HttpResponse :=
  match read_head [] s with
  | HeadRead buf _ => Some (answer_head h m buf)
  | HeadTooLarge => Some (plain 414 "head too large")
  | HeadDropped => None
  end.

(** ** What they promise *)

(** A scrape does not depend on the order the maps iterate in. *)
Lemma string_bytes_inj s s' : string_bytes s = string_bytes s' → s = s'.
Proof. intros Hs. by rewrite <-(bytes_string_bytes s), Hs, bytes_string_bytes. Qed.

Theorem render_stable (i j : HashIter) m : @render i m = @render j m.
Proof.
  unfold render. f_equal. assert (AntiSymm (=) (key_le string_bytes)) as Ha.
  { intros s s' H1 H2. apply string_bytes_inj. by apply (anti_symm bytes_le). }
  apply (Sorted_unique (key_le string_bytes)); [apply sort_on_sorted..|].
  rewrite !sort_on_perm. unfold metric_names. by rewrite !hash_iter_perm.
Qed.

(** However a request is cut into reads, the head is complete when its end has
    arrived: the buffer is a prefix of the request that holds it, and the rest of
    the request is still to be read. *)
Lemma read_head_segmented i chunks buf req tail :
  buf ++ concat chunks = req → find_sub crlf2 req = Some i → contains_sub crlf2 buf = false → i + 3 ≤ MAX_HEAD_BYTES →
  ∃ k chunks', read_head buf ((Chunk <$> chunks) ++ tail) = HeadRead (take k req) ((Chunk <$> chunks') ++ tail) ∧
    i + 4 ≤ k ∧ k ≤ length req ∧ concat chunks' = drop k req.
Proof.
  intros Hreq Hi Hno Hmax. revert buf Hreq Hno. induction chunks as [|b chunks IH]; intros buf Hreq Hno.
  { rewrite app_nil_r in Hreq. subst req. unfold contains_sub in Hno. by rewrite Hi in Hno. }
  cbn [fmap list_fmap app read_head concat] in *. rewrite app_assoc in Hreq.
  destruct (contains_sub crlf2 (buf ++ b)) eqn:Hc.
  - exists (length (buf ++ b)), chunks. rewrite <-Hreq, take_app_length, drop_app_length. split_and!; try done.
    + rewrite <-Hreq in Hi. apply find_sub_prefix in Hi. case_bool_decide; [done|]. unfold contains_sub in Hc. by rewrite Hi in Hc.
    + rewrite (length_app (buf ++ b)). lia.
  - rewrite bool_decide_false; [by apply IH|]. rewrite <-Hreq in Hi. apply find_sub_prefix in Hi.
    change (length crlf2) with 4 in Hi. case_bool_decide; [|lia]. unfold contains_sub in Hc. by rewrite Hi in Hc.
Qed.
