(* ===== verification/Interfaces.v ===== *)
(** * Interfaces of the third-party code the sources call

    One class per crate the sources rely on: [ring]/[sha2] (SHA-256), [rand]'s
    [StdRng], and [rmp_serde] (MessagePack). Each class holds only what the
    crates document; the last section gives one concrete instance of each, with
    which the witnesses of the development are evaluated. *)

From S2P Require Import Prelude.
From Stdlib Require Ascii.

(** ** The serde data model

    What a [#[derive(Serialize)]] hands to a serializer, after
    [rmp_serde::to_vec_named]'s conventions: a struct is a map keyed by field
    names, [Some x] is [x] and [None] is nil, a [Vec<u8>] is a sequence of
    integers, a unit variant is its name and a newtype variant a one-entry map. *)

Inductive serde : Type :=
| SNil
| SBool (b : bool)
| SInt (z : Z)
| SF32 (bits : N)
| SStr (s : string)
| SSeq (l : list serde)
| SMap (l : list (serde * serde)).

Section serde_ind.
Context (P : serde → Prop).
Context (Hnil : P SNil) (Hbool : ∀ b, P (SBool b)) (Hint : ∀ z, P (SInt z)).
Context (Hf32 : ∀ n, P (SF32 n)) (Hstr : ∀ s, P (SStr s)).
Context (Hseq : ∀ l, Forall P l → P (SSeq l)).
Context (Hmap : ∀ l, Forall (λ kv, P kv.1 ∧ P kv.2) l → P (SMap l)).

Fixpoint serde_ind' (v : serde) : P v :=
  match v with
  | SNil => Hnil
  | SBool b => Hbool b
  | SInt z => Hint z
  | SF32 n => Hf32 n
  | SStr s => Hstr s
  | SSeq l => Hseq l ((fix go l : Forall P l :=
      match l with
      | [] => Forall_nil_2 P
      | x :: l' => Forall_cons_2 P x l' (serde_ind' x) (go l')
      end) l)
  | SMap l => Hmap l ((fix go l : Forall (λ kv, P kv.1 ∧ P kv.2) l :=
      match l with
      | [] => Forall_nil_2 _
      | x :: l' => Forall_cons_2 _ x l' (conj (serde_ind' x.1) (serde_ind' x.2)) (go l')
      end) l)
  end.
End serde_ind.

(** Serialization of the field types the structs are made of. *)
Definition ser_N (n : N) : serde := SInt (Z.of_N n).
Definition ser_bytes (b : bytes) : serde := SSeq (ser_N <$> b).
Definition ser_option {A} (f : A → serde) (o : option A) : serde :=
  match o with Some a => f a | None => SNil end.
Definition ser_list {A} (f : A → serde) (l : list A) : serde := SSeq (f <$> l).

(** A struct field, and one under [skip_serializing_if]. *)
Definition fld (name : string) (v : serde) : list (serde * serde) := [(SStr name, v)].
Definition fld_skip (skip : bool) (name : string) (v : serde) : list (serde * serde) :=
  if skip then [] else [(SStr name, v)].
Definition is_nil {A} (l : list A) : bool := match l with [] => true | _ => false end.
Definition is_none {A} (o : option A) : bool := match o with None => true | Some _ => false end.
Definition ser_struct (l : list (list (serde * serde))) : serde := SMap (concat l).

(** A field of a serialized struct. *)
Fixpoint assoc_field (name : string) (l : list (serde * serde)) : option serde :=
  match l with
  | [] => None
  | (SStr n, v) :: l' => if String.eqb name n then Some v else assoc_field name l'
  | _ :: l' => assoc_field name l'
  end.

Definition sget (name : string) (v : serde) : option serde :=
  match v with SMap l => assoc_field name l | _ => None end.

(** ** MessagePack: [rmp_serde::to_vec_named] and [rmp_serde::from_slice]

    An error carries its message. MessagePack values are self-delimiting: the
    decoder finds the value at the front of a buffer, whatever follows it. *)

Class Rmp := {
  rmp_enc : serde → result string bytes;
  rmp_dec : bytes → result string (serde * bytes);
  (** the [Debug] text of the [io::Error] a failure is wrapped in *)
  io_debug : string → string;
  rmp_round v b rest : rmp_enc v = Ok b → rmp_dec (b ++ rest) = Ok (v, rest);
  (** an empty buffer holds no value *)
  rmp_dec_nil : ∃ e, rmp_dec [] = Err e;
}.

(** [Result::unwrap_or_default] on encoded bytes. *)
Definition bytes_or_default (r : result string bytes) : bytes :=
  match r with Ok b => b | Err _ => [] end.

(** ** SHA-256: [ring::digest::digest(&SHA256, ..)] and [sha2] *)

Class Sha256 := {
  sha256 : bytes → bytes;
  sha256_length x : length (sha256 x) = 32;
}.

(** Two inputs that break collision resistance. *)
Definition collision `{Sha256} (x y : bytes) : Prop := x ≠ y ∧ sha256 x = sha256 y.

(** ** [rand::rngs::StdRng]: seeding and uniform ranges *)

Class StdRng := {
  rng : Type;
  from_seed : bytes → rng;
  (** [gen_range(0..n)] at [u64] and at [u32] *)
  gen_u64 : rng → N → N * rng;
  gen_u32 : rng → N → N * rng;
  (** [gen_range(0..=i)] at [usize] *)
  gen_usize : rng → nat → nat * rng;
  gen_u64_lt r n : (0 < n)%N → ((gen_u64 r n).1 < n)%N;
  gen_u32_lt r n : (0 < n)%N → ((gen_u32 r n).1 < n)%N;
  gen_usize_le r i : (gen_usize r i).1 ≤ i;
}.

(** [gen_range] panics on an empty range. *)
Definition gen_range_u64 `{StdRng} (r : rng) (n : N) : may_panic (N * rng) :=
  if decide (n = 0)%N then None else Some (gen_u64 r n).
Definition gen_range_u32 `{StdRng} (r : rng) (n : N) : may_panic (N * rng) :=
  if decide (n = 0)%N then None else Some (gen_u32 r n).

(** ** Facts that follow from the interfaces *)

Lemma rmp_enc_app_inj `{Rmp} v w b c x y :
  rmp_enc v = Ok b → rmp_enc w = Ok c → b ++ x = c ++ y → v = w ∧ x = y.
Proof.
  intros Hv%(rmp_round _ _ x) Hw%(rmp_round _ _ y) He. rewrite He, Hw in Hv. by simplify_eq.
Qed.

Lemma rmp_enc_inj `{Rmp} v w b : rmp_enc v = Ok b → rmp_enc w = Ok b → v = w.
Proof. intros Hv Hw. by destruct (rmp_enc_app_inj v w b b [] [] Hv Hw). Qed.

Lemma sha256_eq `{Sha256} x y : sha256 x = sha256 y → x = y ∨ collision x y.
Proof. intros. destruct (decide (x = y)); [by left | by right]. Qed.

#[global] Instance SInt_inj : Inj (=) (=) SInt.
Proof. by intros x y [=]. Qed.
#[global] Instance SF32_inj : Inj (=) (=) SF32.
Proof. by intros x y [=]. Qed.
#[global] Instance SStr_inj : Inj (=) (=) SStr.
Proof. by intros x y [=]. Qed.

#[global] Instance ser_N_inj : Inj (=) (=) ser_N.
Proof. intros x y [=]. lia. Qed.

#[global] Instance ser_bytes_inj : Inj (=) (=) ser_bytes.
Proof. intros x y [= Hxy]. by apply (list_fmap_eq_inj ser_N ser_N_inj) in Hxy. Qed.

#[export] Hint Resolve gen_u64_lt gen_u32_lt gen_usize_le sha256_length : pneu.

(** ** Concrete instances *)

Module Concrete.

(** A self-delimiting encoding of the data model: a tag, then the contents;
    numbers in binary and lists element by element, each with an end mark. *)
Fixpoint enc_pos (p : positive) : bytes :=
  match p with
  | xH => [2%N]
  | xO p' => 0%N :: enc_pos p'
  | xI p' => 1%N :: enc_pos p'
  end.

Definition enc_Z (z : Z) : bytes :=
  match z with
  | Z0 => [0%N]
  | Zpos p => 1%N :: enc_pos p
  | Zneg p => 2%N :: enc_pos p
  end.

Fixpoint enc_chars (l : bytes) : bytes :=
  match l with [] => [0%N] | c :: l' => 1%N :: c :: enc_chars l' end.

Fixpoint enc_value (v : serde) : bytes :=
  match v with
  | SNil => [0%N]
  | SBool b => [1%N; if b then 1%N else 0%N]
  | SInt z => 2%N :: enc_Z z
  | SF32 n => 3%N :: enc_Z (Z.of_N n)
  | SStr s => 4%N :: enc_chars (string_bytes s)
  | SSeq l => 5%N :: (fix go l := match l with [] => [0%N] | x :: l' => 1%N :: enc_value x ++ go l' end) l
  | SMap l => 6%N :: (fix go l := match l with
      | [] => [0%N]
      | (k, x) :: l' => 1%N :: enc_value k ++ enc_value x ++ go l' end) l
  end.

Fixpoint dec_pos (b : bytes) : option (positive * bytes) :=
  match b with
  | 2%N :: r => Some (xH, r)
  | 0%N :: r => '(p, r') ← dec_pos r; Some (xO p, r')
  | 1%N :: r => '(p, r') ← dec_pos r; Some (xI p, r')
  | _ => None
  end.

Definition dec_Z (b : bytes) : option (Z * bytes) :=
  match b with
  | 0%N :: r => Some (Z0, r)
  | 1%N :: r => '(p, r') ← dec_pos r; Some (Zpos p, r')
  | 2%N :: r => '(p, r') ← dec_pos r; Some (Zneg p, r')
  | _ => None
  end.

Fixpoint dec_chars (b : bytes) : option (string * bytes) :=
  match b with
  | 0%N :: r => Some (EmptyString, r)
  | 1%N :: c :: r => '(s, r') ← dec_chars r; Some (String (Ascii.ascii_of_N c) s, r')
  | _ => None
  end.

Fixpoint dec_value (f : nat) (b : bytes) : option (serde * bytes) :=
  match f with
  | O => None
  | S f' =>
      match b with
      | 0%N :: r => Some (SNil, r)
      | 1%N :: x :: r => Some (SBool (N.eqb x 1), r)
      | 2%N :: r => '(z, r') ← dec_Z r; Some (SInt z, r')
      | 3%N :: r => '(z, r') ← dec_Z r; Some (SF32 (Z.to_N z), r')
      | 4%N :: r => '(s, r') ← dec_chars r; Some (SStr s, r')
      | 5%N :: r => '(l, r') ← dec_seq f' r; Some (SSeq l, r')
      | 6%N :: r => '(l, r') ← dec_map f' r; Some (SMap l, r')
      | _ => None
      end
  end
with dec_seq (f : nat) (b : bytes) : option (list serde * bytes) :=
  match f with
  | O => None
  | S f' =>
      match b with
      | 0%N :: r => Some ([], r)
      | 1%N :: r => '(v, r1) ← dec_value f' r; '(l, r2) ← dec_seq f' r1; Some (v :: l, r2)
      | _ => None
      end
  end
with dec_map (f : nat) (b : bytes) : option (list (serde * serde) * bytes) :=
  match f with
  | O => None
  | S f' =>
      match b with
      | 0%N :: r => Some ([], r)
      | 1%N :: r =>
          '(k, r1) ← dec_value f' r; '(v, r2) ← dec_value f' r1;
          '(l, r3) ← dec_map f' r2; Some ((k, v) :: l, r3)
      | _ => None
      end
  end.

Definition enc (v : serde) : result string bytes := Ok (enc_value v).

(** The length of the buffer is enough fuel: every step consumes a byte. *)
Definition dec (b : bytes) : result string (serde * bytes) :=
  match dec_value (length b) b with
  | Some r => Ok r
  | None => Err "malformed value"
  end.

Lemma dec_enc_pos p r : dec_pos (enc_pos p ++ r) = Some (p, r).
Proof. induction p as [p IH|p IH|]; simpl; [by rewrite IH..|done]. Qed.

Lemma dec_enc_Z z r : dec_Z (enc_Z z ++ r) = Some (z, r).
Proof. destruct z as [|p|p]; simpl; [done|by rewrite dec_enc_pos..]. Qed.

Lemma dec_enc_chars s r : dec_chars (enc_chars (string_bytes s) ++ r) = Some (s, r).
Proof. induction s as [|c s IH]; simpl; [done|]. by rewrite IH, Ascii.ascii_N_embedding. Qed.

Lemma dec_enc_value v f r : length (enc_value v) ≤ f → dec_value f (enc_value v ++ r) = Some (v, r).
Proof.
  revert f r. induction v as [|[]|z|n|s|l IH|l IH] using serde_ind'; intros [|f] r Hf;
    cbn [enc_value length] in Hf; try lia; try done; cbn [enc_value app dec_value].
  - by rewrite dec_enc_Z.
  - rewrite dec_enc_Z. simpl. by rewrite N2Z.id.
  - by rewrite dec_enc_chars.
  - apply le_S_n in Hf. set (go := fix go l := match l with [] => _ | x :: l' => _ end) in *.
    assert (dec_seq f (go l ++ r) = Some (l, r)) as ->; [|done].
    revert f Hf. induction IH as [|x l Hx _ IHl]; intros [|f] Hf; simpl in Hf; try lia; [done|].
    cbn [go app dec_seq]. rewrite length_app in Hf. rewrite <-app_assoc, Hx by lia. simpl. by rewrite IHl by lia.
  - apply le_S_n in Hf. set (go := fix go l := match l with [] => _ | (k, x) :: l' => _ end) in *.
    assert (dec_map f (go l ++ r) = Some (l, r)) as ->; [|done].
    revert f Hf. induction IH as [|[k x] l [Hk Hx] _ IHl]; intros [|f] Hf; simpl in Hf; try lia; [done|].
    cbn [go app dec_map]. simpl in Hk, Hx. rewrite !length_app in Hf.
    rewrite <-!app_assoc, Hk by lia. simpl. rewrite Hx by lia. simpl. by rewrite IHl by lia.
Qed.

Lemma enc_round v b rest : enc v = Ok b → dec (b ++ rest) = Ok (v, rest).
Proof.
  unfold enc, dec. intros E. apply (f_equal (λ r, match r with Ok a => a | _ => [] end)) in E as <-.
  rewrite dec_enc_value; [done|]. rewrite length_app. lia.
Qed.

#[export] Instance rmp_concrete : Rmp := {| io_debug m := m; rmp_round := enc_round; rmp_dec_nil := ex_intro _ _ eq_refl |}.

Definition digest (x : bytes) : bytes :=
  be_bytes 32 (foldl (λ acc b, N.land (acc * 33 + b + 1) 65535)%N 7%N x).

Program Instance sha_concrete : Sha256 := {| sha256 := digest |}.
Next Obligation. intros. apply be_bytes_length. Qed.

(** A counter: the range is a reduction of the state. *)
Program Instance rng_concrete : StdRng := {|
  rng := N;
  from_seed s := sum_N s;
  gen_u64 r n := ((r mod n)%N, (r + 1)%N);
  gen_u32 r n := ((r mod n)%N, (r + 1)%N);
  gen_usize r i := (N.to_nat (r mod (N.of_nat i + 1)), (r + 1)%N);
|}.
Next Obligation. intros r n ?. simpl. apply N.mod_lt. lia. Qed.
Next Obligation. intros r n ?. simpl. apply N.mod_lt. lia. Qed.
Next Obligation. intros r i. simpl. pose proof (N.mod_lt r (N.of_nat i + 1)). lia. Qed.

End Concrete.
