(* ===== verification/Types.v ===== *)
(** * Data types of the node (src/src/node.rs roles, errors.rs, transactions.rs, blocks.rs, tokens.rs, user.rs, data.rs)

    The structs and enums every component shares, with the sources' constructors
    and fields. An [f32] is kept as its bit pattern, an [i64] as [Z], a [usize]
    as [nat]; a field named like another struct's has the struct's initials. *)

From S2P Require Import Prelude.

(** ** The roles of a node *)

Inductive NodeRegistryType := Committer | Sentinel | Executor | Finalizer | Archiver.

#[global] Instance NodeRegistryType_eq_dec : EqDecision NodeRegistryType.
Proof. solve_decision. Defined.

Definition all_types : list NodeRegistryType := [Committer; Sentinel; Executor; Finalizer; Archiver].

#[global, refine] Instance NodeRegistryType_countable : Countable NodeRegistryType := {|
  encode t := match t with Committer => 1 | Sentinel => 2 | Executor => 3 | Finalizer => 4 | Archiver => 5 end%positive;
  decode p := match p with 1 => Some Committer | 2 => Some Sentinel | 3 => Some Executor | 4 => Some Finalizer
                      | 5 => Some Archiver | _ => None end%positive;
|}.
Proof. by intros []. Defined.

Definition is_consensus_role (t : NodeRegistryType) : bool :=
  match t with Archiver => false | _ => true end.

Definition type_name (t : NodeRegistryType) : string :=
  match t with
  | Committer => "Committer" | Sentinel => "Sentinel" | Executor => "Executor"
  | Finalizer => "Finalizer" | Archiver => "Archiver"
  end.

(** ** Errors *)

Inductive ValidationFailureReason :=
| SenderMissing | InsufficientFunds | InvalidNonce | InsufficientGasBalance | InsufficientGas
| InsufficientStake | InvalidSignature | ContractNotFound | InvalidAmount | InvalidTimestamp
| InvalidBidPercentage | GasLimitExceeded | RiskExceedsThreshold | NotTokenOwner
| UnsupportedAction | NotSelfVerified | TokenNotFound | MissingResultHash
| MissingExecutorSignatures | MissingFinalizerSignature | StaleEpochBlock | BlockConflict
| InvalidCommitment | StaleNullifier | StaleMerkleRoot | InvalidShieldedProof
| NotShieldedOptIn | UnknownNullifier | ValueBalanceMismatch | ContractExecutionFailed
| ExecutionTimeout | ContractDeployFailed | ContractScanFailed | ContractUpgradeFailed.

Inductive BlockValidationError :=
| BVTokenNotFound | ImproperBlockFormatting | IncorrectExecutorTransactionHash
| IncorrectExecutorTransactionSignature | FinalizedTransactionDataWasModified
| BVInvalidFinalizerSignature | ChainLinkage | NoValidatorRegistered
| InvalidBlock (reasons : list ValidationFailureReason).

Inductive DataError :=
| FromStore (msg : string) | SerializationError (msg : string) | DeserializationError (msg : string)
| DataNotFound | StoreNotFound | CacheError | Poisoned | InvalidOperation (op : string)
| DEInvalidSignature | DECryptoError (msg : string) | Timeout (msg : string)
| PeerUnauthenticated (msg : string) | SnapshotCorrupt (msg : string).

Inductive PneumaticError :=
| CryptoError (msg : string)
| Encoding (msg : string)
| Data (e : DataError)
| Network (msg : string)
| Resource (msg : string)
| Validation (reasons : list ValidationFailureReason)
| Registry (msg : string)
| EpochError (msg : string)
| BlockError (e : BlockValidationError)
| StaleBlock (block_hash stale_leader current_leader : bytes) (epoch_number : N)
| BlockConflictError (height : N) (block_a block_b : bytes)
| Shielded (msg : string)
| Routing (msg : string)
| Io (msg : string).

Inductive BlockCommitError :=
| TokenWriteLockPoisoned
| FromDataError (e : DataError)
| CommitValidationError (e : BlockValidationError)
| HashError (e : PneumaticError).

(** ** Transactions *)

Record TransactionRiskFactor := mkRisk {
  affected_parties : nat;
  risk_amount : N;
  is_contract : bool;
  is_multi_party : bool;
}.

Record TransactionValidationResult := mkValidation {
  is_valid : bool;
  risk : TransactionRiskFactor;
  failure_reasons : list ValidationFailureReason;
  finalizer_public_key : bytes;
}.

Definition validation_valid (finalizer_key : bytes) (r : TransactionRiskFactor) :=
  mkValidation true r [] finalizer_key.

Definition validation_invalid (reasons : list ValidationFailureReason) :=
  mkValidation false (mkRisk 0 0 false false) reasons [].

Record SelectionRecord := mkSelection {
  sr_finalizer_public_key : bytes;
  sr_epoch_number : N;
  sr_salt : bytes;
  sr_sentinel_public_key : bytes;
  sr_attestation : bytes;
}.

Record Bid := mkBid { bid_expiry : Z; bid_percentage : N }.

Record Transaction := mkTransaction {
  tx_id : string;
  tx_action : string;
  tx_token_id : bytes;
  tx_bid : option Bid;
  tx_sequence_number : nat;
  tx_sender : bytes;
  tx_receiver : bytes;
  tx_amount : option N;
  tx_timestamp : Z;
  tx_result_hash : bytes;
  tx_sender_signature : bytes;
  tx_payload : bytes;
  tx_gas_limit : N;
  tx_result_data : bytes;
  tx_selection : option SelectionRecord;
}.

Record TransactionSignature := mkSignature {
  ts_transaction_id : bytes;
  ts_env_id : bytes;
  ts_transaction_hash : bytes;
  ts_signature : bytes;
  ts_current_stake : N;
}.

Record ShieldedTransaction := mkShielded {
  sh_id : string;
  sh_action : string;
  sh_token_id : bytes;
  sh_spent_commitments : list bytes;
  sh_nullifiers : list bytes;
  sh_commitments : list bytes;
  sh_merkle_root : bytes;
  sh_proof : bytes;
  sh_note_ciphertexts : list bytes;
  sh_fee : N;
}.

Record SignedTransaction := mkSigned {
  st_transaction_id : string;
  st_transaction : Transaction;
  st_total_stake : N;
  st_total_voters : N;
  st_leader_address : bytes;
  st_leader_stake : N;
  st_leader_hash : bytes;
  st_finalizer_addr : bytes;
  st_finalizer_sig : TransactionSignature;
  st_executor_sigs : gmap bytes TransactionSignature;
  st_proposer_key : bytes;
  st_shielded : option ShieldedTransaction;
}.

(** ** Blocks and chains *)

Inductive FinalityStatus := Optimistic | Confirmed.

Record Block := mkBlock {
  signed_trans : SignedTransaction;
  token_metadata : gmap string string;
  previous_hash : bytes;
  current_hash : bytes;
  blk_timestamp : Z;
  finality_status : FinalityStatus;
  blk_proposer_key : bytes;
  blk_epoch_number : N;
}.

(** The [VecDeque] of blocks, oldest first. *)
Record Blockchain := mkChain {
  chain : list Block;
  chain_metadata : gmap string string;
}.

Inductive AppendOutcome := LinkageMismatch | InvalidHash | Appended.

Record ChainState := mkChainState { cs_is_valid : bool; last_hash_in : bytes }.

Record TransactionCommit := mkCommit {
  trans_id : bytes;
  tc_token_id : bytes;
  tc_env_id : string;
  proposed_block : Block;
}.

(** ** Tokens and users *)

Record Token := mkToken {
  tok_id : bytes;
  tok_metadata : gmap string string;
  blockchain : Blockchain;
  asset_data : option bytes;
  asset_hash : bytes;
  security_level : nat;
  is_self_verified : bool;
  is_non_transferable : bool;
  block_validation_spec_name : string;
  tok_environment_id : string;
  tok_sequence_number : nat;
}.

Record TokenCommitResult := mkTokenCommitResult {
  tcr_token_id : bytes;
  new_chain_length : nat;
  tcr_sequence_number : nat;
}.

Record User := mkUser {
  user_public_key : bytes;
  fuel_balance : N;
  user_stake : N;
  nonce : nat;
}.

(** ** Decidable equality *)

#[global] Instance ValidationFailureReason_eq_dec : EqDecision ValidationFailureReason.
Proof. solve_decision. Defined.
#[global] Instance BlockValidationError_eq_dec : EqDecision BlockValidationError.
Proof. solve_decision. Defined.
#[global] Instance DataError_eq_dec : EqDecision DataError.
Proof. solve_decision. Defined.
#[global] Instance PneumaticError_eq_dec : EqDecision PneumaticError.
Proof. solve_decision. Defined.
#[global] Instance BlockCommitError_eq_dec : EqDecision BlockCommitError.
Proof. solve_decision. Defined.
#[global] Instance SelectionRecord_eq_dec : EqDecision SelectionRecord.
Proof. solve_decision. Defined.
#[global] Instance Bid_eq_dec : EqDecision Bid.
Proof. solve_decision. Defined.
#[global] Instance Transaction_eq_dec : EqDecision Transaction.
Proof. solve_decision. Defined.
#[global] Instance TransactionSignature_eq_dec : EqDecision TransactionSignature.
Proof. solve_decision. Defined.
#[global] Instance ShieldedTransaction_eq_dec : EqDecision ShieldedTransaction.
Proof. solve_decision. Defined.
#[global] Instance SignedTransaction_eq_dec : EqDecision SignedTransaction.
Proof. solve_decision. Defined.
#[global] Instance FinalityStatus_eq_dec : EqDecision FinalityStatus.
Proof. solve_decision. Defined.
#[global] Instance Block_eq_dec : EqDecision Block.
Proof. solve_decision. Defined.
