(* ===== verification/StakeSets.v ===== *)
(** * Stake sets and executor sets (src/src/epoch/stake_sets.rs)

    The weighted key-to-stake maps that leader selection, shard assignment and
    the quorum checks read, and their order-independent fingerprints. *)

From S2P Require Import Prelude Interfaces.

Record StakeSet := mkStakeSet { stakers : gmap bytes N }.
Record ExecutorSet := mkExecutorSet { executors : gmap bytes N }.

#[global] Instance StakeSet_eq_dec : EqDecision StakeSet.
Proof. solve_decision. Defined.

Section stake_sets.
Context `{HashIter}.

Definition StakeSet_total_stake (s : StakeSet) : N :=
  sat_sum (hash_values (stakers s)).

Definition StakeSet_get_stake (s : StakeSet) (key : bytes) : N :=
  default 0%N (stakers s !! key).

Definition to_executor_set (s : StakeSet) : ExecutorSet := mkExecutorSet (stakers s).

Definition ExecutorSet_total_stake (e : ExecutorSet) : N :=
  sat_sum (hash_values (executors e)).

Definition ExecutorSet_len (e : ExecutorSet) : nat := size (executors e).

Definition ExecutorSet_is_empty (e : ExecutorSet) : bool :=
  bool_decide (executors e = ∅).

Definition ExecutorSet_get_stake (e : ExecutorSet) (key : bytes) : N :=
  default 0%N (executors e !! key).

Definition to_stake_set (e : ExecutorSet) : StakeSet := mkStakeSet (executors e).

(** A [BTreeMap<Vec<u8>, u64>] is serialized as a map in key order. *)
Definition ser_stakes (m : gmap bytes N) : serde :=
  SMap ((λ kv, (ser_bytes kv.1, ser_N kv.2)) <$> btree_entries m).

Definition StakeSet_canonical_bytes `{Rmp} (s : StakeSet) : result string bytes :=
  rmp_enc (ser_stakes (stakers s)).

Definition ExecutorSet_canonical_bytes `{Rmp} (e : ExecutorSet) : result string bytes :=
  rmp_enc (ser_stakes (executors e)).

(** [sha256(..).try_into().unwrap_or([0u8; 32])]. *)
Definition to_array32 (b : bytes) : bytes :=
  if decide (length b = 32) then b else replicate 32 0%N.

Definition StakeSet_fingerprint `{Rmp} `{Sha256} (s : StakeSet) : bytes :=
  to_array32 (sha256 (bytes_or_default (StakeSet_canonical_bytes s))).

Definition ExecutorSet_fingerprint `{Rmp} `{Sha256} (e : ExecutorSet) : bytes :=
  to_array32 (sha256 (bytes_or_default (ExecutorSet_canonical_bytes e))).
End stake_sets.

(** ** Lemmas *)

Lemma hash_values_swap {V} (h1 h2 : HashIter) (m : gmap bytes V) :
  @hash_values h1 V m ≡ₚ @hash_values h2 V m.
Proof. apply fmap_Permutation, hash_iter_swap. Qed.

(** The total does not depend on the node's iteration order. *)
Lemma total_stake_swap (h1 h2 : HashIter) s :
  @StakeSet_total_stake h1 s = @StakeSet_total_stake h2 s.
Proof. apply sat_sum_Permutation, hash_values_swap. Qed.

Lemma total_stake_spec `{HashIter} s :
  StakeSet_total_stake s = N.min u64_max (sum_N (map_to_list (stakers s)).*2).
Proof.
  unfold StakeSet_total_stake, hash_values. by rewrite sat_sum_spec, hash_iter_perm.
Qed.

Lemma to_array32_sha256 `{Sha256} x : to_array32 (sha256 x) = sha256 x.
Proof. unfold to_array32. rewrite sha256_length. by case_decide. Qed.

Lemma ser_stakes_swap (h1 h2 : HashIter) m : @ser_stakes h1 m = @ser_stakes h2 m.
Proof. unfold ser_stakes. by rewrite (btree_entries_swap h1 h2). Qed.

Lemma ser_stakes_inj `{HashIter} m1 m2 : ser_stakes m1 = ser_stakes m2 → m1 = m2.
Proof.
  intros [= He]. apply btree_entries_inj. revert He. apply list_fmap_eq_inj.
  intros [k v] [k' v']. simpl. rewrite pair_eq. intros [?%(inj _) ?%(inj _)]. congruence.
Qed.

(** ** Fingerprints *)

(** Two nodes whose hash maps iterate in different orders agree. *)
Lemma fingerprint_swap `{Rmp} `{Sha256} (h1 h2 : HashIter) s :
  @StakeSet_canonical_bytes h1 _ s = @StakeSet_canonical_bytes h2 _ s ∧
  @StakeSet_fingerprint h1 _ _ s = @StakeSet_fingerprint h2 _ _ s.
Proof.
  unfold StakeSet_fingerprint, StakeSet_canonical_bytes. by rewrite (ser_stakes_swap h1 h2).
Qed.

(** Equal fingerprints mean equal sets, or a collision of their encodings. *)
Lemma fingerprint_binds `{HashIter} `{Rmp} `{Sha256} s1 s2 b1 b2 :
  StakeSet_canonical_bytes s1 = Ok b1 →
  StakeSet_canonical_bytes s2 = Ok b2 →
  StakeSet_fingerprint s1 = StakeSet_fingerprint s2 →
  s1 = s2 ∨ collision b1 b2.
Proof.
  unfold StakeSet_fingerprint. rewrite !to_array32_sha256. intros E1 E2.
  rewrite E1, E2. simpl. intros [->|Hc]%sha256_eq; [left | by right].
  destruct s1, s2. f_equal. apply ser_stakes_inj. by eapply rmp_enc_inj.
Qed.
