(* ===== verification/Selection.v ===== *)
(** * Leader, finalizer and shard selection (src/src/epoch/leader.rs)

    Domain-separated seeds, the Fisher-Yates [Shuffler], the stake-weighted
    [deterministic_select] and the stake-balanced shard partition behind
    [deterministic_select_shard]. Panics are modelled ([may_panic]); the
    theorems show that none is reachable. *)

From S2P Require Import Prelude Interfaces StakeSets.

Definition LEADER_DOMAIN : N := 1.
Definition SHARD_SHUFFLE_DOMAIN : N := 2.
Definition FINALIZER_DOMAIN : N := 3.
Definition SHARD_INDEX_DOMAIN : N := 4.

Definition derive_selection_seed `{Sha256} (domain epoch_number : N)
    (prev_block_hash extra : bytes) : bytes :=
  sha256 ([domain] ++ u64_be epoch_number ++ prev_block_hash ++ extra).

(** ** The shuffler *)

(** [Vec::swap]: both indices must be in range. *)
Definition vec_swap {A} (l : list A) (i j : nat) : may_panic (list A) :=
  x ← l !! i; y ← l !! j; Some (<[j := x]> (<[i := y]> l)).

(** [for i in (1..=i).rev()]. *)
Fixpoint fisher_yates `{StdRng} (r : rng) (i : nat) (indices : list nat) :
    may_panic (list nat) :=
  match i with
  | O => Some indices
  | S i' =>
      let '(j, r') := gen_usize r (S i') in
      indices' ← vec_swap indices (S i') j;
      fisher_yates r' i' indices'
  end.

Record Shuffler := mkShuffler {
  items : list bytes;
  last_permutation : list bytes;
}.

Definition Shuffler_new `{Sha256} `{StdRng} (its : list bytes) (epoch_number : N)
    (prev_block_hash : bytes) : may_panic Shuffler :=
  let seed := derive_selection_seed SHARD_SHUFFLE_DOMAIN epoch_number prev_block_hash [] in
  let r := from_seed seed in
  let n := length its in
  if decide (n = 0) then Some (mkShuffler its [])
  else
    indices ← fisher_yates r (n - 1) (seq 0 n);
    perm ← mapM (λ i, its !! i) indices;
    Some (mkShuffler its perm).

Definition shuffle (s : Shuffler) : list bytes := last_permutation s.

(** ** Stake-weighted selection *)

(** The keys with a positive stake, sorted. *)
Definition positive_keys `{HashIter} (m : gmap bytes N) : list bytes :=
  sort_bytes (filter (λ kv, 0 < kv.2)%N (hash_iter m)).*1.

Fixpoint select_walk (m : gmap bytes N) (target cumulative : N) (first_key : option bytes)
    (keys : list bytes) : may_panic (option bytes) :=
  match keys with
  | [] => Some first_key
  | key :: keys' =>
      stake ← m !! key;
      let cumulative := default u64_max (checked_add cumulative stake) in
      if (target <=? cumulative)%N then Some (Some key)
      else select_walk m target cumulative first_key keys'
  end.

Definition deterministic_select `{HashIter} `{Sha256} `{StdRng} (st : StakeSet)
    (domain : N) (seed_bytes : bytes) (epoch_number : N) (prev_block_hash : bytes) :
    may_panic (option bytes) :=
  let total := StakeSet_total_stake st in
  if decide (total = 0)%N then Some None
  else
    let seed := derive_selection_seed domain epoch_number prev_block_hash seed_bytes in
    '(target, _) ← gen_range_u64 (from_seed seed) total;
    let keys := positive_keys (stakers st) in
    select_walk (stakers st) target 0 (head keys) keys.

Definition LeaderSelector_select `{HashIter} `{Sha256} `{StdRng} (st : StakeSet)
    (epoch_number : N) (prev_block_hash : bytes) : may_panic bytes :=
  default [] <$> deterministic_select st LEADER_DOMAIN [] epoch_number prev_block_hash.

(** ** Shards *)

(** [(0..n).min_by_key(|&i| l[i]).unwrap_or(0)]: the first index of a least value. *)
Fixpoint argmin_from (i best : nat) (bv : N) (l : list N) : nat :=
  match l with
  | [] => best
  | x :: l' =>
      if (x <? bv)%N then argmin_from (S i) i x l' else argmin_from (S i) best bv l'
  end.

Definition min_by_key (l : list N) : nat :=
  match l with [] => 0 | x :: l' => argmin_from 1 0 x l' end.

Fixpoint assign_shards (stake_of : bytes → N) (keys : list bytes)
    (shard_stakes : list N) (shard_executors : list (list bytes)) :
    may_panic (list N * list (list bytes)) :=
  match keys with
  | [] => Some (shard_stakes, shard_executors)
  | key :: keys' =>
      let target_shard := min_by_key shard_stakes in
      s ← shard_stakes !! target_shard;
      e ← shard_executors !! target_shard;
      assign_shards stake_of keys'
        (<[target_shard := default u64_max (checked_add s (stake_of key))]> shard_stakes)
        (<[target_shard := e ++ [key]]> shard_executors)
  end.

Definition shuffler `{HashIter} `{Sha256} `{StdRng} (e : ExecutorSet) (epoch_number : N)
    (prev_block_hash : bytes) : may_panic Shuffler :=
  Shuffler_new (sort_bytes (hash_keys (executors e))) epoch_number prev_block_hash.

(** The partition into [shard_count] shards of the positive keys of a shuffle. *)
Definition shard_partition (e : ExecutorSet) (shard_count : N) (positive : list bytes) :
    may_panic (list N * list (list bytes)) :=
  let n := N.to_nat shard_count in
  assign_shards (ExecutorSet_get_stake e) positive (replicate n 0%N) (replicate n []).

Definition deterministic_select_shard `{HashIter} `{Sha256} `{StdRng} (e : ExecutorSet)
    (shard_count : N) (tx_id : string) (epoch_number : N) (prev_block_hash : bytes) :
    may_panic (option (list bytes)) :=
  if ExecutorSet_is_empty e then Some None
  else if decide (shard_count = 0)%N then Some None
  else if decide (shard_count = 1)%N then Some (Some (positive_keys (executors e)))
  else
    let seed := derive_selection_seed SHARD_INDEX_DOMAIN epoch_number prev_block_hash
                  (string_bytes tx_id) in
    '(shard_index, _) ← gen_range_u32 (from_seed seed) shard_count;
    sh ← shuffler e epoch_number prev_block_hash;
    let shuffled := shuffle sh in
    if decide (shuffled = []) then Some None
    else
      let positive := filter (λ key, 0 < ExecutorSet_get_stake e key)%N shuffled in
      if decide (positive = []) then Some None
      else
        '(_, shard_executors) ← shard_partition e shard_count positive;
        shard ← shard_executors !! N.to_nat shard_index;
        if decide (shard = []) then Some None else Some (Some shard).

(** ** Specification vocabulary *)

Definition stake_in (m : gmap bytes N) (k : bytes) : N := default 0%N (m !! k).

Definition stakes_of (m : gmap bytes N) (ks : list bytes) : N := sum_N (stake_in m <$> ks).

(** The key [k] of the sorted keys owns the point [t]: the stakes before it do
    not reach [t], and with its own stake they do. The first key also owns 0. *)
Definition owns_point (m : gmap bytes N) (ks : list bytes) (t : N) (k : bytes) : Prop :=
  ∃ pre post, ks = pre ++ k :: post ∧
    (pre = [] ∨ stakes_of m pre < t)%N ∧ (t ≤ stakes_of m pre + stake_in m k)%N.

(** The point a selection draws. *)
Definition drawn_target `{HashIter} `{Sha256} `{StdRng} (st : StakeSet) (domain : N)
    (seed_bytes : bytes) (epoch_number : N) (prev : bytes) : N :=
  (gen_u64 (from_seed (derive_selection_seed domain epoch_number prev seed_bytes))
     (StakeSet_total_stake st)).1.

(** ** Lemmas: the shuffle permutes *)

Lemma vec_swap_perm {A} (l : list A) i j :
  i < length l → j < length l → ∃ l', vec_swap l i j = Some l' ∧ l' ≡ₚ l.
Proof.
  intros [x Hx]%lookup_lt_is_Some [y Hy]%lookup_lt_is_Some.
  unfold vec_swap. rewrite Hx, Hy. simpl. eexists. split; [done|].
  by apply Permutation_insert_swap.
Qed.

Lemma fisher_yates_perm `{StdRng} i r l :
  i < length l ∨ i = 0 → ∃ l', fisher_yates r i l = Some l' ∧ l' ≡ₚ l.
Proof.
  revert r l. induction i as [|i IH]; intros r l Hi; simpl; [eauto|].
  destruct (gen_usize r (S i)) as [j r'] eqn:Hj.
  pose proof (gen_usize_le r (S i)) as Hle. rewrite Hj in Hle. simpl in Hle.
  destruct (vec_swap_perm l (S i) j) as (l1 & -> & Hp); [lia..|]. simpl.
  destruct (IH r' l1) as (l2 & -> & Hp2); [left; rewrite Hp; lia|].
  exists l2. split; [done|]. by rewrite Hp2.
Qed.

Lemma mapM_lookup_perm {A} `{!Inhabited A} (l : list A) idx :
  idx ≡ₚ seq 0 (length l) → ∃ k, mapM (λ i, l !! i) idx = Some k ∧ k ≡ₚ l.
Proof.
  intros Hp. exists ((λ i, l !!! i) <$> idx). split.
  - assert (Forall (λ i, i < length l) idx) as Hall by (rewrite Hp; apply Forall_seq; lia).
    clear Hp. induction Hall as [|i idx Hi _ IH]; simpl; [done|].
    rewrite (list_lookup_lookup_total_lt l i Hi). simpl. by rewrite IH.
  - rewrite Hp. clear. apply reflexive_eq, list_eq. intros i. rewrite list_lookup_fmap.
    destruct (decide (i < length l)).
    + rewrite lookup_seq_lt by done. simpl. by rewrite list_lookup_lookup_total_lt.
    + rewrite lookup_seq_ge by lia. by rewrite lookup_ge_None_2 by lia.
Qed.

Lemma Shuffler_new_perm `{Sha256} `{StdRng} its e p :
  ∃ s, Shuffler_new its e p = Some s ∧ items s = its ∧ shuffle s ≡ₚ its.
Proof.
  unfold Shuffler_new. case_decide as Hn.
  { apply nil_length_inv in Hn as ->. eauto. }
  edestruct (fisher_yates_perm (length its - 1)) as (idx & -> & Hidx).
  { rewrite length_seq. lia. }
  simpl. destruct (mapM_lookup_perm its idx) as (k & -> & Hk); [done|]. simpl. eauto.
Qed.

(** ** Lemmas: the positive keys *)

Lemma positive_keys_swap (h1 h2 : HashIter) m :
  @positive_keys h1 m = @positive_keys h2 m.
Proof. apply sort_bytes_Permutation. by rewrite (hash_iter_swap h1 h2). Qed.

Lemma elem_of_positive_keys `{HashIter} m k :
  k ∈ positive_keys m ↔ ∃ v, m !! k = Some v ∧ (0 < v)%N.
Proof.
  unfold positive_keys. rewrite sort_bytes_perm, list_elem_of_fmap.
  split.
  - intros ([? v] & -> & [? ?%elem_of_hash_iter]%list_elem_of_filter). eauto.
  - intros (v & ? & ?). exists (k, v). split; [done|].
    by rewrite list_elem_of_filter, elem_of_hash_iter.
Qed.

Lemma positive_keys_NoDup `{HashIter} m : NoDup (positive_keys m).
Proof.
  unfold positive_keys. rewrite sort_bytes_perm.
  eapply sublist_NoDup; [apply (hash_iter_NoDup m) | apply fmap_sublist, sublist_filter].
Qed.

Lemma sum_positive_keys `{HashIter} m :
  stakes_of m (positive_keys m) = sum_N (map_to_list m).*2.
Proof.
  unfold stakes_of, positive_keys. rewrite sort_bytes_perm, <-(hash_iter_perm m).
  assert (Forall (λ kv, m !! kv.1 = Some kv.2) (hash_iter m)) as Hall.
  { apply Forall_forall. intros [k v]. apply elem_of_hash_iter. }
  induction Hall as [|[k v] l Hkv _ IH]; [done|]. simpl in Hkv.
  rewrite filter_cons. case_decide as Hpos; simpl in Hpos; csimpl; rewrite IH; [|lia].
  unfold stake_in at 1. by rewrite Hkv.
Qed.

(** ** Lemmas: the cumulative walk *)

Lemma checked_add_sat a b : default u64_max (checked_add a b) = sat_add a b.
Proof. unfold checked_add. case_decide; simpl; u64. Qed.

Lemma stakes_of_app m l k : stakes_of m (l ++ k) = (stakes_of m l + stakes_of m k)%N.
Proof. unfold stakes_of. by rewrite fmap_app, sum_N_app. Qed.

Lemma stakes_of_cons m k ks : stakes_of m (k :: ks) = (stake_in m k + stakes_of m ks)%N.
Proof. done. Qed.

Lemma select_walk_spec m t f ks acc :
  (t ≤ u64_max)%N → Forall (λ k, is_Some (m !! k)) ks →
  (acc = [] ∨ stakes_of m acc < t)%N →
  (t ≤ stakes_of m (acc ++ ks))%N → ks ≠ [] →
  ∃ k, select_walk m t (N.min u64_max (stakes_of m acc)) f ks = Some (Some k) ∧
    owns_point m (acc ++ ks) t k.
Proof.
  intros Ht Hall. revert acc. induction Hall as [|k ks [v Hv] _ IH]; intros acc Hd Hs Hne; [done|].
  cbn [select_walk]. rewrite Hv. simpl. rewrite checked_add_sat, sat_add_min.
  assert (stake_in m k = v) as Hk by (unfold stake_in; by rewrite Hv).
  destruct (N.leb_spec t (N.min u64_max (stakes_of m acc + v))) as [Hle|Hgt].
  - exists k. split; [done|]. exists acc, ks. rewrite Hk. split_and!; [done..|lia].
  - assert (stakes_of m (acc ++ [k]) = stakes_of m acc + v)%N as Hdk.
    { rewrite stakes_of_app, stakes_of_cons, Hk. unfold stakes_of at 2. simpl. lia. }
    rewrite <-Hdk. rewrite (cons_middle k acc ks), app_assoc in Hs |- *.
    apply IH; [right; lia | done |].
    intros ->. rewrite app_nil_r in Hs. lia.
Qed.

Lemma owns_point_prefix m t p r k1 k2 q1 q2 :
  k1 :: q1 = r ++ k2 :: q2 → (p ++ r = [] ∨ stakes_of m (p ++ r) < t)%N →
  (t ≤ stakes_of m p + stake_in m k1)%N → k1 = k2.
Proof.
  destruct r as [|x r]; simpl; intros ? Hr Ht; simplify_eq; [done|].
  destruct Hr as [Hr|Hr]; [by destruct p|].
  rewrite stakes_of_app, stakes_of_cons in Hr. lia.
Qed.

Lemma owns_point_unique m ks t k1 k2 :
  owns_point m ks t k1 → owns_point m ks t k2 → k1 = k2.
Proof.
  intros (p1 & q1 & -> & H1 & H1') (p2 & q2 & He & H2 & H2').
  apply app_eq_inv in He as [(r & -> & He)|(r & -> & He)].
  - symmetry. by eapply owns_point_prefix.
  - by eapply owns_point_prefix.
Qed.

Lemma positive_keys_lookup `{HashIter} m : Forall (λ k, is_Some (m !! k)) (positive_keys m).
Proof. apply Forall_forall. intros k (v & ? & _)%elem_of_positive_keys. eauto. Qed.

Lemma total_stake_positive `{HashIter} st :
  StakeSet_total_stake st = N.min u64_max (stakes_of (stakers st) (positive_keys (stakers st))).
Proof. by rewrite sum_positive_keys, total_stake_spec. Qed.

(** The selection is the owner of the drawn point. *)
Lemma deterministic_select_owner `{HashIter} `{Sha256} `{StdRng} st d x e p :
  StakeSet_total_stake st ≠ 0%N →
  ∃ k, deterministic_select st d x e p = Some (Some k) ∧
    owns_point (stakers st) (positive_keys (stakers st)) (drawn_target st d x e p) k.
Proof.
  intros Ht. unfold deterministic_select, gen_range_u64. rewrite !decide_False by done. simpl.
  fold (drawn_target st d x e p).
  assert (drawn_target st d x e p < StakeSet_total_stake st)%N as Hlt
    by (apply gen_u64_lt; lia).
  destruct (gen_u64 _ _) as [t r] eqn:Hg. unfold drawn_target in *. rewrite Hg in *. simpl in *.
  rewrite total_stake_positive in *. set (ks := positive_keys (stakers st)) in *.
  destruct (select_walk_spec (stakers st) t (head ks) ks []) as (k & Hw & Ho); eauto.
  - lia.
  - apply positive_keys_lookup.
  - simpl. lia.
  - intros E. rewrite E in *. done.
Qed.

(** ** Lemmas: the shard partition *)

Lemma argmin_from_spec pre l best bv :
  pre !! best = Some bv → Forall (λ w, bv ≤ w)%N pre →
  ∃ v, (pre ++ l) !! argmin_from (length pre) best bv l = Some v ∧
    Forall (λ w, v ≤ w)%N (pre ++ l).
Proof.
  revert pre best bv. induction l as [|x l IH]; intros pre best bv Hb Hall; simpl.
  { rewrite app_nil_r. eauto. }
  rewrite (cons_middle x pre l), app_assoc.
  replace (S (length pre)) with (length (pre ++ [x])) by (rewrite length_app; simpl; lia).
  destruct (N.ltb_spec x bv); apply IH.
  - by rewrite lookup_app_r, Nat.sub_diag by lia.
  - apply Forall_app. split; [eapply Forall_impl; [done|]; simpl; lia | by repeat constructor].
  - rewrite lookup_app_l; [done | by eapply lookup_lt_Some].
  - apply Forall_app. split; [done | by repeat constructor].
Qed.

Lemma min_by_key_spec l :
  l ≠ [] → ∃ v, l !! min_by_key l = Some v ∧ Forall (λ w, v ≤ w)%N l.
Proof.
  destruct l as [|x l]; [done|]. intros _.
  apply (argmin_from_spec [x] l 0 x); [done | by repeat constructor].
Qed.

(** What the partition maintains after the keys [ks] are assigned: every shard
    counts its members' stakes, and no two shards differ by more than [M]. *)
Record partition_ok (stake_of : bytes → N) (M : N) (n : nat) (ks : list bytes)
    (ss : list N) (es : list (list bytes)) : Prop := {
  part_len : length es = n;
  part_perm : concat es ≡ₚ ks;
  part_stakes : ss = (λ e, sat_sum (stake_of <$> e)) <$> es;
  part_balance : ∀ i j a b, ss !! i = Some a → ss !! j = Some b → (a ≤ b + M)%N;
}.

Lemma concat_insert_snoc {A} (es : list (list A)) t e k :
  es !! t = Some e → concat (<[t := e ++ [k]]> es) ≡ₚ k :: concat es.
Proof.
  revert t. induction es as [|x es IH]; intros [|t]; simpl; intros; simplify_eq.
  - rewrite <-app_assoc. simpl. by rewrite <-Permutation_middle.
  - rewrite IH by done. by rewrite <-Permutation_middle.
Qed.

Lemma sat_sum_snoc f (e : list bytes) k :
  sat_sum (f <$> e ++ [k]) = sat_add (sat_sum (f <$> e)) (f k).
Proof. unfold sat_sum. by rewrite fmap_app, foldl_app. Qed.

Lemma assign_step_ok f M n ks ss es k :
  0 < n → (f k ≤ M)%N → partition_ok f M n ks ss es →
  ∃ s e, ss !! min_by_key ss = Some s ∧ es !! min_by_key ss = Some e ∧
    partition_ok f M n (k :: ks)
      (<[min_by_key ss := default u64_max (checked_add s (f k))]> ss)
      (<[min_by_key ss := e ++ [k]]> es).
Proof.
  intros Hn HM [Hl Hp Hs Hb].
  destruct (min_by_key_spec ss) as (s & Hmin & Hall); [by subst; destruct es; simpl in *; [lia|]|].
  set (t := min_by_key ss) in *.
  assert (∃ e, es !! t = Some e ∧ s = sat_sum (f <$> e)) as (e & He & Hse).
  { rewrite Hs, list_lookup_fmap in Hmin. destruct (es !! t); naive_solver. }
  exists s, e. split_and!; [done..|]. rewrite checked_add_sat. split.
  - by rewrite length_insert.
  - rewrite concat_insert_snoc by done. by rewrite Hp.
  - rewrite list_fmap_insert, sat_sum_snoc, <-Hse. by subst.
  - rewrite Forall_lookup in Hall. intros i j a b Ha Hbj.
    apply list_lookup_insert_Some in Ha as [(-> & <- & _)|[_ Ha]];
      apply list_lookup_insert_Some in Hbj as [(-> & <- & _)|[_ Hbj]].
    + u64.
    + specialize (Hall _ _ Hbj). u64.
    + specialize (Hb _ _ _ _ Ha Hmin). assert (a ≤ u64_max)%N; [|u64].
      rewrite Hs, list_lookup_fmap in Ha. destruct (es !! i); simplify_eq/=.
      rewrite sat_sum_spec. lia.
    + eauto.
Qed.

Lemma assign_shards_ok f M n ks ks0 ss es :
  0 < n → Forall (λ k, f k ≤ M)%N ks → partition_ok f M n ks0 ss es →
  ∃ ss' es', assign_shards f ks ss es = Some (ss', es') ∧
    partition_ok f M n (ks ++ ks0) ss' es'.
Proof.
  intros Hn Hall. revert ks0 ss es.
  induction Hall as [|k ks HM _ IH]; intros ks0 ss es Hok; simpl; [eauto|].
  destruct (assign_step_ok f M n ks0 ss es k Hn HM Hok) as (s & e & -> & -> & Hok'). simpl.
  destruct (IH _ _ _ Hok') as (ss' & es' & -> & [? Hp ? ?]).
  exists ss', es'. split; [done|]. split; try done. by rewrite Hp, Permutation_middle.
Qed.

Lemma partition_ok_init f M n : partition_ok f M n [] (replicate n 0%N) (replicate n []).
Proof.
  split.
  - apply length_replicate.
  - induction n; simpl; done.
  - by rewrite fmap_replicate.
  - intros i j a b [-> _]%lookup_replicate [-> _]%lookup_replicate. lia.
Qed.

Lemma shard_partition_ok e n M ks :
  (0 < n)%N → Forall (λ k, ExecutorSet_get_stake e k ≤ M)%N ks →
  ∃ ss es, shard_partition e n ks = Some (ss, es) ∧
    partition_ok (ExecutorSet_get_stake e) M (N.to_nat n) ks ss es.
Proof.
  intros Hn HM. unfold shard_partition.
  destruct (assign_shards_ok (ExecutorSet_get_stake e) M (N.to_nat n) ks [] (replicate (N.to_nat n) 0%N)
    (replicate (N.to_nat n) [])) as (ss & es & -> & Hok); [lia|done|apply partition_ok_init|].
  rewrite app_nil_r in Hok. eauto.
Qed.

(** ** Properties of the stake-weighted selection *)

(** C35: selection never panics; it answers nothing exactly when the total stake
    is zero, and otherwise it returns the unique owner of the drawn point among
    the sorted positive-stake keys, which has a positive stake. The fallback to
    the first key is never taken. *)
Theorem deterministic_select_spec `{HashIter} `{Sha256} `{StdRng} st d x e p :
  if decide (StakeSet_total_stake st = 0)%N
  then deterministic_select st d x e p = Some None
  else ∃ k, deterministic_select st d x e p = Some (Some k) ∧
    (0 < StakeSet_get_stake st k)%N ∧
    ∀ k', owns_point (stakers st) (positive_keys (stakers st))
            (drawn_target st d x e p) k' ↔ k' = k.
Proof.
  case_decide as Ht.
  { unfold deterministic_select. by rewrite decide_True. }
  destruct (deterministic_select_owner st d x e p Ht) as (k & Hk & Ho).
  exists k. split_and!; [done| |].
  - destruct Ho as (pre & post & He & _).
    destruct (proj1 (elem_of_positive_keys (stakers st) k)) as (v & Hv & Hpos).
    { rewrite He. set_solver. }
    unfold StakeSet_get_stake. by rewrite Hv.
  - intros k'. split; [|by intros ->]. intros. by eapply owns_point_unique.
Qed.

(** The choice does not depend on the hash map's iteration order, so nodes
    that hold the same stake set elect the same key. *)
Theorem deterministic_select_node_independent `{Sha256} `{StdRng} (h1 h2 : HashIter) st d x e p :
  @deterministic_select h1 _ _ st d x e p = @deterministic_select h2 _ _ st d x e p.
Proof.
  unfold deterministic_select.
  by rewrite (total_stake_swap h1 h2), (positive_keys_swap h1 h2).
Qed.

(** The walk compares with [>=], so the last key in sort order loses a
    point: with a stake of one and any other staker present it is never
    selected, whatever the seed. *)
Theorem last_unit_staker_never_selected `{HashIter} `{Sha256} `{StdRng} st d x e p pre k :
  positive_keys (stakers st) = pre ++ [k] → pre ≠ [] → StakeSet_get_stake st k = 1%N →
  deterministic_select st d x e p ≠ Some (Some k).
Proof.
  intros Hks Hpre Hk Hsel.
  assert (StakeSet_total_stake st ≠ 0)%N as Ht.
  { rewrite total_stake_positive, Hks, stakes_of_app, stakes_of_cons.
    change (stake_in _ k) with (StakeSet_get_stake st k). rewrite Hk. u64. }
  destruct (deterministic_select_owner st d x e p Ht) as (k' & Hk' & Ho).
  assert (k' = k) as -> by congruence.
  assert (drawn_target st d x e p < StakeSet_total_stake st)%N as Hlt by (apply gen_u64_lt; lia).
  destruct Ho as (pre' & post & He & Hlo & _).
  assert (pre' = pre) as ->.
  { pose proof (positive_keys_NoDup (stakers st)) as Hnd.
    rewrite Hks in He, Hnd. apply NoDup_app in Hnd as (_ & Hnot & _).
    apply app_eq_inv in He as [(r & -> & He)|(r & -> & He)].
    - destruct r as [|y r]; simplify_eq/=; [by rewrite app_nil_r|].
      destruct (Hnot y); [apply elem_of_app; right; left | left].
    - destruct r as [|y [|]]; simplify_eq/=; by rewrite ?app_nil_r. }
  rewrite total_stake_positive, Hks, stakes_of_app, stakes_of_cons in Hlt.
  change (stake_in _ k) with (StakeSet_get_stake st k) in Hlt. rewrite Hk in Hlt.
  change (stakes_of _ []) with 0%N in Hlt. destruct Hlo as [?|?]; [done|lia].
Qed.

Definition two_stakers : StakeSet := mkStakeSet {[ [1%N] := 5%N; [2%N] := 1%N ]}.

Lemma last_unit_staker_witness :
  @deterministic_select forward_iter Concrete.sha_concrete Concrete.rng_concrete
    two_stakers LEADER_DOMAIN [] 7 [] ≠ Some (Some [2%N]).
Proof.
  apply (@last_unit_staker_never_selected forward_iter _ _ two_stakers _ _ _ _ [[1%N]] [2%N]);
    [by vm_compute | done | by vm_compute].
Defined.

(** ** Properties of the shard selection *)

Lemma shuffler_ok `{HashIter} `{Sha256} `{StdRng} e ep p :
  ∃ s, shuffler e ep p = Some s ∧
    filter (λ key, 0 < ExecutorSet_get_stake e key)%N (shuffle s) ≡ₚ positive_keys (executors e).
Proof.
  unfold shuffler. edestruct Shuffler_new_perm as (s & -> & _ & Hs).
  exists s. split; [done|]. rewrite sort_bytes_perm in Hs.
  apply NoDup_Permutation.
  - apply NoDup_filter. rewrite Hs. apply hash_iter_NoDup.
  - apply positive_keys_NoDup.
  - intros k. rewrite list_elem_of_filter, Hs, elem_of_positive_keys.
    unfold hash_keys. rewrite list_elem_of_fmap. unfold ExecutorSet_get_stake. split.
    + intros (Hpos & [? v] & -> & Hv%elem_of_hash_iter). simpl in *. rewrite Hv in Hpos. eauto.
    + intros (v & Hv & Hpos). rewrite Hv. split; [done|]. exists (k, v).
      by rewrite elem_of_hash_iter.
Qed.

Lemma select_shard_unfold `{HashIter} `{Sha256} `{StdRng} e n tx ep p s ss es :
  executors e ≠ ∅ → (2 ≤ n)%N → shuffler e ep p = Some s →
  shard_partition e n (filter (λ key, 0 < ExecutorSet_get_stake e key)%N (shuffle s)) = Some (ss, es) →
  length es = N.to_nat n → concat es ≡ₚ filter (λ key, 0 < ExecutorSet_get_stake e key)%N (shuffle s) →
  ∃ i shard, es !! i = Some shard ∧
    deterministic_select_shard e n tx ep p = Some (if decide (shard = []) then None else Some shard).
Proof.
  intros He Hn Hs Hpart Hlen Hperm. unfold deterministic_select_shard, gen_range_u32.
  unfold ExecutorSet_is_empty. rewrite bool_decide_false by done.
  rewrite !decide_False by lia. simpl.
  set (r := from_seed _). pose proof (gen_u32_lt r n ltac:(lia)) as Hi.
  destruct (gen_u32 r n) as [i r']. simpl in *. rewrite Hs. simpl.
  destruct (lookup_lt_is_Some_2 es (N.to_nat i)) as [shard Hshard]; [lia|].
  exists (N.to_nat i), shard. split; [done|].
  assert (filter (λ key, 0 < ExecutorSet_get_stake e key)%N (shuffle s) = [] → shard = []) as Hempty.
  { intros E. rewrite E in Hperm. apply Permutation_nil_r in Hperm.
    destruct shard as [|y shard]; [done|].
    assert (y ∈ concat es) as Hy; [|rewrite Hperm in Hy; set_solver].
    apply list_elem_of_In, in_concat. exists (y :: shard).
    split; [eapply list_elem_of_In, list_elem_of_lookup_2; done | by left]. }
  case_decide as Hnil. { rewrite Hnil in Hempty. rewrite Hempty by done. by rewrite decide_True. }
  case_decide as Hpos. { rewrite Hempty by done. by rewrite decide_True. }
  rewrite Hpart. simpl. rewrite Hshard. simpl. by case_decide.
Qed.

(** With two shards or more, the positive-stake executors are split into
    [shard_count] shards: each executor is in exactly one shard, the shards are
    the same for every transaction, their stakes differ by at most one
    executor's stake, and each transaction is given one of these shards (or
    nothing when its shard is empty). Nothing panics. *)
Theorem select_shard_partition `{HashIter} `{Sha256} `{StdRng} e n ep p :
  executors e ≠ ∅ → (2 ≤ n)%N →
  ∃ shards, length shards = N.to_nat n ∧
    concat shards ≡ₚ positive_keys (executors e) ∧
    (∀ M, (∀ k, ExecutorSet_get_stake e k ≤ M)%N → ∀ a b, a ∈ shards → b ∈ shards →
      sat_sum (ExecutorSet_get_stake e <$> a) ≤ sat_sum (ExecutorSet_get_stake e <$> b) + M)%N ∧
    (∀ tx, ∃ i shard, shards !! i = Some shard ∧
      deterministic_select_shard e n tx ep p =
        Some (if decide (shard = []) then None else Some shard)).
Proof.
  intros He Hn. destruct (shuffler_ok e ep p) as (s & Hs & Hpos).
  set (ks := filter _ _) in Hpos.
  destruct (shard_partition_ok e n (sum_N (ExecutorSet_get_stake e <$> ks)) ks)
    as (ss & es & Hpart & [Hlen Hperm _ _]); [lia| |].
  { apply Forall_forall. intros k Hk. apply sum_N_elem_of, list_elem_of_fmap. eauto. }
  exists es. split_and!; [done | by rewrite Hperm | |].
  - intros M HM a b (i & Ha)%list_elem_of_lookup (j & Hb)%list_elem_of_lookup.
    destruct (shard_partition_ok e n M ks) as (ss' & es' & Hpart' & [_ _ Hss Hbal]); [lia| |].
    { by apply Forall_forall. }
    rewrite Hpart in Hpart'. simplify_eq.
    eapply (Hbal i j); rewrite list_lookup_fmap; [by rewrite Ha | by rewrite Hb].
  - intros tx. by eapply select_shard_unfold.
Qed.

Definition three_executors : ExecutorSet :=
  mkExecutorSet {[ [1%N] := 5%N; [2%N] := 3%N; [3%N] := 0%N ]}.

Lemma select_shard_witness :
  ∃ shards, length shards = 2 ∧
    concat shards ≡ₚ @positive_keys backward_iter (executors three_executors).
Proof.
  destruct (@select_shard_partition backward_iter Concrete.sha_concrete Concrete.rng_concrete
    three_executors 2 9 [4%N]) as (shards & Hl & Hp & _);
    [by vm_compute | done |]. by exists shards.
Defined.

(** Every node computes the same responsible shard. *)
Theorem select_shard_node_independent `{Sha256} `{StdRng} (h1 h2 : HashIter) e n tx ep p :
  @deterministic_select_shard h1 _ _ e n tx ep p = @deterministic_select_shard h2 _ _ e n tx ep p.
Proof.
  unfold deterministic_select_shard, shuffler.
  rewrite (positive_keys_swap h1 h2).
  assert (sort_bytes (@hash_keys h1 _ (executors e)) = sort_bytes (@hash_keys h2 _ (executors e))) as ->;
    [|done].
  apply sort_bytes_Permutation, fmap_Permutation, hash_iter_swap.
Qed.

(** Seeds are separated: two selections drawn with the same seed have the
    same domain, epoch and salted tip, or exhibit a SHA-256 collision. *)
Theorem selection_seeds_separated `{Sha256} d1 d2 e1 e2 p1 p2 x1 x2 :
  (e1 ≤ u64_max)%N → (e2 ≤ u64_max)%N →
  derive_selection_seed d1 e1 p1 x1 = derive_selection_seed d2 e2 p2 x2 →
  (d1 = d2 ∧ e1 = e2 ∧ p1 ++ x1 = p2 ++ x2) ∨
  collision ([d1] ++ u64_be e1 ++ p1 ++ x1) ([d2] ++ u64_be e2 ++ p2 ++ x2).
Proof.
  intros He1 He2 [He|Hc]%sha256_eq; [left | by right].
  apply app_inj_1 in He as [Hd He]; [|done].
  apply app_inj_1 in He as [He ?]; [|by unfold u64_be; rewrite !be_bytes_length].
  rewrite (u64_be_inj e1 e2) by done. by simplify_eq.
Qed.

Lemma selection_seeds_witness :
  (LEADER_DOMAIN = LEADER_DOMAIN ∧ 3%N = 3%N ∧ [1%N; 2%N] ++ [] = [1%N] ++ [2%N]) ∨
  @collision Concrete.sha_concrete
    ([LEADER_DOMAIN] ++ u64_be 3 ++ [1%N; 2%N] ++ []) ([LEADER_DOMAIN] ++ u64_be 3 ++ [1%N] ++ [2%N]).
Proof. apply (@selection_seeds_separated Concrete.sha_concrete); by vm_compute. Defined.
