(* ===== verification/Serialize.v ===== *)
(** * Wire forms (the [#[derive(Serialize)]]s of src/src/transactions.rs)

    How the structs become values of the serde data model, skipped fields
    included, and that no two structs share a form. *)

From S2P Require Import Prelude Interfaces Types.

Definition ser_Bid (b : Bid) : serde :=
  ser_struct [fld "bid_expiry" (SInt (bid_expiry b)); fld "bid_percentage" (SF32 (bid_percentage b))].

Definition ser_SelectionRecord (r : SelectionRecord) : serde :=
  ser_struct [
    fld "finalizer_public_key" (ser_bytes (sr_finalizer_public_key r));
    fld "epoch_number" (ser_N (sr_epoch_number r));
    fld "salt" (ser_bytes (sr_salt r));
    fld "sentinel_public_key" (ser_bytes (sr_sentinel_public_key r));
    fld "attestation" (ser_bytes (sr_attestation r))].

Definition ser_nat (n : nat) : serde := SInt (Z.of_nat n).

Definition is_zero_u64 (v : N) : bool := N.eqb v 0.

Definition ser_Transaction (t : Transaction) : serde :=
  ser_struct [
    fld "id" (SStr (tx_id t));
    fld "action" (SStr (tx_action t));
    fld "token_id" (ser_bytes (tx_token_id t));
    fld "bid" (ser_option ser_Bid (tx_bid t));
    fld "sequence_number" (ser_nat (tx_sequence_number t));
    fld "sender" (ser_bytes (tx_sender t));
    fld "receiver" (ser_bytes (tx_receiver t));
    fld "amount" (ser_option ser_N (tx_amount t));
    fld "timestamp" (SInt (tx_timestamp t));
    fld "result_hash" (ser_bytes (tx_result_hash t));
    fld "sender_signature" (ser_bytes (tx_sender_signature t));
    fld_skip (is_nil (tx_payload t)) "payload" (ser_bytes (tx_payload t));
    fld_skip (is_zero_u64 (tx_gas_limit t)) "gas_limit" (ser_N (tx_gas_limit t));
    fld_skip (is_nil (tx_result_data t)) "result_data" (ser_bytes (tx_result_data t));
    fld_skip (is_none (tx_selection t)) "selection" (ser_option ser_SelectionRecord (tx_selection t))].

Definition ser_TransactionSignature (s : TransactionSignature) : serde :=
  ser_struct [
    fld "transaction_id" (ser_bytes (ts_transaction_id s));
    fld "env_id" (ser_bytes (ts_env_id s));
    fld "transaction_hash" (ser_bytes (ts_transaction_hash s));
    fld "signature" (ser_bytes (ts_signature s));
    fld "current_stake" (ser_N (ts_current_stake s))].

Definition ser_ShieldedTransaction (s : ShieldedTransaction) : serde :=
  ser_struct [
    fld "id" (SStr (sh_id s));
    fld "action" (SStr (sh_action s));
    fld "token_id" (ser_bytes (sh_token_id s));
    fld "spent_commitments" (ser_list ser_bytes (sh_spent_commitments s));
    fld "nullifiers" (ser_list ser_bytes (sh_nullifiers s));
    fld "commitments" (ser_list ser_bytes (sh_commitments s));
    fld "merkle_root" (ser_bytes (sh_merkle_root s));
    fld "proof" (ser_bytes (sh_proof s));
    fld "note_ciphertexts" (ser_list ser_bytes (sh_note_ciphertexts s));
    fld "fee" (ser_N (sh_fee s))].

(** [BTreeMap<&Vec<u8>, &TransactionSignature>], in key order. *)
Definition ser_executor_sigs `{HashIter} (m : gmap bytes TransactionSignature) : serde :=
  SMap ((λ kv, (ser_bytes kv.1, ser_TransactionSignature kv.2)) <$> btree_entries m).

(** ** Injectivity *)

#[global] Instance ser_nat_inj : Inj (=) (=) ser_nat.
Proof. intros x y [=]. lia. Qed.

#[global] Instance ser_list_inj {A} (f : A → serde) `{!Inj (=) (=) f} : Inj (=) (=) (ser_list f).
Proof. intros x y [= Hxy]. by apply (list_fmap_eq_inj f) in Hxy. Qed.

Lemma ser_option_inj {A} (f : A → serde) :
  Inj (=) (=) f → (∀ a, f a ≠ SNil) → Inj (=) (=) (ser_option f).
Proof.
  intros Hf Hn [x|] [y|]; simpl; intros He; try done.
  - by apply Hf in He as ->.
  - by apply Hn in He.
  - by symmetry in He; apply Hn in He.
Qed.

Arguments ser_bytes : simpl never.
Arguments ser_N : simpl never.
Arguments ser_nat : simpl never.
Arguments ser_list : simpl never.
Arguments ser_option : simpl never.

(** Adds the equality of the field [name] of two equal structs, read by [inj]. *)
Ltac sfield H name :=
  let G := fresh "E" in
  pose proof (f_equal (sget name) H) as G; simpl in G;
  apply (inj Some) in G; apply (inj _) in G.

#[global] Instance ser_Bid_inj : Inj (=) (=) ser_Bid.
Proof.
  intros [] [] H. sfield H "bid_expiry". sfield H "bid_percentage". congruence.
Qed.

#[global] Instance ser_SelectionRecord_inj : Inj (=) (=) ser_SelectionRecord.
Proof.
  intros [] [] H. sfield H "finalizer_public_key". sfield H "epoch_number". sfield H "salt".
  sfield H "sentinel_public_key". sfield H "attestation". congruence.
Qed.

#[global] Instance ser_TransactionSignature_inj : Inj (=) (=) ser_TransactionSignature.
Proof.
  intros [] [] H. sfield H "transaction_id". sfield H "env_id". sfield H "transaction_hash".
  sfield H "signature". sfield H "current_stake". congruence.
Qed.

#[global] Instance ser_ShieldedTransaction_inj : Inj (=) (=) ser_ShieldedTransaction.
Proof.
  intros [] [] H. sfield H "id". sfield H "action". sfield H "token_id".
  sfield H "spent_commitments". sfield H "nullifiers". sfield H "commitments".
  sfield H "merkle_root". sfield H "proof". sfield H "note_ciphertexts". sfield H "fee".
  congruence.
Qed.

#[global] Instance ser_option_Bid_inj : Inj (=) (=) (ser_option ser_Bid).
Proof. by apply ser_option_inj; [apply _|]. Qed.

#[global] Instance ser_option_N_inj : Inj (=) (=) (ser_option ser_N).
Proof. by apply ser_option_inj; [apply _|]. Qed.

#[global] Instance ser_option_SelectionRecord_inj : Inj (=) (=) (ser_option ser_SelectionRecord).
Proof. by apply ser_option_inj; [apply _|]. Qed.

#[global] Instance ser_option_Shielded_inj : Inj (=) (=) (ser_option ser_ShieldedTransaction).
Proof. by apply ser_option_inj; [apply _|]. Qed.

Lemma skip_eq {A} (f : A → serde) `{!Inj (=) (=) f} (skip : A → bool) x y :
  (∀ x y, skip x = true → skip y = true → x = y) →
  (if skip x then None else Some (f x)) = (if skip y then None else Some (f y)) → x = y.
Proof.
  intros Hs. destruct (skip x) eqn:Hx, (skip y) eqn:Hy; intros He; simplify_eq; auto.
Qed.

Lemma is_nil_eq {A} (x y : list A) : is_nil x = true → is_nil y = true → x = y.
Proof. by destruct x, y. Qed.

Lemma is_zero_eq x y : is_zero_u64 x = true → is_zero_u64 y = true → x = y.
Proof. unfold is_zero_u64. rewrite !N.eqb_eq. congruence. Qed.

Lemma is_none_eq {A} (x y : option A) : is_none x = true → is_none y = true → x = y.
Proof. by destruct x, y. Qed.

(** The skipped fields of a transaction, present exactly when not at their default. *)
Lemma sget_skipped t :
  sget "payload" (ser_Transaction t) =
    (if is_nil (tx_payload t) then None else Some (ser_bytes (tx_payload t))) ∧
  sget "gas_limit" (ser_Transaction t) =
    (if is_zero_u64 (tx_gas_limit t) then None else Some (ser_N (tx_gas_limit t))) ∧
  sget "result_data" (ser_Transaction t) =
    (if is_nil (tx_result_data t) then None else Some (ser_bytes (tx_result_data t))) ∧
  sget "selection" (ser_Transaction t) =
    (if is_none (tx_selection t) then None
     else Some (ser_option ser_SelectionRecord (tx_selection t))).
Proof.
  simpl. destruct (is_nil (tx_payload t)), (is_zero_u64 (tx_gas_limit t)),
    (is_nil (tx_result_data t)), (is_none (tx_selection t)); done.
Qed.

#[global] Instance ser_Transaction_inj : Inj (=) (=) ser_Transaction.
Proof.
  intros t u H.
  destruct (sget_skipped t) as (P1 & P2 & P3 & P4), (sget_skipped u) as (Q1 & Q2 & Q3 & Q4).
  rewrite H in P1, P2, P3, P4. rewrite P1 in Q1. rewrite P2 in Q2. rewrite P3 in Q3. rewrite P4 in Q4.
  clear P1 P2 P3 P4.
  apply (skip_eq _ is_nil) in Q1; [|apply is_nil_eq].
  apply (skip_eq _ is_zero_u64) in Q2; [|apply is_zero_eq].
  apply (skip_eq _ is_nil) in Q3; [|apply is_nil_eq].
  apply (skip_eq _ is_none) in Q4; [|apply is_none_eq].
  destruct t, u. sfield H "id". sfield H "action". sfield H "token_id". sfield H "bid".
  sfield H "sequence_number". sfield H "sender". sfield H "receiver". sfield H "amount".
  sfield H "timestamp". sfield H "result_hash". sfield H "sender_signature".
  simpl in *. by subst.
Qed.

Lemma ser_executor_sigs_inj `{HashIter} : Inj (=) (=) ser_executor_sigs.
Proof.
  intros m1 m2. unfold ser_executor_sigs. intros [= He]. apply btree_entries_inj.
  revert He. apply list_fmap_eq_inj. intros [k v] [k' v']. simpl.
  rewrite pair_eq. intros [?%(inj _) ?%(inj _)]. congruence.
Qed.

Lemma ser_executor_sigs_swap (h1 h2 : HashIter) m :
  @ser_executor_sigs h1 m = @ser_executor_sigs h2 m.
Proof. unfold ser_executor_sigs. by rewrite (btree_entries_swap h1 h2). Qed.
