(* ===== verification/Crypto.v ===== *)
(** * The hybrid crypto provider (src/src/crypto.rs)

    [Ed25519Provider] on top of the primitives of ed25519-dalek, PQClean's
    ML-DSA-44 and ML-KEM-768, x25519-dalek, HKDF and AES-GCM: signing, the
    two-half verification, and the KEM framing. Fresh randomness is an explicit
    argument; lock poisoning is not modelled (no panic happens under a lock). *)

From S2P Require Import Prelude Interfaces Types.

(** What a role is handed: [dyn AsymCryptoProvider], its signing half at one
    choice of randomness. *)
Record AsymCryptoProvider := mkProvider {
  check_signature : bytes → bytes → bytes → result PneumaticError bool;
  sign_data : bytes → result PneumaticError bytes;
  public_key : result PneumaticError bytes;
}.

Definition ED25519_SIG_LEN : nat := 64.
Definition MLDSA_PK_LEN : nat := 1312.
Definition MLDSA_SIG_LEN : nat := 2420.
Definition MLDSA_FULL_SIG_LEN : nat := ED25519_SIG_LEN + MLDSA_PK_LEN + MLDSA_SIG_LEN.
Definition X25519_PK_LEN : nat := 32.
Definition MLKEM_CT_LEN : nat := 1088.
Definition MLKEM_PK_LEN : nat := 1184.
Definition NONCE_LEN : nat := 12.
Definition GCM_TAG_LEN : nat := 16.
Definition HYBRID_KEM_HEADER_LEN : nat := X25519_PK_LEN + MLKEM_CT_LEN + MLKEM_PK_LEN + NONCE_LEN.
Definition HYBRID_KEM_EMPTY_LEN : nat := HYBRID_KEM_HEADER_LEN + GCM_TAG_LEN.

(** ** The primitives *)

Class SignaturePrims := {
  ed_public : bytes → bytes;
  ed_sign : bytes → bytes → bytes;
  ed_sig_parses : bytes → bool;
  ed_pk_parses : bytes → bool;
  ed_verify : bytes → bytes → bytes → bool;
  mldsa_public : bytes → bytes;
  mldsa_sign : N → bytes → bytes → bytes;
  mldsa_pk_parses : bytes → bool;
  mldsa_sig_parses : bytes → bool;
  mldsa_verify : bytes → bytes → bytes → bool;
  ed_public_length sk : length (ed_public sk) = 32;
  ed_sign_length sk d : length (ed_sign sk d) = ED25519_SIG_LEN;
  ed_sign_verifies sk d :
    ed_sig_parses (ed_sign sk d) = true ∧ ed_pk_parses (ed_public sk) = true ∧
    ed_verify (ed_public sk) d (ed_sign sk d) = true;
  mldsa_public_length sk : length (mldsa_public sk) = MLDSA_PK_LEN;
  mldsa_sign_length r sk d : length (mldsa_sign r sk d) = MLDSA_SIG_LEN;
  mldsa_sign_verifies r sk d :
    mldsa_pk_parses (mldsa_public sk) = true ∧ mldsa_sig_parses (mldsa_sign r sk d) = true ∧
    mldsa_verify (mldsa_public sk) d (mldsa_sign r sk d) = true;
}.

Class KemPrims := {
  x25519_public : bytes → bytes;
  x25519_dh : bytes → bytes → bytes;
  mlkem_public : bytes → bytes;
  mlkem_encapsulate : N → bytes → bytes * bytes;
  mlkem_decapsulate : bytes → bytes → bytes;
  mlkem_ct_parses : bytes → bool;
  mlkem_pk_parses : bytes → bool;
  hkdf_aes_key : bytes → bytes;
  aes_encrypt : bytes → bytes → bytes → option bytes;
  aes_decrypt : bytes → bytes → bytes → option bytes;
  aead_error : string;
  x25519_public_length sk : length (x25519_public sk) = X25519_PK_LEN;
  x25519_dh_commutes a b : x25519_dh a (x25519_public b) = x25519_dh b (x25519_public a);
  mlkem_public_length sk : length (mlkem_public sk) = MLKEM_PK_LEN;
  mlkem_pk_ok sk : mlkem_pk_parses (mlkem_public sk) = true;
  mlkem_ct_length r pk : length (mlkem_encapsulate r pk).2 = MLKEM_CT_LEN;
  mlkem_ct_ok r pk : mlkem_ct_parses (mlkem_encapsulate r pk).2 = true;
  mlkem_round r sk :
    mlkem_decapsulate (mlkem_encapsulate r (mlkem_public sk)).2 sk =
      (mlkem_encapsulate r (mlkem_public sk)).1;
  aes_round key nonce d c : aes_encrypt key nonce d = Some c → aes_decrypt key nonce c = Some d;
  aes_length key nonce d c : aes_encrypt key nonce d = Some c → length c = length d + GCM_TAG_LEN;
}.

Record Ed25519Provider := mkEd25519Provider {
  signing_seed : bytes;
  x25519_static_key : bytes;
  mldsa_keypair : bytes * bytes;
  mlkem_keypair : bytes * bytes;
}.

(** The stored public halves belong to the stored secrets. *)
Definition provider_wf `{SignaturePrims} `{KemPrims} (p : Ed25519Provider) : Prop :=
  fst (mldsa_keypair p) = mldsa_public (snd (mldsa_keypair p)) ∧
  fst (mlkem_keypair p) = mlkem_public (snd (mlkem_keypair p)).

(** ** Signatures *)

Section signatures.
Context `{SignaturePrims}.

Definition split_hybrid_signature (signature : bytes) : option (bytes * bytes * bytes) :=
  if decide (length signature = MLDSA_FULL_SIG_LEN) then
    Some (take ED25519_SIG_LEN signature,
          take MLDSA_PK_LEN (drop ED25519_SIG_LEN signature),
          drop (ED25519_SIG_LEN + MLDSA_PK_LEN) signature)
  else None.

Definition check_ed25519_half (signature ed25519_public_key data : bytes) : bool :=
  if negb (ed_sig_parses signature) then false
  else if decide (length ed25519_public_key = 32) then
    if negb (ed_pk_parses ed25519_public_key) then false
    else ed_verify ed25519_public_key data signature
  else false.

Definition check_ml_dsa_half (signature mldsa_pk data : bytes) : bool :=
  if negb (mldsa_sig_parses signature) then false
  else if negb (mldsa_pk_parses mldsa_pk) then false
  else mldsa_verify mldsa_pk data signature.

Definition Ed25519_check_signature (signature pk data : bytes) : result PneumaticError bool :=
  match split_hybrid_signature signature with
  | None => Ok false
  | Some (ed25519_sig, mldsa_pk, mldsa_sig) =>
      if negb (ed_sig_parses ed25519_sig) then Ok false
      else if decide (length pk = 32) then
        if negb (ed_pk_parses pk) then Ok false
        else if negb (ed_verify pk data ed25519_sig) then Ok false
        else if negb (mldsa_pk_parses mldsa_pk) then Ok false
        else if negb (mldsa_sig_parses mldsa_sig) then Ok false
        else Ok (mldsa_verify mldsa_pk data mldsa_sig)
      else Ok false
  end.

Definition Ed25519_sign_data (r : N) (p : Ed25519Provider) (data : bytes) : result PneumaticError bytes :=
  Ok (ed_sign (signing_seed p) data ++ fst (mldsa_keypair p) ++
      mldsa_sign r (snd (mldsa_keypair p)) data).

Definition Ed25519_public_key (p : Ed25519Provider) : result PneumaticError bytes :=
  Ok (ed_public (signing_seed p)).

Definition provider_of (r : N) (p : Ed25519Provider) : AsymCryptoProvider :=
  mkProvider Ed25519_check_signature (Ed25519_sign_data r p) (Ed25519_public_key p).
End signatures.

(** ** Key encapsulation *)

Section kem.
Context `{KemPrims}.

Definition finish_encrypt (nonce x25519_eph_pk x25519_ss mlkem_recipient_pk mlkem_ct mlkem_ss data : bytes) :
    result PneumaticError bytes :=
  let aes_key := hkdf_aes_key (x25519_ss ++ mlkem_ss) in
  match aes_encrypt aes_key nonce data with
  | None => Err (CryptoError ("AES-GCM encryption failed: " +:+ aead_error))
  | Some ciphertext =>
      Ok (x25519_eph_pk ++ mlkem_ct ++ mlkem_recipient_pk ++ nonce ++ ciphertext)
  end.

(** [eph], [r] and [nonce] are the fresh X25519 secret, the encapsulation's
    randomness and the AES nonce. *)
Definition hybrid_encrypt (eph : bytes) (r : N) (nonce static_x25519 mlkem_recipient_pk data : bytes) :
    result PneumaticError bytes :=
  let x25519_ss := x25519_dh eph (x25519_public static_x25519) in
  let '(mlkem_ss, mlkem_ct) := mlkem_encapsulate r mlkem_recipient_pk in
  finish_encrypt nonce (x25519_public eph) x25519_ss mlkem_recipient_pk mlkem_ct mlkem_ss data.

Definition encrypt (eph : bytes) (r : N) (nonce : bytes) (p : Ed25519Provider) (data : bytes) :
    result PneumaticError bytes :=
  hybrid_encrypt eph r nonce (x25519_static_key p) (fst (mlkem_keypair p)) data.

Definition encrypt_to (eph : bytes) (r : N) (nonce recipient_public_key recipient_mlkem_pk data : bytes) :
    result PneumaticError bytes :=
  if negb (mlkem_pk_parses recipient_mlkem_pk)
  then Err (CryptoError "invalid recipient ML-KEM public key")
  else
    let x25519_ss := x25519_dh eph recipient_public_key in
    let '(mlkem_ss, mlkem_ct) := mlkem_encapsulate r recipient_mlkem_pk in
    finish_encrypt nonce (x25519_public eph) x25519_ss recipient_mlkem_pk mlkem_ct mlkem_ss data.

Definition hybrid_decrypt (static_x25519 mlkem_self_sk mlkem_self_pk data : bytes) :
    result PneumaticError bytes :=
  if decide (length data < HYBRID_KEM_EMPTY_LEN)
  then Err (CryptoError "Decrypt input too short for hybrid KEM header")
  else
    let x25519_eph_pk := take X25519_PK_LEN data in
    let mlkem_ct := take MLKEM_CT_LEN (drop X25519_PK_LEN data) in
    let mlkem_recipient_pk := take MLKEM_PK_LEN (drop (X25519_PK_LEN + MLKEM_CT_LEN) data) in
    let payload := drop (X25519_PK_LEN + MLKEM_CT_LEN + MLKEM_PK_LEN) data in
    if negb (mlkem_ct_parses mlkem_ct) then Err (CryptoError "invalid ML-KEM encapsulation")
    else if negb (mlkem_pk_parses mlkem_recipient_pk) then Err (CryptoError "invalid ML-KEM recipient key")
    else if decide (mlkem_recipient_pk = mlkem_self_pk) then
      let x25519_ss := x25519_dh static_x25519 x25519_eph_pk in
      let mlkem_ss := mlkem_decapsulate mlkem_ct mlkem_self_sk in
      let aes_key := hkdf_aes_key (x25519_ss ++ mlkem_ss) in
      match aes_decrypt aes_key (take NONCE_LEN payload) (drop NONCE_LEN payload) with
      | Some d => Ok d
      | None => Err (CryptoError ("AES-GCM decryption failed (wrong key or tampered): " +:+ aead_error))
      end
    else Err (CryptoError "ML-KEM recipient key does not match this node").

Definition decrypt_from (p : Ed25519Provider) (data : bytes) : result PneumaticError bytes :=
  hybrid_decrypt (x25519_static_key p) (snd (mlkem_keypair p)) (fst (mlkem_keypair p)) data.
End kem.

(** ** Lemmas *)

Lemma take_app_len {A} n (l k : list A) : length l = n → take n (l ++ k) = l.
Proof. intros <-. apply take_app_length. Qed.

Lemma drop_app_len {A} n (l k : list A) : length l = n → drop n (l ++ k) = k.
Proof. intros <-. apply drop_app_length. Qed.

Lemma split_hybrid_app `{SignaturePrims} a b c :
  length a = ED25519_SIG_LEN → length b = MLDSA_PK_LEN → length c = MLDSA_SIG_LEN →
  split_hybrid_signature (a ++ b ++ c) = Some (a, b, c).
Proof.
  intros Ha Hb Hc. unfold split_hybrid_signature.
  rewrite decide_True by (rewrite !length_app, Ha, Hb, Hc; done).
  rewrite take_app_len, drop_app_len, take_app_len by done.
  rewrite app_assoc, drop_app_len; [done|]. by rewrite length_app, Ha, Hb.
Qed.

(** Acceptance is the conjunction of the two halves. *)
Lemma check_signature_halves `{SignaturePrims} sig pk data a b c :
  split_hybrid_signature sig = Some (a, b, c) →
  Ed25519_check_signature sig pk data =
    Ok (check_ed25519_half a pk data && check_ml_dsa_half c b data).
Proof.
  intros Hs. unfold Ed25519_check_signature, check_ed25519_half, check_ml_dsa_half. rewrite Hs.
  destruct (ed_sig_parses a), (mldsa_pk_parses b), (mldsa_sig_parses c); simpl; try done;
    case_decide; try done; destruct (ed_pk_parses pk), (ed_verify pk data a); done.
Qed.

(** What a provider signs, every provider accepts under its public key,
    whatever randomness the ML-DSA half draws. *)
Lemma sign_then_check `{SignaturePrims} `{KemPrims} p r data sig pk :
  provider_wf p → Ed25519_sign_data r p data = Ok sig → Ed25519_public_key p = Ok pk →
  Ed25519_check_signature sig pk data = Ok true.
Proof.
  intros [Hp _]. unfold Ed25519_sign_data, Ed25519_public_key. intros [= <-] [= <-].
  destruct (ed_sign_verifies (signing_seed p) data) as (E1 & E2 & E3).
  destruct (mldsa_sign_verifies r (snd (mldsa_keypair p)) data) as (M1 & M2 & M3).
  rewrite Hp. erewrite check_signature_halves; [|apply split_hybrid_app; auto using
    ed_sign_length, mldsa_public_length, mldsa_sign_length].
  unfold check_ed25519_half, check_ml_dsa_half. rewrite E1, E2, E3, M1, M2, M3. simpl.
  by rewrite decide_True by apply ed_public_length.
Qed.

(** The verifier accepts what the signer signs under the key. *)
Definition vouches (signer : AsymCryptoProvider) (key : bytes) (verifier : AsymCryptoProvider) : Prop :=
  ∀ data sg, sign_data signer data = Ok sg → sg ≠ [] ∧ check_signature verifier sg key data = Ok true.

(** A node's own provider: every provider accepts what it signs. *)
Lemma provider_vouches `{SignaturePrims} `{KemPrims} p r verifier :
  provider_wf p → check_signature verifier = Ed25519_check_signature →
  vouches (provider_of r p) (ed_public (signing_seed p)) verifier.
Proof.
  intros Hw Hc data sg Hs. rewrite Hc. split; [|exact (sign_then_check p r data sg _ Hw Hs eq_refl)].
  cbn [sign_data provider_of] in Hs. unfold Ed25519_sign_data in Hs. injection Hs as <-.
  intros [Hn _]%app_eq_nil. apply (f_equal length) in Hn. by rewrite ed_sign_length in Hn.
Qed.

(** ** Properties *)

(** The post-quantum half is not tied to the identity: a signature that
    verifies under [pk] stays valid when its ML-DSA key and signature are
    replaced by those of any other ML-DSA key. Whoever can produce the Ed25519
    half alone can produce an accepted hybrid signature. *)
Theorem mldsa_half_not_bound `{SignaturePrims} pk data ed r sk' :
  length ed = ED25519_SIG_LEN → check_ed25519_half ed pk data = true →
  Ed25519_check_signature (ed ++ mldsa_public sk' ++ mldsa_sign r sk' data) pk data = Ok true.
Proof.
  intros Hl Hed. destruct (mldsa_sign_verifies r sk' data) as (M1 & M2 & M3).
  erewrite check_signature_halves; [|apply split_hybrid_app; auto using
    mldsa_public_length, mldsa_sign_length].
  unfold check_ml_dsa_half. by rewrite Hed, M1, M2, M3.
Qed.

Lemma hybrid_decrypt_frame `{KemPrims} eph ct sk nonce cipher static d :
  length eph = X25519_PK_LEN → length ct = MLKEM_CT_LEN → length nonce = NONCE_LEN →
  GCM_TAG_LEN ≤ length cipher → mlkem_ct_parses ct = true →
  aes_decrypt (hkdf_aes_key (x25519_dh static eph ++ mlkem_decapsulate ct sk)) nonce cipher = Some d →
  hybrid_decrypt static sk (mlkem_public sk) (eph ++ ct ++ mlkem_public sk ++ nonce ++ cipher) = Ok d.
Proof.
  intros He Hc Hn Hl Hct Hdec. pose proof (mlkem_public_length sk) as Hpk.
  unfold hybrid_decrypt. rewrite decide_False.
  2: { rewrite !length_app, He, Hc, Hpk, Hn.
       unfold HYBRID_KEM_EMPTY_LEN, HYBRID_KEM_HEADER_LEN. lia. }
  rewrite take_app_len, (drop_app_len X25519_PK_LEN), take_app_len by done.
  rewrite (app_assoc eph ct), (drop_app_len (X25519_PK_LEN + MLKEM_CT_LEN)), take_app_len
    by (rewrite ?length_app; lia).
  rewrite (app_assoc _ (mlkem_public sk)), drop_app_len by (rewrite !length_app; lia).
  rewrite take_app_len, drop_app_len by done.
  by rewrite Hct, mlkem_pk_ok, decide_True, Hdec.
Qed.

(** Data encrypted to a provider's public keys decrypts to itself. *)
Theorem encrypt_to_then_decrypt `{SignaturePrims} `{KemPrims} p eph r nonce data c :
  provider_wf p → length nonce = NONCE_LEN →
  encrypt_to eph r nonce (x25519_public (x25519_static_key p)) (fst (mlkem_keypair p)) data = Ok c →
  decrypt_from p c = Ok data.
Proof.
  intros [_ Hp] Hn. unfold encrypt_to, finish_encrypt, decrypt_from. rewrite Hp, mlkem_pk_ok. simpl.
  destruct (mlkem_encapsulate _ _) as [ss ct] eqn:Henc.
  destruct (aes_encrypt _ _ _) as [ciph|] eqn:Haes; intros [= <-].
  pose proof (mlkem_round r (snd (mlkem_keypair p))) as Hround.
  pose proof (mlkem_ct_length r (mlkem_public (snd (mlkem_keypair p)))) as Hlen.
  pose proof (mlkem_ct_ok r (mlkem_public (snd (mlkem_keypair p)))) as Hok.
  rewrite Henc in Hround, Hlen, Hok. simpl in *.
  apply hybrid_decrypt_frame; auto using x25519_public_length.
  - apply aes_length in Haes. lia.
  - rewrite Hround, <-x25519_dh_commutes. by apply aes_round.
Qed.

(** ** A concrete instance, and the properties at it *)

Module ConcreteCrypto.

#[local] Obligation Tactic := idtac.

(** A number in the first 64 of [64 + n] bytes. *)
Definition wide (n : nat) (v : N) : bytes := be_bytes 64 v ++ replicate n 0%N.
Lemma wide_length n v : length (wide n v) = 64 + n.
Proof. unfold wide. by rewrite length_app, be_bytes_length, length_replicate. Qed.
Lemma wide_wf n v : Forall (λ x, x < 256)%N (wide n v).
Proof. apply Forall_app_2; [apply be_bytes_wf|by apply Forall_replicate]. Qed.

Program Instance sig_prims : SignaturePrims := {|
  ed_public sk := be_bytes 32 (sum_N sk);
  ed_sign sk d := be_bytes 64 (sum_N (be_bytes 32 (sum_N sk)) + sum_N d);
  ed_sig_parses s := bool_decide (length s = 64);
  ed_pk_parses k := bool_decide (length k = 32);
  ed_verify k d s := bool_decide (s = be_bytes 64 (sum_N k + sum_N d));
  mldsa_public sk := wide 1248 (sum_N sk);
  mldsa_sign r sk d := wide 2356 (sum_N (wide 1248 (sum_N sk)) + sum_N d);
  mldsa_pk_parses k := bool_decide (length k = 1312);
  mldsa_sig_parses s := bool_decide (length s = 2420);
  mldsa_verify k d s := bool_decide (s = wide 2356 (sum_N k + sum_N d));
|}.
Next Obligation. intros. apply be_bytes_length. Qed.
Next Obligation. intros. apply be_bytes_length. Qed.
Next Obligation.
  intros. cbv beta. rewrite !bool_decide_true by apply be_bytes_length. split_and!; [done..|]. by rewrite bool_decide_true.
Qed.
Next Obligation. intros. apply wide_length. Qed.
Next Obligation. intros. apply wide_length. Qed.
Next Obligation.
  intros. cbv beta. rewrite !bool_decide_true by apply wide_length. split_and!; [done..|]. by rewrite bool_decide_true.
Qed.

Program Instance kem_prims : KemPrims := {|
  x25519_public sk := replicate 32 0%N;
  x25519_dh a b := replicate 32 0%N;
  mlkem_public sk := replicate 1184 0%N;
  mlkem_encapsulate r pk := (replicate 32 r, replicate 1088 r);
  mlkem_decapsulate ct sk := take 32 ct;
  mlkem_ct_parses ct := bool_decide (length ct = 1088);
  mlkem_pk_parses pk := bool_decide (length pk = 1184);
  hkdf_aes_key s := s;
  aes_encrypt k n d := Some (d ++ replicate 16 0%N);
  aes_decrypt k n c := Some (take (length c - 16) c);
  aead_error := "aead::Error";
|}.
Next Obligation. intros. apply length_replicate. Qed.
Next Obligation. done. Qed.
Next Obligation. intros. apply length_replicate. Qed.
Next Obligation. intros. apply bool_decide_true, length_replicate. Qed.
Next Obligation. intros. apply length_replicate. Qed.
Next Obligation. intros. apply bool_decide_true, length_replicate. Qed.
Next Obligation. intros r sk. apply (take_replicate 1088 32 r). Qed.
Next Obligation.
  intros k n d c E. apply (inj Some) in E as <-. cbv beta. rewrite length_app, length_replicate, Nat.add_sub. by rewrite take_app_length.
Qed.
Next Obligation. intros k n d c E. apply (inj Some) in E as <-. by rewrite length_app, length_replicate. Qed.

Definition node_keys : Ed25519Provider :=
  mkEd25519Provider [7%N] [8%N] (mldsa_public [3%N], [3%N]) (mlkem_public [4%N], [4%N]).

Lemma ed_sign_wf sk d : Forall (λ x, x < 256)%N (ed_sign sk d).
Proof. exact (be_bytes_wf 64 _). Qed.
Lemma mldsa_sign_wf r sk d : Forall (λ x, x < 256)%N (mldsa_sign r sk d).
Proof. exact (wide_wf 2356 _). Qed.
Lemma mldsa_public_wf sk : Forall (λ x, x < 256)%N (mldsa_public sk).
Proof. exact (wide_wf 1248 _). Qed.

Lemma node_signature_wf r data sg : Ed25519_sign_data r node_keys data = Ok sg → Forall (λ x, x < 256)%N sg.
Proof.
  intros Hs. unfold Ed25519_sign_data in Hs. apply (inj Ok) in Hs as <-.
  apply Forall_app_2; [apply ed_sign_wf|apply Forall_app_2; [exact (mldsa_public_wf [3%N])|apply mldsa_sign_wf]].
Qed.
End ConcreteCrypto.
Import ConcreteCrypto.

Lemma mldsa_half_not_bound_witness :
  Ed25519_check_signature
    (ed_sign [7%N] [1%N] ++ mldsa_public [9%N] ++ mldsa_sign 0 [9%N] [1%N]) (ed_public [7%N]) [1%N]
  = Ok true.
Proof. apply mldsa_half_not_bound; by vm_compute. Defined.

Lemma encrypt_to_witness :
  ∃ c, decrypt_from node_keys c = Ok [5%N; 6%N].
Proof.
  eexists. apply (encrypt_to_then_decrypt node_keys [1%N] 2 (replicate 12 0%N) [5%N; 6%N]); by vm_compute.
Defined.
