(* ===== verification/Transactions.v ===== *)
(** * Transactions (src/src/transactions.rs)

    The routing decision a Sentinel attests, the canonical byte forms that are
    hashed and signed, and the Finalizer's digest with its verification. *)

From S2P Require Import Prelude Interfaces Types Serialize Crypto.

(** [io::Error] to [PneumaticError::Encoding(e.to_string())]. *)
Definition encoding_err {A} (r : result string A) : result PneumaticError A := map_err Encoding r.

(** ** The routing decision *)

Section selection_record.
Context `{Rmp}.

Definition surface_value (id : string) (domain : N) (finalizer_key : bytes)
    (epoch_number : N) (salt : bytes) : serde :=
  SSeq [ser_bytes (string_bytes id); ser_N domain; ser_bytes finalizer_key; ser_N epoch_number;
        ser_bytes salt].

Definition attestation_surface (id : string) (domain : N) (finalizer_key : bytes)
    (epoch_number : N) (salt : bytes) : result PneumaticError bytes :=
  encoding_err (rmp_enc (surface_value id domain finalizer_key epoch_number salt)).

Definition attest (crypto : AsymCryptoProvider) (id : string) (domain : N) (finalizer_key : bytes)
    (epoch_number : N) (salt : bytes) : result PneumaticError SelectionRecord :=
  surface ← attestation_surface id domain finalizer_key epoch_number salt;
  attestation ← sign_data crypto surface;
  sentinel ← public_key crypto;
  Ok (mkSelection finalizer_key epoch_number salt sentinel attestation).

Definition SelectionRecord_verify (r : SelectionRecord) (id : string) (domain : N)
    (crypto : AsymCryptoProvider) : result PneumaticError bool :=
  if is_nil (sr_attestation r) || is_nil (sr_sentinel_public_key r) then Ok false
  else
    surface ← attestation_surface id domain (sr_finalizer_public_key r) (sr_epoch_number r) (sr_salt r);
    check_signature crypto (sr_attestation r) (sr_sentinel_public_key r) surface.

Definition names (r : SelectionRecord) (key : bytes) : bool :=
  negb (is_nil key) && bool_decide (sr_finalizer_public_key r = key).

Definition same_decision_as (r other : SelectionRecord) : bool :=
  bool_decide (sr_finalizer_public_key r = sr_finalizer_public_key other)
  && bool_decide (sr_sentinel_public_key r = sr_sentinel_public_key other)
  && bool_decide (sr_epoch_number r = sr_epoch_number other)
  && bool_decide (sr_salt r = sr_salt other).
End selection_record.

(** ** Canonical forms *)

Section canonical.
Context `{Rmp} `{Sha256}.

(** [CanonicalTransaction]: the fields a sender signs. *)
Definition CanonicalTransaction (t : Transaction) : serde :=
  ser_struct [
    fld "id" (SStr (tx_id t));
    fld "action" (SStr (tx_action t));
    fld "token_id" (ser_bytes (tx_token_id t));
    fld "bid" (ser_option ser_Bid (tx_bid t));
    fld "sequence_number" (ser_nat (tx_sequence_number t));
    fld "sender" (ser_bytes (tx_sender t));
    fld "receiver" (ser_bytes (tx_receiver t));
    fld "amount" (ser_option ser_N (tx_amount t));
    fld "timestamp" (SInt (tx_timestamp t));
    fld "result_hash" (ser_bytes (tx_result_hash t));
    fld "payload" (ser_bytes (tx_payload t));
    fld "gas_limit" (ser_N (tx_gas_limit t))].

Definition canonical_signature_bytes (t : Transaction) : result PneumaticError bytes :=
  encoding_err (rmp_enc (CanonicalTransaction t)).

Definition verify_sender_signature `{SignaturePrims} (t : Transaction) : result PneumaticError bool :=
  canonical ← canonical_signature_bytes t;
  Ed25519_check_signature (tx_sender_signature t) (tx_sender t) canonical.

(** The transaction with its execution outputs cleared. *)
Definition normalized (t : Transaction) : Transaction :=
  mkTransaction (tx_id t) (tx_action t) (tx_token_id t) (tx_bid t) (tx_sequence_number t)
    (tx_sender t) (tx_receiver t) (tx_amount t) (tx_timestamp t) [] (tx_sender_signature t)
    (tx_payload t) (tx_gas_limit t) [] (tx_selection t).

Definition identity_bytes (t : Transaction) : result PneumaticError bytes :=
  encoding_err (rmp_enc (ser_Transaction (normalized t))).

Definition identity_hash (t : Transaction) : result PneumaticError bytes :=
  b ← identity_bytes t; Ok (sha256 b).

Definition Transaction_hash (t : Transaction) : result PneumaticError bytes :=
  b ← encoding_err (rmp_enc (ser_Transaction t)); Ok (sha256 b).

Definition Shielded_canonical_bytes (s : ShieldedTransaction) : result PneumaticError bytes :=
  encoding_err (rmp_enc (ser_ShieldedTransaction s)).

Definition Shielded_hash (s : ShieldedTransaction) : result PneumaticError bytes :=
  b ← Shielded_canonical_bytes s; Ok (sha256 b).

Definition placeholder_transaction (s : ShieldedTransaction) : Transaction :=
  mkTransaction (sh_id s) "ShieldedTransfer" (sh_token_id s) None 0 [] [] None 0 [] [] [] 0 [] None.

Context `{HashIter}.

Definition CanonicalSignedTransaction (s : SignedTransaction) : serde :=
  ser_struct [
    fld "transaction_id" (SStr (st_transaction_id s));
    fld "transaction" (ser_Transaction (st_transaction s));
    fld "total_stake" (ser_N (st_total_stake s));
    fld "total_voters" (ser_N (st_total_voters s));
    fld "leader_address" (ser_bytes (st_leader_address s));
    fld "leader_stake" (ser_N (st_leader_stake s));
    fld "leader_hash" (ser_bytes (st_leader_hash s));
    fld "finalizer_addr" (ser_bytes (st_finalizer_addr s));
    fld "finalizer_sig" (ser_TransactionSignature (st_finalizer_sig s));
    fld "executor_sigs" (ser_executor_sigs (st_executor_sigs s));
    fld "proposer_key" (ser_bytes (st_proposer_key s))].

(** The error of [Shielded_canonical_bytes] is the encoder's own, wrapped as
    [PneumaticError::Encoding]; this is the [Display] text of that case (the other
    constructors do not arise here). *)
Definition display_encoding (e : PneumaticError) : string :=
  match e with Encoding m => "Encoding(" +:+ m +:+ ")" | _ => EmptyString end.

Definition canonical_signed_trans_bytes (s : SignedTransaction) : result string bytes :=
  b ← rmp_enc (CanonicalSignedTransaction s);
  match st_shielded s with
  | Some sh =>
      shielded_bytes ← map_err (λ e, "shielded canonical: " +:+ display_encoding e)
                         (Shielded_canonical_bytes sh);
      Ok (b ++ shielded_bytes)
  | None => Ok b
  end.

(** ** The Finalizer's digest *)

Definition finalizer_placeholder_sig (t : Transaction) : TransactionSignature :=
  mkSignature (string_bytes (tx_id t)) (tx_token_id t) [] [] 0.

Definition CanonicalFinalizerCarrier (s : SignedTransaction) : serde :=
  ser_struct [
    fld "transaction_id" (SStr (st_transaction_id s));
    fld "transaction" (ser_Transaction (st_transaction s));
    fld "total_stake" (ser_N (st_total_stake s));
    fld "total_voters" (ser_N (st_total_voters s));
    fld "leader_address" (ser_bytes (st_leader_address s));
    fld "leader_stake" (ser_N (st_leader_stake s));
    fld "leader_hash" (ser_bytes (st_leader_hash s));
    fld "finalizer_addr" (ser_bytes (st_finalizer_addr s));
    fld "finalizer_sig" (ser_TransactionSignature (finalizer_placeholder_sig (st_transaction s)));
    fld "executor_sigs" (ser_executor_sigs (st_executor_sigs s));
    fld "proposer_key" (ser_bytes (st_proposer_key s));
    fld "shielded" (ser_option ser_ShieldedTransaction (st_shielded s))].

Definition signature_input (s : SignedTransaction) : bytes :=
  concat ((λ kv, ts_signature kv.2) <$> btree_entries (st_executor_sigs s)).

Definition finalizer_digest (s : SignedTransaction) : result PneumaticError bytes :=
  tx_bytes ← map_err (λ e, Encoding ("finalizer digest: signed_tx: " +:+ e))
               (rmp_enc (CanonicalFinalizerCarrier s));
  let tx_hash := sha256 tx_bytes in
  let sig_hash := sha256 (signature_input s) in
  Ok (sha256 (tx_hash ++ sig_hash)).

Inductive FinalizerSignatureFailure :=
| Missing
| PayloadMismatch (claimed derived : bytes)
| InvalidUnderKey.

Definition verify_finalizer_signature (s : SignedTransaction) (expected_finalizer_key : bytes)
    (crypto : AsymCryptoProvider) : result FinalizerSignatureFailure unit :=
  if is_nil (ts_signature (st_finalizer_sig s)) then Err Missing
  else
    derived ← map_err (λ _, InvalidUnderKey) (finalizer_digest s);
    if decide (derived = ts_transaction_hash (st_finalizer_sig s)) then
      match check_signature crypto (ts_signature (st_finalizer_sig s)) expected_finalizer_key derived with
      | Ok true => Ok tt
      | Ok false | Err _ => Err InvalidUnderKey
      end
    else Err (PayloadMismatch (ts_transaction_hash (st_finalizer_sig s)) derived).
End canonical.

Definition test_transaction : SignedTransaction :=
  mkSigned "test_transaction"
    (mkTransaction "test_transaction" "Transfer" [] None 0 [] [] None 0 [] [] [] 0 [] None)
    42 3 [] 24 [] [] (mkSignature [] [] [] [] 0) ∅ [] None.

(** [s] with another finalizer signature. *)
Definition with_finalizer_sig (f : TransactionSignature) (s : SignedTransaction) : SignedTransaction :=
  mkSigned (st_transaction_id s) (st_transaction s) (st_total_stake s) (st_total_voters s)
    (st_leader_address s) (st_leader_stake s) (st_leader_hash s) (st_finalizer_addr s) f
    (st_executor_sigs s) (st_proposer_key s) (st_shielded s).

(** ** Lemmas *)

(** Two carriers with the same form are the same signed transaction, the
    finalizer's signature apart. *)
Lemma carrier_inj `{HashIter} f s1 s2 :
  CanonicalFinalizerCarrier s1 = CanonicalFinalizerCarrier s2 →
  with_finalizer_sig f s1 = with_finalizer_sig f s2.
Proof.
  pose proof ser_executor_sigs_inj.
  destruct s1, s2. intros H'.
  sfield H' "transaction_id". sfield H' "transaction". sfield H' "total_stake".
  sfield H' "total_voters". sfield H' "leader_address". sfield H' "leader_stake".
  sfield H' "leader_hash". sfield H' "finalizer_addr". sfield H' "executor_sigs".
  sfield H' "proposer_key". sfield H' "shielded".
  unfold with_finalizer_sig. simpl in *. by subst.
Qed.

Lemma carrier_of_with_sig `{HashIter} f s :
  CanonicalFinalizerCarrier (with_finalizer_sig f s) = CanonicalFinalizerCarrier s ∧
  signature_input (with_finalizer_sig f s) = signature_input s.
Proof. by destruct s. Qed.

Lemma surface_value_inj i1 d1 k1 e1 s1 i2 d2 k2 e2 s2 :
  surface_value i1 d1 k1 e1 s1 = surface_value i2 d2 k2 e2 s2 →
  i1 = i2 ∧ d1 = d2 ∧ k1 = k2 ∧ e1 = e2 ∧ s1 = s2.
Proof.
  unfold surface_value. intros He. apply (f_equal (λ v, match v with SSeq l => l | _ => [] end)) in He.
  repeat match type of He with
  | ?x :: ?l = ?y :: ?k =>
      let E := fresh "E" in
      assert (x = y) as E by (apply (f_equal head) in He; by apply (inj Some) in He);
      apply (f_equal tail) in He; cbn [tail] in He; apply (inj _) in E
  end.
  apply (inj string_bytes) in E. done.
Qed.

(** ** Properties *)

(** The Finalizer's digest binds everything a block carries: two signed
    transactions with one digest agree on every field but the signature slot
    itself, or exhibit a SHA-256 collision. *)
Theorem finalizer_digest_binds `{Rmp} `{Sha256} `{HashIter} s1 s2 d f :
  finalizer_digest s1 = Ok d → finalizer_digest s2 = Ok d →
  ∃ b1 b2, rmp_enc (CanonicalFinalizerCarrier s1) = Ok b1 ∧
    rmp_enc (CanonicalFinalizerCarrier s2) = Ok b2 ∧
    (with_finalizer_sig f s1 = with_finalizer_sig f s2 ∨ collision b1 b2 ∨
     collision (sha256 b1 ++ sha256 (signature_input s1)) (sha256 b2 ++ sha256 (signature_input s2))).
Proof.
  unfold finalizer_digest.
  intros (b1 & E1%map_err_Ok & [= <-])%bind_Ok (b2 & E2%map_err_Ok & [= He])%bind_Ok.
  exists b1, b2. split_and!; [done..|].
  symmetry in He. apply sha256_eq in He as [He|Hc]; [|by right; right].
  apply app_inj_1 in He as [He _]; [|by rewrite !sha256_length].
  apply sha256_eq in He as [->|Hc]; [|by right; left].
  left. apply carrier_inj. by eapply rmp_enc_inj.
Qed.

(** A finalizer signature is accepted exactly when it is present, claims
    the digest recomputed from the received contents, and verifies under the
    expected key over that digest; the digest ignores the signature slot. *)
Theorem verify_finalizer_signature_iff `{Rmp} `{Sha256} `{HashIter} s key crypto :
  verify_finalizer_signature s key crypto = Ok tt ↔
  ts_signature (st_finalizer_sig s) ≠ [] ∧
  ∃ d, finalizer_digest s = Ok d ∧
    (∀ f, finalizer_digest (with_finalizer_sig f s) = Ok d) ∧
    ts_transaction_hash (st_finalizer_sig s) = d ∧
    check_signature crypto (ts_signature (st_finalizer_sig s)) key d = Ok true.
Proof.
  assert (∀ f d, finalizer_digest s = Ok d → finalizer_digest (with_finalizer_sig f s) = Ok d) as Hw.
  { intros f d. unfold finalizer_digest. destruct (carrier_of_with_sig f s) as [-> ->]. done. }
  unfold verify_finalizer_signature. destruct (is_nil (ts_signature (st_finalizer_sig s))) eqn:Hn.
  { destruct (ts_signature _); [|done]. split; [done | by intros [? _]]. }
  split.
  - intros (d & Hd%map_err_Ok & Hc)%bind_Ok. split; [by destruct (ts_signature _)|].
    exists d. case_decide; simplify_eq. repeat case_match; by eauto.
  - intros (_ & d & Hd & _ & Hh & Hc). rewrite Hd. simpl. by rewrite decide_True, Hc.
Qed.

(** The identity hash compares everything but the execution outputs. *)
Theorem identity_hash_binds `{Rmp} `{Sha256} t1 t2 h :
  identity_hash t1 = Ok h → identity_hash t2 = Ok h →
  ∃ b1 b2, identity_bytes t1 = Ok b1 ∧ identity_bytes t2 = Ok b2 ∧
    (normalized t1 = normalized t2 ∨ collision b1 b2).
Proof.
  unfold identity_hash. intros (b1 & E1 & [= <-])%bind_Ok (b2 & E2 & [= He])%bind_Ok.
  exists b1, b2. split_and!; [done..|]. symmetry in He.
  apply sha256_eq in He as [->|Hc]; [left | by right].
  unfold identity_bytes, encoding_err in *. rewrite map_err_Ok in E1, E2.
  apply (inj ser_Transaction). by eapply rmp_enc_inj.
Qed.

(** A routing decision a Sentinel attests verifies at every node and names
    the chosen Finalizer; and a record with the same signed surface is the same
    decision for the same transaction, domain, epoch and salt. *)
Theorem attested_decision_verifies `{Rmp} `{SignaturePrims} `{KemPrims} p r q r' id dom key ep salt rec :
  provider_wf p → key ≠ [] →
  attest (provider_of r p) id dom key ep salt = Ok rec →
  SelectionRecord_verify rec id dom (provider_of r' q) = Ok true ∧
  (∀ k, names rec k = true ↔ k = key) ∧
  (∀ id' dom' rec', attestation_surface id' dom' (sr_finalizer_public_key rec') (sr_epoch_number rec') (sr_salt rec')
      = attestation_surface id dom key ep salt →
    id' = id ∧ dom' = dom ∧ sr_finalizer_public_key rec' = key ∧ sr_epoch_number rec' = ep ∧ sr_salt rec' = salt).
Proof.
  intros Hwf Hkey. unfold attest. intros (surf & Hsurf & (att & Hatt & (pk & Hpk & [= <-])%bind_Ok)%bind_Ok)%bind_Ok.
  simpl in Hatt, Hpk. split_and!.
  - unfold SelectionRecord_verify. simpl.
    pose proof (sign_then_check p r surf att pk Hwf Hatt Hpk) as Hc.
    injection Hpk as <-. injection Hatt as <-.
    pose proof (ed_public_length (signing_seed p)). pose proof (ed_sign_length (signing_seed p) surf).
    destruct (ed_public (signing_seed p)); [done|]. destruct (ed_sign (signing_seed p) surf); [done|].
    simpl. by rewrite Hsurf.
  - intros k. unfold names. simpl. rewrite andb_true_iff, bool_decide_eq_true.
    destruct k; simpl; split; intros Hk; [by destruct Hk | by subst | by destruct Hk as [_ <-] | by subst].
  - intros id' dom' rec' Heq. rewrite Hsurf in Heq. unfold attestation_surface, encoding_err in *.
    rewrite map_err_Ok in Heq, Hsurf. apply surface_value_inj. by eapply rmp_enc_inj.
Qed.

(** ** The properties at concrete inputs *)

Lemma finalizer_digest_witness :
  let f := mkSignature [] [] [] [] 0 in
  let si := @signature_input forward_iter test_transaction in
  ∃ b1 b2, Concrete.enc (@CanonicalFinalizerCarrier forward_iter test_transaction) = Ok b1 ∧
    Concrete.enc (@CanonicalFinalizerCarrier forward_iter test_transaction) = Ok b2 ∧
    (with_finalizer_sig f test_transaction = with_finalizer_sig f test_transaction ∨
     @collision Concrete.sha_concrete b1 b2 ∨
     @collision Concrete.sha_concrete (Concrete.digest b1 ++ Concrete.digest si)
       (Concrete.digest b2 ++ Concrete.digest si)).
Proof.
  eapply (@finalizer_digest_binds Concrete.rmp_concrete Concrete.sha_concrete forward_iter
    test_transaction test_transaction); vm_compute; reflexivity.
Defined.

Lemma identity_hash_witness :
  ∃ b1 b2, @identity_bytes Concrete.rmp_concrete (st_transaction test_transaction) = Ok b1 ∧
    @identity_bytes Concrete.rmp_concrete (st_transaction test_transaction) = Ok b2 ∧
    (normalized (st_transaction test_transaction) = normalized (st_transaction test_transaction) ∨
     @collision Concrete.sha_concrete b1 b2).
Proof.
  eapply (@identity_hash_binds Concrete.rmp_concrete Concrete.sha_concrete); vm_compute; reflexivity.
Defined.

Lemma attested_decision_witness :
  ∃ rec, @SelectionRecord_verify Concrete.rmp_concrete rec "tx" 3
    (@provider_of ConcreteCrypto.sig_prims 1 ConcreteCrypto.node_keys) = Ok true.
Proof.
  eexists.
  apply (@attested_decision_verifies Concrete.rmp_concrete ConcreteCrypto.sig_prims
    ConcreteCrypto.kem_prims ConcreteCrypto.node_keys 0 ConcreteCrypto.node_keys 1 "tx" 3 [9%N] 4 [2%N]);
    [by vm_compute | done | vm_compute; reflexivity].
Defined.
