(* ===== verification/Chain.v ===== *)
(** * Blocks and chains (src/src/blocks.rs)

    The canonical block hash and the chain operations: the validated append, the
    tip read that avoids re-hashing, the full walk, and the rollback and trim
    primitives. A [VecDeque] is a list with the oldest block first. *)

From S2P Require Import Prelude Interfaces Types Serialize Crypto Transactions.

Section chain.
Context `{Rmp} `{Sha256} `{HashIter}.

(** [canonical_map_bytes] at [HashMap<String, String>]. *)
Definition ser_metadata (m : gmap string string) : serde :=
  SMap ((λ kv, (SStr kv.1, SStr kv.2)) <$> btree_entries_str m).

Definition canonical_map_bytes (m : gmap string string) : result string bytes :=
  rmp_enc (ser_metadata m).

Definition create_hash_err {A} (r : result string A) : result PneumaticError A :=
  map_err (λ e, Encoding ("create_hash: " +:+ io_debug e)) r.

(** The bytes that are hashed. *)
Definition hash_input (b : Block) : result PneumaticError bytes :=
  time_bytes ← create_hash_err (rmp_enc (SInt (blk_timestamp b)));
  trans_bytes ← create_hash_err (canonical_signed_trans_bytes (signed_trans b));
  metadata_bytes ← create_hash_err (canonical_map_bytes (token_metadata b));
  proposer_bytes ← create_hash_err (rmp_enc (ser_bytes (blk_proposer_key b)));
  epoch_bytes ← create_hash_err (rmp_enc (ser_N (blk_epoch_number b)));
  Ok (previous_hash b ++ time_bytes ++ trans_bytes ++ metadata_bytes ++ proposer_bytes ++ epoch_bytes).

Definition create_hash (b : Block) : result PneumaticError bytes :=
  input ← hash_input b; Ok (sha256 input).

(** ** Chain operations *)

Definition Blockchain_new : Blockchain := mkChain [] ∅.

Definition get_count (c : Blockchain) : nat := length (chain c).

Definition add_block (c : Blockchain) (b : Block) : Blockchain :=
  mkChain (chain c ++ [b]) (chain_metadata c).

Definition last_block (c : Blockchain) : option Block := last (chain c).

Definition cached_tip (c : Blockchain) : bytes :=
  default [] (current_hash <$> last (chain c)).

(** The linkage rule: an empty tip is the genesis position. *)
Definition linkage_ok (tip : bytes) (b : Block) : bool :=
  if is_nil tip then is_nil (previous_hash b) else bool_decide (tip = previous_hash b).

Definition append_validated_block (c : Blockchain) (b : Block) : Blockchain * AppendOutcome :=
  let tip := cached_tip c in
  if negb (linkage_ok tip b) then (c, LinkageMismatch)
  else
    match create_hash b with
    | Err _ => (c, InvalidHash)
    | Ok computed_hash =>
        if decide (computed_hash = current_hash b) then (add_block c b, Appended)
        else (c, InvalidHash)
    end.

(** [pop_back] and [pop_front]. *)
Definition remove_block (c : Blockchain) : Blockchain * option Block :=
  (mkChain (take (length (chain c) - 1) (chain c)) (chain_metadata c), last (chain c)).

Definition remove_oldest (c : Blockchain) : Blockchain * option Block :=
  (mkChain (tail (chain c)) (chain_metadata c), head (chain c)).

Definition ChainState_invalid : ChainState := mkChainState false [].
Definition ChainState_new (valid : bool) (b : Block) : ChainState := mkChainState valid (current_hash b).
Definition ChainState_empty : ChainState := mkChainState true [].

(** The loop of [get_current_chain_state]: [prev] is the block reached, [rest]
    the blocks after it, [valid] the verdict on the blocks up to [prev]. *)
Fixpoint chain_walk (prev : Block) (valid : bool) (rest : list Block) : ChainState :=
  if negb valid then ChainState_invalid
  else
    match rest with
    | [] => ChainState_new true prev
    | next :: rest' =>
        match create_hash next with
        | Err _ => ChainState_invalid
        | Ok next_hash =>
            chain_walk next
              (bool_decide (previous_hash next = current_hash prev)
               && bool_decide (next_hash = current_hash next)) rest'
        end
    end.

Definition get_current_chain_state (c : Blockchain) : ChainState :=
  match chain c with
  | [] => ChainState_empty
  | b :: rest =>
      match create_hash b with
      | Err _ => ChainState_invalid
      | Ok prev_hash => chain_walk b (bool_decide (current_hash b = prev_hash)) rest
      end
  end.

Definition validate_next_block (c : Blockchain) (b : Block) : bool :=
  let current_state := get_current_chain_state c in
  if negb (cs_is_valid current_state) then false
  else
    let hash_ok := match create_hash b with
                   | Ok h => bool_decide (h = current_hash b)
                   | Err _ => false
                   end in
    linkage_ok (last_hash_in current_state) b && hash_ok.

Definition get_block_at (c : Blockchain) (i : nat) : option Block := chain c !! i.

Definition with_finality (status : FinalityStatus) (b : Block) : Block :=
  mkBlock (signed_trans b) (token_metadata b) (previous_hash b) (current_hash b) (blk_timestamp b)
    status (blk_proposer_key b) (blk_epoch_number b).

(** The first block with the hash, with its status set; [None] if there is none. *)
Fixpoint set_status_in (h : bytes) (status : FinalityStatus) (l : list Block) : option (list Block) :=
  match l with
  | [] => None
  | b :: l' =>
      if decide (current_hash b = h) then Some (with_finality status b :: l')
      else cons b <$> set_status_in h status l'
  end.

Definition set_finality_status (c : Blockchain) (h : bytes) (status : FinalityStatus) :
    Blockchain * result unit unit :=
  match set_status_in h status (chain c) with
  | Some l => (mkChain l (chain_metadata c), Ok tt)
  | None => (c, Err tt)
  end.

(** [Block::from_transaction]; [now] is the clock's timestamp. *)
Definition from_transaction (now : Z) (signed : SignedTransaction) (c : Blockchain) (token : Token)
    (epoch_number : N) : Block :=
  let prev_hash := if decide (get_count c = 0) then [] else last_hash_in (get_current_chain_state c) in
  mkBlock signed (tok_metadata token) prev_hash [] now Optimistic (st_proposer_key signed) epoch_number.

Definition with_current_hash (h : bytes) (b : Block) : Block :=
  mkBlock (signed_trans b) (token_metadata b) (previous_hash b) h (blk_timestamp b)
    (finality_status b) (blk_proposer_key b) (blk_epoch_number b).

(** [Block::test_block]; its [expect] panics if the block cannot be hashed. *)
Definition test_block (now : Z) (prev_hash : bytes) : may_panic Block :=
  let b := mkBlock test_transaction ∅ prev_hash [] now Optimistic [] 0 in
  match create_hash b with
  | Ok h => Some (with_current_hash h b)
  | Err _ => None
  end.

(** ** Specification vocabulary *)

(** What the hash covers of a block: all of it but its own hash and its status. *)
Definition hashed_content (b : Block) : Block :=
  mkBlock (signed_trans b) (token_metadata b) (previous_hash b) [] (blk_timestamp b)
    Optimistic (blk_proposer_key b) (blk_epoch_number b).

(** A block whose claimed hash is its hash. *)
Definition block_ok (b : Block) : Prop := create_hash b = Ok (current_hash b).

(** Consecutive blocks are linked by their hashes. *)
Fixpoint linked (l : list Block) : Prop :=
  match l with
  | b :: (c :: _) as l' => previous_hash c = current_hash b ∧ linked l'
  | _ => True
  end.

Definition chain_valid (c : Blockchain) : Prop := Forall block_ok (chain c) ∧ linked (chain c).
End chain.

(** ** Lemmas: the block hash *)

Lemma create_hash_err_Ok `{Rmp} {A} (r : result string A) a : create_hash_err r = Ok a ↔ r = Ok a.
Proof. apply map_err_Ok. Qed.

Lemma create_hash_length `{Rmp} `{Sha256} `{HashIter} b h : create_hash b = Ok h → length h = 32.
Proof. unfold create_hash. intros (i & _ & [= <-])%bind_Ok. apply sha256_length. Qed.

Lemma ser_metadata_inj `{HashIter} m1 m2 : ser_metadata m1 = ser_metadata m2 → m1 = m2.
Proof.
  unfold ser_metadata. intros [= He]. apply list_fmap_eq_inj in He.
  - apply map_eq. intros k. apply option_eq. intros v. rewrite <-!(elem_of_hash_iter _ k v).
    unfold btree_entries_str in He.
    by rewrite <-(sort_on_perm (string_bytes ∘ fst) (hash_iter m1)),
      <-(sort_on_perm (string_bytes ∘ fst) (hash_iter m2)), He.
  - intros [k v] [k' v'] [= -> ->]. done.
Qed.

Lemma metadata_fields_are_strings `{HashIter} m n v :
  sget n (ser_metadata m) = Some v → ∃ s, v = SStr s.
Proof.
  unfold ser_metadata. simpl. induction (btree_entries_str m) as [|[k w] l IH]; simpl; [done|].
  destruct (String.eqb n k); [|done]. intros. simplify_eq. eauto.
Qed.

Lemma shielded_not_metadata `{HashIter} s m : ser_ShieldedTransaction s ≠ ser_metadata m.
Proof.
  intros He. destruct (metadata_fields_are_strings m "nullifiers" (ser_list ser_bytes (sh_nullifiers s))).
  - by rewrite <-He.
  - done.
Qed.

Lemma core_inj `{HashIter} s1 s2 :
  CanonicalSignedTransaction s1 = CanonicalSignedTransaction s2 →
  st_shielded s1 = st_shielded s2 → s1 = s2.
Proof.
  pose proof ser_executor_sigs_inj. destruct s1, s2. intros H' Hs.
  sfield H' "transaction_id". sfield H' "transaction". sfield H' "total_stake".
  sfield H' "total_voters". sfield H' "leader_address". sfield H' "leader_stake".
  sfield H' "leader_hash". sfield H' "finalizer_addr". sfield H' "finalizer_sig".
  sfield H' "executor_sigs". sfield H' "proposer_key". simpl in *. by subst.
Qed.

Lemma canonical_signed_trans_split `{Rmp} `{HashIter} s b :
  canonical_signed_trans_bytes s = Ok b →
  ∃ d r, b = d ++ r ∧ rmp_enc (CanonicalSignedTransaction s) = Ok d ∧
    match st_shielded s with
    | Some h => rmp_enc (ser_ShieldedTransaction h) = Ok r
    | None => r = []
    end.
Proof.
  unfold canonical_signed_trans_bytes, Shielded_canonical_bytes, encoding_err.
  intros (d & D & B)%bind_Ok. exists d. destruct (st_shielded s).
  - apply bind_Ok in B as (r & R & [= <-]). rewrite !map_err_Ok in R. eauto.
  - injection B as <-. exists []. by rewrite app_nil_r.
Qed.

(** The signed transaction and the metadata after it are read back unambiguously. *)
Lemma trans_metadata_inj `{Rmp} `{HashIter} s1 s2 m1 m2 b1 b2 c1 c2 x y :
  canonical_signed_trans_bytes s1 = Ok b1 → canonical_signed_trans_bytes s2 = Ok b2 →
  canonical_map_bytes m1 = Ok c1 → canonical_map_bytes m2 = Ok c2 →
  b1 ++ c1 ++ x = b2 ++ c2 ++ y → s1 = s2 ∧ m1 = m2 ∧ x = y.
Proof.
  intros (d1 & r1 & -> & D1 & R1)%canonical_signed_trans_split
    (d2 & r2 & -> & D2 & R2)%canonical_signed_trans_split M1 M2 He.
  unfold canonical_map_bytes in *.
  rewrite <-!app_assoc in He. destruct (rmp_enc_app_inj _ _ _ _ _ _ D1 D2 He) as [Hc Hr].
  destruct (st_shielded s1) as [h1|] eqn:S1, (st_shielded s2) as [h2|] eqn:S2; subst.
  - destruct (rmp_enc_app_inj _ _ _ _ _ _ R1 R2 Hr) as [Hh%(inj _) Hr'].
    destruct (rmp_enc_app_inj _ _ _ _ _ _ M1 M2 Hr') as [Hm%ser_metadata_inj ?].
    split_and!; try done. apply core_inj; congruence.
  - by destruct (rmp_enc_app_inj _ _ _ _ _ _ R1 M2 Hr) as [?%shielded_not_metadata _].
  - destruct (rmp_enc_app_inj _ _ _ _ _ _ M1 R2 Hr) as [Hx _].
    by apply eq_sym, shielded_not_metadata in Hx.
  - destruct (rmp_enc_app_inj _ _ _ _ _ _ M1 M2 Hr) as [Hm%ser_metadata_inj ?].
    split_and!; try done. apply core_inj; congruence.
Qed.

Lemma hash_input_inj `{Rmp} `{HashIter} b1 b2 i :
  length (previous_hash b1) = length (previous_hash b2) →
  hash_input b1 = Ok i → hash_input b2 = Ok i → hashed_content b1 = hashed_content b2.
Proof.
  unfold hash_input. intros Hlen.
  intros (t1 & T1 & (tr1 & TR1 & (m1 & M1 & (p1 & P1 & (e1 & E1 & [= <-])%bind_Ok)%bind_Ok)%bind_Ok)%bind_Ok)%bind_Ok.
  intros (t2 & T2 & (tr2 & TR2 & (m2 & M2 & (p2 & P2 & (e2 & E2 & [= He])%bind_Ok)%bind_Ok)%bind_Ok)%bind_Ok)%bind_Ok.
  rewrite !create_hash_err_Ok in *. apply app_inj_1 in He as [Hprev He]; [|done].
  destruct (rmp_enc_app_inj _ _ _ _ _ _ T2 T1 He) as [Ht%(inj _) He1].
  destruct (trans_metadata_inj _ _ _ _ _ _ _ _ _ _ TR2 TR1 M2 M1 He1) as (Hs & Hm & He2).
  destruct (rmp_enc_app_inj _ _ _ _ _ _ P2 P1 He2) as [Hp%(inj _) He3].
  subst. apply rmp_enc_inj with (w := ser_N (blk_epoch_number b2)) in E1 as Hep%(inj _); [|done].
  unfold hashed_content. congruence.
Qed.

Lemma create_hash_eq `{Rmp} `{Sha256} `{HashIter} b1 b2 h :
  create_hash b1 = Ok h → create_hash b2 = Ok h →
  ∃ i1 i2, hash_input b1 = Ok i1 ∧ hash_input b2 = Ok i2 ∧ (i1 = i2 ∨ collision i1 i2).
Proof.
  unfold create_hash. intros (i1 & E1 & [= <-])%bind_Ok (i2 & E2 & [= He])%bind_Ok.
  exists i1, i2. split_and!; [done..|]. symmetry in He. by apply sha256_eq in He.
Qed.

Lemma hash_input_swap `{Rmp} (h1 h2 : HashIter) b : @hash_input _ h1 b = @hash_input _ h2 b.
Proof.
  unfold hash_input, canonical_map_bytes, ser_metadata, canonical_signed_trans_bytes.
  assert (@CanonicalSignedTransaction h1 (signed_trans b) = @CanonicalSignedTransaction h2 (signed_trans b)) as ->.
  { unfold CanonicalSignedTransaction. by rewrite (ser_executor_sigs_swap h1 h2). }
  by rewrite (btree_entries_str_swap h1 h2).
Qed.

(** ** Lemmas: chains *)

Section chain_lemmas.
Context `{Rmp} `{Sha256} `{HashIter}.

Lemma block_ok_hash_nonempty b : block_ok b → current_hash b ≠ [].
Proof. intros Hb%create_hash_length. by destruct (current_hash b). Qed.

Lemma linkage_ok_spec tip b : linkage_ok tip b = true ↔ previous_hash b = tip.
Proof.
  unfold linkage_ok. destruct tip; simpl; [by destruct (previous_hash b)|].
  rewrite bool_decide_eq_true. naive_solver.
Qed.

Lemma linked_snoc l b :
  linked (l ++ [b]) ↔ linked l ∧ (∀ p, last l = Some p → previous_hash b = current_hash p).
Proof.
  induction l as [|x [|y l] IH]; [naive_solver..|].
  change (previous_hash y = current_hash x ∧ linked ((y :: l) ++ [b]) ↔
    (previous_hash y = current_hash x ∧ linked (y :: l)) ∧
    (∀ p, last (y :: l) = Some p → previous_hash b = current_hash p)).
  rewrite IH. naive_solver.
Qed.

Lemma cached_tip_add c b : cached_tip (add_block c b) = current_hash b.
Proof. unfold cached_tip. simpl. by rewrite last_snoc. Qed.

Lemma chain_valid_add c b :
  chain_valid c → block_ok b → previous_hash b = cached_tip c → chain_valid (add_block c b).
Proof.
  intros [Hok Hl] Hb Hp. split; simpl.
  - apply Forall_app. by repeat constructor.
  - apply linked_snoc. split; [done|]. intros p Hlast. unfold cached_tip in Hp. by rewrite Hlast in Hp.
Qed.

Lemma chain_walk_spec prev rest :
  let ok := Forall block_ok rest ∧ linked (prev :: rest) in
  (ok → chain_walk prev true rest =
    mkChainState true (default [] (current_hash <$> last (prev :: rest)))) ∧
  (¬ ok → chain_walk prev true rest = ChainState_invalid).
Proof.
  revert prev. induction rest as [|next rest IH]; intros prev; simpl.
  { split; [done | intros []; done]. }
  destruct (create_hash next) as [h|e] eqn:Hh.
  - assert (block_ok next ↔ h = current_hash next) as Hok
      by (unfold block_ok; rewrite Hh; split; congruence).
    destruct (bool_decide_reflect (previous_hash next = current_hash prev)); simpl.
    + destruct (bool_decide_reflect (h = current_hash next)); simpl.
      * destruct (IH next) as [IH1 IH2]. rewrite Forall_cons. split; [naive_solver|].
        intros Hn. apply IH2. naive_solver.
      * rewrite Forall_cons. destruct rest; simpl; naive_solver.
    + destruct rest; simpl; naive_solver.
  - split; [|done]. rewrite Forall_cons. unfold block_ok at 1. rewrite Hh. naive_solver.
Qed.

(** The full walk: valid exactly on valid chains, where it ends at the cached tip. *)
Lemma chain_state_spec c :
  (chain_valid c → get_current_chain_state c = mkChainState true (cached_tip c)) ∧
  (¬ chain_valid c → get_current_chain_state c = ChainState_invalid).
Proof.
  unfold chain_valid, get_current_chain_state, cached_tip.
  destruct (chain c) as [|b rest]; [split; [done | intros []; done]|].
  destruct (create_hash b) as [h|e] eqn:Hh.
  - assert (block_ok b ↔ current_hash b = h) as Hok
      by (unfold block_ok; rewrite Hh; split; congruence).
    destruct (chain_walk_spec b rest) as [W1 W2]. rewrite Forall_cons.
    destruct (bool_decide_reflect (current_hash b = h)); simpl; [naive_solver|].
    destruct rest; simpl; naive_solver.
  - split; [|done]. rewrite Forall_cons. unfold block_ok at 1. rewrite Hh. naive_solver.
Qed.
End chain_lemmas.

(** ** Properties *)

Section chain_properties.
Context `{Rmp} `{Sha256} `{HashIter}.

Lemma append_cases c b :
  append_validated_block c b =
    if decide (previous_hash b = cached_tip c) then
      if decide (create_hash b = Ok (current_hash b)) then (add_block c b, Appended) else (c, InvalidHash)
    else (c, LinkageMismatch).
Proof.
  unfold append_validated_block. pose proof (linkage_ok_spec (cached_tip c) b) as Hl.
  destruct (linkage_ok (cached_tip c) b); simpl.
  - rewrite decide_True by naive_solver. destruct (create_hash b) as [h|]; [|done].
    repeat case_decide; naive_solver.
  - rewrite decide_False by naive_solver. done.
Qed.


(** C26: appending a block. The block is appended exactly when it links to the
    tip and its claimed hash is its hash; a block off the tip is ignored, a
    linked block with a wrong hash refused, both without changing the chain;
    and a valid chain stays valid. *)
Theorem append_validated_block_spec c b :
  let '(c', outcome) := append_validated_block c b in
  (chain_valid c → chain_valid c') ∧
  match outcome with
  | Appended => c' = add_block c b ∧ previous_hash b = cached_tip c ∧
      create_hash b = Ok (current_hash b) ∧ cached_tip c' = current_hash b
  | LinkageMismatch => c' = c ∧ previous_hash b ≠ cached_tip c
  | InvalidHash => c' = c ∧ previous_hash b = cached_tip c ∧ create_hash b ≠ Ok (current_hash b)
  end.
Proof.
  rewrite append_cases. repeat case_decide; simpl; split; auto.
  - intros. by apply chain_valid_add.
  - by rewrite cached_tip_add.
Qed.

(** On a valid chain the O(1) tip is the tip of the full re-hashing walk,
    and the two next-block checks agree: validation against the walk accepts
    exactly the blocks the append accepts. *)
Theorem cached_tip_agrees_with_walk c b :
  chain_valid c →
  get_current_chain_state c = mkChainState true (cached_tip c) ∧
  (validate_next_block c b = true ↔ (append_validated_block c b).2 = Appended).
Proof.
  intros Hv. destruct (chain_state_spec c) as [Hs _]. specialize (Hs Hv). split; [done|].
  unfold validate_next_block. rewrite Hs, append_cases. simpl.
  rewrite andb_true_iff, linkage_ok_spec.
  destruct (create_hash b) as [h|]; repeat case_decide; simpl;
    rewrite ?bool_decide_eq_true; naive_solver.
Qed.

(** What the blocks at a position have in common: the hashed bytes, and with them
    all that is hashed, where these can be taken apart. *)
Definition bound_at (k : nat) (b1 b2 : Block) : Prop :=
  current_hash b1 = current_hash b2 ∧ hash_input b1 = hash_input b2 ∧
  (k ≠ 0 ∨ length (previous_hash b1) = length (previous_hash b2) → hashed_content b1 = hashed_content b2).

(** Behind another block, a previous hash has the length of a digest. *)
Lemma previous_hash_length l b : Forall block_ok l → (∀ p, last l = Some p → previous_hash b = current_hash p) → l ≠ [] → length (previous_hash b) = 32.
Proof.
  intros Hok Hl Hne. destruct (last_is_Some l) as [_ [p P]]; [done|]. rewrite (Hl _ P), Forall_forall in *.
  by apply (create_hash_length p _ (Hok _ (last_Some_elem_of _ _ P))).
Qed.

(** Position by position: the same contents and hashes, or a collision of the
    hashed bytes at one position. *)
Lemma tip_binds_list l1 l2 :
  length l1 = length l2 →
  Forall block_ok l1 → Forall block_ok l2 → linked l1 → linked l2 →
  (current_hash <$> last l1) = (current_hash <$> last l2) →
  (∀ k b1 b2, l1 !! k = Some b1 → l2 !! k = Some b2 → bound_at k b1 b2) ∨
  ∃ k b1 b2 i1 i2, l1 !! k = Some b1 ∧ l2 !! k = Some b2 ∧
    hash_input b1 = Ok i1 ∧ hash_input b2 = Ok i2 ∧ collision i1 i2.
Proof.
  revert l2. induction l1 as [|x l1 IH] using rev_ind; intros l2; [by left|].
  destruct l2 as [|y l2 _] using rev_ind; [rewrite length_app; simpl; lia|].
  rewrite !length_app, !Forall_app, !linked_snoc, !last_snoc. simpl.
  intros Hlen [Hok1 [Hx _]%Forall_cons] [Hok2 [Hy _]%Forall_cons] [Hl1 Hlast1] [Hl2 Hlast2] Htip.
  assert (length l1 = length l2) as Hl by lia. assert (current_hash x = current_hash y) as Hxy by naive_solver.
  unfold block_ok in Hx, Hy. rewrite Hxy in Hx. destruct (create_hash_eq x y _ Hx Hy) as (i1 & i2 & I1 & I2 & [<-|Hcol]); [|right].
  2:{ exists (length l1), x, y, i1, i2. rewrite !lookup_app_r, Hl, Nat.sub_diag by lia. done. }
  assert (l1 ≠ [] → length (previous_hash x) = length (previous_hash y)) as Hprev.
  { intros Hne. assert (l2 ≠ []) by (intros ->; by destruct l1). by rewrite (previous_hash_length l1 x), (previous_hash_length l2 y). }
  destruct (decide (l1 = [])) as [->|Hne].
  { destruct l2; [|done]. left. intros k b1 b2 [-> <-]%list_lookup_singleton_Some [_ <-]%list_lookup_singleton_Some.
    split_and!; [done|congruence|]. intros [?|Hp]; [done|]. by eapply hash_input_inj. }
  assert (hashed_content x = hashed_content y) as Hc by (eapply hash_input_inj; eauto).
  destruct (IH l2) as [Hall|(k & b1 & b2 & j1 & j2 & K1 & K2 & Hk)]; auto.
  - destruct (last l1) as [p1|] eqn:P1; [|by apply last_None in P1]. destruct (last l2) as [p2|] eqn:P2; [|apply last_None in P2; by subst l2; destruct l1].
    simpl. rewrite <-(Hlast1 _ eq_refl), <-(Hlast2 _ eq_refl). apply (f_equal previous_hash) in Hc. simpl in Hc. by rewrite Hc.
  - left. intros k b1 b2 [K1|[K1 [K1' <-]%list_lookup_singleton_Some]]%lookup_app_Some [K2|[K2 [K2' <-]%list_lookup_singleton_Some]]%lookup_app_Some.
    + by apply Hall.
    + apply lookup_lt_Some in K1. lia.
    + apply lookup_lt_Some in K2. lia.
    + split_and!; [done|congruence|done].
  - right. exists k, b1, b2, j1, j2. rewrite !lookup_app_l by (by eapply lookup_lt_Some). done.
Qed.
End chain_properties.

(** C27: the tip binds the history. Two valid chains of the same length with the same
    tip have, at every position, the same block hash over the same hashed bytes,
    and behind the first block the same block, its finality status apart; or two
    blocks at one position exhibit a SHA-256 collision. The first block is the same
    when its previous hash has the same length in both chains: the previous hash is
    hashed without its length, so that what is hashed of a first block can be cut in
    more than one way. *)
Theorem chain_tip_binds_history `{Rmp} `{Sha256} `{HashIter} c1 c2 :
  chain_valid c1 → chain_valid c2 → get_count c1 = get_count c2 → cached_tip c1 = cached_tip c2 →
  (∀ k b1 b2, chain c1 !! k = Some b1 → chain c2 !! k = Some b2 →
     current_hash b1 = current_hash b2 ∧ hash_input b1 = hash_input b2 ∧
     (k ≠ 0 ∨ length (previous_hash b1) = length (previous_hash b2) → hashed_content b1 = hashed_content b2)) ∨
  ∃ k b1 b2 i1 i2, chain c1 !! k = Some b1 ∧ chain c2 !! k = Some b2 ∧
    hash_input b1 = Ok i1 ∧ hash_input b2 = Ok i2 ∧ collision i1 i2.
Proof.
  intros [Hok1 Hl1] [Hok2 Hl2] Hcount Htip.
  apply tip_binds_list; try done. unfold get_count, cached_tip in *.
  destruct (chain c1) as [|x l1] eqn:E1 using rev_ind; destruct (chain c2) as [|y l2] eqn:E2 using rev_ind;
    rewrite ?length_app, ?last_snoc in *; simpl in *; try lia; congruence.
Qed.

(** The block hash does not depend on the iteration order of the block's
    hash maps: every node computes the same hash. *)
Theorem create_hash_node_independent `{Rmp} `{Sha256} (h1 h2 : HashIter) b :
  @create_hash _ _ h1 b = @create_hash _ _ h2 b.
Proof. unfold create_hash. by rewrite (hash_input_swap h1 h2). Qed.

(** ** The properties at a concrete chain *)

Module ConcreteChain.
Export Concrete.
#[export] Existing Instance forward_iter.

Definition genesis : Block :=
  Eval vm_compute in default (mkBlock test_transaction ∅ [] [] 0 Optimistic [] 0) (test_block 0 []).
Definition second : Block :=
  Eval vm_compute in default genesis (test_block 1 (current_hash genesis)).
Definition two_blocks : Blockchain := mkChain [genesis; second] ∅.

Lemma two_blocks_valid : chain_valid two_blocks.
Proof. split; [|by vm_compute]. repeat constructor; by vm_compute. Qed.

Lemma cached_tip_witness :
  get_current_chain_state two_blocks = mkChainState true (cached_tip two_blocks) ∧
  (validate_next_block two_blocks second = true ↔ (append_validated_block two_blocks second).2 = Appended).
Proof. apply cached_tip_agrees_with_walk. apply two_blocks_valid. Defined.

Lemma chain_tip_witness :
  (∀ k b1 b2, chain two_blocks !! k = Some b1 → chain two_blocks !! k = Some b2 →
     current_hash b1 = current_hash b2 ∧ hash_input b1 = hash_input b2 ∧
     (k ≠ 0 ∨ length (previous_hash b1) = length (previous_hash b2) → hashed_content b1 = hashed_content b2)) ∨
  ∃ k b1 b2 i1 i2, chain two_blocks !! k = Some b1 ∧ chain two_blocks !! k = Some b2 ∧
    hash_input b1 = Ok i1 ∧ hash_input b2 = Ok i2 ∧ collision i1 i2.
Proof. apply chain_tip_binds_history; [apply two_blocks_valid..|done|done]. Defined.
End ConcreteChain.
