(* ===== verification/Float.v ===== *)
(** * IEEE-754 arithmetic as the sources use it

    [f32] and [f64] operations on the Standard Library's executable
    specification of binary floating point, the conversions from [u64], and the
    saturating [as u64] casts with and without [round()]. *)

From S2P Require Import Prelude.
From Stdlib Require Import SpecFloat.

Definition f32 : Set := spec_float.
Definition f64 : Set := spec_float.

Definition f32_add : f32 → f32 → f32 := SFadd 24 128.
Definition f32_mul : f32 → f32 → f32 := SFmul 24 128.
Definition f64_add : f64 → f64 → f64 := SFadd 53 1024.
Definition f64_mul : f64 → f64 → f64 := SFmul 53 1024.
Definition f64_div : f64 → f64 → f64 := SFdiv 53 1024.

(** Comparisons; any comparison with NaN is false. *)
Definition f_lt (x y : spec_float) : bool := SFltb x y.
Definition f_le (x y : spec_float) : bool := SFleb x y.
Definition f_gt (x y : spec_float) : bool := SFltb y x.
Definition f_ge (x y : spec_float) : bool := SFleb y x.

Definition is_finite (x : spec_float) : bool :=
  match x with S754_zero _ | S754_finite _ _ _ => true | _ => false end.

(** [n as f64], rounding to nearest even. *)
Definition f64_of_N (n : N) : f64 := binary_normalize 53 1024 (Z.of_N n) 0 false.
Definition f32_of_N (n : N) : f32 := binary_normalize 24 128 (Z.of_N n) 0 false.

(** [x.round()] of a magnitude [m * 2^e]: half away from zero. *)
Definition round_magnitude (m : positive) (e : Z) : N :=
  if Z.leb 0 e then Z.to_N (Z.shiftl (Zpos m) e)
  else Z.to_N (Z.shiftr (Zpos m + Z.shiftl 1 (- e - 1)) (- e)).

(** The magnitude cut towards zero. *)
Definition trunc_magnitude (m : positive) (e : Z) : N :=
  if Z.leb 0 e then Z.to_N (Z.shiftl (Zpos m) e) else Z.to_N (Z.shiftr (Zpos m) (- e)).

(** [as u64] saturates; NaN and negative values become zero. *)
Definition cast_with (mag : positive → Z → N) (limit : N) (x : spec_float) : N :=
  match x with
  | S754_zero _ | S754_nan => 0
  | S754_infinity true => 0
  | S754_infinity false => limit
  | S754_finite true _ _ => 0
  | S754_finite false m e => N.min limit (mag m e)
  end.

Definition round_as_u64 : spec_float → N := cast_with round_magnitude u64_max.
Definition as_u64 : spec_float → N := cast_with trunc_magnitude u64_max.

(** The constants of the sources, at each width. *)
Definition f32_zero : f32 := S754_zero false.
Definition f32_one : f32 := S754_finite false 8388608 (-23).
Definition f32_half : f32 := S754_finite false 8388608 (-24).
Definition f32_0_4 : f32 := S754_finite false 13421773 (-25).
Definition f32_0_3 : f32 := S754_finite false 10066330 (-25).
Definition f32_100 : f32 := S754_finite false 13107200 (-17).
Definition f64_zero : f64 := S754_zero false.
Definition f64_one : f64 := S754_finite false 4503599627370496 (-52).
Definition f64_1_5 : f64 := S754_finite false 6755399441055744 (-52).
Definition f64_two : f64 := S754_finite false 4503599627370496 (-51).

#[global] Instance spec_float_eq_dec : EqDecision spec_float.
Proof. solve_decision. Defined.

(** The casts stay in range. *)
Lemma cast_with_le mag limit x : (cast_with mag limit x ≤ limit)%N.
Proof. destruct x as [|[]| |[]]; simpl; lia. Qed.

Lemma round_as_u64_le x : (round_as_u64 x ≤ u64_max)%N.
Proof. apply cast_with_le. Qed.

#[export] Hint Resolve round_as_u64_le : pneu.

(** ** Integers of at most 53 bits are exact *)

Lemma digits2_iter p d :
  Zpos (digits2_pos (Pos.iter xO p d)) = (Zpos (digits2_pos p) + Zpos d)%Z.
Proof.
  induction d as [|d IH] using Pos.peano_ind; [simpl; lia|].
  rewrite Pos.iter_succ. simpl. lia.
Qed.

Lemma iter_xO p d : Zpos (Pos.iter xO p d) = (Zpos p * 2 ^ Zpos d)%Z.
Proof.
  induction d as [|d IH] using Pos.peano_ind; [simpl; lia|].
  rewrite Pos.iter_succ, Pos2Z.inj_xO, IH, Pos2Z.inj_succ, Z.pow_succ_r by lia. lia.
Qed.

Lemma round_aux_normal m e :
  Zpos (digits2_pos m) = 53%Z → (-1000 ≤ e ≤ 900)%Z →
  binary_round_aux 53 1024 false (Zpos m) e loc_Exact = S754_finite false m e.
Proof.
  intros Hd He. unfold binary_round_aux, shr_fexp, Zdigits2, fexp, emin. rewrite Hd.
  replace (Z.max (53 + e - 53) (3 - 1024 - 53) - e)%Z with 0%Z by lia. cbn [shr shr_record_of_loc shr_m loc_of_shr_record round_nearest_even]. rewrite Hd.
  replace (Z.max (53 + e - 53) (3 - 1024 - 53) - e)%Z with 0%Z by lia. cbn [shr shr_record_of_loc shr_m loc_of_shr_record round_nearest_even].
  destruct (Z.leb_spec e (1024 - 53)); [done|lia].
Qed.

Lemma f64_of_pos p :
  (Zpos (digits2_pos p) ≤ 53)%Z →
  ∃ m e, f64_of_N (Npos p) = S754_finite false m e ∧ Zpos (digits2_pos m) = 53%Z ∧
    (-52 ≤ e ≤ 0)%Z ∧ Zpos m = (Zpos p * 2 ^ (- e))%Z.
Proof.
  intros Hd. unfold f64_of_N. simpl. unfold binary_round, shl_align, fexp, emin.
  replace (Z.max (Zpos (digits2_pos p) + 0 - 53) (3 - 1024 - 53) - 0)%Z
    with (Zpos (digits2_pos p) - 53)%Z by lia.
  destruct (Zpos (digits2_pos p) - 53)%Z as [|k|k] eqn:Hk; [|lia|].
  - exists p, 0%Z. rewrite round_aux_normal by lia. split_and!; [done|lia|lia|lia|]. simpl. lia.
  - exists (Pos.iter xO p k), (Zneg k). pose proof (digits2_iter p k).
    replace (Z.max (Zpos (digits2_pos p) + 0 - 53) (3 - 1024 - 53))%Z with (Zneg k) by lia.
    rewrite round_aux_normal by lia. split_and!; [done|lia|lia|lia|]. apply iter_xO.
Qed.

Lemma f64_mul_one m e :
  Zpos (digits2_pos m) = 53%Z → (-900 ≤ e ≤ 0)%Z →
  f64_mul (S754_finite false m e) f64_one = S754_finite false m e.
Proof.
  intros Hd He. unfold f64_mul, f64_one, SFmul. simpl xorb.
  replace (m * 4503599627370496)%positive with (Pos.iter xO m 52) by (rewrite Pos.mul_comm; done).
  unfold binary_round_aux, shr_fexp, fexp, emin. cbn [Zdigits2]. rewrite digits2_iter, Hd.
  replace (Z.max (53 + 52 + (e + -52) - 53) (3 - 1024 - 53) - (e + -52))%Z with 52%Z by lia.
  cbn [shr shr_record_of_loc].
  change (iter_pos shr_1 52 _) with (Build_shr_record (Zpos m) false false). cbn [shr_m loc_of_shr_record round_nearest_even].
  replace (e + -52 + 52)%Z with e by lia. cbn [Zdigits2]. rewrite Hd.
  replace (Z.max (53 + e - 53) (3 - 1024 - 53) - e)%Z with 0%Z by lia. cbn [shr shr_record_of_loc shr_m loc_of_shr_record round_nearest_even].
  destruct (Z.leb_spec e (1024 - 53)); [done|lia].
Qed.

Lemma round_as_u64_exact m e p :
  (e ≤ 0)%Z → Zpos m = (Zpos p * 2 ^ (- e))%Z → (Npos p ≤ u64_max)%N →
  round_as_u64 (S754_finite false m e) = Npos p.
Proof.
  intros He Hm Hp. unfold round_as_u64, cast_with, round_magnitude.
  destruct (Z.leb_spec 0 e).
  - replace e with 0%Z in * by lia. simpl in *. replace m with p by lia. by apply N.min_r.
  - rewrite Z.shiftr_div_pow2, Z.shiftl_mul_pow2, Hm by lia.
    replace (2 ^ (- e))%Z with (2 * 2 ^ (- e - 1))%Z by (rewrite <-Z.pow_succ_r by lia; f_equal; lia).
    assert (0 < 2 ^ (- e - 1))%Z by (apply Z.pow_pos_nonneg; lia).
    replace ((Zpos p * (2 * 2 ^ (- e - 1)) + 1 * 2 ^ (- e - 1)) / (2 * 2 ^ (- e - 1)))%Z with (Zpos p);
      [by apply N.min_r|].
    apply (Z.div_unique _ _ _ (2 ^ (- e - 1))); lia.
Qed.

Lemma digits2_le p : (Npos p < 2 ^ 53)%N → (Zpos (digits2_pos p) ≤ 53)%Z.
Proof.
  assert (∀ p, 2 ^ (Zpos (digits2_pos p) - 1) ≤ Zpos p)%Z as Hle.
  { clear. induction p as [p IH|p IH|]; [| |done]; cbn [digits2_pos].
    - rewrite Pos2Z.inj_succ, Pos2Z.inj_xI. replace (Z.succ (Zpos (digits2_pos p)) - 1)%Z with
        (Z.succ (Zpos (digits2_pos p) - 1)) by lia. rewrite Z.pow_succ_r by lia. lia.
    - rewrite Pos2Z.inj_succ, (Pos2Z.inj_xO p). replace (Z.succ (Zpos (digits2_pos p)) - 1)%Z with
        (Z.succ (Zpos (digits2_pos p) - 1)) by lia. rewrite Z.pow_succ_r by lia.
      apply Z.mul_le_mono_nonneg_l; [done|exact IH]. }
  intros Hp. specialize (Hle p). destruct (Z.le_gt_cases (Zpos (digits2_pos p)) 53); [done|exfalso].
  assert (2 ^ 53 ≤ 2 ^ (Zpos (digits2_pos p) - 1))%Z by (apply Z.pow_le_mono_r; lia).
  change (2 ^ 53)%N with 9007199254740992%N in Hp. change (2 ^ 53)%Z with 9007199254740992%Z in *. lia.
Qed.

(** Multiplying by one and rounding back returns the integer. *)
Lemma f64_one_exact n : (n < 2 ^ 53)%N → round_as_u64 (f64_mul (f64_of_N n) f64_one) = n.
Proof.
  intros Hn. destruct n as [|p]; [done|].
  destruct (f64_of_pos p) as (m & e & -> & Hd & He & Hm); [by apply digits2_le|].
  rewrite f64_mul_one by lia. apply round_as_u64_exact; [lia|done|].
  change (2 ^ 53)%N with 9007199254740992%N in Hn. unfold u64_max. lia.
Qed.
