(* ===== verification/Environment.v ===== *)
(** * The environment (src/src/environment.rs)

    The gas cost model in fixed point over [f64] multipliers, the environment
    specification with its boot-time range checks, and the loading of a
    specification into the metadata the roles read. *)

From S2P Require Import Prelude Types Float.

Record CostModel := mkCostModel {
  base_cost : N;
  global_min_stake : N;
  admin_public_key : bytes;
  admin_tax_percentage : f64;
  amount_multiplier : gmap string f64;
  per_type_min_stake : list (NodeRegistryType * N);
  slash_fraction : f64;
}.

Definition default_amount_multiplier : gmap string f64 :=
  <["Sign" := f64_1_5]> (<["Preload" := f64_two]> (<["Process" := f64_one]> ∅)).

Definition GAS_SCALE : N := 10000.

Definition multiplier_to_fixed (multiplier : f64) : N :=
  round_as_u64 (f64_mul multiplier (f64_of_N GAS_SCALE)).

Definition gas_from_amount (amount multiplier : N) : N := (sat_mul amount multiplier / GAS_SCALE)%N.

Definition compute_gas (cm : CostModel) (amount : N) (multiplier : f64) : N :=
  let multiplier_fixed := multiplier_to_fixed multiplier in
  sat_add (base_cost cm) (gas_from_amount amount multiplier_fixed).

Definition default_global_min_stake : N := 10.
Definition default_slash_fraction : f64 := f64_one.

Definition CostModel_default : CostModel :=
  mkCostModel 1 10 [] f64_zero default_amount_multiplier [] f64_one.

Inductive EnvironmentPartitionType := PToken | PContract | PProxyAuth | PSlush | POther.

Record EnvironmentPartition := mkPartition { part_id : string; partition_type : EnvironmentPartitionType }.

(** The validators a registry can hold: the two implementations of
    [BlockValidatorSpec], and the implementations of [TransactionValidationSpec]. *)
Inductive BlockValidatorSpec := SelfSignedBlocks | ExecutedBlocks (min_stake : N).
Inductive TransactionSpec := SelfSignedTx | ExecutedTx (min_stake : N) | ShieldedTx | DeployTx | UpgradeTx.

Record EnvironmentMetadata := mkEnv {
  environment_id : string;
  environment_name : string;
  token_partition_id : string;
  contract_partition_id : option string;
  proxy_auth_partition_id : option string;
  slush_partition_id : string;
  partitions : list EnvironmentPartition;
  quorum_percentage : f32;
  override_quorum_percentage : f32;
  max_risk : f32;
  cost_model : CostModel;
  transaction_validation_specs : gmap string TransactionSpec;
  block_validator_specs : gmap string BlockValidatorSpec;
  allowed_token_types : list string;
  sym_crypto_provider : string;
  serialization_provider : string;
  shard_count : N;
  shielded_root_recency : nat;
  contract_engines : gset string;
}.

Record EnvironmentMetadataSpec := mkEnvSpec {
  es_environment_id : string;
  es_environment_name : string;
  es_partitions : list EnvironmentPartition;
  es_sym_crypto_provider : string;
  es_serialization_provider : string;
  es_quorum_percentage : f32;
  es_override_quorum_percentage : f32;
  es_max_risk : f32;
  es_cost_model : CostModel;
  es_allowed_token_types : list string;
  es_trans_validation_specs : list string;
  es_block_validation_specs : list string;
  es_shard_count : N;
  es_shielded_root_recency : nat;
  es_contract_engines : list string;
}.

(** ** Range checks at boot *)

Inductive Violation :=
| QuorumPercentage | OverrideQuorumPercentage | MaxRisk | ShardCount | AdminTaxPercentage
| AmountMultiplier (action : string).

Definition ok_quorum (v : f32) : bool := is_finite v && f_gt v f32_zero && f_le v f32_100.
Definition ok_percent (v : f32) : bool := is_finite v && f_ge v f32_zero && f_le v f32_100.
Definition ok_ratio (v : f32) : bool := is_finite v && f_ge v f32_zero && f_le v f32_one.

Definition multiplier_bad (m : f64) : bool := negb (is_finite m) || f_lt m f64_zero.

Definition admin_tax_bad (x : f64) : bool :=
  negb (is_finite x) || f_lt x f64_zero || f_gt x f64_one.

(** The violations in the order they are collected; [validate] joins their
    messages into one [Encoding] error. *)
Definition violations `{HashIter} (s : EnvironmentMetadataSpec) : list Violation :=
  (if ok_quorum (es_quorum_percentage s) then [] else [QuorumPercentage]) ++
  (if ok_percent (es_override_quorum_percentage s) then [] else [OverrideQuorumPercentage]) ++
  (if ok_ratio (es_max_risk s) then [] else [MaxRisk]) ++
  (if (es_shard_count s <? 1)%N then [ShardCount] else []) ++
  (if admin_tax_bad (admin_tax_percentage (es_cost_model s)) then [AdminTaxPercentage] else []) ++
  concat ((λ kv : string * f64, if multiplier_bad kv.2 then [AmountMultiplier kv.1] else [])
            <$> hash_iter (amount_multiplier (es_cost_model s))).

Definition spec_validate `{HashIter} (s : EnvironmentMetadataSpec) : result (list Violation) unit :=
  match violations s with [] => Ok tt | v => Err v end.

(** ** Loading a specification *)

(** Why loading fails; each is rendered as one [Encoding] message. *)
Inductive LoadError :=
| MissingPartitions (names : list string)
| UnknownTransSpec (name : string)
| UnknownEngine (name : string)
| UnknownBlockSpec (name : string).

(** The last partition of a type wins. *)
Definition partition_of (t : EnvironmentPartitionType) (l : list EnvironmentPartition) : option string :=
  foldl (λ acc p, match partition_type p, t with
                  | PToken, PToken | PContract, PContract
                  | PProxyAuth, PProxyAuth | PSlush, PSlush => Some (part_id p)
                  | _, _ => acc
                  end) None l.

Definition tx_defaults : gmap string TransactionSpec :=
  <["Executed" := ExecutedTx 0]> (<["SelfSigned" := SelfSignedTx]> ∅).

Definition block_defaults : gmap string BlockValidatorSpec :=
  <["Executed" := ExecutedBlocks 0]> (<["SelfSigned" := SelfSignedBlocks]> ∅).

Fixpoint wire_tx_specs (names : list string) (reg : gmap string TransactionSpec) :
    result LoadError (gmap string TransactionSpec) :=
  match names with
  | [] => Ok reg
  | n :: names' =>
      if String.eqb n "SelfSigned" then wire_tx_specs names' (<["SelfSigned" := SelfSignedTx]> reg)
      else if String.eqb n "Executed" then wire_tx_specs names' (<["Executed" := ExecutedTx 0]> reg)
      else Err (UnknownTransSpec n)
  end.

Fixpoint wire_block_specs (names : list string) (reg : gmap string BlockValidatorSpec) :
    result LoadError (gmap string BlockValidatorSpec) :=
  match names with
  | [] => Ok reg
  | n :: names' =>
      if String.eqb n "SelfSigned" then wire_block_specs names' (<["SelfSigned" := SelfSignedBlocks]> reg)
      else if String.eqb n "Executed" then wire_block_specs names' (<["Executed" := ExecutedBlocks 0]> reg)
      else Err (UnknownBlockSpec n)
  end.

(** [ContractEngineRegistry::register_defaults]. *)
Definition engine_defaults : gset string := {[ "Transfer"; "Spec" ]}.

Fixpoint check_engines (names : list string) : result LoadError unit :=
  match names with
  | [] => Ok tt
  | n :: names' => if decide (n ∈ engine_defaults) then check_engines names' else Err (UnknownEngine n)
  end.

Definition load_from_spec (s : EnvironmentMetadataSpec) : result LoadError EnvironmentMetadata :=
  let token_option := partition_of PToken (es_partitions s) in
  let slush_partition := partition_of PSlush (es_partitions s) in
  match token_option, slush_partition with
  | Some token_partition, Some slush =>
      specs ← wire_tx_specs (es_trans_validation_specs s) tx_defaults;
      _ ← check_engines (es_contract_engines s);
      let specs := <["UpgradeContract" := UpgradeTx]> (<["DeployContract" := DeployTx]> specs) in
      block_specs ← wire_block_specs (es_block_validation_specs s) block_defaults;
      Ok (mkEnv (es_environment_id s) (es_environment_name s) token_partition
            (partition_of PContract (es_partitions s)) (partition_of PProxyAuth (es_partitions s)) slush
            (es_partitions s) (es_quorum_percentage s) (es_override_quorum_percentage s) (es_max_risk s)
            (es_cost_model s) specs block_specs (es_allowed_token_types s) (es_sym_crypto_provider s)
            (es_serialization_provider s) (es_shard_count s) (es_shielded_root_recency s) engine_defaults)
  | tok, slush =>
      Err (MissingPartitions
             ((if tok is None then ["Token"] else []) ++ (if slush is None then ["Slush"] else [])))
  end.

(** ** Lemmas *)

Lemma multiplier_to_fixed_one : multiplier_to_fixed f64_one = 10000%N.
Proof. by vm_compute. Qed.
Lemma multiplier_to_fixed_1_5 : multiplier_to_fixed f64_1_5 = 15000%N.
Proof. by vm_compute. Qed.
Lemma multiplier_to_fixed_two : multiplier_to_fixed f64_two = 20000%N.
Proof. by vm_compute. Qed.

Lemma wire_block_specs_id names reg r :
  reg = block_defaults → wire_block_specs names reg = Ok r → r = block_defaults.
Proof.
  revert reg. induction names as [|n names IH]; intros reg -> Hw; simpl in Hw; [by simplify_eq|].
  destruct (String.eqb n "SelfSigned"); [|destruct (String.eqb n "Executed"); [|done]].
  - eapply IH; [|exact Hw]. by apply insert_id.
  - eapply IH; [|exact Hw]. by apply insert_id.
Qed.

Lemma wire_block_specs_ok names reg :
  is_ok (wire_block_specs names reg) = true ↔ Forall (λ n, n = "SelfSigned" ∨ n = "Executed") names.
Proof.
  revert reg. induction names as [|n names IH]; intros reg; simpl; [split; [constructor|done]|].
  rewrite Forall_cons. destruct (String.eqb_spec n "SelfSigned"), (String.eqb_spec n "Executed");
    rewrite ?IH; naive_solver.
Qed.

Lemma wire_tx_specs_ok names reg :
  is_ok (wire_tx_specs names reg) = true ↔ Forall (λ n, n = "SelfSigned" ∨ n = "Executed") names.
Proof.
  revert reg. induction names as [|n names IH]; intros reg; simpl; [split; [constructor|done]|].
  rewrite Forall_cons. destruct (String.eqb_spec n "SelfSigned"), (String.eqb_spec n "Executed");
    rewrite ?IH; naive_solver.
Qed.

Lemma check_engines_ok names :
  is_ok (check_engines names) = true ↔ Forall (λ n, n ∈ engine_defaults) names.
Proof.
  induction names as [|n names IH]; simpl; [split; [constructor|done]|].
  rewrite Forall_cons. case_decide; rewrite ?IH; naive_solver.
Qed.

(** ** Properties *)

(** A specification loads exactly when its token and slush partitions are
    present and every validator and engine it names is known; a loaded
    environment knows exactly the two block validators. *)
Theorem load_from_spec_fails_closed s :
  (is_ok (load_from_spec s) = true ↔
    is_Some (partition_of PToken (es_partitions s)) ∧ is_Some (partition_of PSlush (es_partitions s)) ∧
    Forall (λ n, n = "SelfSigned" ∨ n = "Executed") (es_trans_validation_specs s) ∧
    Forall (λ n, n ∈ engine_defaults) (es_contract_engines s) ∧
    Forall (λ n, n = "SelfSigned" ∨ n = "Executed") (es_block_validation_specs s)) ∧
  (∀ env, load_from_spec s = Ok env → block_validator_specs env = block_defaults).
Proof.
  unfold load_from_spec.
  rewrite <-(wire_tx_specs_ok _ tx_defaults), <-check_engines_ok, <-(wire_block_specs_ok _ block_defaults).
  destruct (partition_of PToken _) as [tp|], (partition_of PSlush _) as [sp|]; simpl;
    try (split; [split; [done | by intros ([? ?] & [? ?] & _)] | done]).
  destruct (wire_tx_specs _ _); simpl; [|split; [naive_solver|done]].
  destruct (check_engines _); simpl; [|split; [naive_solver|done]].
  destruct (wire_block_specs _ _) eqn:Hb; simpl; [|split; [naive_solver|done]].
  split; [split; eauto|]. intros env [= <-]. simpl. by eapply wire_block_specs_id.
Qed.

(** The gas charged for an amount is the exact fixed-point product at the
    default multipliers as long as [amount * multiplier] fits; past the point
    where the product saturates, the charge stops growing: at multiplier 1.0
    every amount above [u64::MAX / 10000] costs the same. *)
Theorem gas_exact_then_flat amount :
  ((amount * 20000 ≤ u64_max)%N →
    gas_from_amount amount (multiplier_to_fixed f64_one) = amount ∧
    gas_from_amount amount (multiplier_to_fixed f64_1_5) = (amount * 3 / 2)%N ∧
    gas_from_amount amount (multiplier_to_fixed f64_two) = (amount * 2)%N) ∧
  ((u64_max / 10000 < amount)%N →
    gas_from_amount amount (multiplier_to_fixed f64_one) = 1844674407370955%N).
Proof.
  rewrite multiplier_to_fixed_one, multiplier_to_fixed_1_5, multiplier_to_fixed_two.
  unfold gas_from_amount, GAS_SCALE, sat_mul. split.
  - intros Ha. rewrite !N.min_r by (unfold u64_max in *; lia). split_and!.
    + by rewrite N.div_mul.
    + replace (amount * 15000)%N with ((amount * 3) * 5000)%N by lia.
      replace 10000%N with (2 * 5000)%N by lia. by rewrite N.Div0.div_mul_cancel_r.
    + replace (amount * 20000)%N with ((amount * 2) * 10000)%N by lia. by rewrite N.div_mul.
  - intros Ha. rewrite N.min_l; [by vm_compute|].
    pose proof (N.mul_succ_div_gt u64_max 10000 ltac:(done)). lia.
Qed.
