(* ===== verification/Config.v ===== *)
(** * Configuration (src/src/config.rs)

    The part of a node's configuration the components read: its environments with
    their boot-time checks, the bounds and stake floors of the roles, and where the
    files are looked for. The JSON reader and the keystore are parameters; the
    transport's settings (address, port, peers) are left out. *)

From S2P Require Import Prelude Utf8 Text Types Float Environment.

Inductive NodeType := Full | Light.

Record NodeTypeConfig := mkTypeConfig { tc_min : nat; tc_max : nat; tc_min_stake : N }.

Record Config := mkConfig {
  cf_public_key : bytes;
  cf_rhash : bytes;
  cf_observer : bool;
  node_type : NodeType;
  node_registry_types : list NodeRegistryType;
  main_environment_id : string;
  reconciliation_partition_id : string;
  environment_metadata : gmap string EnvironmentMetadata;
  type_configs : gmap NodeRegistryType NodeTypeConfig;
}.

(** [config.json], without the transport's settings. *)
Record ConfigSpec := mkConfigSpec {
  cs_is_full_node : bool;
  cs_main_env_id : string;
  cs_reconciliation_partition_id : string;
  cs_identity_path : option string;
  cs_directory_observer : bool;
}.

(** ** Files *)

Definition CONFIG_FILE_LOCATION : string := "config.json".
Definition ENV_FILE_LOCATION : string := "/env".

Definition resolve_location (override_value : option string) (default : string) : string :=
  match override_value with
  | Some value => if bool_decide (trim (string_bytes value) = []) then default else value
  | None => default
  end.

(** What went wrong while reading an environment directory. *)
Inductive SpecError :=
| SpecIo (msg : string)
| SpecJson (msg : string)
| SpecInvalid (v : list Violation)
| SpecLoad (e : LoadError).

(** A file of the directory: its extension and what reading it gives. *)
Record SpecFile := mkSpecFile { sf_extension : option string; sf_contents : result string bytes }.

Section environments.
Context `{HashIter} (json_spec : bytes → result string EnvironmentMetadataSpec).

Fixpoint read_specs (files : list SpecFile) : result SpecError (list EnvironmentMetadataSpec) :=
  match files with
  | [] => Ok []
  | f :: files =>
      if negb (bool_decide (sf_extension f = Some "json")) then read_specs files
      else
        contents ← map_err SpecIo (sf_contents f);
        if bool_decide (contents = []) then read_specs files
        else
          spec ← map_err SpecJson (json_spec contents);
          specs ← read_specs files;
          Ok (spec :: specs)
  end.

Fixpoint load_specs (specs : list EnvironmentMetadataSpec) (m : gmap string EnvironmentMetadata)
    : result SpecError (gmap string EnvironmentMetadata) :=
  match specs with
  | [] => Ok m
  | s :: specs =>
      _ ← map_err SpecInvalid (spec_validate s);
      env ← map_err SpecLoad (load_from_spec s);
      load_specs specs (<[environment_id env := env]> m)
  end.

Definition get_environment_metadata_from (files : list SpecFile) : result SpecError (gmap string EnvironmentMetadata) :=
  specs ← read_specs files; load_specs specs ∅.
End environments.

(** ** Roles *)

Definition default_min_stake : N := 10.

Definition default_node_registry_types (is_full_node : bool) : list NodeRegistryType :=
  if is_full_node then all_types else [Committer; Sentinel; Executor; Finalizer].

Definition default_type_configs : gmap NodeRegistryType NodeTypeConfig :=
  foldl (λ m t, <[t := mkTypeConfig 1 1000 default_min_stake]> m) ∅ all_types.

(** The loop over the roles in [build]: the environment's own floors. *)
Definition override_min_stakes (env : EnvironmentMetadata) (m : gmap NodeRegistryType NodeTypeConfig)
    : gmap NodeRegistryType NodeTypeConfig :=
  foldl (λ m t,
    match (list_to_map (per_type_min_stake (cost_model env)) : gmap NodeRegistryType N) !! t with
    | Some per_type => alter (λ tc, mkTypeConfig (tc_min tc) (tc_max tc) per_type) t m
    | None => m
    end) m all_types.

(** ** [Config::build] *)

Record NodeIdentity := mkIdentity { id_public_key : result string bytes; id_rhash : bytes }.

Section build.
Context `{HashIter} (json_spec : bytes → result string EnvironmentMetadataSpec).
(** [NodeIdentity::load_or_create]. *)
Context (load_identity : string → result string NodeIdentity).

Inductive NodeBootstrapError :=
| BootSpec (msg : string)
| BootEnvironment (e : SpecError)
| BootIdentity (msg : string).

Definition build (spec : result string ConfigSpec) (env_dir : list SpecFile) : result NodeBootstrapError Config :=
  spec ← map_err BootSpec spec;
  envs ← map_err BootEnvironment (get_environment_metadata_from json_spec env_dir);
  let types := match envs !! cs_main_env_id spec with
               | Some env => override_min_stakes env default_type_configs
               | None => default_type_configs
               end in
  identity ← map_err BootIdentity (load_identity (default "node_identity.json" (cs_identity_path spec)));
  key ← map_err BootIdentity (id_public_key identity);
  Ok (mkConfig key (id_rhash identity) (cs_directory_observer spec) (if cs_is_full_node spec then Full else Light)
        (default_node_registry_types (cs_is_full_node spec)) (cs_main_env_id spec) (cs_reconciliation_partition_id spec)
        envs types).
End build.

(** ** What the components ask *)

Definition config_max_node_number (c : Config) (t : NodeRegistryType) : nat :=
  match type_configs c !! t with Some tc => tc_max tc | None => 0 end.

Definition get_min_type_stake (c : Config) (t : NodeRegistryType) : N :=
  match type_configs c !! t with Some tc => tc_min_stake tc | None => default_min_stake end.

Definition get_global_min_stake (c : Config) : N :=
  match environment_metadata c !! main_environment_id c with
  | Some env => global_min_stake (cost_model env)
  | None => default_global_min_stake
  end.

Definition meets_minimum_stake (stake global_min type_min : N) : bool := N.leb global_min stake && N.leb type_min stake.

(** Both floors of a role. *)
Definition meets_floors (c : Config) (t : NodeRegistryType) (stake : N) : bool :=
  meets_minimum_stake stake (get_global_min_stake c) (get_min_type_stake c t).

(** ** Lemmas *)

Lemma meets_floors_spec c t stake :
  meets_floors c t stake = true ↔ (get_global_min_stake c ≤ stake ∧ get_min_type_stake c t ≤ stake)%N.
Proof. unfold meets_floors, meets_minimum_stake. by rewrite andb_true_iff, !N.leb_le. Qed.

Lemma meets_floors_mono c t x y : (x ≤ y)%N → meets_floors c t x = true → meets_floors c t y = true.
Proof. rewrite !meets_floors_spec. lia. Qed.

Lemma read_specs_from `{HashIter} json_spec files specs s :
  read_specs json_spec files = Ok specs → s ∈ specs →
  ∃ f b, f ∈ files ∧ sf_extension f = Some "json" ∧ sf_contents f = Ok b ∧ json_spec b = Ok s.
Proof.
  revert specs. induction files as [|f files IH]; intros specs; cbn [read_specs].
  { intros [= <-]. by rewrite elem_of_nil. }
  case_bool_decide as Hj; cbn [negb]; [|intros Hr Hs; destruct (IH _ Hr Hs) as (g & b & ? & ?); exists g, b; set_solver].
  destruct (sf_contents f) as [b|] eqn:Hb; [|done]. simpl. case_bool_decide as He.
  { intros Hr Hs. destruct (IH _ Hr Hs) as (g & b' & ? & ?). exists g, b'. set_solver. }
  destruct (json_spec b) as [x|] eqn:Hx; [|done]. simpl. destruct (read_specs _ files) as [l|] eqn:Hl; [|done].
  intros [= <-]. rewrite elem_of_cons. intros [->|Hs]; [exists f, b; set_solver|].
  destruct (IH _ eq_refl Hs) as (g & b' & ? & ?). exists g, b'. set_solver.
Qed.

Lemma load_specs_from `{HashIter} specs m m' id env :
  load_specs specs m = Ok m' → m' !! id = Some env →
  (∃ s, s ∈ specs ∧ spec_validate s = Ok () ∧ load_from_spec s = Ok env) ∨ m !! id = Some env.
Proof.
  revert m. induction specs as [|s specs IH]; intros m; cbn [load_specs]; [intros [= <-]; by right|].
  destruct (spec_validate s) as [[]|] eqn:Hv; [|done]. simpl.
  destruct (load_from_spec s) as [x|] eqn:Hx; [|done]. simpl. intros Hl Hid.
  destruct (IH _ Hl Hid) as [(y & Hy & ?)|Hin]; [left; exists y; set_solver|].
  apply lookup_insert_Some in Hin as [[<- ->]|[_ ?]]; [left; exists s; set_solver|by right].
Qed.

(** ** Properties *)

(** Every environment a node runs with comes from a [.json] file of the directory
    whose specification passed the range checks and loaded; one file that cannot
    be read, parsed, validated or loaded stops the boot. *)
Theorem environments_are_checked `{HashIter} json_spec files envs id env :
  get_environment_metadata_from json_spec files = Ok envs → envs !! id = Some env →
  ∃ f b s, f ∈ files ∧ sf_extension f = Some "json" ∧ sf_contents f = Ok b ∧ json_spec b = Ok s ∧
    spec_validate s = Ok () ∧ load_from_spec s = Ok env.
Proof.
  unfold get_environment_metadata_from. destruct (read_specs _ _) as [specs|] eqn:Hr; [|done]. simpl.
  intros Hl Hid. destruct (load_specs_from _ _ _ _ _ Hl Hid) as [(s & Hs & ?)|Hin]; [|by rewrite lookup_empty in Hin].
  destruct (read_specs_from _ _ _ _ Hr Hs) as (f & b & ?). exists f, b, s. tauto.
Qed.

Lemma foldl_alter {A} (f : NodeRegistryType → A → A) l (d : gmap NodeRegistryType A) t :
  NoDup l → foldl (λ m x, alter (f x) x m) d l !! t = (if decide (t ∈ l) then f t else id) <$> d !! t.
Proof.
  revert d. induction l as [|x l IH]; intros d; cbn [foldl].
  { intros _. rewrite decide_False by set_solver. by rewrite option_fmap_id. }
  intros [Hx Hl]%NoDup_cons. rewrite (IH _ Hl). destruct (decide (t = x)) as [->|Hne].
  - rewrite lookup_alter_eq, decide_False, option_fmap_id, decide_True by set_solver. done.
  - rewrite lookup_alter_ne by done. by rewrite (decide_ext (t ∈ x :: l) (t ∈ l)) by set_solver.
Qed.

Lemma override_spec env t :
  (λ tc, (tc_max tc, tc_min_stake tc)) <$> override_min_stakes env default_type_configs !! t =
  Some (1000, default default_min_stake ((list_to_map (per_type_min_stake (cost_model env)) : gmap NodeRegistryType N) !! t)).
Proof.
  unfold override_min_stakes. generalize (list_to_map (per_type_min_stake (cost_model env)) : gmap NodeRegistryType N).
  intros m.
  trans ((λ tc, (tc_max tc, tc_min_stake tc)) <$>
         foldl (λ d x, alter (λ tc, mkTypeConfig (tc_min tc) (tc_max tc) (default (tc_min_stake tc) (m !! x))) x d)
           default_type_configs all_types !! t).
  - do 2 f_equal. generalize default_type_configs. induction all_types as [|x l IH]; intros d; [done|]. cbn [foldl].
    rewrite IH. f_equal. destruct (m !! x); simpl; [done|]. symmetry. apply map_eq. intros y.
    destruct (decide (x = y)) as [->|]; [|by rewrite lookup_alter_ne]. rewrite lookup_alter_eq. by destruct (d !! y) as [[]|].
  - rewrite (foldl_alter (λ x tc, mkTypeConfig (tc_min tc) (tc_max tc) (default (tc_min_stake tc) (m !! x)))) by
      (repeat constructor; set_solver). by destruct t.
Qed.

(** A built configuration's floor for a role is the one its main environment sets,
    and ten otherwise; no role holds more than a thousand nodes. *)
Theorem configured_floors `{HashIter} json_spec load_identity spec dir c t :
  build json_spec load_identity spec dir = Ok c →
  config_max_node_number c t = 1000 ∧
  get_min_type_stake c t =
    match environment_metadata c !! main_environment_id c with
    | Some env => default default_min_stake ((list_to_map (per_type_min_stake (cost_model env)) : gmap NodeRegistryType N) !! t)
    | None => default_min_stake
    end.
Proof.
  unfold build. destruct spec as [spec|]; [|done]. simpl.
  destruct (get_environment_metadata_from _ _) as [envs|]; [|done]. simpl.
  destruct (load_identity _) as [i|]; [|done]. simpl. destruct (id_public_key i) as [k|]; [|done]. simpl.
  intros [= <-]. unfold config_max_node_number, get_min_type_stake. cbn [environment_metadata main_environment_id type_configs].
  destruct (envs !! cs_main_env_id spec) as [env|]; [|by destruct t].
  pose proof (override_spec env t) as (tc & -> & Heq)%fmap_Some. by simplify_eq.
Qed.
