(* ===== verification/Validation.v ===== *)
(** * Transaction and block validation (src/src/validation, src/src/errors.rs)

    The risk score in [f32], the self-signed and executed specifications for
    transactions and for blocks, and the registry dispatch. The [hex] crate is
    an interface. *)

From S2P Require Import Prelude Interfaces Types Serialize Float Environment Crypto Transactions Chain.
From Stdlib Require Import SpecFloat.

(** ** Risk *)

Definition amount_risk (r : TransactionRiskFactor) : f32 :=
  if (1000000000 <? risk_amount r)%N then f32_one
  else if (1000000 <? risk_amount r)%N then f32_half
  else f32_zero.

Definition party_risk (r : TransactionRiskFactor) : f32 :=
  match affected_parties r with
  | 0 | 1 => f32_zero
  | 2 => f32_half
  | _ => f32_one
  end.

Definition score (r : TransactionRiskFactor) : f32 :=
  let complexity_risk := if is_contract r || is_multi_party r then f32_one else f32_half in
  f32_add (f32_add (f32_mul (amount_risk r) f32_0_4) (f32_mul (party_risk r) f32_0_3))
    (f32_mul complexity_risk f32_0_3).

(** [str::contains]. *)
Definition str_contains (sub s : string) : bool :=
  match String.index 0 sub s with Some _ => true | None => false end.

(** [calculate_risk] of both specifications. *)
Definition calculate_risk (t : Transaction) : TransactionRiskFactor :=
  mkRisk (if is_nil (tx_receiver t) then 1 else 2) (default 0%N (tx_amount t))
    (str_contains "Contract" (tx_action t)) false.

(** ** The [hex] crate *)

Class Hex := {
  hex_encode : bytes → string;
  hex_decode : string → option bytes;
  hex_round b : Forall (λ x, x < 256)%N b → hex_decode (hex_encode b) = Some b;
}.

(** ** Transaction specifications *)

Definition SelfSigned_validate `{Hex} (t : Transaction) (token : Token) :
    result PneumaticError TransactionValidationResult :=
  match tok_metadata token !! "owner" with
  | None => Err (Validation [NotTokenOwner])
  | Some hex_owner =>
      match hex_decode hex_owner with
      | None => Err (Validation [NotTokenOwner])
      | Some token_owner =>
          if decide (tx_sender t = token_owner)
          then Ok (validation_valid [] (calculate_risk t))
          else Err (Validation [NotTokenOwner])
      end
  end.

Definition executed_failures (t : Transaction) : list ValidationFailureReason :=
  (if is_nil (tx_sender t) then [SenderMissing] else []) ++
  (match tx_amount t with None | Some 0%N => [InvalidAmount] | _ => [] end) ++
  (if decide (tx_sequence_number t = 0) then [InvalidNonce] else []).

Definition Executed_validate (t : Transaction) (env : EnvironmentMetadata) :
    result PneumaticError TransactionValidationResult :=
  match executed_failures t with
  | (_ :: _) as failures => Err (Validation failures)
  | [] =>
      let risk := calculate_risk t in
      if f_gt (score risk) (max_risk env) then Err (Validation [RiskExceedsThreshold])
      else Ok (validation_valid [] risk)
  end.

(** ** Block specifications *)

Inductive BlockVerdict := Valid | Invalid (reasons : list ValidationFailureReason).

Section blocks.
Context `{Rmp} `{Sha256} `{HashIter}.

Definition SelfSigned_validate_block (b : Block) (token : Token) : result PneumaticError BlockVerdict :=
  if negb (validate_next_block (blockchain token) b) then Err (Validation [NotSelfVerified])
  else if negb (is_self_verified token) then Err (Validation [NotSelfVerified])
  else Ok Valid.

Definition Executed_validate_block (b : Block) : result PneumaticError BlockVerdict :=
  if is_nil (tx_result_hash (st_transaction (signed_trans b))) then Err (Validation [MissingResultHash])
  else if decide (st_executor_sigs (signed_trans b) = ∅) then Err (Validation [MissingExecutorSignatures])
  else if is_nil (ts_signature (st_finalizer_sig (signed_trans b)))
       then Err (Validation [MissingFinalizerSignature])
  else Ok Valid.

(** Dynamic dispatch on a registered validator. *)
Definition spec_validate_block (spec : BlockValidatorSpec) (b : Block) (token : Token) :
    result PneumaticError BlockVerdict :=
  match spec with
  | SelfSignedBlocks => SelfSigned_validate_block b token
  | ExecutedBlocks _ => Executed_validate_block b
  end.

(** The result of [Token::validate_block]: [Ok tt] is [BlockValidationResult::Ok]. *)
Definition validate_block (token : Token) (b : Block) (env : EnvironmentMetadata) :
    result BlockValidationError unit :=
  if negb (validate_next_block (blockchain token) b) then Err ChainLinkage
  else
    let validator_name :=
      if String.eqb (block_validation_spec_name token) EmptyString
      then default EmptyString (tok_metadata token !! "validator_name")
      else block_validation_spec_name token in
    match block_validator_specs env !! validator_name with
    | None => Err NoValidatorRegistered
    | Some spec =>
        match spec_validate_block spec b token with
        | Ok Valid => Ok tt
        | Ok (Invalid reasons) => Err (InvalidBlock reasons)
        | Err (Validation reasons) => Err (InvalidBlock reasons)
        | Err _ => Err (InvalidBlock [])
        end
    end.
End blocks.

(** ** Properties *)


(** An executed transaction is admitted exactly when it has a sender, a
    positive amount, a nonzero sequence number and a risk score not above the
    environment's limit. When a field check fails, all failed checks are
    reported and the risk gate is not reached. *)
Theorem executed_admission t env :
  (is_ok (Executed_validate t env) = true ↔
    tx_sender t ≠ [] ∧ (∃ a, tx_amount t = Some a ∧ (0 < a)%N) ∧ tx_sequence_number t ≠ 0 ∧
    f_gt (score (calculate_risk t)) (max_risk env) = false) ∧
  (∀ reasons, Executed_validate t env = Err (Validation reasons) →
    reasons = [RiskExceedsThreshold] ∨
    (reasons ≠ [] ∧ (SenderMissing ∈ reasons ↔ tx_sender t = []) ∧
     (InvalidAmount ∈ reasons ↔ default 0%N (tx_amount t) = 0%N) ∧
     (InvalidNonce ∈ reasons ↔ tx_sequence_number t = 0))).
Proof.
  unfold Executed_validate, executed_failures.
  destruct (tx_sender t), (tx_amount t) as [[|a]|]; simpl; destruct (decide (tx_sequence_number t = 0));
    simpl; try destruct (f_gt _ _) eqn:?; simpl; (split; [naive_solver lia|]);
    intros reasons Hr; simplify_eq; auto; right;
    rewrite ?elem_of_cons, ?elem_of_nil; naive_solver.
Qed.

(** The risk score lies between 0.15 and 1.0, so a limit of 1.0 admits
    every risk and no score is NaN. *)
Theorem score_range r :
  f_le f32_zero (score r) = true ∧ f_gt (score r) f32_one = false ∧
  f_le (S754_finite false 10066330 (-26)) (score r) = true.
Proof.
  unfold score, amount_risk, party_risk.
  destruct (1000000000 <? risk_amount r)%N, (1000000 <? risk_amount r)%N,
    (affected_parties r) as [|[|[|n]]], (is_contract r || is_multi_party r); by vm_compute.
Qed.

(** ** A concrete instance *)

Module ConcreteHex.
(** Each byte as one character. *)
#[export, refine] Instance char_hex : Hex := {|
  hex_encode b := foldr (λ x s, String (Ascii.ascii_of_N x) s) EmptyString b;
  hex_decode s := Some (string_bytes s);
|}.
Proof. intros b Hb. f_equal. induction Hb as [|x b Hx _ IH]; [done|]. simpl. by rewrite IH, Ascii.N_ascii_embedding. Defined.
End ConcreteHex.
