(* ===== verification/Keystore.v ===== *)
(** * The keystore (src/src/rns/identity.rs)

    A node's two identities in one file: loading, creation, and the write that
    replaces the file. Operations on the file system may fail, and the process may
    stop between any two of them or in the middle of a copy or a write: the model
    keeps every state the disk goes through. A path is its directory and its name;
    the mode of a file is not modelled, nor are the texts of wrapped errors. *)

From S2P Require Import Prelude Steps Utf8 Text Interfaces Types Crypto Validation.
From stdpp Require Import pretty.

(** ** What is stored *)

(** [rns_crypto::identity::Identity]: the private key restores the identity. *)
Class RnsIdentity := {
  rns_identity : Type;
  rns_from_private : bytes → rns_identity;
  rns_public : rns_identity → option bytes;
  rns_private : rns_identity → option bytes;
  rns_restored i sk : rns_private i = Some sk →
    length sk = 64 ∧ Forall (λ x, x < 256)%N sk ∧ rns_public (rns_from_private sk) = rns_public i;
}.

Record IdentityFile := mkIdentityFile {
  f_rns_private_key : string;
  f_ed25519_seed : string;
  f_mldsa_secret_key : string;
  f_mldsa_public_key : string;
  f_mlkem_secret_key : string;
  f_mlkem_public_key : string;
}.

(** serde_json on the file: its output is text, and is read back. *)
Class IdentityJson := {
  identity_text : IdentityFile → result string bytes;
  identity_parse : bytes → result string IdentityFile;
  identity_read f b : identity_text f = Ok b → utf8_valid (length b) b = true ∧ identity_parse b = Ok f;
}.

Definition MLDSA_SK_LEN : nat := 2560.
Definition MLKEM_SK_LEN : nat := 2400.

(** A path: its parent and its file name, where it has them. *)
Record path := mkPath { p_parent : option string; p_name : option string }.
Definition join (dir name : string) : string :=
  if String.eqb dir "" then name else if String.eqb dir "/" then "/" +:+ name else dir +:+ "/" +:+ name.
Definition display (p : path) : string :=
  match p_parent p, p_name p with
  | Some d, Some n => join d n
  | Some d, None => d
  | None, Some n => n
  | None, None => ""
  end.

(** The name without its last extension. *)
Definition file_stem (name : string) : string :=
  let b := string_bytes name in
  match split_byte 46 (rev b) with
  | ext :: _ :: _ => match rev (drop (S (length ext)) (rev b)) with [] => name | stem => bytes_string stem end
  | _ => name
  end.

Definition backup_path_for (p : path) : option string :=
  name ← p_name p; parent ← p_parent p; Some (join parent (name +:+ ".bak")).

Definition unique_temp_path (parent stem : string) (pid counter : N) : string :=
  join parent (stem +:+ "." +:+ pretty pid +:+ "-" +:+ pretty counter +:+ ".tmp").

(** ** The disk *)

(** What an operation that fails reports, and how much of a copy or a write was done. *)
Record fault := mkFault { f_error : string; f_done : nat }.
Abbreviation disk := (gmap string bytes).
Record World := mkWorld { files : disk; faults : list (option fault); history : list disk; temp_counter : N }.

Definition content (w : World) (p : string) : option bytes := files w !! p.
Definition put_files (d : disk) (seen : list disk) (w : World) : World := mkWorld d (faults w) (history w ++ seen) (temp_counter w).
Definition next_fault (w : World) : option fault := mjoin (head (faults w)).
Definition drop_fault (w : World) : World := mkWorld (files w) (tail (faults w)) (history w) (temp_counter w).

(** An operation that is done at once, or not at all. *)
Definition atomically {E} (wrap : string → E) (f : disk → disk) : step World E () := λ w,
  match next_fault w with
  | Some e => Some (drop_fault w, Err (wrap (f_error e)))
  | None => Some (put_files (f (files w)) [f (files w)] (drop_fault w), Ok ())
  end.

(** Bytes written to a file one after the other: every prefix is there at some time. *)
Definition prefixes (d : disk) (p : string) (b : bytes) (n : nat) : list disk := (λ k, <[p := take k b]> d) <$> seq 0 (S n).
Definition streams {E} (wrap : string → E) (p : string) (b : bytes) : step World E () := λ w,
  match next_fault w with
  | Some e =>
      let n := Nat.min (f_done e) (length b) in
      Some (put_files (<[p := take n b]> (files w)) (prefixes (files w) p b n) (drop_fault w), Err (wrap (f_error e)))
  | None => Some (put_files (<[p := b]> (files w)) (prefixes (files w) p b (length b)) (drop_fault w), Ok ())
  end.

Section keystore.
Context `{Hex} `{Sha256} `{RnsIdentity} `{IdentityJson}.

Record NodeIdentity := mkNodeIdentity { rns : rns_identity; ed25519 : Ed25519Provider; rhash : bytes }.

Definition rhash_from_public_key (k : bytes) : bytes := take 16 (sha256 k).

Definition keystore_recovery_hint (p : path) (d : disk) : string :=
  match p_name p, p_parent p with
  | Some name, Some parent =>
      let bak := join parent (name +:+ ".bak") in
      if bool_decide (is_Some (d !! bak)) then
        "A previous keystore backup may exist at " +:+ bak +:+ " — restore it with `cp " +:+ bak +:+ " " +:+ display p
        +:+ "` and restart, or re-import the keys from a trusted source."
      else "No backup is available to restore. Do not regenerate on a running node — that orphans the node's on-chain stake. Recover the keys from a secure offline copy or a trusted peer, or regenerate only on a fresh/unstaked node."
  | _, _ => "No backup path could be derived for this keystore. Recover the keys from a secure offline copy or a trusted peer; do not regenerate on a running node."
  end.

(** ** Loading *)

Definition corrupt (what : string) (p : path) (hint : string) : PneumaticError :=
  CryptoError ("corrupt " +:+ what +:+ " in " +:+ display p +:+ "; " +:+ hint).
Definition key_bytes (what : string) (p : path) (hint text : string) : result PneumaticError bytes := ok_or (corrupt what p hint) (hex_decode text).
Definition of_length (n : nat) (what : string) (p : path) (hint : string) (b : bytes) : result PneumaticError bytes :=
  if Nat.eqb (length b) n then Ok b
  else Err (CryptoError (what +:+ " in " +:+ display p +:+ " must be " +:+ pretty n +:+ " bytes; " +:+ hint)).

(** [from_bytes] of a post-quantum key checks the length; of the error only its name
    is kept. *)
Definition pq_from_bytes (n : nat) (what : string) (b : bytes) : result PneumaticError bytes :=
  if Nat.eqb (length b) n then Ok b else Err (CryptoError (what +:+ ": BadLength")).

(** [from_persisted], with the X25519 secret it draws. *)
Definition from_persisted (x25519 ed_seed mldsa_sk mldsa_pk mlkem_sk mlkem_pk : bytes) : result PneumaticError Ed25519Provider :=
  mldsa_sk ← pq_from_bytes MLDSA_SK_LEN "ML-DSA-44 secret key" mldsa_sk;
  mldsa_pk ← pq_from_bytes MLDSA_PK_LEN "ML-DSA-44 public key" mldsa_pk;
  mlkem_sk ← pq_from_bytes MLKEM_SK_LEN "ML-KEM-768 secret key" mlkem_sk;
  mlkem_pk ← pq_from_bytes MLKEM_PK_LEN "ML-KEM-768 public key" mlkem_pk;
  Ok (mkEd25519Provider ed_seed x25519 (mldsa_pk, mldsa_sk) (mlkem_pk, mlkem_sk)).

Definition load_file (p : path) (hint : string) (x25519 : bytes) (file : IdentityFile) : result PneumaticError NodeIdentity :=
  rns_sk ← key_bytes "RNS private key" p hint (f_rns_private_key file);
  ed_seed ← key_bytes "Ed25519 seed" p hint (f_ed25519_seed file);
  rns_sk ← of_length 64 "RNS private key" p hint rns_sk;
  ed_seed ← of_length 32 "Ed25519 seed" p hint ed_seed;
  mldsa_sk ← key_bytes "ML-DSA-44 secret key" p hint (f_mldsa_secret_key file);
  mldsa_pk ← key_bytes "ML-DSA-44 public key" p hint (f_mldsa_public_key file);
  mlkem_sk ← key_bytes "ML-KEM-768 secret key" p hint (f_mlkem_secret_key file);
  mlkem_pk ← key_bytes "ML-KEM-768 public key" p hint (f_mlkem_public_key file);
  mldsa_sk ← of_length MLDSA_SK_LEN "ML-DSA-44 secret key" p hint mldsa_sk;
  mldsa_pk ← of_length MLDSA_PK_LEN "ML-DSA-44 public key" p hint mldsa_pk;
  mlkem_sk ← of_length MLKEM_SK_LEN "ML-KEM-768 secret key" p hint mlkem_sk;
  mlkem_pk ← of_length MLKEM_PK_LEN "ML-KEM-768 public key" p hint mlkem_pk;
  let rns := rns_from_private rns_sk in
  rns_pub ← ok_or (CryptoError ("identity file " +:+ display p +:+ " is internally inconsistent: no public key derived; " +:+ hint)) (rns_public rns);
  ed25519 ← from_persisted x25519 ed_seed mldsa_sk mldsa_pk mlkem_sk mlkem_pk;
  Ok (mkNodeIdentity rns ed25519 (rhash_from_public_key rns_pub)).

Definition load (p : path) (x25519 : bytes) : step World PneumaticError NodeIdentity := λ w,
  let unread e := CryptoError ("failed to read identity file " +:+ display p +:+ ": " +:+ e) in
  match next_fault w, content w (display p) with
  | Some e, _ => Some (drop_fault w, Err (unread (f_error e)))
  | None, None => Some (drop_fault w, Err (unread "not found"))
  | None, Some raw =>
      let hint := keystore_recovery_hint p (files w) in
      Some (drop_fault w,
        if negb (utf8_valid (length raw) raw) then Err (unread "stream did not contain valid UTF-8")
        else match identity_parse raw with
             | Err _ => Err (CryptoError ("corrupt identity file " +:+ display p +:+ "; refusing to regenerate. " +:+ hint))
             | Ok file => load_file p hint x25519 file
             end)
  end.

(** ** Writing *)

Definition identity_file (i : NodeIdentity) : result PneumaticError IdentityFile :=
  rns_sk ← ok_or (CryptoError "RNS key generation: no private key") (rns_private (rns i));
  let e := ed25519 i in
  Ok (mkIdentityFile (hex_encode rns_sk) (hex_encode (signing_seed e)) (hex_encode (snd (mldsa_keypair e)))
        (hex_encode (fst (mldsa_keypair e))) (hex_encode (snd (mlkem_keypair e))) (hex_encode (fst (mlkem_keypair e)))).

Definition fresh_counter : step World PneumaticError N := λ w,
  Some (mkWorld (files w) (faults w) (history w) (temp_counter w + 1), Ok (temp_counter w)).

Definition backup (p : path) : step World PneumaticError () := λ w,
  match files w !! display p with
  | None => Some (w, Ok ())
  | Some old =>
      match backup_path_for p with
      | None => Some (w, Err (CryptoError ("identity file " +:+ display p +:+ " has no recognizable name; cannot back up")))
      | Some bak => streams (λ e, CryptoError ("identity backup: " +:+ e)) bak old w
      end
  end.

Definition temp_error (e : string) : PneumaticError := CryptoError ("identity temp file: " +:+ e).

(** The temporary file is removed when the write does not end in the rename. A removal
    that fails is not reported. *)
Definition guarded (tmp : string) (m : step World PneumaticError ()) : step World PneumaticError () := λ w,
  match m w with
  | Some (w, Err e) =>
      match atomically temp_error (delete tmp) w with Some (w, _) => Some (w, Err e) | None => None end
  | r => r
  end.

(** The rename takes the file out of the guard before it is tried. *)
Definition replace_with (tmp dest : string) (raw : bytes) : step World PneumaticError () :=
  _ ← atomically temp_error (<[tmp := []]>);
  _ ← guarded tmp (_ ← streams temp_error tmp raw; atomically temp_error id);
  atomically (λ e, CryptoError ("identity file: " +:+ e)) (λ d, <[dest := default ([] : bytes) (d !! tmp)]> (delete tmp d)).

Definition write_raw (pid : N) (p : path) (raw : bytes) : step World PneumaticError () :=
  let parent := default "." (p_parent p) in
  _ ← (if String.eqb parent "" then mret () else atomically (λ e, CryptoError ("identity dir: " +:+ e)) id);
  _ ← backup p;
  n ← fresh_counter;
  let stem := from_option file_stem "node_identity" (p_name p) in
  replace_with (unique_temp_path parent stem pid n) (display p) raw.

Definition write_file (pid : N) (p : path) (i : NodeIdentity) : step World PneumaticError () :=
  file ← of_result (identity_file i);
  raw ← of_result (map_err Encoding (identity_text file));
  write_raw pid p raw.

(** The keys are drawn by the caller of the model. *)
Definition create_and_persist (pid : N) (p : path) (fresh : rns_identity) (keys : result string Ed25519Provider) : step World PneumaticError NodeIdentity :=
  rns_pub ← of_result (ok_or (CryptoError "RNS key generation: no public key") (rns_public fresh));
  ed25519 ← of_result (map_err (λ e, CryptoError ("Ed25519 seed: " +:+ e)) keys);
  let identity := mkNodeIdentity fresh ed25519 (rhash_from_public_key rns_pub) in
  _ ← write_file pid p identity;
  mret identity.

Definition load_or_create (pid : N) (p : path) (x25519 : bytes) (fresh : rns_identity) (keys : result string Ed25519Provider)
    : step World PneumaticError NodeIdentity := λ w,
  if bool_decide (is_Some (content w (display p))) then load p x25519 w else create_and_persist pid p fresh keys w.
End keystore.

(** ** Reasoning about interruptions *)

(** From a disk with [P], every disk on the way has [I], and one with [Q] is reached on
    success. *)
Definition passes {E A} (P : disk → Prop) (m : step World E A) (I Q : disk → Prop) : Prop :=
  ∀ w w' r, m w = Some (w', r) → P (files w) →
    (∃ seen, history w' = history w ++ seen ∧ Forall I seen) ∧ I (files w') ∧ (∀ a, r = Ok a → Q (files w')).

Lemma passes_bind {E A B} P Q R I (m : step World E A) (f : A → step World E B) :
  passes P m I Q → (∀ a, passes Q (f a) I R) → passes P (m ≫= f) I R.
Proof.
  intros Hm Hf w w' r (w1 & r1 & H1 & H2)%step_bind_inv HP. destruct (Hm _ _ _ H1 HP) as ((s1 & Hh1 & Hs1) & HI & HQ). destruct r1 as [a|e].
  - destruct (Hf a _ _ _ H2 (HQ a eq_refl)) as ((s2 & Hh2 & Hs2) & HI2 & HR). split; [|done]. exists (s1 ++ s2). split; [by rewrite Hh2, Hh1, app_assoc|].
    by apply Forall_app_2.
  - destruct H2 as [-> ->]. split; [by exists s1|]. split; [done|]. done.
Qed.

Lemma passes_weaken {E A} (P P' I Q Q' : disk → Prop) (m : step World E A) :
  passes P m I Q → (∀ d, P' d → P d) → (∀ d, Q d → Q' d) → passes P' m I Q'.
Proof. intros Hm HP HQ w w' r Hr HP'. destruct (Hm _ _ _ Hr (HP _ HP')) as (? & ? & Hq). split_and!; [done..|]. intros a Ha. by eapply HQ, Hq. Qed.

Lemma passes_quiet {E A} (P I : disk → Prop) (m : step World E A) :
  (∀ d, P d → I d) → (∀ w w' r, m w = Some (w', r) → files w' = files w ∧ history w' = history w) → passes P m I P.
Proof.
  intros HI Hm w w' r Hr HP. destruct (Hm _ _ _ Hr) as [-> ->]. split; [exists []; by rewrite app_nil_r|]. split; [by apply HI|done].
Qed.

Lemma passes_atomically {E} (P I Q : disk → Prop) (wrap : string → E) f :
  (∀ d, P d → I d) → (∀ d, P d → I (f d) ∧ Q (f d)) → passes P (atomically wrap f) I Q.
Proof.
  intros HI Hf w w' r Hr HP. unfold atomically in Hr. destruct (next_fault w).
  - injection Hr as <- <-. split; [exists []; by rewrite app_nil_r|]. split; [by apply HI|done].
  - injection Hr as <- <-. destruct (Hf _ HP). split; [|by split]. exists [f (files w)]. split; [done|]. by constructor.
Qed.

Lemma passes_streams {E} (P I Q : disk → Prop) (wrap : string → E) p b :
  (∀ d k, P d → I (<[p := take k b]> d)) → (∀ d, P d → Q (<[p := b]> d)) → passes P (streams wrap p b) I Q.
Proof.
  intros HI HQ w w' r Hr HP. unfold streams in Hr.
  assert (∀ n, Forall I (prefixes (files w) p b n)) as Hpre.
  { intros n. apply Forall_fmap, Forall_forall. intros k _. by apply HI. }
  destruct (next_fault w); injection Hr as <- <-; cbn [put_files files history].
  - split; [by eexists|]. split; [by apply HI|done].
  - split; [by eexists|]. split; [rewrite <-(take_ge b (length b)) by lia; by apply HI|]. intros _ _. by apply HQ.
Qed.

Lemma passes_guarded (P I Q : disk → Prop) tmp m :
  passes P m I Q → (∀ d, I d → I (delete tmp d)) → passes P (guarded tmp m) I Q.
Proof.
  intros Hm Hd w w' r Hr HP. unfold guarded in Hr. destruct (m w) as [[w1 [a|e]]|] eqn:E; [|..|done].
  - injection Hr as <- <-. by apply (Hm _ _ _ E).
  - destruct (Hm _ _ _ E HP) as ((s1 & Hh1 & Hs1) & HI & _). destruct (atomically temp_error (delete tmp) w1) as [[w2 r2]|] eqn:E2; [|done]. injection Hr as <- <-.
    destruct (passes_atomically I I I temp_error (delete tmp) (λ d H, H) (λ d H, conj (Hd d H) (Hd d H)) _ _ _ E2 HI) as ((s2 & Hh2 & Hs2) & HI2 & _).
    split; [|done]. exists (s1 ++ s2). split; [by rewrite Hh2, Hh1, app_assoc|]. by apply Forall_app_2.
Qed.

(** ** Lemmas: the files of a write are apart *)

Lemma join_inj dir a b : join dir a = join dir b → a = b.
Proof. unfold join. destruct (String.eqb dir ""); [done|]. destruct (String.eqb dir "/"); [by intros E%(inj (String.append "/"))|]. intros E. apply (inj (String.append dir)) in E. by apply (inj (String.append "/")) in E. Qed.

Lemma split_byte_head c b : ∃ l ls, split_byte c b = l :: ls ∧ (c ∉ l) ∧ (ls = [] → b = l) ∧ (ls ≠ [] → ∃ r, b = l ++ c :: r).
Proof.
  induction b as [|x b (l & ls & IH & Hc & H1 & H2)]; [exists [], []; split_and!; [done|apply not_elem_of_nil|done|done]|].
  cbn [split_byte]. destruct (N.eqb_spec x c) as [->|Hx].
  - exists [], (split_byte c b). split_and!; [done|apply not_elem_of_nil| |by intros _; exists b]. rewrite IH. done.
  - rewrite IH. exists (x :: l), ls. split_and!; [done| |intros ->; by rewrite <-H1|].
    + apply not_elem_of_cons. split; [congruence|done].
    + intros Hne. destruct (H2 Hne) as [r ->]. by exists r.
Qed.

Lemma bytes_string_round b : Forall (λ x, x < 256)%N b → string_bytes (bytes_string b) = b.
Proof. induction 1 as [|x b Hx _ IH]; [done|]. simpl. by rewrite IH, Ascii.N_ascii_embedding. Qed.
Lemma string_bytes_wf s : Forall (λ x, x < 256)%N (string_bytes s).
Proof. induction s as [|c s IH]; constructor; [apply Ascii.N_ascii_bounded|done]. Qed.

(** A stem is the whole name, or what is in front of its last dot. *)
Lemma file_stem_spec name : file_stem name = name ∨ ∃ ext, string_bytes name = string_bytes (file_stem name) ++ 46%N :: ext ∧ (46%N ∉ ext).
Proof.
  unfold file_stem. destruct (split_byte_head 46 (rev (string_bytes name))) as (l & ls & -> & Hc & _ & H2). destruct ls as [|l2 ls]; [by left|].
  destruct (H2 ltac:(done)) as [r Hr]. rewrite Hr.
  assert (string_bytes name = rev r ++ 46%N :: rev l) as Hname.
  { rewrite <-(rev_involutive (string_bytes name)), Hr, rev_app_distr. cbn [rev]. by rewrite <-app_assoc. }
  replace (l ++ 46%N :: r) with ((l ++ [46%N]) ++ r) by (by rewrite <-app_assoc).
  replace (S (length l)) with (length (l ++ [46%N])) by (rewrite length_app; cbn; lia). rewrite drop_app_length.
  destruct (rev r) as [|y s]; [by left|]. right. exists (rev l). split.
  - pose proof (string_bytes_wf name) as Hwf. rewrite Hname in Hwf. apply Forall_app in Hwf as [Hwf _]. by rewrite bytes_string_round.
  - by rewrite list_elem_of_In, <-in_rev, <-list_elem_of_In.
Qed.

Lemma temp_is_apart dir name pid n : unique_temp_path dir (file_stem name) pid n ≠ join dir name.
Proof.
  intros E%join_inj. apply (f_equal string_bytes) in E. rewrite !string_bytes_app in E. destruct (file_stem_spec name) as [Hs|(ext & Hs & Hext)].
  - rewrite Hs in E. apply (f_equal length) in E. rewrite !length_app in E. cbn in E. lia.
  - rewrite Hs in E. apply app_inv_head, (f_equal tail) in E. change (string_bytes ".") with [46%N] in E. cbn [tail app] in E. apply Hext. rewrite <-E.
    change (string_bytes ".tmp") with (46%N :: string_bytes "tmp"). rewrite !elem_of_app. do 3 right. left.
Qed.

Lemma backup_is_apart dir name : join dir (name +:+ ".bak") ≠ join dir name.
Proof.
  intros E%join_inj. apply (f_equal string_bytes), (f_equal length) in E. rewrite string_bytes_app, length_app in E. cbn in E. lia.
Qed.

Lemma backup_is_no_temp dir name stem pid n : join dir (name +:+ ".bak") ≠ unique_temp_path dir stem pid n.
Proof.
  intros E%join_inj. apply (f_equal string_bytes) in E. rewrite !string_bytes_app in E. apply (f_equal last) in E.
  change (string_bytes ".bak") with (string_bytes ".ba" ++ [107%N]) in E. change (string_bytes ".tmp") with (string_bytes ".tm" ++ [112%N]) in E.
  rewrite !app_assoc, !last_snoc in E. discriminate E.
Qed.

(** ** Properties *)

Section properties.
Context `{Hex} `{Sha256} `{RnsIdentity} `{IdentityJson}.
Context (dir name : string) (pid : N).
Abbreviation keyfile := (mkPath (Some dir) (Some name)).
Abbreviation bak := (join dir (name +:+ ".bak")).

(** What the disk holds for a keystore that [raw] replaces: still the old file, or the
    new one with the old one as its backup. *)
Definition intact (old : option bytes) (raw : bytes) (d : disk) : Prop :=
  d !! join dir name = old ∨ (d !! join dir name = Some raw ∧ ∀ o, old = Some o → d !! bak = Some o).

Section write.
Context (old : option bytes) (raw : bytes).
Abbreviation before := (λ d : disk, d !! join dir name = old).
Abbreviation saved := (λ d : disk, d !! join dir name = old ∧ ∀ o, old = Some o → d !! bak = Some o).

Lemma backup_passes : passes before (backup keyfile) (intact old raw) saved.
Proof.
  intros w w' r Hr Hb. unfold backup in Hr. cbn [display p_parent p_name] in Hr. rewrite Hb in Hr. destruct old as [o|] eqn:Ho.
  - change (backup_path_for keyfile) with (Some bak) in Hr. rewrite <-Ho in *.
    refine (passes_streams before (intact old raw) saved _ bak o _ _ w w' r Hr Hb).
    + intros d k Hd. left. rewrite lookup_insert_ne by apply backup_is_apart. by rewrite Hd.
    + intros d Hd. rewrite lookup_insert_ne by apply backup_is_apart. split; [by rewrite Hd|]. intros o' Ho'. rewrite Ho in Ho'. injection Ho' as <-. apply lookup_insert_eq.
  - injection Hr as <- <-. split; [exists []; by rewrite app_nil_r|]. split; [by left|]. intros _ _. by split.
Qed.

Lemma replace_passes n :
  passes saved (replace_with (unique_temp_path dir (file_stem name) pid n) (join dir name) raw) (intact old raw) (λ d, d !! join dir name = Some raw).
Proof.
  set (tmp := unique_temp_path dir (file_stem name) pid n). pose proof (temp_is_apart dir name pid n) as Ht. pose proof (backup_is_no_temp dir name (file_stem name) pid n) as Hb.
  fold tmp in Ht, Hb.
  assert (∀ d v, saved d → saved (<[tmp := v]> d)) as Hins by (intros d v [Hd Ho]; rewrite !lookup_insert_ne by done; by split).
  assert (∀ d, intact old raw d → intact old raw (delete tmp d)) as Hdel.
  { intros d. unfold intact. by rewrite !lookup_delete_ne by done. }
  unfold replace_with. apply passes_bind with saved.
  { apply passes_atomically; [by intros d [Hd _]; left|]. intros d Hd. split; [left; by apply Hins|by apply Hins]. }
  intros []. apply passes_bind with (λ d, saved d ∧ d !! tmp = Some raw).
  - apply passes_guarded; [|done]. apply passes_bind with (λ d, saved d ∧ d !! tmp = Some raw).
    + apply passes_streams; [intros d k Hd; left; by apply Hins|]. intros d Hd. split; [by apply Hins|apply lookup_insert_eq].
    + intros []. apply passes_atomically; [by intros d [[Hd _] _]; left|]. intros d Hd. cbn. split; [left; apply Hd|done].
  - intros []. apply passes_atomically; [by intros d [[Hd _] _]; left|]. intros d [[Hd Ho] Hraw]. cbv beta. rewrite Hraw. cbn [default from_option id].
    split; [right|apply lookup_insert_eq]. split; [apply lookup_insert_eq|]. intros o Hold.
    rewrite lookup_insert_ne by (apply not_eq_sym, backup_is_apart). rewrite lookup_delete_ne by done. by apply Ho.
Qed.

Lemma write_raw_passes : passes before (write_raw pid keyfile raw) (intact old raw) (λ d, d !! join dir name = Some raw).
Proof.
  unfold write_raw. cbn [p_parent p_name default from_option]. apply passes_bind with before.
  { destruct (String.eqb _ ""); [apply passes_quiet; [by left|by intros w w' r [= <- <-]]|].
    apply passes_atomically; [by left|]. intros d Hd. split; [by left|done]. }
  intros []. apply passes_bind with saved; [apply backup_passes|]. intros []. apply passes_bind with saved; [|intros n; apply replace_passes].
  apply passes_quiet; [by intros d [Hd _]; left|by intros w w' r [= <- <-]].
Qed.
End write.

(** C25: a keystore survives the write that replaces it. Whatever fails and wherever the
    process stops, the disk holds the old file as it was, or the complete new one
    with the old one beside it as the backup; a write that succeeds leaves the new
    one. *)
Theorem keystore_survives_interruption i f raw w w' r :
  identity_file i = Ok f → identity_text f = Ok raw → write_file pid keyfile i w = Some (w', r) →
  ∃ seen, history w' = history w ++ seen ∧
    (∀ d, d ∈ seen ++ [files w'] → intact (files w !! join dir name) raw d) ∧
    (r = Ok () → files w' !! join dir name = Some raw).
Proof.
  intros Hf Ht Hw. unfold write_file in Hw. rewrite Hf in Hw. erewrite step_bind_Ok in Hw by reflexivity.
  rewrite Ht in Hw. erewrite step_bind_Ok in Hw by reflexivity.
  destruct (write_raw_passes (files w !! join dir name) raw w w' r Hw eq_refl) as ((seen & Hh & Hs) & Hi & Hr).
  exists seen. split_and!; [done| |intros E; exact (Hr tt E)]. intros d [Hd|Hd]%elem_of_app.
  - rewrite Forall_forall in Hs. by apply Hs.
  - by apply list_elem_of_singleton in Hd as ->.
Qed.

(** ** Restarts *)

(** The keys a provider holds have the lengths of their schemes. *)
Definition keys_ok (k : Ed25519Provider) : Prop :=
  (length (signing_seed k) = 32 ∧ Forall (λ x, x < 256)%N (signing_seed k)) ∧
  (length (snd (mldsa_keypair k)) = MLDSA_SK_LEN ∧ Forall (λ x, x < 256)%N (snd (mldsa_keypair k))) ∧
  (length (fst (mldsa_keypair k)) = MLDSA_PK_LEN ∧ Forall (λ x, x < 256)%N (fst (mldsa_keypair k))) ∧
  (length (snd (mlkem_keypair k)) = MLKEM_SK_LEN ∧ Forall (λ x, x < 256)%N (snd (mlkem_keypair k))) ∧
  (length (fst (mlkem_keypair k)) = MLKEM_PK_LEN ∧ Forall (λ x, x < 256)%N (fst (mlkem_keypair k))).

Lemma key_read what p hint b n : length b = n → Forall (λ x, x < 256)%N b → key_bytes what p hint (hex_encode b) = Ok b ∧ of_length n what p hint b = Ok b.
Proof. intros Hl Hb. unfold key_bytes, of_length. by rewrite hex_round, Hl, Nat.eqb_refl. Qed.

Lemma pq_read what b n : length b = n → pq_from_bytes n what b = Ok b.
Proof. intros Hl. unfold pq_from_bytes. by rewrite Hl, Nat.eqb_refl. Qed.

(** The file of an identity reads as the same identity, but for the X25519 secret. *)
Lemma file_read_back p hint x i f k :
  keys_ok (ed25519 i) → identity_file i = Ok f → rns_public (rns i) = Some k →
  ∃ i', load_file p hint x f = Ok i' ∧ rns_public (rns i') = Some k ∧ rhash i' = rhash_from_public_key k ∧
    ed25519 i' = mkEd25519Provider (signing_seed (ed25519 i)) x (mldsa_keypair (ed25519 i)) (mlkem_keypair (ed25519 i)).
Proof.
  intros ((Hs & Hs') & (Hds & Hds') & (Hdp & Hdp') & (Hks & Hks') & (Hkp & Hkp')) Hf Hk. unfold identity_file in Hf.
  destruct (rns_private (rns i)) as [sk|] eqn:Hsk; [|done]. injection Hf as <-. destruct (rns_restored _ _ Hsk) as (Hl & Hb & Hpub). rewrite Hk in Hpub.
  unfold load_file. cbn [f_rns_private_key f_ed25519_seed f_mldsa_secret_key f_mldsa_public_key f_mlkem_secret_key f_mlkem_public_key].
  rewrite (proj1 (key_read "RNS private key" p hint sk 64 Hl Hb)). cbn [mbind result_bind].
  rewrite (proj1 (key_read "Ed25519 seed" p hint _ 32 Hs Hs')). cbn [mbind result_bind].
  rewrite (proj2 (key_read "RNS private key" p hint sk 64 Hl Hb)). cbn [mbind result_bind].
  rewrite (proj2 (key_read "Ed25519 seed" p hint _ 32 Hs Hs')). cbn [mbind result_bind].
  rewrite (proj1 (key_read "ML-DSA-44 secret key" p hint _ _ Hds Hds')). cbn [mbind result_bind].
  rewrite (proj1 (key_read "ML-DSA-44 public key" p hint _ _ Hdp Hdp')). cbn [mbind result_bind].
  rewrite (proj1 (key_read "ML-KEM-768 secret key" p hint _ _ Hks Hks')). cbn [mbind result_bind].
  rewrite (proj1 (key_read "ML-KEM-768 public key" p hint _ _ Hkp Hkp')). cbn [mbind result_bind].
  rewrite (proj2 (key_read "ML-DSA-44 secret key" p hint _ _ Hds Hds')). cbn [mbind result_bind].
  rewrite (proj2 (key_read "ML-DSA-44 public key" p hint _ _ Hdp Hdp')). cbn [mbind result_bind].
  rewrite (proj2 (key_read "ML-KEM-768 secret key" p hint _ _ Hks Hks')). cbn [mbind result_bind].
  rewrite (proj2 (key_read "ML-KEM-768 public key" p hint _ _ Hkp Hkp')). cbn [mbind result_bind].
  rewrite Hpub. cbn [ok_or mbind result_bind]. unfold from_persisted.
  rewrite !pq_read by done. cbn [mbind result_bind]. eexists. split; [done|]. cbn. split_and!; [done|done|].
  by destruct (ed25519 i) as [? ? [] []].
Qed.

Lemma write_file_inv i w w' :
  write_file pid keyfile i w = Some (w', Ok ()) → ∃ f raw, identity_file i = Ok f ∧ identity_text f = Ok raw ∧ files w' !! join dir name = Some raw.
Proof.
  intros Hw. pose proof Hw as Hw'. unfold write_file in Hw'. apply step_bind_inv in Hw' as (w1 & r1 & Hr1 & Hw'). injection Hr1 as <- <-.
  destruct (identity_file i) as [f|e]; [|by destruct Hw']. apply step_bind_inv in Hw' as (w1 & r1 & Hr1 & Hw'). injection Hr1 as <- <-.
  destruct (identity_text f) as [raw|e] eqn:Ht; [|by destruct Hw']. cbn [map_err] in Hw'. exists f, raw. split_and!; [done..|].
  by apply (write_raw_passes (files w !! join dir name) raw w w' (Ok ()) Hw' eq_refl) with tt.
Qed.

(** C37: a node keeps its identity. What a first start creates and writes is what every
    later start loads, with the same transport address, the same on-chain key and
    the same post-quantum keys, under an X25519 secret drawn afresh, and a start
    that finds a file, sound or not, never changes the disk. *)
Theorem identity_survives_restart x fresh keys fresh' keys' i w w' :
  keys_ok keys → create_and_persist pid keyfile fresh (Ok keys) w = Some (w', Ok i) →
  (next_fault w' = None → ∃ i', load_or_create pid keyfile x fresh' keys' w' = Some (drop_fault w', Ok i') ∧
    rhash i' = rhash i ∧ rns_public (rns i') = rns_public (rns i) ∧ signing_seed (ed25519 i') = signing_seed (ed25519 i) ∧ x25519_static_key (ed25519 i') = x ∧
    mldsa_keypair (ed25519 i') = mldsa_keypair (ed25519 i) ∧ mlkem_keypair (ed25519 i') = mlkem_keypair (ed25519 i)) ∧
  ∀ v v' r, is_Some (files v !! join dir name) → load_or_create pid keyfile x fresh' keys' v = Some (v', r) → files v' = files v.
Proof.
  intros Hok Hc. split.
  - intros Hnf. unfold create_and_persist in Hc. apply step_bind_inv in Hc as (w1 & r1 & Hr1 & Hc). injection Hr1 as <- <-.
    destruct (rns_public fresh) as [k|] eqn:Hk; [|by destruct Hc]. cbn [ok_or] in Hc. erewrite step_bind_Ok in Hc by reflexivity.
    apply step_bind_inv in Hc as (w2 & r2 & Hr2 & Hc). destruct r2 as [[]|]; [|by destruct Hc]. injection Hc as <- <-.
    destruct (write_file_inv _ _ _ Hr2) as (f & raw & Hf & Ht & Hfile). destruct (identity_read f raw Ht) as [Hv Hp].
    destruct (file_read_back keyfile (keystore_recovery_hint keyfile (files w2)) x (mkNodeIdentity fresh keys (rhash_from_public_key k)) f k Hok Hf Hk) as (i' & Hl & Hpub & Hrh & Hed).
    exists i'. change (content w2 (display keyfile) = Some raw) in Hfile. unfold load_or_create, load. rewrite Hfile, bool_decide_true by done.
    rewrite Hnf. cbn beta iota. rewrite Hv, Hp, Hl. cbn [negb]. rewrite Hed. cbn. by rewrite Hk.
  - intros v v' r [raw Hs]. change (content v (display keyfile) = Some raw) in Hs. unfold load_or_create, load. rewrite Hs, bool_decide_true by done.
    destruct (next_fault v); [by intros [= <- _]|]. by intros [= <- _].
Qed.

(** ** When nothing fails *)

Definition reliable {E A} (m : step World E A) : Prop := ∀ w, faults w = [] → ∃ w' a, m w = Some (w', Ok a) ∧ faults w' = [].

Lemma reliable_bind {E A B} (m : step World E A) (f : A → step World E B) : reliable m → (∀ a, reliable (f a)) → reliable (m ≫= f).
Proof.
  intros Hm Hf w Hw. destruct (Hm w Hw) as (w1 & a & Ha & Hw1). destruct (Hf a w1 Hw1) as (w2 & b & Hb & Hw2).
  exists w2, b. split; [|done]. by rewrite (step_bind_Ok _ _ _ _ _ Ha).
Qed.
Lemma reliable_atomically {E} (wrap : string → E) f : reliable (atomically wrap f).
Proof. intros w Hw. unfold atomically, next_fault. rewrite Hw. cbn. eexists _, _. split; [done|]. cbn. by rewrite Hw. Qed.
Lemma reliable_streams {E} (wrap : string → E) p b : reliable (streams wrap p b).
Proof. intros w Hw. unfold streams, next_fault. rewrite Hw. cbn. eexists _, _. split; [done|]. cbn. by rewrite Hw. Qed.

Lemma reliable_guarded tmp (m : step World PneumaticError ()) : reliable m → reliable (guarded tmp m).
Proof. intros Hm w Hw. destruct (Hm w Hw) as (w' & a & Ha & Hw'). exists w', a. split; [|done]. unfold guarded. by rewrite Ha. Qed.

Lemma write_raw_reliable raw : reliable (write_raw pid keyfile raw).
Proof.
  unfold write_raw, replace_with. apply reliable_bind; [destruct (String.eqb _ _); [intros w Hw; by eexists _, _|apply reliable_atomically]|].
  intros _. apply reliable_bind.
  { intros w Hw. unfold backup. destruct (files w !! _) as [old|]; [|by eexists _, _]. apply reliable_streams. done. }
  intros _. apply reliable_bind; [intros w Hw; by eexists _, _|]. intros n. apply reliable_bind; [apply reliable_atomically|]. intros _.
  apply reliable_bind; [|intros _; apply reliable_atomically]. apply reliable_guarded, reliable_bind; [apply reliable_streams|].
  intros _. apply reliable_atomically.
Qed.

Lemma write_file_reliable i f raw : identity_file i = Ok f → identity_text f = Ok raw → reliable (write_file pid keyfile i).
Proof.
  intros Hf Ht w Hw. destruct (write_raw_reliable raw w Hw) as (w' & a & Ha & Hw'). exists w', a. split; [|done].
  unfold write_file. rewrite Hf. erewrite step_bind_Ok by reflexivity. rewrite Ht. by erewrite step_bind_Ok by reflexivity.
Qed.

(** A rename that fails leaves the temporary file, with the keys in it. *)
Lemma failed_rename_leaves_the_temp tmp raw d n e :
  ∃ w, replace_with tmp (join dir name) raw (mkWorld d [None; None; None; Some e] [] n) = Some (w, Err (CryptoError ("identity file: " +:+ f_error e))) ∧
    files w !! tmp = Some raw.
Proof. eexists. split; [reflexivity|]. cbn. apply lookup_insert_eq. Qed.
End properties.

(** ** A concrete keystore *)

Module ConcreteKeystore.
Import ConcreteCrypto ConcreteHex Concrete.

(** An identity is its private key. *)
#[export, refine] Instance plain_rns : RnsIdentity := {|
  rns_identity := bytes;
  rns_from_private sk := sk;
  rns_public sk := Some sk;
  rns_private sk := if bool_decide (length sk = 64 ∧ Forall (λ x, x < 256)%N sk) then Some sk else None;
|}.
Proof. intros i sk. case_bool_decide as Hi; [|done]. intros [= <-]. destruct Hi. by split_and!. Defined.

(** A file's text is its number in an enumeration of files, in binary digits. *)
Definition file_tuple (f : IdentityFile) :=
  (f_rns_private_key f, f_ed25519_seed f, f_mldsa_secret_key f, f_mldsa_public_key f, f_mlkem_secret_key f, f_mlkem_public_key f).
Definition tuple_file (t : string * string * string * string * string * string) : IdentityFile :=
  let '(a, b, c, d, e, f) := t in mkIdentityFile a b c d e f.
Fixpoint digits (p : positive) : bytes := match p with xH => [] | xO p => 48%N :: digits p | xI p => 49%N :: digits p end.
Fixpoint of_digits (b : bytes) : positive := match b with [] => xH | x :: b => if N.eqb x 48 then xO (of_digits b) else xI (of_digits b) end.
Lemma of_digits_digits p : of_digits (digits p) = p.
Proof. induction p as [p IH|p IH|]; cbn; by rewrite ?IH. Qed.
Lemma digits_ascii p : Forall (λ x, x < 128)%N (digits p).
Proof. induction p; cbn; constructor; done. Qed.

#[export, refine] Instance digits_json : IdentityJson := {|
  identity_text f := Ok (digits (encode (file_tuple f)));
  identity_parse b := match decode (of_digits b) with Some t => Ok (tuple_file t) | None => Err "" end;
|}.
Proof. intros f b [= <-]. split; [apply ascii_valid, digits_ascii|]. rewrite of_digits_digits, decode_encode. by destruct f. Defined.

Definition rns_key : bytes := replicate 64 5%N.
Definition rns_id : rns_identity := rns_key.
Definition other_id : rns_identity := ([] : bytes).
Definition node_keys : Ed25519Provider :=
  mkEd25519Provider (replicate 32 7%N) [1%N] (replicate MLDSA_PK_LEN 2%N, replicate MLDSA_SK_LEN 3%N) (replicate MLKEM_PK_LEN 4%N, replicate MLKEM_SK_LEN 5%N).
Definition identity : NodeIdentity := mkNodeIdentity rns_id node_keys (rhash_from_public_key rns_key).
Definition stored : IdentityFile := match identity_file identity with Ok f => f | Err _ => mkIdentityFile "" "" "" "" "" "" end.
Definition stored_text : bytes := match identity_text stored with Ok b => b | Err _ => [] end.

Lemma keys_fit : keys_ok node_keys.
Proof. unfold keys_ok. cbn [signing_seed mldsa_keypair mlkem_keypair node_keys fst snd]. split_and!; first [apply length_replicate|by apply Forall_replicate]. Qed.
Lemma identity_stored : identity_file identity = Ok stored.
Proof. reflexivity. Qed.
Lemma text_stored : identity_text stored = Ok stored_text.
Proof. reflexivity. Qed.

(** A write over an old file. *)
Definition old_disk : World := mkWorld {[ "keys/id.json" := [1; 2]%N ]} [] [] 0.

Lemma survives_witness :
  ∃ w' seen, history w' = seen ∧ (∀ d, d ∈ seen ++ [files w'] → intact "keys" "id.json" (Some [1; 2]%N) stored_text d) ∧
    files w' !! "keys/id.json" = Some stored_text.
Proof.
  destruct (write_file_reliable "keys" "id.json" 42 identity stored stored_text identity_stored text_stored old_disk eq_refl) as (w' & [] & Hw & _).
  destruct (keystore_survives_interruption "keys" "id.json" 42 identity stored stored_text old_disk w' (Ok ()) identity_stored text_stored Hw)
    as (seen & Hh & Hs & Hf). exists w', seen. split; [exact Hh|]. split; [exact Hs|exact (Hf eq_refl)].
Defined.

Lemma identity_restart_witness :
  ∃ w' w'' i i', create_and_persist 42 (mkPath (Some "keys") (Some "id.json")) rns_id (Ok node_keys) (mkWorld ∅ [] [] 0) = Some (w', Ok i) ∧
    load_or_create 42 (mkPath (Some "keys") (Some "id.json")) [9%N] other_id (Err "") w' = Some (w'', Ok i') ∧ rhash i' = rhash i.
Proof.
  destruct (write_file_reliable "keys" "id.json" 42 identity stored stored_text identity_stored text_stored (mkWorld ∅ [] [] 0) eq_refl) as (w' & [] & Hw & Hn).
  assert (create_and_persist 42 (mkPath (Some "keys") (Some "id.json")) rns_id (Ok node_keys) (mkWorld ∅ [] [] 0) = Some (w', Ok identity)) as Hc.
  { unfold create_and_persist. erewrite step_bind_Ok by reflexivity. erewrite step_bind_Ok by reflexivity. by erewrite step_bind_Ok by exact Hw. }
  destruct (identity_survives_restart "keys" "id.json" 42 [9%N] rns_id node_keys other_id (Err "") identity _ w' keys_fit Hc) as [Hl _].
  destruct Hl as (i' & Hi & Hr & _); [unfold next_fault; by rewrite Hn|].
  exists w', (drop_fault w'), identity, i'. exact (conj Hc (conj Hi Hr)).
Defined.
End ConcreteKeystore.
