(* ===== verification/DataProvider.v ===== *)
(** * The data service as its callers see it (src/src/data.rs)

    [DataProvider] is the interface the roles hold; DataService.v models the
    client and the service behind it. A call that writes returns the new store.
    The envelopes that snapshots travel in, with their integrity check, are here. *)

From S2P Require Import Prelude Interfaces Types StakeSets Serialize.

(** ** The shielded pool's persistent form *)

Record AppliedPoolDelta := mkDelta {
  dl_block_hash : bytes;
  dl_leaves : list bytes;
  dl_nullifiers : list bytes;
  dl_post_root : bytes;
}.

Record ShieldedPoolState := mkPoolRecord {
  ps_root : bytes;
  ps_leaf_count : nat;
  ps_leaves : list bytes;
  ps_nullifiers : list bytes;
  ps_applied : list AppliedPoolDelta;
}.

(** ** The interface *)

Class DataProvider := {
  store : Type;
  get_token : store → bytes → string → result DataError Token;
  save_token : store → bytes → Token → string → store * result DataError unit;
  get_user : store → bytes → string → result DataError User;
  save_user : store → bytes → User → string → store * result DataError unit;
  get_stake_snapshot : store → N → string → result DataError StakeSet;
  save_stake_snapshot : store → N → StakeSet → string → store * result DataError unit;
  get_executor_set : store → N → string → result DataError ExecutorSet;
  save_executor_set : store → N → ExecutorSet → string → store * result DataError unit;
  get_shielded_pool : store → string → result DataError (option ShieldedPoolState);
  save_shielded_pool : store → ShieldedPoolState → string → store * result DataError unit;
}.

(** What a store promises about the tokens it holds: a token saved is the token
    read back, and a write at another place leaves it alone. Tokens and users are
    addressed by partition and key; the pool's record has a key of its own. *)
Class TokenStore `{DataProvider} := {
  pool_key : bytes;
  token_saved st k t p st' : save_token st k t p = (st', Ok ()) → get_token st' k p = Ok t;
  token_kept_by_token st k t p st' r k' p' :
    save_token st k t p = (st', r) → (k', p') ≠ (k, p) → get_token st' k' p' = get_token st k' p';
  token_kept_by_user st k u p st' r k' p' :
    save_user st k u p = (st', r) → (k', p') ≠ (k, p) → get_token st' k' p' = get_token st k' p';
  token_kept_by_pool st x p st' r k' p' :
    save_shielded_pool st x p = (st', r) → k' ≠ pool_key → get_token st' k' p' = get_token st k' p';
}.

(** ** Snapshot envelopes *)

Record StakeSnapshotEnvelope := mkStakeEnvelope {
  se_payload : StakeSet;
  se_hash : bytes;
  se_epoch : N;
}.

Record ExecutorSetEnvelope := mkExecutorEnvelope {
  ee_payload : ExecutorSet;
  ee_hash : bytes;
  ee_epoch : N;
}.

Record ShieldedPoolStateEnvelope := mkPoolEnvelope {
  pe_payload : ShieldedPoolState;
  pe_hash : bytes;
}.

Definition ser_AppliedPoolDelta (d : AppliedPoolDelta) : serde :=
  ser_struct [
    fld "block_hash" (ser_bytes (dl_block_hash d));
    fld "leaves" (ser_list ser_bytes (dl_leaves d));
    fld "nullifiers" (ser_list ser_bytes (dl_nullifiers d));
    fld "post_root" (ser_bytes (dl_post_root d))].

Definition ser_ShieldedPoolState (s : ShieldedPoolState) : serde :=
  ser_struct [
    fld "root" (ser_bytes (ps_root s));
    fld "leaf_count" (ser_nat (ps_leaf_count s));
    fld "leaves" (ser_list ser_bytes (ps_leaves s));
    fld "nullifiers" (ser_list ser_bytes (ps_nullifiers s));
    fld "applied" (ser_list ser_AppliedPoolDelta (ps_applied s))].

Section envelopes.
Context `{HashIter} `{Rmp} `{Sha256}.

Definition StakeSnapshotEnvelope_new (payload : StakeSet) (epoch : N) : StakeSnapshotEnvelope :=
  mkStakeEnvelope payload (StakeSet_fingerprint payload) epoch.

Definition StakeSnapshotEnvelope_verify (e : StakeSnapshotEnvelope) : result DataError unit :=
  if decide (se_hash e = StakeSet_fingerprint (se_payload e)) then Ok tt
  else Err (SnapshotCorrupt ("epoch=" +:+ pretty (se_epoch e) +:+ ": stored hash != payload.fingerprint()")).

Definition ExecutorSetEnvelope_new (payload : ExecutorSet) (epoch : N) : ExecutorSetEnvelope :=
  mkExecutorEnvelope payload (ExecutorSet_fingerprint payload) epoch.

Definition ExecutorSetEnvelope_verify (e : ExecutorSetEnvelope) : result DataError unit :=
  if decide (ee_hash e = ExecutorSet_fingerprint (ee_payload e)) then Ok tt
  else Err (SnapshotCorrupt ("epoch=" +:+ pretty (ee_epoch e) +:+ ": stored hash != payload.fingerprint()")).

Definition pool_canonical_bytes (s : ShieldedPoolState) : result DataError bytes :=
  map_err SerializationError (rmp_enc (ser_ShieldedPoolState s)).

Definition pool_fingerprint (s : ShieldedPoolState) : bytes :=
  to_array32 (sha256 (match pool_canonical_bytes s with Ok b => b | Err _ => [] end)).

Definition ShieldedPoolStateEnvelope_new (payload : ShieldedPoolState) : ShieldedPoolStateEnvelope :=
  mkPoolEnvelope payload (pool_fingerprint payload).

Definition ShieldedPoolStateEnvelope_verify (e : ShieldedPoolStateEnvelope) : result DataError unit :=
  if decide (pe_hash e = pool_fingerprint (pe_payload e)) then Ok tt
  else Err (SnapshotCorrupt "shielded pool state: stored hash != payload.fingerprint()").
End envelopes.

(** ** Properties *)

(** A snapshot envelope detects corruption: an envelope written by
    [StakeSnapshotEnvelope_new] verifies on every node, and an envelope that
    keeps the stored hash but carries another payload fails to verify, unless
    the two payloads' encodings collide under SHA-256. *)
Theorem snapshot_envelope_integrity `{Rmp} `{Sha256} (h1 h2 : HashIter) s epoch :
  @StakeSnapshotEnvelope_verify h2 _ _ (@StakeSnapshotEnvelope_new h1 _ _ s epoch) = Ok tt ∧
  (∀ s' ep' b b', @StakeSet_canonical_bytes h1 _ s = Ok b → @StakeSet_canonical_bytes h2 _ s' = Ok b' →
    s' ≠ s → ¬ collision b' b →
    is_ok (@StakeSnapshotEnvelope_verify h2 _ _
      (mkStakeEnvelope s' (se_hash (@StakeSnapshotEnvelope_new h1 _ _ s epoch)) ep')) = false).
Proof.
  destruct (fingerprint_swap h1 h2 s) as [Hcb Hfp].
  unfold StakeSnapshotEnvelope_verify, StakeSnapshotEnvelope_new. cbn. rewrite Hfp, Hcb.
  split; [by rewrite decide_True|].
  intros s' ep' b b' Hb Hb' Hne Hc. rewrite decide_False; [done|]. intros Hf.
  by destruct (fingerprint_binds s' s b' b Hb' Hb (eq_sym Hf)).
Qed.

(** ** A concrete store: one map per kind of record *)

Module ConcreteStore.

Record MemStore := mkMem {
  m_tokens : gmap (string * bytes) Token;
  m_users : gmap (string * bytes) User;
  m_stakes : gmap (string * N) StakeSet;
  m_executors : gmap (string * N) ExecutorSet;
  m_pools : gmap string ShieldedPoolState;
}.

Definition found {A} (x : option A) : result DataError A := match x with Some a => Ok a | None => Err DataNotFound end.

#[export] Instance mem_provider : DataProvider := {|
  store := MemStore;
  get_token st k p := found (m_tokens st !! (p, k));
  save_token st k t p :=
    (mkMem (<[(p, k) := t]> (m_tokens st)) (m_users st) (m_stakes st) (m_executors st) (m_pools st), Ok ());
  get_user st k p := found (m_users st !! (p, k));
  save_user st k u p :=
    (mkMem (m_tokens st) (<[(p, k) := u]> (m_users st)) (m_stakes st) (m_executors st) (m_pools st), Ok ());
  get_stake_snapshot st e p := found (m_stakes st !! (p, e));
  save_stake_snapshot st e s p :=
    (mkMem (m_tokens st) (m_users st) (<[(p, e) := s]> (m_stakes st)) (m_executors st) (m_pools st), Ok ());
  get_executor_set st e p := found (m_executors st !! (p, e));
  save_executor_set st e s p :=
    (mkMem (m_tokens st) (m_users st) (m_stakes st) (<[(p, e) := s]> (m_executors st)) (m_pools st), Ok ());
  get_shielded_pool st p := Ok (m_pools st !! p);
  save_shielded_pool st s p :=
    (mkMem (m_tokens st) (m_users st) (m_stakes st) (m_executors st) (<[p := s]> (m_pools st)), Ok ());
|}.

#[export, refine] Instance mem_tokens : TokenStore := {| pool_key := [] |}.
Proof.
  - intros st k t p st' [= <-]. cbn. by rewrite lookup_insert_eq.
  - intros st k t p st' r k' p' [= <- _] Hne. cbn. rewrite lookup_insert_ne; [done|]. by intros [= -> ->].
  - by intros st k u p st' r k' p' [= <- _] _.
  - by intros st x p st' r k' p' [= <- _] _.
Defined.

Definition empty_store : store := mkMem ∅ ∅ ∅ ∅ ∅.
End ConcreteStore.
