(* ===== verification/Deserialize.v ===== *)
(** * Reading wire values back (the [#[derive(Deserialize)]]s of src/src/data.rs, user.rs, epoch/stake_sets.rs)

    A type that crosses the data channel has a [Serde] instance: how it is
    written, how it is read, which values its Rust type holds, and that such a
    value is read back as written. A struct is read from a map, each field
    exactly once, or from an array of its fields. *)

From S2P Require Import Prelude Interfaces Types StakeSets Serialize DataProvider.

Class Serde (A : Type) := {
  to_serde : A → serde;
  of_serde : serde → result string A;
  wf : A → Prop;
  of_to_serde a : wf a → of_serde (to_serde a) = Ok a;
}.

(** ** Readers *)

Definition of_u64 (v : serde) : result string N :=
  match v with
  | SInt z => if bool_decide (0 ≤ z ≤ Z.of_N u64_max)%Z then Ok (Z.to_N z) else Err "invalid value: integer"
  | _ => Err "invalid type: expected u64"
  end.

Definition of_u8 (v : serde) : result string N :=
  match v with
  | SInt z => if bool_decide (0 ≤ z < 256)%Z then Ok (Z.to_N z) else Err "invalid value: integer"
  | _ => Err "invalid type: expected u8"
  end.

Definition of_usize (v : serde) : result string nat := n ← of_u64 v; Ok (N.to_nat n).

Definition of_list {A} (f : serde → result string A) (v : serde) : result string (list A) :=
  match v with SSeq l => mapM f l | _ => Err "invalid type: expected a sequence" end.

Definition of_bytes : serde → result string bytes := of_list of_u8.

Definition of_array32 (v : serde) : result string bytes :=
  b ← of_bytes v; if bool_decide (length b = 32) then Ok b else Err "invalid length: expected an array of length 32".

Definition of_string (v : serde) : result string string :=
  match v with SStr s => Ok s | _ => Err "invalid type: expected a string" end.

(** Inserting the entries one by one. *)
Definition of_stakes (v : serde) : result string (gmap bytes N) :=
  match v with
  | SMap l =>
      kvs ← mapM (λ kv : serde * serde, k ← of_bytes kv.1; n ← of_u64 kv.2; Ok (k, n)) l;
      Ok (foldl (λ m kv, <[kv.1 := kv.2]> m) ∅ kvs)
  | _ => Err "invalid type: expected a map"
  end.

Definition ser_entries {K V} (f : K → serde) (g : V → serde) (l : list (K * V)) : serde :=
  SMap ((λ kv, (f kv.1, g kv.2)) <$> l).

Definition of_entries `{Countable K} {V} (f : serde → result string K) (g : serde → result string V) (v : serde)
    : result string (gmap K V) :=
  match v with
  | SMap l =>
      kvs ← mapM (λ kv : serde * serde, k ← f kv.1; n ← g kv.2; Ok (k, n)) l;
      Ok (foldl (λ m kv, <[kv.1 := kv.2]> m) ∅ kvs)
  | _ => Err "invalid type: expected a map"
  end.

Definition of_u32 (v : serde) : result string N :=
  match v with
  | SInt z => if bool_decide (0 ≤ z < 4294967296)%Z then Ok (Z.to_N z) else Err "invalid value: integer"
  | _ => Err "invalid type: expected u32"
  end.

Definition of_option {A} (f : serde → result string A) (v : serde) : result string (option A) :=
  match v with SNil => Ok None | _ => a ← f v; Ok (Some a) end.

Definition fields_named (name : string) (l : list (serde * serde)) : list serde :=
  omap (λ kv : serde * serde, match kv.1 with SStr n => if String.eqb name n then Some kv.2 else None | _ => None end) l.

Definition get_struct (names : list string) (v : serde) : result string (list serde) :=
  match v with
  | SMap l => mapM (λ name, match fields_named name l with
                            | [x] => Ok x
                            | [] => Err ("missing field " +:+ name)
                            | _ => Err ("duplicate field " +:+ name)
                            end) names
  | SSeq l => if bool_decide (length l = length names) then Ok l else Err "invalid length"
  | _ => Err "invalid type: expected a struct"
  end.

(** A struct some of whose fields carry [#[serde(default)]]. *)
Definition get_field (l : list (serde * serde)) (f : string * option serde) : result string serde :=
  match fields_named f.1 l, f.2 with
  | [x], _ => Ok x
  | [], Some dflt => Ok dflt
  | [], None => Err ("missing field " +:+ f.1)
  | _, _ => Err ("duplicate field " +:+ f.1)
  end.

Definition get_struct_default (fields : list (string * option serde)) (v : serde) : result string (list serde) :=
  match v with
  | SMap l => mapM (get_field l) fields
  | SSeq l =>
      if bool_decide (length l ≤ length fields) then
        mapM (λ f : nat * (string * option serde),
                match l !! f.1, f.2.2 with
                | Some x, _ => Ok x
                | None, Some dflt => Ok dflt
                | None, None => Err "invalid length"
                end) (imap pair fields)
      else Err "invalid length"
  | _ => Err "invalid type: expected a struct"
  end.

(** A unit variant is its name, a newtype or struct variant a map of one entry. *)
Definition variant (name : string) (v : serde) : serde := SMap [(SStr name, v)].

Definition of_variant (v : serde) : result string (string * option serde) :=
  match v with
  | SStr n => Ok (n, None)
  | SMap [(SStr n, x)] => Ok (n, Some x)
  | _ => Err "invalid type: expected an enum"
  end.

(** ** Encoding (src/src/encoding.rs) *)

Section codec.
Context `{Rmp}.

Definition serialize_to_bytes_rmp {A} `{Serde A} (a : A) : result string bytes := rmp_enc (to_serde a).

Definition deserialize_rmp_to (A : Type) `{Serde A} (b : bytes) : result string A :=
  '(v, _) ← rmp_dec b; of_serde v.
End codec.

(** ** What the Rust types hold *)

Definition wf_bytes (b : bytes) : Prop := Forall (λ x, x < 256)%N b.
Definition wf_array32 (b : bytes) : Prop := wf_bytes b ∧ length b = 32.
Definition wf_u64 (n : N) : Prop := (n ≤ u64_max)%N.
Definition wf_usize (n : nat) : Prop := (N.of_nat n ≤ u64_max)%N.
Definition wf_stakes (m : gmap bytes N) : Prop := map_Forall (λ k n, wf_bytes k ∧ wf_u64 n) m.

Lemma of_u64_ser n : wf_u64 n → of_u64 (ser_N n) = Ok n.
Proof. intros Hn. unfold of_u64, ser_N. rewrite bool_decide_true by (unfold wf_u64 in Hn; lia). by rewrite N2Z.id. Qed.

Lemma of_u8_ser n : (n < 256)%N → of_u8 (ser_N n) = Ok n.
Proof. intros Hn. unfold of_u8, ser_N. rewrite bool_decide_true by lia. by rewrite N2Z.id. Qed.

Lemma of_usize_ser n : wf_usize n → of_usize (ser_nat n) = Ok n.
Proof.
  intros Hn. unfold of_usize. assert (ser_nat n = ser_N (N.of_nat n)) as ->.
  { unfold ser_nat, ser_N. f_equal. lia. }
  rewrite of_u64_ser by done. simpl. by rewrite Nat2N.id.
Qed.

Lemma mapM_fmap_Ok {E A B} (f : B → result E A) (g : A → B) l :
  Forall (λ x, f (g x) = Ok x) l → mapM f (g <$> l) = Ok l.
Proof. induction 1 as [|x l Hx _ IH]; [done|]. rewrite fmap_cons. cbn [mapM]. rewrite Hx. cbn [mbind result_bind]. by rewrite IH. Qed.

Lemma of_list_ser {A} (f : serde → result string A) (g : A → serde) l :
  Forall (λ x, f (g x) = Ok x) l → of_list f (ser_list g l) = Ok l.
Proof. apply mapM_fmap_Ok. Qed.

Lemma of_bytes_ser b : wf_bytes b → of_bytes (ser_bytes b) = Ok b.
Proof. intros Hb. apply mapM_fmap_Ok. eapply Forall_impl; [exact Hb|]. apply of_u8_ser. Qed.

Lemma of_array32_ser b : wf_array32 b → of_array32 (ser_bytes b) = Ok b.
Proof. intros [Hb Hl]. unfold of_array32. rewrite of_bytes_ser by done. simpl. by rewrite bool_decide_true. Qed.

(** A map written in any order is the map its entries are inserted into. *)
Definition ser_hash_stakes `{HashIter} (m : gmap bytes N) : serde :=
  SMap ((λ kv, (ser_bytes kv.1, ser_N kv.2)) <$> hash_iter m).

Lemma foldl_insert_perm `{Countable K} {V} (m : gmap K V) l :
  l ≡ₚ map_to_list m → foldl (λ m kv, <[kv.1 := kv.2]> m) (∅ : gmap K V) l = m.
Proof.
  intros Hl. assert (∀ k (acc : gmap K V), foldl (λ m kv, <[kv.1 := kv.2]> m) acc k = list_to_map (reverse k) ∪ acc) as Hf.
  { intros k. induction k as [|[x y] k IH]; intros acc; [rewrite reverse_nil; simpl; by rewrite map_empty_union|].
    simpl. rewrite IH, reverse_cons, list_to_map_app. rewrite <-map_union_assoc. f_equal.
    simpl. by rewrite insert_empty, insert_union_singleton_l. }
  rewrite Hf, map_union_empty. rewrite <-(list_to_map_to_list m). apply list_to_map_proper.
  - rewrite fmap_reverse, reverse_Permutation, Hl. apply NoDup_fst_map_to_list.
  - by rewrite reverse_Permutation.
Qed.

Lemma of_entries_ser `{Countable K} {V} (f : serde → result string K) (g : serde → result string V) sk sv l m :
  l ≡ₚ map_to_list m → map_Forall (λ k v, f (sk k) = Ok k ∧ g (sv v) = Ok v) m →
  of_entries f g (ser_entries sk sv l) = Ok m.
Proof.
  intros Hp Hm. unfold of_entries, ser_entries.
  rewrite (mapM_fmap_Ok _ (λ kv : K * V, (sk kv.1, sv kv.2))).
  - simpl. f_equal. by apply foldl_insert_perm.
  - rewrite Hp. apply Forall_forall. intros [k v] Hkv%elem_of_map_to_list.
    destruct (Hm k v Hkv) as [Hk Hv]. simpl. rewrite Hk. cbn. by rewrite Hv.
Qed.

Lemma of_u32_ser n : (n < 4294967296)%N → of_u32 (ser_N n) = Ok n.
Proof. intros Hn. unfold of_u32, ser_N. rewrite bool_decide_true by lia. by rewrite N2Z.id. Qed.

Lemma of_bytes_list_ser l : Forall wf_bytes l → of_list of_bytes (ser_list ser_bytes l) = Ok l.
Proof. intros Hl. apply of_list_ser. eapply Forall_impl; [exact Hl|apply of_bytes_ser]. Qed.

Lemma of_stakes_ser `{HashIter} m : wf_stakes m → of_stakes (ser_hash_stakes m) = Ok m.
Proof.
  intros Hm. unfold of_stakes, ser_hash_stakes. rewrite mapM_fmap_Ok.
  - simpl. f_equal. by apply foldl_insert_perm, hash_iter_perm.
  - apply Forall_forall. intros [k n] Hin. apply elem_of_hash_iter, Hm in Hin as [Hk Hn].
    cbn [fst snd]. rewrite of_bytes_ser by done. cbn [mbind result_bind]. by rewrite of_u64_ser.
Qed.

Arguments of_u64 : simpl never.
Arguments of_usize : simpl never.
Arguments of_bytes : simpl never.
Arguments of_array32 : simpl never.
Arguments of_list : simpl never.
Arguments of_stakes : simpl never.
Arguments ser_hash_stakes : simpl never.

(** ** Instances *)

#[export, refine] Instance bytes_serde : Serde bytes := {|
  to_serde := ser_bytes; of_serde := of_bytes; wf := wf_bytes;
|}.
Proof. exact of_bytes_ser. Defined.

Definition ser_User (u : User) : serde :=
  ser_struct [
    fld "public_key" (ser_bytes (user_public_key u));
    fld "fuel_balance" (ser_N (fuel_balance u));
    fld "stake" (ser_N (user_stake u));
    fld "nonce" (ser_nat (nonce u))].

Definition of_User (v : serde) : result string User :=
  fs ← get_struct ["public_key"; "fuel_balance"; "stake"; "nonce"] v;
  match fs with
  | [a; b; c; d] => k ← of_bytes a; f ← of_u64 b; s ← of_u64 c; n ← of_usize d; Ok (mkUser k f s n)
  | _ => Err "invalid length"
  end.

#[export, refine] Instance User_serde : Serde User := {|
  to_serde := ser_User; of_serde := of_User;
  wf u := wf_bytes (user_public_key u) ∧ wf_u64 (fuel_balance u) ∧ wf_u64 (user_stake u) ∧ wf_usize (nonce u);
|}.
Proof.
  intros [k f s n] (Hk & Hf & Hs & Hn). simpl in *. unfold of_User. simpl.
  rewrite of_bytes_ser by done. simpl. rewrite of_u64_ser by done. simpl. rewrite of_u64_ser by done. simpl.
  by rewrite of_usize_ser.
Defined.

Section stake_envelopes.
Context `{HashIter}.

Definition ser_StakeSnapshotEnvelope (e : StakeSnapshotEnvelope) : serde :=
  ser_struct [
    fld "payload" (ser_struct [fld "stakers" (ser_hash_stakes (stakers (se_payload e)))]);
    fld "hash" (ser_bytes (se_hash e));
    fld "epoch" (ser_N (se_epoch e))].

Definition of_StakeSet (v : serde) : result string StakeSet :=
  fs ← get_struct ["stakers"] v;
  match fs with [m] => s ← of_stakes m; Ok (mkStakeSet s) | _ => Err "invalid length" end.

Definition of_StakeSnapshotEnvelope (v : serde) : result string StakeSnapshotEnvelope :=
  fs ← get_struct ["payload"; "hash"; "epoch"] v;
  match fs with
  | [a; b; c] => p ← of_StakeSet a; h ← of_array32 b; e ← of_u64 c; Ok (mkStakeEnvelope p h e)
  | _ => Err "invalid length"
  end.

#[export, refine] Instance StakeSnapshotEnvelope_serde : Serde StakeSnapshotEnvelope := {|
  to_serde := ser_StakeSnapshotEnvelope; of_serde := of_StakeSnapshotEnvelope;
  wf e := wf_stakes (stakers (se_payload e)) ∧ wf_array32 (se_hash e) ∧ wf_u64 (se_epoch e);
|}.
Proof.
  intros [[m] h e] (Hm & Hh & He). cbn in *. unfold of_StakeSnapshotEnvelope. cbn. rewrite of_stakes_ser by done. cbn.
  rewrite of_array32_ser by done. cbn. by rewrite of_u64_ser.
Defined.

Definition ser_ExecutorSetEnvelope (e : ExecutorSetEnvelope) : serde :=
  ser_struct [
    fld "payload" (ser_struct [fld "executors" (ser_hash_stakes (executors (ee_payload e)))]);
    fld "hash" (ser_bytes (ee_hash e));
    fld "epoch" (ser_N (ee_epoch e))].

Definition of_ExecutorSet (v : serde) : result string ExecutorSet :=
  fs ← get_struct ["executors"] v;
  match fs with [m] => s ← of_stakes m; Ok (mkExecutorSet s) | _ => Err "invalid length" end.

Definition of_ExecutorSetEnvelope (v : serde) : result string ExecutorSetEnvelope :=
  fs ← get_struct ["payload"; "hash"; "epoch"] v;
  match fs with
  | [a; b; c] => p ← of_ExecutorSet a; h ← of_array32 b; e ← of_u64 c; Ok (mkExecutorEnvelope p h e)
  | _ => Err "invalid length"
  end.

#[export, refine] Instance ExecutorSetEnvelope_serde : Serde ExecutorSetEnvelope := {|
  to_serde := ser_ExecutorSetEnvelope; of_serde := of_ExecutorSetEnvelope;
  wf e := wf_stakes (executors (ee_payload e)) ∧ wf_array32 (ee_hash e) ∧ wf_u64 (ee_epoch e);
|}.
Proof.
  intros [[m] h e] (Hm & Hh & He). cbn in *. unfold of_ExecutorSetEnvelope. cbn. rewrite of_stakes_ser by done. cbn.
  rewrite of_array32_ser by done. cbn. by rewrite of_u64_ser.
Defined.
End stake_envelopes.

Definition of_AppliedPoolDelta (v : serde) : result string AppliedPoolDelta :=
  fs ← get_struct ["block_hash"; "leaves"; "nullifiers"; "post_root"] v;
  match fs with
  | [a; b; c; d] =>
      h ← of_bytes a; ls ← of_list of_array32 b; ns ← of_list of_array32 c; r ← of_array32 d; Ok (mkDelta h ls ns r)
  | _ => Err "invalid length"
  end.

Definition wf_AppliedPoolDelta (d : AppliedPoolDelta) : Prop :=
  wf_bytes (dl_block_hash d) ∧ Forall wf_array32 (dl_leaves d) ∧ Forall wf_array32 (dl_nullifiers d) ∧ wf_array32 (dl_post_root d).

Lemma of_arrays_ser l : Forall wf_array32 l → of_list of_array32 (ser_list ser_bytes l) = Ok l.
Proof. intros Hl. apply of_list_ser. eapply Forall_impl; [exact Hl|apply of_array32_ser]. Qed.

Lemma of_AppliedPoolDelta_ser d : wf_AppliedPoolDelta d → of_AppliedPoolDelta (ser_AppliedPoolDelta d) = Ok d.
Proof.
  destruct d as [h ls ns r]. intros (Hh & Hl & Hn & Hr). unfold of_AppliedPoolDelta. cbn.
  rewrite of_bytes_ser by done. cbn. rewrite of_arrays_ser by done. cbn. rewrite of_arrays_ser by done. cbn.
  by rewrite of_array32_ser.
Qed.

Definition of_ShieldedPoolState (v : serde) : result string ShieldedPoolState :=
  fs ← get_struct ["root"; "leaf_count"; "leaves"; "nullifiers"; "applied"] v;
  match fs with
  | [a; b; c; d; e] =>
      r ← of_array32 a; n ← of_usize b; ls ← of_list of_array32 c; ns ← of_list of_array32 d;
      ds ← of_list of_AppliedPoolDelta e; Ok (mkPoolRecord r n ls ns ds)
  | _ => Err "invalid length"
  end.

Definition wf_ShieldedPoolState (s : ShieldedPoolState) : Prop :=
  wf_array32 (ps_root s) ∧ wf_usize (ps_leaf_count s) ∧ Forall wf_array32 (ps_leaves s) ∧
  Forall wf_array32 (ps_nullifiers s) ∧ Forall wf_AppliedPoolDelta (ps_applied s).

Lemma of_ShieldedPoolState_ser s : wf_ShieldedPoolState s → of_ShieldedPoolState (ser_ShieldedPoolState s) = Ok s.
Proof.
  destruct s as [r n ls ns ds]. intros (Hr & Hn & Hl & Hns & Hd). unfold of_ShieldedPoolState. cbn.
  rewrite of_array32_ser by done. cbn. rewrite of_usize_ser by done. cbn. rewrite of_arrays_ser by done. cbn.
  rewrite of_arrays_ser by done. cbn. rewrite of_list_ser; [done|].
  eapply Forall_impl; [exact Hd|apply of_AppliedPoolDelta_ser].
Qed.

Definition ser_ShieldedPoolStateEnvelope (e : ShieldedPoolStateEnvelope) : serde :=
  ser_struct [fld "payload" (ser_ShieldedPoolState (pe_payload e)); fld "hash" (ser_bytes (pe_hash e))].

Definition of_ShieldedPoolStateEnvelope (v : serde) : result string ShieldedPoolStateEnvelope :=
  fs ← get_struct ["payload"; "hash"] v;
  match fs with
  | [a; b] => p ← of_ShieldedPoolState a; h ← of_array32 b; Ok (mkPoolEnvelope p h)
  | _ => Err "invalid length"
  end.

#[export, refine] Instance ShieldedPoolStateEnvelope_serde : Serde ShieldedPoolStateEnvelope := {|
  to_serde := ser_ShieldedPoolStateEnvelope; of_serde := of_ShieldedPoolStateEnvelope;
  wf e := wf_ShieldedPoolState (pe_payload e) ∧ wf_array32 (pe_hash e);
|}.
Proof.
  intros [s h] (Hs & Hh). unfold of_ShieldedPoolStateEnvelope. cbn -[ser_ShieldedPoolState].
  rewrite of_ShieldedPoolState_ser by done. cbn -[ser_ShieldedPoolState]. by rewrite of_array32_ser.
Defined.
