(* ===== verification/Wire.v ===== *)
(** * Transactions, blocks and tokens on the wire (the [#[derive(Deserialize)]]s of src/src/transactions.rs,
    blocks.rs, tokens.rs)

    How the structs that nodes send each other and keep in the data service are
    written, read, and that each is read back as it was written. A field under
    [#[serde(default)]] may be missing, and so may an [Option]. *)

From S2P Require Import Prelude Interfaces Types Float Serialize Deserialize.
From Stdlib Require Import SpecFloat.

(** ** Readers *)

Definition of_i64 (v : serde) : result string Z :=
  match v with
  | SInt z => if bool_decide (- 2 ^ 63 ≤ z < 2 ^ 63)%Z then Ok z else Err "invalid value: integer"
  | _ => Err "invalid type: expected i64"
  end.

Definition of_bool (v : serde) : result string bool :=
  match v with SBool b => Ok b | _ => Err "invalid type: expected a boolean" end.

(** The bits of a float. *)
Definition f32_bits (x : f32) : N :=
  let sign (s : bool) : N := (if s then 2147483648 else 0)%N in
  match x with
  | S754_zero s => sign s
  | S754_infinity s => (sign s + 2139095040)%N
  | S754_nan => 2143289344%N
  | S754_finite s m e =>
      (sign s + (if bool_decide (8388608 ≤ N.pos m) then N.shiftl (Z.to_N (e + 150)) 23 + (N.pos m - 8388608) else N.pos m))%N
  end.

(** An integer is taken as well, by [as f32]. *)
Definition of_f32 (v : serde) : result string N :=
  match v with
  | SF32 b => Ok b
  | SInt z => Ok (f32_bits (binary_normalize 24 128 z 0 false))
  | _ => Err "invalid type: expected f32"
  end.

Definition of_Bid (v : serde) : result string Bid :=
  fs ← get_struct ["bid_expiry"; "bid_percentage"] v;
  match fs with
  | [a; b] => e ← of_i64 a; p ← of_f32 b; Ok (mkBid e p)
  | _ => Err "invalid length"
  end.

Definition of_SelectionRecord (v : serde) : result string SelectionRecord :=
  fs ← get_struct ["finalizer_public_key"; "epoch_number"; "salt"; "sentinel_public_key"; "attestation"] v;
  match fs with
  | [a; b; c; d; e] =>
      k ← of_bytes a; n ← of_u64 b; s ← of_bytes c; w ← of_bytes d; x ← of_bytes e; Ok (mkSelection k n s w x)
  | _ => Err "invalid length"
  end.

Definition of_Transaction (v : serde) : result string Transaction :=
  fs ← get_struct_default [("id", None); ("action", None); ("token_id", None); ("bid", Some SNil); ("sequence_number", None);
         ("sender", None); ("receiver", None); ("amount", Some SNil); ("timestamp", None); ("result_hash", None);
         ("sender_signature", Some (SSeq [])); ("payload", Some (SSeq [])); ("gas_limit", Some (SInt 0));
         ("result_data", Some (SSeq [])); ("selection", Some SNil)] v;
  match fs with
  | [a; b; c; d; e; f; g; h; i; j; k; l; m; n; o] =>
      id ← of_string a; act ← of_string b; tok ← of_bytes c; bid ← of_option of_Bid d; seq ← of_usize e;
      sender ← of_bytes f; receiver ← of_bytes g; amount ← of_option of_u64 h; time ← of_i64 i; hash ← of_bytes j;
      sig ← of_bytes k; payload ← of_bytes l; gas ← of_u64 m; data ← of_bytes n; sel ← of_option of_SelectionRecord o;
      Ok (mkTransaction id act tok bid seq sender receiver amount time hash sig payload gas data sel)
  | _ => Err "invalid length"
  end.

Definition of_TransactionSignature (v : serde) : result string TransactionSignature :=
  fs ← get_struct ["transaction_id"; "env_id"; "transaction_hash"; "signature"; "current_stake"] v;
  match fs with
  | [a; b; c; d; e] =>
      i ← of_bytes a; n ← of_bytes b; h ← of_bytes c; s ← of_bytes d; k ← of_u64 e; Ok (mkSignature i n h s k)
  | _ => Err "invalid length"
  end.

Definition of_ShieldedTransaction (v : serde) : result string ShieldedTransaction :=
  fs ← get_struct_default [("id", None); ("action", None); ("token_id", None); ("spent_commitments", Some (SSeq []));
         ("nullifiers", None); ("commitments", None); ("merkle_root", None); ("proof", None);
         ("note_ciphertexts", None); ("fee", None)] v;
  match fs with
  | [a; b; c; d; e; f; g; h; i; j] =>
      id ← of_string a; act ← of_string b; tok ← of_bytes c; sc ← of_list of_array32 d; ns ← of_list of_array32 e;
      cs ← of_list of_array32 f; root ← of_array32 g; proof ← of_bytes h; notes ← of_list of_bytes i; fee ← of_u64 j;
      Ok (mkShielded id act tok sc ns cs root proof notes fee)
  | _ => Err "invalid length"
  end.

Definition of_SignedTransaction (v : serde) : result string SignedTransaction :=
  fs ← get_struct_default [("transaction_id", None); ("transaction", None); ("total_stake", None); ("total_voters", None);
         ("leader_address", None); ("leader_stake", None); ("leader_hash", None); ("finalizer_addr", None);
         ("finalizer_sig", None); ("executor_sigs", None); ("proposer_key", None); ("shielded", Some SNil)] v;
  match fs with
  | [a; b; c; d; e; f; g; h; i; j; k; l] =>
      id ← of_string a; tx ← of_Transaction b; ts ← of_u64 c; tv ← of_u32 d; la ← of_bytes e; ls ← of_u64 f;
      lh ← of_bytes g; fa ← of_bytes h; fsig ← of_TransactionSignature i;
      es ← of_entries of_bytes of_TransactionSignature j; pk ← of_bytes k; sh ← of_option of_ShieldedTransaction l;
      Ok (mkSigned id tx ts tv la ls lh fa fsig es pk sh)
  | _ => Err "invalid length"
  end.

Definition of_FinalityStatus (v : serde) : result string FinalityStatus :=
  '(n, x) ← of_variant v;
  if (match x with None | Some SNil => true | _ => false end : bool) then
    if String.eqb n "Optimistic" then Ok Optimistic
    else if String.eqb n "Confirmed" then Ok Confirmed
    else Err ("unknown variant " +:+ n)
  else Err "invalid type: expected unit variant".

Definition of_Block (v : serde) : result string Block :=
  fs ← get_struct ["signed_trans"; "token_metadata"; "previous_hash"; "current_hash"; "timestamp"; "finality_status";
         "proposer_key"; "epoch_number"] v;
  match fs with
  | [a; b; c; d; e; f; g; h] =>
      st ← of_SignedTransaction a; md ← of_entries of_string of_string b; ph ← of_bytes c; ch ← of_bytes d; t ← of_i64 e;
      s ← of_FinalityStatus f; k ← of_bytes g; n ← of_u64 h; Ok (mkBlock st md ph ch t s k n)
  | _ => Err "invalid length"
  end.

Definition of_TransactionCommit (v : serde) : result string TransactionCommit :=
  fs ← get_struct ["trans_id"; "token_id"; "env_id"; "proposed_block"] v;
  match fs with
  | [a; b; c; d] => i ← of_bytes a; t ← of_bytes b; e ← of_string c; p ← of_Block d; Ok (mkCommit i t e p)
  | _ => Err "invalid length"
  end.

Definition of_Blockchain (v : serde) : result string Blockchain :=
  fs ← get_struct ["chain"; "metadata"] v;
  match fs with
  | [a; b] => c ← of_list of_Block a; m ← of_entries of_string of_string b; Ok (mkChain c m)
  | _ => Err "invalid length"
  end.

Definition of_Token (v : serde) : result string Token :=
  fs ← get_struct_default [("id", None); ("metadata", None); ("blockchain", None); ("asset_data", Some SNil);
         ("asset_hash", None); ("security_level", None); ("is_self_verified", None); ("is_non_transferable", None);
         ("block_validation_spec_name", None); ("environment_id", None); ("sequence_number", None)] v;
  match fs with
  | [a; b; c; d; e; f; g; h; i; j; k] =>
      id ← of_bytes a; md ← of_entries of_string of_string b; bc ← of_Blockchain c; ad ← of_option of_bytes d;
      ah ← of_bytes e; sl ← of_usize f; sv ← of_bool g; nt ← of_bool h; sp ← of_string i; env ← of_string j;
      seq ← of_usize k; Ok (mkToken id md bc ad ah sl sv nt sp env seq)
  | _ => Err "invalid length"
  end.

(** ** Writers

    A [HashMap] is written in its iteration order. *)

Section writers.
Context `{HashIter}.

Definition ser_SignedTransaction (s : SignedTransaction) : serde :=
  ser_struct [
    fld "transaction_id" (SStr (st_transaction_id s));
    fld "transaction" (ser_Transaction (st_transaction s));
    fld "total_stake" (ser_N (st_total_stake s));
    fld "total_voters" (ser_N (st_total_voters s));
    fld "leader_address" (ser_bytes (st_leader_address s));
    fld "leader_stake" (ser_N (st_leader_stake s));
    fld "leader_hash" (ser_bytes (st_leader_hash s));
    fld "finalizer_addr" (ser_bytes (st_finalizer_addr s));
    fld "finalizer_sig" (ser_TransactionSignature (st_finalizer_sig s));
    fld "executor_sigs" (ser_entries ser_bytes ser_TransactionSignature (hash_iter (st_executor_sigs s)));
    fld "proposer_key" (ser_bytes (st_proposer_key s));
    fld_skip (is_none (st_shielded s)) "shielded" (ser_option ser_ShieldedTransaction (st_shielded s))].

Definition ser_hash_strings (m : gmap string string) : serde := ser_entries SStr SStr (hash_iter m).

Definition ser_FinalityStatus (s : FinalityStatus) : serde :=
  SStr match s with Optimistic => "Optimistic" | Confirmed => "Confirmed" end.

Definition ser_Block (b : Block) : serde :=
  ser_struct [
    fld "signed_trans" (ser_SignedTransaction (signed_trans b));
    fld "token_metadata" (ser_hash_strings (token_metadata b));
    fld "previous_hash" (ser_bytes (previous_hash b));
    fld "current_hash" (ser_bytes (current_hash b));
    fld "timestamp" (SInt (blk_timestamp b));
    fld "finality_status" (ser_FinalityStatus (finality_status b));
    fld "proposer_key" (ser_bytes (blk_proposer_key b));
    fld "epoch_number" (ser_N (blk_epoch_number b))].

Definition ser_TransactionCommit (c : TransactionCommit) : serde :=
  ser_struct [
    fld "trans_id" (ser_bytes (trans_id c));
    fld "token_id" (ser_bytes (tc_token_id c));
    fld "env_id" (SStr (tc_env_id c));
    fld "proposed_block" (ser_Block (proposed_block c))].

Definition ser_Blockchain (c : Blockchain) : serde :=
  ser_struct [fld "chain" (ser_list ser_Block (chain c)); fld "metadata" (ser_hash_strings (chain_metadata c))].

Definition ser_Token (t : Token) : serde :=
  ser_struct [
    fld "id" (ser_bytes (tok_id t));
    fld "metadata" (ser_hash_strings (tok_metadata t));
    fld "blockchain" (ser_Blockchain (blockchain t));
    fld "asset_data" (ser_option ser_bytes (asset_data t));
    fld "asset_hash" (ser_bytes (asset_hash t));
    fld "security_level" (ser_nat (security_level t));
    fld "is_self_verified" (SBool (is_self_verified t));
    fld "is_non_transferable" (SBool (is_non_transferable t));
    fld "block_validation_spec_name" (SStr (block_validation_spec_name t));
    fld "environment_id" (SStr (tok_environment_id t));
    fld "sequence_number" (ser_nat (tok_sequence_number t))].
End writers.

(** ** What the Rust types hold *)

Definition wf_i64 (z : Z) : Prop := (- 2 ^ 63 ≤ z < 2 ^ 63)%Z.
Definition wf_u32 (n : N) : Prop := (n < 4294967296)%N.
Definition wf_option {A} (P : A → Prop) (o : option A) : Prop := match o with Some a => P a | None => True end.

Definition wf_SelectionRecord (r : SelectionRecord) : Prop :=
  wf_bytes (sr_finalizer_public_key r) ∧ wf_u64 (sr_epoch_number r) ∧ wf_bytes (sr_salt r) ∧
  wf_bytes (sr_sentinel_public_key r) ∧ wf_bytes (sr_attestation r).

Definition wf_Transaction (t : Transaction) : Prop :=
  wf_bytes (tx_token_id t) ∧ wf_option (λ b, wf_i64 (bid_expiry b)) (tx_bid t) ∧ wf_usize (tx_sequence_number t) ∧
  wf_bytes (tx_sender t) ∧ wf_bytes (tx_receiver t) ∧ wf_option wf_u64 (tx_amount t) ∧ wf_i64 (tx_timestamp t) ∧
  wf_bytes (tx_result_hash t) ∧ wf_bytes (tx_sender_signature t) ∧ wf_bytes (tx_payload t) ∧ wf_u64 (tx_gas_limit t) ∧
  wf_bytes (tx_result_data t) ∧ wf_option wf_SelectionRecord (tx_selection t).

Definition wf_TransactionSignature (s : TransactionSignature) : Prop :=
  wf_bytes (ts_transaction_id s) ∧ wf_bytes (ts_env_id s) ∧ wf_bytes (ts_transaction_hash s) ∧
  wf_bytes (ts_signature s) ∧ wf_u64 (ts_current_stake s).

Definition wf_ShieldedTransaction (s : ShieldedTransaction) : Prop :=
  wf_bytes (sh_token_id s) ∧ Forall wf_array32 (sh_spent_commitments s) ∧ Forall wf_array32 (sh_nullifiers s) ∧
  Forall wf_array32 (sh_commitments s) ∧ wf_array32 (sh_merkle_root s) ∧ wf_bytes (sh_proof s) ∧
  Forall wf_bytes (sh_note_ciphertexts s) ∧ wf_u64 (sh_fee s).

Definition wf_SignedTransaction (s : SignedTransaction) : Prop :=
  wf_Transaction (st_transaction s) ∧ wf_u64 (st_total_stake s) ∧ wf_u32 (st_total_voters s) ∧
  wf_bytes (st_leader_address s) ∧ wf_u64 (st_leader_stake s) ∧ wf_bytes (st_leader_hash s) ∧
  wf_bytes (st_finalizer_addr s) ∧ wf_TransactionSignature (st_finalizer_sig s) ∧
  map_Forall (λ k v, wf_bytes k ∧ wf_TransactionSignature v) (st_executor_sigs s) ∧ wf_bytes (st_proposer_key s) ∧
  wf_option wf_ShieldedTransaction (st_shielded s).

Definition wf_Block (b : Block) : Prop :=
  wf_SignedTransaction (signed_trans b) ∧ wf_bytes (previous_hash b) ∧ wf_bytes (current_hash b) ∧
  wf_i64 (blk_timestamp b) ∧ wf_bytes (blk_proposer_key b) ∧ wf_u64 (blk_epoch_number b).

Definition wf_TransactionCommit (c : TransactionCommit) : Prop :=
  wf_bytes (trans_id c) ∧ wf_bytes (tc_token_id c) ∧ wf_Block (proposed_block c).

Definition wf_Token (t : Token) : Prop :=
  wf_bytes (tok_id t) ∧ Forall wf_Block (chain (blockchain t)) ∧ wf_option wf_bytes (asset_data t) ∧
  wf_bytes (asset_hash t) ∧ wf_usize (security_level t) ∧ wf_usize (tok_sequence_number t).

(** ** Reading back *)

Lemma of_i64_ser z : wf_i64 z → of_i64 (SInt z) = Ok z.
Proof. intros Hz. unfold of_i64. by rewrite bool_decide_true. Qed.

Lemma of_option_ser {A} (f : serde → result string A) (g : A → serde) o :
  wf_option (λ a, f (g a) = Ok a ∧ g a ≠ SNil) o → of_option f (ser_option g o) = Ok o.
Proof.
  destruct o as [a|]; [|done]. intros [Ha Hn]. unfold of_option, ser_option.
  destruct (g a); [done|..]; by rewrite Ha.
Qed.

Lemma wf_option_impl {A} (P Q : A → Prop) o : wf_option P o → (∀ a, P a → Q a) → wf_option Q o.
Proof. destruct o; cbn; auto. Qed.

Lemma of_strings_ser `{HashIter} m : of_entries of_string of_string (ser_hash_strings m) = Ok m.
Proof. apply of_entries_ser; [apply hash_iter_perm|]. by intros k v _. Qed.

Arguments of_i64 : simpl never.
Arguments of_u32 : simpl never.
Arguments of_option : simpl never.
Arguments of_entries : simpl never.
Arguments ser_entries : simpl never.
Arguments ser_hash_strings : simpl never.

(** Reads the next field of a struct whose fields are well formed. *)
Create HintDb wire.
Ltac read_fields := repeat (cbn; first
  [ rewrite of_bytes_ser by auto with wire | rewrite of_u64_ser by auto with wire
  | rewrite of_usize_ser by auto with wire | rewrite of_i64_ser by auto with wire | rewrite of_u32_ser by auto with wire
  | rewrite of_arrays_ser by auto with wire | rewrite of_array32_ser by auto with wire
  | rewrite of_bytes_list_ser by auto with wire | rewrite of_strings_ser
  | rewrite of_option_ser by auto with wire ]); cbn.

Lemma of_Bid_ser b : wf_i64 (bid_expiry b) → of_Bid (ser_Bid b) = Ok b ∧ ser_Bid b ≠ SNil.
Proof. destruct b. intros Hb. split; [|done]. unfold of_Bid. by read_fields. Qed.

Lemma of_SelectionRecord_ser r : wf_SelectionRecord r → of_SelectionRecord (ser_SelectionRecord r) = Ok r ∧ ser_SelectionRecord r ≠ SNil.
Proof. destruct r. intros (?&?&?&?&?). split; [|done]. unfold of_SelectionRecord. by read_fields. Qed.

Lemma of_TransactionSignature_ser s : wf_TransactionSignature s → of_TransactionSignature (ser_TransactionSignature s) = Ok s.
Proof. destruct s. intros (?&?&?&?&?). unfold of_TransactionSignature. by read_fields. Qed.

Lemma of_ShieldedTransaction_ser s :
  wf_ShieldedTransaction s → of_ShieldedTransaction (ser_ShieldedTransaction s) = Ok s ∧ ser_ShieldedTransaction s ≠ SNil.
Proof. destruct s. intros (?&?&?&?&?&?&?&?). split; [|done]. unfold of_ShieldedTransaction. by read_fields. Qed.

Lemma of_amount_ser o : wf_option wf_u64 o → wf_option (λ n, of_u64 (ser_N n) = Ok n ∧ ser_N n ≠ SNil) o.
Proof. intros Ho. eapply wf_option_impl; [exact Ho|]. intros n Hn. by rewrite of_u64_ser. Qed.
Lemma of_bid_ser o : wf_option (λ b, wf_i64 (bid_expiry b)) o → wf_option (λ b, of_Bid (ser_Bid b) = Ok b ∧ ser_Bid b ≠ SNil) o.
Proof. intros Ho. eapply wf_option_impl; [exact Ho|apply of_Bid_ser]. Qed.
Lemma of_selection_ser o :
  wf_option wf_SelectionRecord o → wf_option (λ r, of_SelectionRecord (ser_SelectionRecord r) = Ok r ∧ ser_SelectionRecord r ≠ SNil) o.
Proof. intros Ho. eapply wf_option_impl; [exact Ho|apply of_SelectionRecord_ser]. Qed.
Lemma of_shielded_ser o :
  wf_option wf_ShieldedTransaction o →
  wf_option (λ s, of_ShieldedTransaction (ser_ShieldedTransaction s) = Ok s ∧ ser_ShieldedTransaction s ≠ SNil) o.
Proof. intros Ho. eapply wf_option_impl; [exact Ho|apply of_ShieldedTransaction_ser]. Qed.
#[export] Hint Resolve of_amount_ser of_bid_ser of_selection_ser of_shielded_ser : wire.

Arguments ser_Bid : simpl never.
Arguments ser_SelectionRecord : simpl never.

(** A field that is skipped at its default is read as its default. *)
Lemma of_Transaction_ser t : wf_Transaction t → of_Transaction (ser_Transaction t) = Ok t.
Proof.
  destruct t as [id act tok bid seq snd rcv amt time hash sig pay gas data sel].
  intros (?&?&?&?&?&?&?&?&?&?&?&?&?). cbn in *. unfold of_Transaction, ser_Transaction. cbn [tx_payload tx_gas_limit tx_result_data tx_selection].
  destruct pay as [|p pay], (is_zero_u64 gas) eqn:Eg, data as [|x data], sel as [r|]; cbn; read_fields; try done.
  all: unfold is_zero_u64 in Eg; apply N.eqb_eq in Eg; by subst.
Qed.

Arguments ser_Transaction : simpl never.
Arguments ser_TransactionSignature : simpl never.
Arguments ser_ShieldedTransaction : simpl never.
Arguments of_Transaction : simpl never.
Arguments of_TransactionSignature : simpl never.

Section roundtrip.
Context `{HashIter}.

Lemma of_SignedTransaction_ser s : wf_SignedTransaction s → of_SignedTransaction (ser_SignedTransaction s) = Ok s.
Proof.
  destruct s as [id tx ts tv la ls lh fa fs es pk sh]. intros (?&?&?&?&?&?&?&?&Hes&?&?). cbn in *.
  unfold of_SignedTransaction, ser_SignedTransaction. cbn [st_shielded].
  assert (of_entries of_bytes of_TransactionSignature (ser_entries ser_bytes ser_TransactionSignature (hash_iter es)) = Ok es) as He.
  { apply of_entries_ser; [apply hash_iter_perm|]. eapply map_Forall_impl; [exact Hes|]. intros k v [Hk Hv].
    split; [by apply of_bytes_ser|by apply of_TransactionSignature_ser]. }
  destruct sh as [x|]; cbn; rewrite of_Transaction_ser by done; read_fields; rewrite of_TransactionSignature_ser by done;
    cbn; rewrite He; by read_fields.
Qed.

Arguments ser_SignedTransaction : simpl never.
Arguments of_SignedTransaction : simpl never.

Lemma of_Block_ser b : wf_Block b → of_Block (ser_Block b) = Ok b.
Proof.
  destruct b as [st md ph ch t [] k n]; intros (?&?&?&?&?&?); unfold of_Block; cbn in *;
    rewrite of_SignedTransaction_ser by done; by read_fields.
Qed.

Arguments ser_Block : simpl never.
Arguments of_Block : simpl never.

Lemma of_TransactionCommit_ser c : wf_TransactionCommit c → of_TransactionCommit (ser_TransactionCommit c) = Ok c.
Proof.
  destruct c as [i t e b]. intros (?&?&?). unfold of_TransactionCommit. cbn in *. read_fields. by rewrite of_Block_ser.
Qed.

Lemma of_Blockchain_ser c : Forall wf_Block (chain c) → of_Blockchain (ser_Blockchain c) = Ok c.
Proof.
  destruct c as [c m]. intros Hc. unfold of_Blockchain. cbn in *. rewrite of_list_ser; [by read_fields|].
  eapply Forall_impl; [exact Hc|apply of_Block_ser].
Qed.

Arguments ser_Blockchain : simpl never.
Arguments of_Blockchain : simpl never.

Lemma of_Token_ser t : wf_Token t → of_Token (ser_Token t) = Ok t.
Proof.
  destruct t as [id md bc ad ah sl sv nt sp env seq]. intros (?&?&Ha&?&?&?). unfold of_Token. cbn in *.
  assert (of_option of_bytes (ser_option ser_bytes ad) = Ok ad) as Ho.
  { apply of_option_ser. eapply wf_option_impl; [exact Ha|]. intros b Hb. by rewrite of_bytes_ser. }
  read_fields. rewrite of_Blockchain_ser by done. cbn. rewrite Ho. by read_fields.
Qed.

#[export, refine] Instance Block_serde : Serde Block := {| to_serde := ser_Block; of_serde := of_Block; wf := wf_Block |}.
Proof. exact of_Block_ser. Defined.
#[export, refine] Instance TransactionCommit_serde : Serde TransactionCommit := {|
  to_serde := ser_TransactionCommit; of_serde := of_TransactionCommit; wf := wf_TransactionCommit |}.
Proof. exact of_TransactionCommit_ser. Defined.
#[export, refine] Instance Token_serde : Serde Token := {| to_serde := ser_Token; of_serde := of_Token; wf := wf_Token |}.
Proof. exact of_Token_ser. Defined.
End roundtrip.

#[export, refine] Instance Transaction_serde : Serde Transaction := {|
  to_serde := ser_Transaction; of_serde := of_Transaction; wf := wf_Transaction |}.
Proof. exact of_Transaction_ser. Defined.
#[export, refine] Instance TransactionSignature_serde : Serde TransactionSignature := {|
  to_serde := ser_TransactionSignature; of_serde := of_TransactionSignature; wf := wf_TransactionSignature |}.
Proof. exact of_TransactionSignature_ser. Defined.
#[export, refine] Instance ShieldedTransaction_serde : Serde ShieldedTransaction := {|
  to_serde := ser_ShieldedTransaction; of_serde := of_ShieldedTransaction; wf := wf_ShieldedTransaction |}.
Proof. intros s Hs. by apply of_ShieldedTransaction_ser. Defined.
#[export, refine] Instance string_serde : Serde string := {| to_serde := SStr; of_serde := of_string; wf s := True |}.
Proof. done. Defined.

(** C36: everything that crosses the network or the data channel is read back as
    it was written, on nodes whose hash maps iterate differently: transactions
    with their skipped fields, votes, shielded transfers, commits with their
    blocks, tokens with their chains. *)
Theorem wire_roundtrip `{Rmp} (writer reader : HashIter) :
  (∀ t b, wf_Transaction t → rmp_enc (ser_Transaction t) = Ok b → deserialize_rmp_to Transaction b = Ok t) ∧
  (∀ s b, wf_TransactionSignature s → rmp_enc (ser_TransactionSignature s) = Ok b →
     deserialize_rmp_to TransactionSignature b = Ok s) ∧
  (∀ s b, wf_ShieldedTransaction s → rmp_enc (ser_ShieldedTransaction s) = Ok b →
     deserialize_rmp_to ShieldedTransaction b = Ok s) ∧
  (∀ c b, wf_TransactionCommit c → rmp_enc (@ser_TransactionCommit writer c) = Ok b →
     @deserialize_rmp_to _ TransactionCommit (@TransactionCommit_serde reader) b = Ok c) ∧
  (∀ t b, wf_Token t → rmp_enc (@ser_Token writer t) = Ok b →
     @deserialize_rmp_to _ Token (@Token_serde reader) b = Ok t).
Proof.
  assert (∀ (w : serde) b, rmp_enc w = Ok b → rmp_dec b = Ok (w, [])) as Hd.
  { intros w b Hb. apply (rmp_round _ _ []) in Hb. by rewrite app_nil_r in Hb. }
  split_and!; intros x b Hx Hb; unfold deserialize_rmp_to; rewrite (Hd _ _ Hb); cbn -[of_TransactionCommit of_Token].
  - by apply of_Transaction_ser.
  - by apply of_TransactionSignature_ser.
  - by apply of_ShieldedTransaction_ser.
  - by apply of_TransactionCommit_ser.
  - by apply of_Token_ser.
Qed.
