(* ===== verification/Channel.v ===== *)
(** * The data channel (src/src/conns/senders.rs, conns/uds.rs, conns.rs, conns/factories.rs)

    The framed, optionally authenticated request/response channel between a node
    and its data service: [4-byte big-endian length][32-byte tag][body]. HMAC is
    an interface; a stream is the list of bytes the peer sends before it closes. *)

From S2P Require Import Prelude Interfaces Types.

(** ** HMAC-SHA256: [hmac] over [sha2] *)

Class Hmac := {
  hmac_sha256 : bytes → bytes → bytes;
  hmac_length k m : length (hmac_sha256 k m) = 32;
}.

Inductive ConnError :=
| IO (msg : string)
| MalformedData (msg : string)
| WriteError (msg : option string)
| ReadError (msg : option string)
| DecryptError (msg : string)
| ConnTimeout (msg : string)
| Unauthenticated (msg : string).

Inductive ConnTarget := Remote (addr : string) | LocalTcp (addr : string) | LocalUnix (path : string).

Definition MAX_FRAME_SIZE : N := 16777216.
Definition AUTH_TAG_LEN : nat := 32.

(** [u32::from_be_bytes]. *)
Definition be_value (b : bytes) : N := foldl (λ acc x, acc * 256 + x)%N 0%N b.

(** [Read::read_exact]. *)
Definition read_exact (n : nat) (stream : bytes) : option (bytes * bytes) :=
  if bool_decide (n ≤ length stream) then Some (take n stream, drop n stream) else None.

Definition eof_message : string := "failed to fill whole buffer".

Section framing.
Context `{Hmac}.

Definition sign_payload (secret : option bytes) (payload : bytes) : bytes * bytes :=
  match secret with
  | Some secret => (hmac_sha256 secret payload, payload)
  | None => (replicate 32 0%N, payload)
  end.

Definition verify_payload (secret : option bytes) (tag payload : bytes) : bool :=
  match secret with
  | None => true
  | Some secret =>
      if bool_decide (length tag ≠ 32) then false else bool_decide (hmac_sha256 secret payload = tag)
  end.

(** The bytes [write_frame] writes; the length is cut to 32 bits. *)
Definition write_frame (secret : option bytes) (payload : bytes) : bytes :=
  let '(tag, body) := sign_payload secret payload in
  be_bytes 4 (N.of_nat (AUTH_TAG_LEN + length body)) ++ tag ++ body.

Definition unframe (secret : option bytes) (body : bytes) : result ConnError bytes :=
  if bool_decide (length body < AUTH_TAG_LEN) then Err (MalformedData "response shorter than auth tag")
  else
    let tag := take AUTH_TAG_LEN body in
    let payload := drop AUTH_TAG_LEN body in
    if verify_payload secret tag payload then Ok payload
    else Err (Unauthenticated "response HMAC verification failed").

(** What [get_response] makes of the bytes the service sends back. *)
Definition read_response (secret : option bytes) (stream : bytes) : result ConnError bytes :=
  match read_exact 4 stream with
  | None => Err (ReadError (Some eof_message))
  | Some (header, rest) =>
      let data_length := be_value header in
      if bool_decide (MAX_FRAME_SIZE < data_length)%N then 
        Err (MalformedData ("Frame size " +:+ pretty data_length +:+ " exceeds maximum " +:+ pretty MAX_FRAME_SIZE))
      else match read_exact (N.to_nat data_length) rest with
           | None => Err (ReadError (Some eof_message))
           | Some (body, _) => unframe secret body
           end
  end.

(** The service's side of the same frame; [Ok None] is a peer that closed before
    a whole header. *)
Definition read_body (stream : bytes) : result string (option bytes) :=
  match read_exact 4 stream with
  | None => Ok None
  | Some (header, rest) =>
      let len := be_value header in
      if bool_decide (len < N.of_nat AUTH_TAG_LEN)%N then Err "frame body shorter than the auth tag"
      else if bool_decide (MAX_FRAME_SIZE < len)%N then Err "frame body exceeds the cap"
      else match read_exact (N.to_nat len) rest with
           | None => Err eof_message
           | Some (body, _) => Ok (Some body)
           end
  end.
End framing.

(** ** Facts about frames *)

Lemma be_value_snoc b x : be_value (b ++ [x]) = (be_value b * 256 + x)%N.
Proof. unfold be_value. by rewrite foldl_app. Qed.

Lemma be_value_be_bytes n x : (x < 256 ^ N.of_nat n)%N → be_value (be_bytes n x) = x.
Proof.
  revert x. induction n as [|n IH]; intros x Hx; [simpl in *; unfold be_value; simpl; lia|].
  rewrite Nat2N.inj_succ, N.pow_succ_r' in Hx. simpl. rewrite be_value_snoc, IH.
  - pose proof (N.div_mod' x 256). lia.
  - apply N.Div0.div_lt_upper_bound. lia.
Qed.

Lemma read_exact_app n b rest : length b = n → read_exact n (b ++ rest) = Some (b, rest).
Proof.
  intros <-. unfold read_exact. rewrite bool_decide_true by (rewrite length_app; lia).
  by rewrite take_app_length, drop_app_length.
Qed.

Section frame_facts.
Context `{Hmac}.

(** A payload that fits in a frame. *)
Definition fits (payload : bytes) : Prop := (N.of_nat (AUTH_TAG_LEN + length payload) ≤ MAX_FRAME_SIZE)%N.

Definition tag_of (secret : option bytes) (payload : bytes) : bytes := (sign_payload secret payload).1.

Lemma tag_of_length secret payload : length (tag_of secret payload) = 32.
Proof. destruct secret; [apply hmac_length|apply length_replicate]. Qed.

Lemma write_frame_eq secret payload :
  write_frame secret payload =
    be_bytes 4 (N.of_nat (AUTH_TAG_LEN + length payload)) ++ tag_of secret payload ++ payload.
Proof. by destruct secret. Qed.

Lemma verify_payload_tag secret payload : verify_payload secret (tag_of secret payload) payload = true.
Proof.
  destruct secret as [k|]; [|done]. unfold verify_payload, tag_of, sign_payload. cbn [fst].
  rewrite hmac_length, bool_decide_false by tauto. by rewrite bool_decide_true.
Qed.

(** Both readers find the tag and the payload of a frame that fits. *)
Lemma read_frame secret payload :
  fits payload →
  read_exact 4 (write_frame secret payload) =
    Some (be_bytes 4 (N.of_nat (AUTH_TAG_LEN + length payload)), tag_of secret payload ++ payload) ∧
  be_value (be_bytes 4 (N.of_nat (AUTH_TAG_LEN + length payload))) = N.of_nat (AUTH_TAG_LEN + length payload) ∧
  read_exact (N.to_nat (N.of_nat (AUTH_TAG_LEN + length payload))) (tag_of secret payload ++ payload) =
    Some (tag_of secret payload ++ payload, []).
Proof.
  intros Hf. unfold fits, MAX_FRAME_SIZE in Hf. split_and!.
  - rewrite write_frame_eq. apply read_exact_app, be_bytes_length.
  - apply be_value_be_bytes. change (256 ^ N.of_nat 4)%N with 4294967296%N. lia.
  - rewrite Nat2N.id. rewrite <-(app_nil_r (tag_of secret payload ++ payload)) at 1. apply read_exact_app.
    by rewrite length_app, tag_of_length.
Qed.

Lemma read_body_frame secret payload :
  fits payload → read_body (write_frame secret payload) = Ok (Some (tag_of secret payload ++ payload)).
Proof.
  intros Hf. destruct (read_frame secret payload Hf) as (H1 & H2 & H3). unfold read_body. rewrite H1, H2.
  rewrite bool_decide_false by lia. unfold fits in Hf. rewrite bool_decide_false by lia. by rewrite H3.
Qed.

Lemma split_frame secret payload :
  take AUTH_TAG_LEN (tag_of secret payload ++ payload) = tag_of secret payload ∧
  drop AUTH_TAG_LEN (tag_of secret payload ++ payload) = payload.
Proof.
  assert (length (tag_of secret payload) = AUTH_TAG_LEN) as Hl by apply tag_of_length.
  by rewrite take_app_length', drop_app_length' by done.
Qed.

Lemma read_response_frame secret payload :
  fits payload → read_response secret (write_frame secret payload) = Ok payload.
Proof.
  intros Hf. destruct (read_frame secret payload Hf) as (H1 & H2 & H3). unfold read_response. rewrite H1, H2.
  unfold fits in Hf. rewrite bool_decide_false by lia. rewrite H3. unfold unframe.
  destruct (split_frame secret payload) as [-> ->]. rewrite bool_decide_false, verify_payload_tag; [done|].
  rewrite length_app, tag_of_length. unfold AUTH_TAG_LEN. lia.
Qed.
End frame_facts.
