(* ===== verification/Tokens.v ===== *)
(** * Tokens (src/src/tokens.rs)

    A token is its own chain: minting, the asset, block creation and the commit
    of a block with its rollback, restore, trimming and counting. *)

From S2P Require Import Prelude Interfaces Types Serialize Float Environment Crypto Transactions Chain.
From S2P Require Import Validation DataProvider Deserialize.

Definition DEFAULT_SECURITY_LEVEL : nat := 5.

Definition Token_new : Token :=
  mkToken [] ∅ Blockchain_new None [] DEFAULT_SECURITY_LEVEL false false "SelfSigned" "default" 0.

Definition with_id (id : bytes) (t : Token) : Token :=
  mkToken id (tok_metadata t) (blockchain t) (asset_data t) (asset_hash t) (security_level t)
    (is_self_verified t) (is_non_transferable t) (block_validation_spec_name t) (tok_environment_id t)
    (tok_sequence_number t).

Definition with_is_self_verified (v : bool) (t : Token) : Token :=
  mkToken (tok_id t) (tok_metadata t) (blockchain t) (asset_data t) (asset_hash t) (security_level t)
    v (is_non_transferable t) (block_validation_spec_name t) (tok_environment_id t)
    (tok_sequence_number t).

Definition set_metadata (k v : string) (t : Token) : Token :=
  mkToken (tok_id t) (<[k := v]> (tok_metadata t)) (blockchain t) (asset_data t) (asset_hash t)
    (security_level t) (is_self_verified t) (is_non_transferable t) (block_validation_spec_name t)
    (tok_environment_id t) (tok_sequence_number t).

Definition with_asset (d : option bytes) (t : Token) : Token :=
  mkToken (tok_id t) (tok_metadata t) (blockchain t) d (asset_hash t)
    (security_level t) (is_self_verified t) (is_non_transferable t) (block_validation_spec_name t)
    (tok_environment_id t) (tok_sequence_number t).

Definition with_blockchain (c : Blockchain) (t : Token) : Token :=
  mkToken (tok_id t) (tok_metadata t) c (asset_data t) (asset_hash t)
    (security_level t) (is_self_verified t) (is_non_transferable t) (block_validation_spec_name t)
    (tok_environment_id t) (tok_sequence_number t).

Definition with_sequence (n : nat) (t : Token) : Token :=
  mkToken (tok_id t) (tok_metadata t) (blockchain t) (asset_data t) (asset_hash t)
    (security_level t) (is_self_verified t) (is_non_transferable t) (block_validation_spec_name t)
    (tok_environment_id t) n.

Definition is_shielded_opt_in (t : Token) : bool :=
  match tok_metadata t !! "shielded_opt_in" with
  | Some v => String.eqb v "true"
  | None => false
  end.

(** ** Assets *)

Section assets.
Context `{Rmp}.

Definition from_asset (asset : serde) : result string Token :=
  data ← rmp_enc asset;
  Ok (with_asset (Some data) Token_new).

(** [de] is the derived [Deserialize] of the asset's type. *)
Definition get_asset {T} (de : serde → option T) (t : Token) : option T :=
  asset ← asset_data t;
  match rmp_dec asset with
  | Ok (v, _) => de v
  | Err _ => None
  end.

Definition set_asset (asset : serde) (t : Token) : result string Token :=
  data ← rmp_enc asset; Ok (with_asset (Some data) t).

Definition update_asset {T} (ser : T → serde) (de : serde → option T) (f : T → T) (t : Token) :
    Token * option T :=
  match get_asset de t with
  | None => (t, None)
  | Some asset =>
      let asset := f asset in
      match rmp_enc (ser asset) with
      | Ok data => (with_asset (Some data) t, Some asset)
      | Err _ => (t, None)
      end
  end.

(** ** Minting *)

(** [str::parse::<bool>().unwrap_or(false)]. *)
Definition parse_bool (s : string) : bool := String.eqb s "true".

Definition mint_token (asset : serde) (id : bytes) (metadata : gmap string string) (env_id : string) :
    result string Token :=
  token ← from_asset asset;
  let self_verified := match metadata !! "is_self_verified" with
                       | Some v => parse_bool v
                       | None => is_self_verified token
                       end in
  let spec_name := default (block_validation_spec_name token) (metadata !! "validator_name") in
  Ok (mkToken id metadata (blockchain token) (asset_data token) (asset_hash token) (security_level token)
        self_verified (is_non_transferable token) spec_name env_id (tok_sequence_number token)).

Definition User_new (k : bytes) : User := mkUser k 0 0 0.

Definition mint_user_token `{Hex} (owner id : bytes) (env_id : string) : result string Token :=
  let metadata : gmap string string :=
    <["is_self_verified" := "true"]> (<["token_type" := "user"]> {["owner" := hex_encode owner]}) in
  mint_token (ser_User (User_new owner)) id metadata env_id.

(** What minting does to the registry's admin credits. *)
Record PendingAdminCredit := mkAdminCredit {
  credit_id : string;
  credit_admin_public_key : bytes;
  credit_amount : N;
  credit_token_id : bytes;
}.

Inductive MintError := MintEncoding (msg : string) | MintData (e : DataError) | MintInsufficientGas.

Record MintArgs := mkMintArgs {
  owner_key : bytes;
  initial_fuel_deposit : N;
  mint_cost_model : CostModel;
  mint_partition_id : string;
}.

(** The store after the call, the credit it records, and the token. *)
Definition mint_token_full `{DataProvider} `{Hex} (asset : serde) (args : MintArgs) (id : bytes)
    (metadata : gmap string string) (env_id : string) (st : store) :
    store * option PendingAdminCredit * result MintError Token :=
  match mint_token asset id metadata env_id with
  | Err e => (st, None, Err (MintEncoding e))
  | Ok token =>
      let minting_fee := ((base_cost (mint_cost_model args) * 10) mod u64_mod)%N in
      match get_user st (owner_key args) (mint_partition_id args) with
      | Err e => (st, None, Err (MintData e))
      | Ok user =>
          let balance := if (0 <? initial_fuel_deposit args)%N then initial_fuel_deposit args
                         else fuel_balance user in
          if (balance <? minting_fee)%N then (st, None, Err MintInsufficientGas)
          else
            let user := mkUser (user_public_key user) (balance - minting_fee) (user_stake user) (nonce user) in
            match save_user st (owner_key args) user (mint_partition_id args) with
            | (st', Err e) => (st', None, Err (MintData e))
            | (st', Ok _) =>
                let admin_tax := f64_mul (f64_of_N minting_fee) (admin_tax_percentage (mint_cost_model args)) in
                if f_gt admin_tax f64_zero then
                  let credit := mkAdminCredit
                    ("admin_credit_" +:+ hex_encode id +:+ "_" +:+ pretty (default 0%N (head (owner_key args))))
                    (admin_public_key (mint_cost_model args)) (as_u64 admin_tax) id in
                  (st', Some credit, Ok token)
                else (st', None, Ok token)
            end
      end
  end.
End assets.

(** ** Blocks *)

Section commit.
Context `{Rmp} `{Sha256} `{HashIter}.

Definition create_block (now : Z) (t : Token) (signed_tx : SignedTransaction) (epoch_number : N) : Block :=
  let prev_hash := if decide (get_count (blockchain t) = 0) then [] else cached_tip (blockchain t) in
  mkBlock signed_tx (tok_metadata t) prev_hash [] now Optimistic (st_proposer_key signed_tx) epoch_number.

Definition has_reached_max_chain_length (t : Token) : bool :=
  bool_decide (security_level t = get_count (blockchain t)).

(** The rollback of a losing tip: the chain, and the block to restore. *)
Definition rollback_tip (c : Blockchain) (rollback_tip_hash : option bytes) : Blockchain * option Block :=
  match rollback_tip_hash with
  | Some loser_hash => if decide (cached_tip c = loser_hash) then remove_block c else (c, None)
  | None => (c, None)
  end.

Definition commit_block (t : Token) (block : Block) (is_archiver : bool) (env : EnvironmentMetadata)
    (rollback_tip_hash : option bytes) : Token * result BlockCommitError TokenCommitResult :=
  match create_hash block with
  | Err e => (t, Err (HashError e))
  | Ok h =>
      let block := with_current_hash h block in
      let '(rolled, removed_for_restore) := rollback_tip (blockchain t) rollback_tip_hash in
      let t1 := with_blockchain rolled t in
      match validate_block t1 block env with
      | Err e =>
          let restored := match removed_for_restore with
                          | Some loser => add_block (blockchain t1) loser
                          | None => blockchain t1
                          end in
          (with_blockchain restored t1, Err (CommitValidationError e))
      | Ok _ =>
          let t2 := if negb is_archiver && has_reached_max_chain_length t1
                    then with_blockchain (remove_oldest (blockchain t1)).1 t1 else t1 in
          let t3 := with_blockchain (add_block (blockchain t2) block) t2 in
          let t4 := with_sequence (tok_sequence_number t3 + 1) t3 in
          (t4, Ok (mkTokenCommitResult (tok_id t4) (get_count (blockchain t4)) (tok_sequence_number t4)))
      end
  end.
End commit.

(** ** Lemmas *)

Section commit_lemmas.
Context `{Rmp} `{Sha256} `{HashIter}.

#[local] Instance linked_dec l : Decision (linked l).
Proof.
  induction l as [|b [|c l] IH]; simpl; [apply _..|]. apply and_dec; [apply _|exact IH].
Defined.

#[local] Instance chain_valid_dec c : Decision (chain_valid c).
Proof. unfold chain_valid, block_ok. apply _. Defined.

Lemma with_blockchain_id t : with_blockchain (blockchain t) t = t.
Proof. by destruct t. Qed.

Lemma with_blockchain_twice c1 c2 t : with_blockchain c1 (with_blockchain c2 t) = with_blockchain c1 t.
Proof. done. Qed.

(** A next block is accepted only on a valid chain, at its tip, with its hash. *)
Lemma validate_next_block_spec c b :
  validate_next_block c b = true →
  chain_valid c ∧ previous_hash b = cached_tip c ∧ create_hash b = Ok (current_hash b).
Proof.
  unfold validate_next_block. destruct (chain_state_spec c) as [Hv Hi].
  destruct (decide (chain_valid c)) as [Hc|Hc]; [rewrite Hv by done | by rewrite Hi by done].
  simpl. rewrite andb_true_iff, linkage_ok_spec. intros [? Hh]. split_and!; [done..|].
  destruct (create_hash b); [|done]. apply bool_decide_eq_true in Hh. congruence.
Qed.

Lemma validate_block_next t b env :
  validate_block t b env = Ok tt → validate_next_block (blockchain t) b = true.
Proof. unfold validate_block. by destruct (validate_next_block _ _). Qed.

Lemma remove_restore c b c' : remove_block c = (c', Some b) → add_block c' b = c.
Proof.
  unfold remove_block, add_block. intros [= <- Hl]. destruct c as [l m]. simpl in *. f_equal.
  apply last_Some in Hl as [l' ->]. rewrite length_app. simpl.
  by rewrite Nat.add_sub, take_app_length.
Qed.

Lemma rollback_restore c r c' o :
  rollback_tip c r = (c', o) →
  match o with Some loser => add_block c' loser | None => c' end = c.
Proof.
  unfold rollback_tip. destruct r as [h|]; [case_decide|]; intros Hr; simplify_eq; try done.
  destruct o; [by apply remove_restore|]. unfold remove_block in Hr. injection Hr as <- Hn.
  apply last_None in Hn. destruct c as [l m]; simpl in *. by subst.
Qed.

Lemma rollback_count c r :
  get_count (rollback_tip c r).1 = get_count c ∨
  (r = Some (cached_tip c) ∧ get_count (rollback_tip c r).1 = get_count c - 1).
Proof.
  unfold rollback_tip. destruct r as [h|]; [case_decide as Hh|]; auto. right. subst. split; [done|].
  unfold get_count. simpl. rewrite length_take. lia.
Qed.

Lemma linked_tail l : linked l → linked (tail l).
Proof. destruct l as [|a [|b l]]; simpl; naive_solver. Qed.

Lemma chain_valid_trim c : chain_valid c → chain_valid (remove_oldest c).1.
Proof.
  intros [Hok Hl]. split; simpl; [|by apply linked_tail]. destruct (chain c); [done|]. by inversion Hok.
Qed.

Lemma cached_tip_trim c : 2 ≤ get_count c → cached_tip (remove_oldest c).1 = cached_tip c.
Proof. unfold get_count, cached_tip. simpl. destruct (chain c) as [|a [|b l]]; simpl; [lia..|done]. Qed.
End commit_lemmas.

(** ** Properties *)

Section commit_properties.
Context `{Rmp} `{Sha256} `{HashIter}.

Lemma chain_valid_trim_add c b :
  chain_valid (add_block c b) → chain_valid (add_block (remove_oldest c).1 b).
Proof.
  destruct c as [[|a l] m]; [done|]. intros [Hok Hl]. simpl in *. split; simpl.
  - by inversion Hok.
  - apply (linked_tail (a :: l ++ [b])), Hl.
Qed.

Lemma block_ok_sealed b h : create_hash b = Ok h → block_ok (with_current_hash h b).
Proof. done. Qed.

(** C29: committing a block. On any error the token is unchanged, the rolled
    back tip restored. On success the block, sealed with its recomputed hash,
    sits on the tip left by the rollback, the chain is valid, the oldest block
    is dropped exactly when the chain was at its security level, the sequence
    number grows by one, nothing else of the token changes, and a non-archiver
    chain within its bound stays within it. *)
Theorem commit_block_spec t b arch env rb :
  let '(t', r) := commit_block t b arch env rb in
  let base := (rollback_tip (blockchain t) rb).1 in
  match r with
  | Err _ => t' = t
  | Ok res => ∃ h, create_hash b = Ok h ∧ previous_hash b = cached_tip base ∧
      chain (blockchain t') =
        (if negb arch && bool_decide (security_level t = get_count base) then tail (chain base)
         else chain base) ++ [with_current_hash h b] ∧
      chain_valid (blockchain t') ∧ cached_tip (blockchain t') = h ∧
      t' = with_sequence (tok_sequence_number t + 1) (with_blockchain (blockchain t') t) ∧
      res = mkTokenCommitResult (tok_id t) (get_count (blockchain t')) (tok_sequence_number t + 1) ∧
      (arch = false → 0 < security_level t → get_count (blockchain t) ≤ security_level t →
        get_count (blockchain t') ≤ security_level t)
  end.
Proof.
  unfold commit_block. destruct (create_hash b) as [h|e] eqn:Hh; [|done].
  destruct (rollback_tip (blockchain t) rb) as [base loser] eqn:Hrb. simpl.
  pose proof (rollback_count (blockchain t) rb) as Hcount. rewrite Hrb in Hcount. simpl in Hcount.
  destruct (validate_block (with_blockchain base t) (with_current_hash h b) env) as [[]|e] eqn:Hv.
  2:{ rewrite with_blockchain_twice, (rollback_restore _ _ _ _ Hrb). apply with_blockchain_id. }
  apply validate_block_next, validate_next_block_spec in Hv as (Hbase & Hprev & _). simpl in Hbase, Hprev.
  assert (chain_valid (add_block base (with_current_hash h b))) as Hadd
    by (by apply chain_valid_add).
  unfold has_reached_max_chain_length. simpl.
  exists h. split_and!; [done|done| | | | | |].
  - by destruct (negb arch && _).
  - destruct (negb arch && _); simpl; [by apply chain_valid_trim_add | done].
  - destruct (negb arch && _); simpl; by rewrite cached_tip_add.
  - by destruct (negb arch && _).
  - by destruct (negb arch && _).
  - intros -> Hs Hb. unfold get_count in *. simpl.
    case_bool_decide; simpl; rewrite length_app; simpl; [|lia].
    destruct (chain base); simpl in *; lia.
Qed.

(** The trim test is an equality, so a chain that is already longer than
    its security level (one gossiped append on a full chain is enough) is never
    trimmed again: every commit makes it longer. *)
Theorem overlong_chain_never_trimmed t b env t' res :
  security_level t < get_count (blockchain t) →
  commit_block t b false env None = (t', Ok res) →
  get_count (blockchain t') = S (get_count (blockchain t)) ∧
  security_level t' < get_count (blockchain t').
Proof.
  intros Hlong. unfold commit_block. destruct (create_hash b) as [h|e]; [|done]. simpl.
  rewrite with_blockchain_id. destruct (validate_block _ _ _); [|done].
  unfold has_reached_max_chain_length. rewrite bool_decide_false by lia. simpl. intros [= <- <-].
  unfold get_count in *. simpl. rewrite length_app. simpl. lia.
Qed.
End commit_properties.

(** ** The properties at a concrete token *)

Module ConcreteToken.
Import ConcreteChain.

Definition env : EnvironmentMetadata :=
  mkEnv "env" "env" "tokens" None None "slush" [] f32_one f32_one f32_one CostModel_default
    tx_defaults block_defaults [] "aes" "rmp" 1 10 engine_defaults.

(** One block on a token whose security level is zero. *)
Definition token : Token :=
  mkToken [1%N] ∅ (mkChain [genesis] ∅) None [] 0 true false "SelfSigned" "env" 1.

Lemma token_commits : is_ok (commit_block token second false env None).2 = true.
Proof. by vm_compute. Qed.

Lemma overlong_witness :
  ∃ t' res, commit_block token second false env None = (t', Ok res) ∧
    get_count (blockchain t') = S (get_count (blockchain token)) ∧
    security_level t' < get_count (blockchain t').
Proof.
  pose proof token_commits as H.
  destruct (commit_block token second false env None) as [t' [res|e]] eqn:E; [|discriminate H].
  exists t', res. split; [done|].
  apply (overlong_chain_never_trimmed token second env t' res); [apply Nat.lt_0_1 | exact E].
Defined.
End ConcreteToken.
