(* ===== verification/Contracts.v ===== *)
(** * Contracts: state, deployment, upgrade (src/src/contracts.rs, contracts/deploy.rs, contracts/upgrade.rs)

    A contract is the asset of its token. This file has the contract record and
    its wire form, the storage write-set of a call, the deployment operation
    with the token it creates, and the governance of upgrades: digest, quorum,
    timelock and the replacement of the asset. *)

From S2P Require Import Prelude Interfaces Types Serialize Crypto Chain DataProvider Deserialize Tokens.

(** ** The contract record *)

Record SmartContract := mkContract {
  sc_name : string;
  sc_bytecode : bytes;
  sc_version : string;
  sc_storage : gmap bytes bytes;
  sc_owners : list bytes;
  sc_threshold : N;
}.

(** A [BTreeMap] is written in key order, a [HashMap] in its iteration order. *)
Definition btree_list {V} (m : gmap bytes V) : list (bytes * V) := sort_on fst (map_to_list m).

Definition ser_storage (m : gmap bytes bytes) : serde := ser_entries ser_bytes ser_bytes (btree_list m).

Definition ser_SmartContract (c : SmartContract) : serde :=
  ser_struct [
    fld "name" (SStr (sc_name c));
    fld "bytecode" (ser_bytes (sc_bytecode c));
    fld "version" (SStr (sc_version c));
    fld "storage" (ser_storage (sc_storage c));
    fld "owners" (ser_list ser_bytes (sc_owners c));
    fld "threshold" (ser_N (sc_threshold c))].

Definition of_SmartContract (v : serde) : result string SmartContract :=
  fs ← get_struct_default [("name", None); ("bytecode", None); ("version", None);
         ("storage", Some (SMap [])); ("owners", Some (SSeq [])); ("threshold", Some (SInt 0))] v;
  match fs with
  | [a; b; c; d; e; f] =>
      n ← of_string a; code ← of_bytes b; ver ← of_string c; st ← of_entries of_bytes of_bytes d;
      ow ← of_list of_bytes e; th ← of_u32 f; Ok (mkContract n code ver st ow th)
  | _ => Err "invalid length"
  end.

(** ** Errors of an execution *)

Inductive ContractError :=
| UnknownEngine (name : string)
| GasExhausted
| BadBytecode (msg : string)
| Reverted (msg : string)
| EngineNotImplemented (name : string)
| InvalidInput (msg : string).

Definition failure_reason (e : ContractError) : ValidationFailureReason :=
  match e with
  | UnknownEngine _ => ContractNotFound
  | GasExhausted => GasLimitExceeded
  | BadBytecode _ | Reverted _ | EngineNotImplemented _ | InvalidInput _ => ContractExecutionFailed
  end.

Definition to_failure_reasons (e : ContractError) : list ValidationFailureReason := [failure_reason e].

(** The character of a double quote, as the messages use it. *)
Definition dquote : string := String (Ascii.ascii_of_N 34) "".
Definition quoted (s : string) : string := dquote +:+ s +:+ dquote.

Definition display_ContractError (e : ContractError) : string :=
  match e with
  | UnknownEngine name => "unknown contract engine " +:+ quoted name
  | GasExhausted => "gas exhausted"
  | BadBytecode msg => "bad bytecode: " +:+ msg
  | Reverted msg => "contract reverted: " +:+ msg
  | EngineNotImplemented name => "engine " +:+ quoted name +:+ " not implemented yet"
  | InvalidInput msg => "invalid execution input: " +:+ msg
  end.

(** ** The write-set of a call *)

Abbreviation StorageDelta := (gmap bytes (option bytes)) (only parsing).

Record WasmResult := mkWasmResult { module_output : bytes; storage_delta : StorageDelta }.

(** The loop over the write-set: [Some v] sets, [None] removes. *)
Definition apply_entry (s : gmap bytes bytes) (kv : bytes * option bytes) : gmap bytes bytes :=
  match kv.2 with Some v => <[kv.1 := v]> s | None => delete kv.1 s end.

Definition apply_delta_to (d : StorageDelta) (base : gmap bytes bytes) : gmap bytes bytes :=
  foldl apply_entry base (btree_list d).

Definition state_size (s : gmap bytes bytes) : nat :=
  sum_list_with (λ kv : bytes * bytes, length kv.1 + length kv.2) (btree_list s).

Definition post_apply_size (r : WasmResult) (base : gmap bytes bytes) : nat :=
  state_size (apply_delta_to (storage_delta r) base).

Definition ser_WasmResult (r : WasmResult) : serde :=
  ser_struct [
    fld "module_output" (ser_bytes (module_output r));
    fld "storage_delta" (ser_entries ser_bytes (ser_option ser_bytes) (btree_list (storage_delta r)))].

Definition of_WasmResult (v : serde) : result string WasmResult :=
  fs ← get_struct ["module_output"; "storage_delta"] v;
  match fs with
  | [a; b] => o ← of_bytes a; d ← of_entries of_bytes (of_option of_bytes) b; Ok (mkWasmResult o d)
  | _ => Err "invalid length"
  end.

(** ** Deployment *)

Definition DEPLOY_DOMAIN : bytes := string_bytes "PNEUMATIC/DEPLOY/v1".
Definition DEPLOY_GAS_BASE : N := 50000.
Definition DEPLOY_GAS_PER_BYTE : N := 10.
Definition SPEC_MAX_BYTECODE : nat := Nat.mul 64 1024.

Record DeployParams := mkDeployParams {
  dp_name : string;
  dp_engine : string;
  dp_bytecode : bytes;
  dp_metadata : gmap string string;
  dp_owners : list bytes;
  dp_threshold : N;
}.

Record CreateTokenDelta := mkCreateToken {
  ct_token_id : bytes;
  ct_name : string;
  ct_engine : string;
  ct_bytecode : bytes;
  ct_metadata : gmap string string;
  ct_owners : list bytes;
  ct_threshold : N;
}.

Definition of_DeployParams (v : serde) : result string DeployParams :=
  fs ← get_struct_default [("name", None); ("engine", None); ("bytecode", None); ("metadata", None);
         ("owners", Some (SSeq [])); ("threshold", Some (SInt 0))] v;
  match fs with
  | [a; b; c; d; e; f] =>
      n ← of_string a; en ← of_string b; code ← of_bytes c; md ← of_entries of_string of_string d;
      ow ← of_list of_bytes e; th ← of_u32 f; Ok (mkDeployParams n en code md ow th)
  | _ => Err "invalid length"
  end.

(** [usize as u64] of a length. *)
Definition len64 {A} (l : list A) : N := N.of_nat (length l).

Definition deploy_gas (bytecode_len : N) : N := (DEPLOY_GAS_BASE + DEPLOY_GAS_PER_BYTE * bytecode_len)%N.

Section deploy.
Context `{HashIter} `{Rmp} `{Sha256}.

Definition ser_CreateTokenDelta (d : CreateTokenDelta) : serde :=
  ser_struct [
    fld "token_id" (ser_bytes (ct_token_id d));
    fld "name" (SStr (ct_name d));
    fld "engine" (SStr (ct_engine d));
    fld "bytecode" (ser_bytes (ct_bytecode d));
    fld "metadata" (ser_entries SStr SStr (hash_iter (ct_metadata d)));
    fld "owners" (ser_list ser_bytes (ct_owners d));
    fld "threshold" (ser_N (ct_threshold d))].

Definition ser_DeployIdPayload (deployer : bytes) (nonce : N) (bytecode_hash : bytes) (name : string) : serde :=
  ser_struct [
    fld "deployer_pubkey" (ser_bytes deployer);
    fld "nonce" (ser_N nonce);
    fld "bytecode_hash" (ser_bytes bytecode_hash);
    fld "name" (SStr name)].

(** The [expect] is a panic. *)
Definition derive_token_id (deployer : bytes) (nonce : N) (bytecode : bytes) (name : string) : may_panic bytes :=
  match rmp_enc (ser_DeployIdPayload deployer nonce (sha256 bytecode) name) with
  | Ok payload => Some (sha256 (DEPLOY_DOMAIN ++ payload))
  | Err _ => None
  end.

Definition deploy_contract (deployer : bytes) (nonce : N) (params : DeployParams)
    : may_panic (result ContractError CreateTokenDelta) :=
  if String.eqb (dp_name params) "" then Some (Err (InvalidInput "contract name is empty"))
  else if String.eqb (dp_engine params) "" then Some (Err (InvalidInput "engine name is empty"))
  else
    token_id ← derive_token_id deployer nonce (dp_bytecode params) (dp_name params);
    Some (Ok (mkCreateToken token_id (dp_name params) (dp_engine params) (dp_bytecode params)
                (dp_metadata params) (dp_owners params) (dp_threshold params))).

Definition contract_of_delta (d : CreateTokenDelta) : SmartContract :=
  mkContract (ct_name d) (ct_bytecode d) "1" ∅ (ct_owners d) (ct_threshold d).

Definition to_token (d : CreateTokenDelta) (env_id : string) : result ContractError Token :=
  token ← map_err (λ e, InvalidInput ("from_asset: " +:+ e)) (from_asset (ser_SmartContract (contract_of_delta d)));
  let metadata :=
    <["name" := ct_name d]> (<["contract_engine" := ct_engine d]>
      (<["token_type" := "contract"]> (ct_metadata d))) in
  Ok (mkToken (ct_token_id d) metadata (blockchain token) (asset_data token) (asset_hash token)
        (security_level token) (is_self_verified token) (is_non_transferable token)
        (block_validation_spec_name token) env_id (tok_sequence_number token)).
End deploy.

(** ** Upgrade governance *)

Definition UPGRADE_DOMAIN : bytes := string_bytes "PNEUMATIC/UPGRADE/v1".
Definition UPGRADE_GAS_BASE : N := 50000.
Definition UPGRADE_GAS_PER_BYTE : N := 10.
Definition TIMELOCK_EPOCHS : N := 1.

Record UpgradeParams := mkUpgradeParams {
  up_new_bytecode : bytes;
  up_new_owners : list bytes;
  up_new_threshold : N;
  up_proposal_epoch : N;
  up_owner_signatures : list bytes;
}.

Record ReplaceAssetDelta := mkReplaceAsset {
  ra_token_id : bytes;
  ra_new_bytecode : bytes;
  ra_new_owners : list bytes;
  ra_new_threshold : N;
  ra_proposal_epoch : N;
}.

Definition of_UpgradeParams (v : serde) : result string UpgradeParams :=
  fs ← get_struct ["new_bytecode"; "new_owners"; "new_threshold"; "proposal_epoch"; "owner_signatures"] v;
  match fs with
  | [a; b; c; d; e] =>
      code ← of_bytes a; ow ← of_list of_bytes b; th ← of_u32 c; ep ← of_u64 d; sg ← of_list of_bytes e;
      Ok (mkUpgradeParams code ow th ep sg)
  | _ => Err "invalid length"
  end.

Definition ser_ReplaceAssetDelta (d : ReplaceAssetDelta) : serde :=
  ser_struct [
    fld "token_id" (ser_bytes (ra_token_id d));
    fld "new_bytecode" (ser_bytes (ra_new_bytecode d));
    fld "new_owners" (ser_list ser_bytes (ra_new_owners d));
    fld "new_threshold" (ser_N (ra_new_threshold d));
    fld "proposal_epoch" (ser_N (ra_proposal_epoch d))].

Definition upgrade_gas (bytecode_len : N) : N := (UPGRADE_GAS_BASE + UPGRADE_GAS_PER_BYTE * bytecode_len)%N.

Definition timelock_satisfied (proposal_epoch current_epoch : N) : bool :=
  N.leb (sat_add proposal_epoch TIMELOCK_EPOCHS) current_epoch.

Section upgrade.
Context `{Rmp} `{Sha256}.

Definition ser_DigestInput (token_id bytecode_hash : bytes) (new_owners : list bytes) (new_threshold epoch : N) : serde :=
  ser_struct [
    fld "token_id" (ser_bytes token_id);
    fld "bytecode_hash" (ser_bytes bytecode_hash);
    fld "new_owners" (ser_list ser_bytes new_owners);
    fld "new_threshold" (ser_N new_threshold);
    fld "proposal_epoch" (ser_N epoch)].

(** The [expect] is a panic. *)
Definition upgrade_digest (token_id new_bytecode : bytes) (new_owners : list bytes) (new_threshold epoch : N)
    : may_panic bytes :=
  match rmp_enc (ser_DigestInput token_id (sha256 new_bytecode) new_owners new_threshold epoch) with
  | Ok body => Some (sha256 (UPGRADE_DOMAIN ++ body))
  | Err _ => None
  end.

Definition check_or_false (crypto : AsymCryptoProvider) (sig key data : bytes) : bool :=
  match check_signature crypto sig key data with Ok b => b | Err _ => false end.

Definition owner_signed (crypto : AsymCryptoProvider) (sigs : list bytes) (digest owner : bytes) : bool :=
  existsb (λ sig, check_or_false crypto sig owner digest) sigs.

(** The loop over the owners, with the count so far. *)
Fixpoint count_owners (crypto : AsymCryptoProvider) (sigs : list bytes) (digest : bytes) (threshold : N)
    (owners : list bytes) (verified : N) : bool :=
  match owners with
  | [] => false
  | owner :: owners' =>
      if owner_signed crypto sigs digest owner then
        if N.leb threshold (N.succ verified) then true
        else count_owners crypto sigs digest threshold owners' (N.succ verified)
      else count_owners crypto sigs digest threshold owners' verified
  end.

Definition verify_quorum (crypto : AsymCryptoProvider) (token_id new_bytecode : bytes) (new_owners : list bytes)
    (new_threshold epoch : N) (owner_signatures current_owners : list bytes) (threshold : N)
    : may_panic (result ContractError bool) :=
  if N.eqb threshold 0 then Some (Ok false)
  else
    digest ← upgrade_digest token_id new_bytecode new_owners new_threshold epoch;
    Some (Ok (count_owners crypto owner_signatures digest threshold current_owners 0)).

(** [de] of a contract asset, for [Token::get_asset]. *)
Definition contract_asset (v : serde) : option SmartContract :=
  match of_SmartContract v with Ok c => Some c | Err _ => None end.

Definition get_contract (t : Token) : option SmartContract := get_asset contract_asset t.

Definition replace_asset (d : ReplaceAssetDelta) (c : SmartContract) : SmartContract :=
  mkContract (sc_name c) (ra_new_bytecode d) (sc_version c) (sc_storage c) (ra_new_owners d) (ra_new_threshold d).

Definition apply_replace_asset (t : Token) (d : ReplaceAssetDelta) : Token * result ContractError SmartContract :=
  let '(t', r) := update_asset ser_SmartContract contract_asset (replace_asset d) t in
  (t', ok_or (BadBytecode "target token has no contract asset") r).
End upgrade.

(** ** Wire forms read back *)

Lemma btree_list_perm {V} (m : gmap bytes V) : btree_list m ≡ₚ map_to_list m.
Proof. unfold btree_list, sort_on. apply merge_sort_Permutation. Qed.

Definition wf_SmartContract (c : SmartContract) : Prop :=
  wf_bytes (sc_bytecode c) ∧ map_Forall (λ k v, wf_bytes k ∧ wf_bytes v) (sc_storage c) ∧
  Forall wf_bytes (sc_owners c) ∧ (sc_threshold c < 4294967296)%N.

Lemma of_SmartContract_ser c : wf_SmartContract c → of_SmartContract (ser_SmartContract c) = Ok c.
Proof.
  destruct c as [n code ver st ow th]. intros (Hc & Hs & Ho & Ht). unfold of_SmartContract.
  cbn -[of_bytes of_entries ser_storage]. rewrite of_bytes_ser by done. cbn -[of_bytes of_entries ser_storage].
  unfold ser_storage. rewrite (of_entries_ser _ _ _ _ _ st (btree_list_perm st)).
  - cbn -[of_bytes]. rewrite of_bytes_list_ser by done. cbn -[of_u32]. by rewrite of_u32_ser.
  - eapply map_Forall_impl; [exact Hs|]. intros k v [Hk Hv]. by rewrite !of_bytes_ser.
Qed.

(** ** Write-sets *)

(** What a write-set says of a key, over a base state. *)
Definition overlay (d : StorageDelta) (base : gmap bytes bytes) (k : bytes) : option bytes :=
  match d !! k with Some o => o | None => base !! k end.

Lemma foldl_apply_entry l base k :
  NoDup l.*1 → foldl apply_entry base l !! k = overlay (list_to_map l : StorageDelta) base k.
Proof.
  unfold overlay. revert base. induction l as [|[k' o] l IH]; intros base Hnd; [done|].
  apply NoDup_cons in Hnd as [Hni Hnd]. cbn [foldl]. rewrite IH by done. rewrite list_to_map_cons.
  destruct (decide (k = k')) as [->|Hne].
  - rewrite lookup_insert_eq. rewrite (not_elem_of_list_to_map_1 l) by done.
    destruct o; unfold apply_entry; simpl; [apply lookup_insert_eq|apply lookup_delete_eq].
  - rewrite lookup_insert_ne by done. destruct (list_to_map l !! k); [done|].
    destruct o; unfold apply_entry; simpl; [by apply lookup_insert_ne|by apply lookup_delete_ne].
Qed.

Lemma apply_delta_lookup d base k : apply_delta_to d base !! k = overlay d base k.
Proof.
  unfold apply_delta_to. assert (NoDup (btree_list d).*1) as Hnd.
  { rewrite btree_list_perm. apply NoDup_fst_map_to_list. }
  rewrite foldl_apply_entry by done. f_equal.
  rewrite <-(list_to_map_to_list d) at 2. apply list_to_map_proper; [done|apply btree_list_perm].
Qed.

Lemma apply_delta_idemp d base : apply_delta_to d (apply_delta_to d base) = apply_delta_to d base.
Proof.
  apply map_eq. intros k. rewrite apply_delta_lookup. unfold overlay at 1.
  destruct (d !! k) as [o|] eqn:Hd; [|done]. by rewrite apply_delta_lookup; unfold overlay; rewrite Hd.
Qed.

(** ** Upgrades *)

Section upgrade_properties.
Context `{Rmp} `{Sha256} (crypto : AsymCryptoProvider).

Lemma count_owners_iff sigs digest threshold owners verified :
  (verified < threshold)%N →
  count_owners crypto sigs digest threshold owners verified = true ↔
  (threshold ≤ verified + len64 (filter (λ o, owner_signed crypto sigs digest o = true) owners))%N.
Proof.
  revert verified. induction owners as [|o owners IH]; intros v Hv; simpl.
  - unfold len64. simpl. split; [done|lia].
  - rewrite filter_cons. destruct (owner_signed crypto sigs digest o) eqn:Ho.
    + rewrite decide_True by done. unfold len64 in *. simpl. destruct (N.leb_spec threshold (N.succ v)).
      * split; [lia|done].
      * rewrite IH by lia. lia.
    + rewrite decide_False by congruence. by apply IH.
Qed.

(** The quorum of an upgrade. It is met exactly when the threshold is
    positive and at least that many entries of the current owner list have a
    verifying signature over the digest of this very upgrade. For a list without
    repetitions these are distinct owners; a key listed several times counts as
    often as it is listed, so its one signature can meet the quorum alone. *)
Theorem quorum_counts_listings token code owners threshold epoch sigs current n digest :
  upgrade_digest token code owners threshold epoch = Some digest →
  verify_quorum crypto token code owners threshold epoch sigs current n = Some (Ok true) ↔
    (0 < n)%N ∧ (n ≤ len64 (filter (λ o, owner_signed crypto sigs digest o = true) current))%N.
Proof.
  intros Hd. unfold verify_quorum. destruct (N.eqb_spec n 0) as [->|Hn].
  - split; [done|lia].
  - rewrite Hd. cbn. rewrite <-(N.add_0_l (len64 _)), <-count_owners_iff by lia.
    split; [|by intros [_ ->]]. intros Heq. split; [lia|congruence].
Qed.

Lemma duplicate_owner_quorum token code owners threshold epoch sigs k m digest :
  upgrade_digest token code owners threshold epoch = Some digest →
  owner_signed crypto sigs digest k = true →
  (0 < N.of_nat m)%N →
  verify_quorum crypto token code owners threshold epoch sigs (replicate m k) (N.of_nat m) = Some (Ok true).
Proof.
  intros Hd Hk Hm. unfold verify_quorum. destruct (N.eqb_spec (N.of_nat m) 0) as [?|_]; [lia|].
  rewrite Hd. cbn. do 2 f_equal. apply count_owners_iff; [done|]. unfold len64.
  assert (filter (λ o, owner_signed crypto sigs digest o = true) (replicate m k) = replicate m k) as ->.
  { clear -Hk. induction m as [|m IH]; [done|]. simpl. rewrite filter_cons_True by done. f_equal. exact IH. }
  rewrite length_replicate. lia.
Qed.

Lemma update_asset_contract f t t' c :
  update_asset ser_SmartContract contract_asset f t = (t', Some c) → wf_SmartContract c →
  (∃ c0, get_contract t = Some c0 ∧ c = f c0) ∧ get_contract t' = Some c ∧ t' = with_asset (asset_data t') t.
Proof.
  unfold update_asset. fold (get_contract t). destruct (get_contract t) as [c0|]; [|done].
  destruct (rmp_enc (ser_SmartContract (f c0))) as [b|] eqn:He; [|done]. intros [= <- <-] Hwf.
  split_and!; [by exists c0| |done]. unfold get_contract, get_asset. simpl.
  rewrite <-(app_nil_r b), (rmp_round _ _ _ He). unfold contract_asset. by rewrite of_SmartContract_ser.
Qed.
End upgrade_properties.

(** ** Deployments *)

Lemma ser_strings_inj (l1 l2 : list (string * string)) : ser_entries SStr SStr l1 = ser_entries SStr SStr l2 → l1 = l2.
Proof.
  unfold ser_entries. intros [= Hl]. revert l2 Hl.
  induction l1 as [|[a b] l1 IH]; intros [|[c d] l2] Hl; try done. injection Hl as -> -> Hl. by f_equal; apply IH.
Qed.

Section deploy_properties.
Context `{Rmp} `{Sha256}.

(** The delta of a deployment is not canonical. Two nodes hash the same
    delta to the same result hash exactly when their hash maps happen to list
    the extra metadata in the same order, or a SHA-256 collision is exhibited;
    so a committer rejects another node's deployment whose metadata it iterates
    differently. *)
Theorem deploy_hash_follows_iteration_order (h1 h2 : HashIter) (d : CreateTokenDelta) b1 b2 :
  rmp_enc (@ser_CreateTokenDelta h1 d) = Ok b1 → rmp_enc (@ser_CreateTokenDelta h2 d) = Ok b2 →
  (@hash_iter h1 _ _ _ _ (ct_metadata d) = @hash_iter h2 _ _ _ _ (ct_metadata d) → sha256 b1 = sha256 b2) ∧
  (sha256 b1 = sha256 b2 →
     @hash_iter h1 _ _ _ _ (ct_metadata d) = @hash_iter h2 _ _ _ _ (ct_metadata d) ∨ collision b1 b2).
Proof.
  intros H1 H2. split.
  - intros Hi. unfold ser_CreateTokenDelta in *. rewrite Hi in H1. congruence.
  - intros Hh. destruct (decide (b1 = b2)) as [->|Hne]; [|by right]. left.
    pose proof (f_equal (sget "metadata") (rmp_enc_inj _ _ _ H1 H2)) as Hs.
    by apply (inj Some), ser_strings_inj in Hs.
Qed.

(** A deployed token's id determines the deployer, the nonce, the code and
    the name, or a SHA-256 collision is exhibited. *)
Theorem deployed_token_id_binds d1 n1 c1 m1 d2 n2 c2 m2 id :
  derive_token_id d1 n1 c1 m1 = Some id → derive_token_id d2 n2 c2 m2 = Some id →
  (d1 = d2 ∧ n1 = n2 ∧ c1 = c2 ∧ m1 = m2) ∨ ∃ x y, collision x y.
Proof.
  unfold derive_token_id.
  destruct (rmp_enc (ser_DeployIdPayload d1 n1 (sha256 c1) m1)) as [b1|] eqn:E1; [|done]. intros [= <-].
  destruct (rmp_enc (ser_DeployIdPayload d2 n2 (sha256 c2) m2)) as [b2|] eqn:E2; [|done]. intros [= Hh].
  destruct (decide (b1 = b2)) as [<-|Hne].
  - pose proof (rmp_enc_inj _ _ _ E1 E2) as Hs. sfield Hs "deployer_pubkey". sfield Hs "nonce".
    sfield Hs "bytecode_hash". sfield Hs "name". destruct (decide (c1 = c2)) as [->|Hcne]; [by left|].
    right. by exists c1, c2.
  - right. exists (DEPLOY_DOMAIN ++ b1), (DEPLOY_DOMAIN ++ b2). split; [|done]. by intros ?%(inj (app _)).
Qed.
End deploy_properties.

(** ** The properties at concrete contracts *)

Module ConcreteContracts.
Import ConcreteChain.

(** A signature scheme in which a key is its own signature. *)
Definition self_signing : AsymCryptoProvider :=
  mkProvider (λ sig key _, Ok (bool_decide (sig = key))) (λ _, Ok [7%N]) (Ok [7%N]).

(** One key listed twice, and its one signature. *)
Lemma quorum_witness :
  ∃ digest, upgrade_digest [1%N] [2%N] [[8%N]] 1 5 = Some digest ∧
    (verify_quorum self_signing [1%N] [2%N] [[8%N]] 1 5 [[7%N]] [[7%N]; [7%N]; [9%N]] 2 = Some (Ok true) ↔
      (0 < 2)%N ∧
      (2 ≤ len64 (filter (λ o, owner_signed self_signing [[7%N]] digest o = true) [[7%N]; [7%N]; [9%N]]))%N).
Proof. eexists. split; [reflexivity|]. apply quorum_counts_listings. reflexivity. Defined.

Definition deployed : CreateTokenDelta :=
  mkCreateToken [1%N] "counter" "Spec" [2%N] (<["a" := "x"]> {["b" := "y"]}) [[7%N]] 1.

(** Two metadata entries, iterated in either order. *)
Lemma deploy_hash_witness :
  ∃ b1 b2, rmp_enc (@ser_CreateTokenDelta forward_iter deployed) = Ok b1 ∧
    rmp_enc (@ser_CreateTokenDelta backward_iter deployed) = Ok b2 ∧
    (@hash_iter forward_iter _ _ _ _ (ct_metadata deployed) = @hash_iter backward_iter _ _ _ _ (ct_metadata deployed) →
       sha256 b1 = sha256 b2) ∧ b1 ≠ b2.
Proof.
  do 2 eexists. split; [reflexivity|]. split; [reflexivity|]. split.
  - apply (deploy_hash_follows_iteration_order forward_iter backward_iter deployed); reflexivity.
  - apply (bool_decide_unpack (_ ≠ _)). by vm_compute.
Defined.

Lemma token_id_witness :
  ∃ id, derive_token_id [7%N] 3 [2%N] "counter" = Some id ∧
    (([7%N] = [7%N] ∧ 3%N = 3%N ∧ [2%N] = [2%N] ∧ "counter" = "counter") ∨ ∃ x y, collision x y).
Proof. eexists. split; [reflexivity|]. eapply deployed_token_id_binds; reflexivity. Defined.
End ConcreteContracts.
