(* ===== verification/Engines.v ===== *)
(** * Contract engines and calls (src/src/contracts.rs, contracts/call.rs)

    The input and output of an execution, the engine registry, the transfer
    engine, the interpreter of the instruction set, and the call from one
    contract into another at a pinned block of the callee's chain. An execution
    may panic ([None]), fail with a contract error, or return. The engine that
    runs a callee is an argument here; WasmHost.v closes the recursion. *)

From S2P Require Import Prelude Interfaces Types Serialize Crypto Chain DataProvider Deserialize Tokens Contracts.

(** ** The execution monad: panic, error, value *)

Definition exec (A : Type) : Type := option (result ContractError A).

#[global] Instance exec_ret : MRet exec := λ A a, Some (Ok a).
#[global] Instance exec_bind : MBind exec :=
  λ A B f m, match m with
             | Some (Ok a) => f a
             | Some (Err e) => Some (Err e)
             | None => None
             end.

Definition throw {A} (e : ContractError) : exec A := Some (Err e).
Definition lift {A} (r : result ContractError A) : exec A := Some r.

(** ** Engines and their registry *)

Inductive ContractEngine := TransferEngine | SpecEngine | WasmEngine.

#[global] Instance ContractEngine_eq_dec : EqDecision ContractEngine.
Proof. solve_decision. Defined.

Definition engine_name (e : ContractEngine) : string :=
  match e with TransferEngine => "Transfer" | SpecEngine => "Spec" | WasmEngine => "Wasm" end.

Abbreviation ContractEngineRegistry := (gmap string ContractEngine) (only parsing).

Definition EngineRegistry_new : ContractEngineRegistry := ∅.
Definition register (e : ContractEngine) (r : ContractEngineRegistry) : ContractEngineRegistry :=
  <[engine_name e := e]> r.
Definition engine_get (r : ContractEngineRegistry) (name : string) : option ContractEngine := r !! name.
Definition engine_names `{HashIter} (r : ContractEngineRegistry) : list string := (btree_entries_str r).*1.
Definition register_defaults (r : ContractEngineRegistry) : ContractEngineRegistry :=
  register SpecEngine (register TransferEngine r).

Definition select_engine (r : ContractEngineRegistry) (t : Token) : result ContractError ContractEngine :=
  let is_contract_token := match tok_metadata t !! "token_type" with
                           | Some v => String.eqb v "contract"
                           | None => false
                           end in
  name ← match tok_metadata t !! "contract_engine" with
         | Some name => Ok name
         | None =>
             if is_contract_token then
               Err (UnknownEngine ("contract token " +:+ debug_bytes (tok_id t) +:+
                      " must declare a 'contract_engine' metadata key"))
             else Ok "Transfer"
         end;
  ok_or (UnknownEngine name) (engine_get r name).

(** ** Pinned call targets *)

Definition MAX_CALL_DEPTH : N := 8.
Definition XCALL_CALL_BASE_SPEC : N := 10.
Definition XCALL_CALL_BASE_WASM : N := 100.
Definition XCALL_COMMIT_DOMAIN : bytes := string_bytes "PNEUMATIC/XCALL/COMMIT/v1".

Record SnapshotRef := mkSnapshotRef { ref_height : N; ref_block_hash : bytes }.

Definition validate_snapshot_ref (c : Blockchain) (r : SnapshotRef) : result string () :=
  match get_block_at c (N.to_nat (ref_height r)) with
  | None => Err ("snapshot ref height " +:+ pretty (ref_height r) +:+ " out of range (chain has " +:+
                 pretty (get_count c) +:+ " blocks)")
  | Some b =>
      if bool_decide (current_hash b ≠ ref_block_hash r)
      then Err ("snapshot ref hash mismatch at height " +:+ pretty (ref_height r))
      else Ok ()
  end.

Record PinnedTarget := mkPinned {
  pt_token : Token;
  pt_contract : SmartContract;
  pt_sender_state : User;
  pt_snapshot_ref : SnapshotRef;
}.

(** [TargetStateProvider::resolve], the registry, and the nesting depth. *)
Record CallContext := mkCallContext {
  cx_resolve : bytes → SnapshotRef → bytes → result ContractError PinnedTarget;
  cx_registry : ContractEngineRegistry;
  cx_depth : N;
}.

Definition CallContext_new (resolve : bytes → SnapshotRef → bytes → result ContractError PinnedTarget)
    (r : ContractEngineRegistry) : CallContext := mkCallContext resolve r 0.
Definition child (c : CallContext) : CallContext := mkCallContext (cx_resolve c) (cx_registry c) (cx_depth c + 1).

(** ** Inputs and outputs *)

Record ExecutionInput := mkInput {
  in_tx : Transaction;
  in_contract : SmartContract;
  in_sender_state : User;
  in_token : Token;
  in_gas_limit : N;
  in_storage : gmap bytes bytes;
  in_call_ctx : option CallContext;
}.

Record ExecutionOutput := mkOutput { out_result_data : bytes; out_gas_used : N }.

Definition ser_ExecutionInputCanon `{HashIter} (i : ExecutionInput) : serde :=
  ser_struct [
    fld "tx" (ser_Transaction (in_tx i));
    fld "contract_name" (SStr (sc_name (in_contract i)));
    fld "contract_bytecode" (ser_bytes (sc_bytecode (in_contract i)));
    fld "contract_version" (SStr (sc_version (in_contract i)));
    fld "sender_public_key" (ser_bytes (user_public_key (in_sender_state i)));
    fld "sender_fuel_balance" (ser_N (fuel_balance (in_sender_state i)));
    fld "sender_stake" (ser_N (user_stake (in_sender_state i)));
    fld "sender_nonce" (ser_nat (nonce (in_sender_state i)));
    fld "token_id" (ser_bytes (tok_id (in_token i)));
    fld "token_metadata" (ser_list (λ kv : string * string, SSeq [SStr kv.1; SStr kv.2])
                            (btree_entries_str (tok_metadata (in_token i))));
    fld "gas_limit" (ser_N (in_gas_limit i))].

Definition canonical_bytes `{HashIter} `{Rmp} (i : ExecutionInput) : result PneumaticError bytes :=
  map_err Encoding (rmp_enc (ser_ExecutionInputCanon i)).

(** ** Transfers *)

Definition TRANSFER_BASE_COST : N := 21000.

Record TransferDelta := mkTransferDelta {
  td_token_id : bytes;
  td_sender : bytes;
  td_receiver : bytes;
  td_amount : N;
  td_sequence_number : nat;
}.

Definition ser_TransferDelta (d : TransferDelta) : serde :=
  ser_struct [
    fld "token_id" (ser_bytes (td_token_id d));
    fld "sender" (ser_bytes (td_sender d));
    fld "receiver" (ser_bytes (td_receiver d));
    fld "amount" (ser_N (td_amount d));
    fld "sequence_number" (ser_nat (td_sequence_number d))].

Definition of_TransferDelta (v : serde) : result string TransferDelta :=
  fs ← get_struct ["token_id"; "sender"; "receiver"; "amount"; "sequence_number"] v;
  match fs with
  | [a; b; c; d; e] =>
      t ← of_bytes a; s ← of_bytes b; r ← of_bytes c; n ← of_u64 d; q ← of_usize e; Ok (mkTransferDelta t s r n q)
  | _ => Err "invalid length"
  end.

Definition transfer_execute `{Rmp} (i : ExecutionInput) : result ContractError ExecutionOutput :=
  if N.ltb 0 (in_gas_limit i) && N.ltb (in_gas_limit i) TRANSFER_BASE_COST then Err GasExhausted
  else
    amount ← ok_or (InvalidInput "transfer requires an amount") (tx_amount (in_tx i));
    if N.eqb amount 0 then Err (InvalidInput "transfer amount must be non-zero")
    else
      result_data ← map_err (λ e, InvalidInput ("canonical encode failed: " +:+ e))
        (rmp_enc (ser_TransferDelta (mkTransferDelta (tx_token_id (in_tx i)) (tx_sender (in_tx i))
           (tx_receiver (in_tx i)) amount (tx_sequence_number (in_tx i)))));
      Ok (mkOutput result_data TRANSFER_BASE_COST).

(** ** The call *)

Inductive CallFailure :=
| DepthExceeded
| TargetUnresolvable (msg : string)
| CallUnknownEngine (msg : string)
| BReverted (msg : string)
| BGasExhausted
| BBadBytecode (msg : string)
| BInvalidInput (msg : string)
| BEngineNotImplemented (msg : string).

Inductive CallOutcome :=
| Success (result_data : bytes) (gas_used : N)
| Failure (reason : CallFailure) (gas_used : N).

Definition b_gas_used (o : CallOutcome) : N := match o with Success _ g | Failure _ g => g end.
Definition is_success (o : CallOutcome) : bool := match o with Success _ _ => true | Failure _ _ => false end.

Definition hex_digit (n : N) : string := String (Ascii.ascii_of_N (if N.ltb n 10 then 48 + n else 87 + n)) "".

Definition to_hex (b : bytes) : string :=
  foldr (λ x s, hex_digit (N.shiftr x 4) +:+ hex_digit (N.land x 15) +:+ s) "" b.

Definition synthesize_call_tx (a_tx : Transaction) (target_token : bytes) (entry_point : string)
    (call_payload : bytes) (sub_budget : N) : Transaction :=
  mkTransaction ("xcall/" +:+ tx_id a_tx +:+ "/" +:+ to_hex target_token) entry_point target_token None
    (tx_sequence_number a_tx) (tx_sender a_tx) (tx_receiver a_tx) None (tx_timestamp a_tx) [] []
    call_payload sub_budget [] None.

Definition call_failure (e : ContractError) : CallFailure :=
  match e with
  | Reverted m => BReverted m
  | GasExhausted => BGasExhausted
  | BadBytecode m => BBadBytecode m
  | InvalidInput m => BInvalidInput m
  | UnknownEngine m => CallUnknownEngine m
  | EngineNotImplemented m => BEngineNotImplemented m
  end.

(** The callee's input. *)
Definition call_input (ctx : CallContext) (a_tx : Transaction) (target_token : bytes) (entry_point : string)
    (call_payload : bytes) (sub_budget : N) (p : PinnedTarget) : ExecutionInput :=
  mkInput (synthesize_call_tx a_tx target_token entry_point call_payload sub_budget)
    (pt_contract p) (pt_sender_state p) (pt_token p) sub_budget (sc_storage (pt_contract p)) (Some (child ctx)).

(** [run] executes the callee's engine. *)
Definition execute_call (run : ContractEngine → ExecutionInput → exec ExecutionOutput)
    (ctx : CallContext) (a_tx : Transaction) (target_token : bytes) (entry_point : string)
    (call_payload : bytes) (snapshot_ref : SnapshotRef) (sub_budget : N) : may_panic CallOutcome :=
  if N.leb MAX_CALL_DEPTH (cx_depth ctx) then Some (Failure DepthExceeded 0)
  else
    match cx_resolve ctx target_token snapshot_ref (tx_sender a_tx) with
    | Err e => Some (Failure (TargetUnresolvable (display_ContractError e)) 0)
    | Ok pinned =>
        match select_engine (cx_registry ctx) (pt_token pinned) with
        | Err e => Some (Failure (CallUnknownEngine (display_ContractError e)) 0)
        | Ok engine =>
            r ← run engine (call_input ctx a_tx target_token entry_point call_payload sub_budget pinned);
            Some match r with
                 | Ok out => Success (out_result_data out) (out_gas_used out)
                 | Err e => Failure (call_failure e) 0
                 end
        end
    end.

(** B's side of a call. *)
Record CrossChainCommitment := mkCommitment {
  xc_a_tx_id : string;
  xc_a_result_hash : bytes;
  xc_target_token : bytes;
  xc_snapshot_ref : SnapshotRef;
}.

Definition ser_SnapshotRef (r : SnapshotRef) : serde :=
  ser_struct [fld "height" (ser_N (ref_height r)); fld "block_hash" (ser_bytes (ref_block_hash r))].

Definition ser_CrossChainCommitment (c : CrossChainCommitment) : serde :=
  ser_struct [
    fld "a_tx_id" (SStr (xc_a_tx_id c));
    fld "a_result_hash" (ser_bytes (xc_a_result_hash c));
    fld "target_token" (ser_bytes (xc_target_token c));
    fld "snapshot_ref" (ser_SnapshotRef (xc_snapshot_ref c))].

Definition commitment_hash `{Rmp} `{Sha256} (c : CrossChainCommitment) : result PneumaticError bytes :=
  body ← map_err Encoding (rmp_enc (ser_CrossChainCommitment c));
  Ok (sha256 (XCALL_COMMIT_DOMAIN ++ body)).

Definition verify_commitment `{Rmp} `{Sha256} (c : CrossChainCommitment) (expected : bytes) : bool :=
  match commitment_hash c with Ok h => bool_decide (h = expected) | Err _ => false end.

(** ** The instruction set *)

Inductive Op :=
| LoadTx (field : string)
| LoadConst (n : N)
| Add | Sub | Mul | Mod | Cmp | Select | Emit | Halt
| Call (target_token : bytes) (entry_point : string) (call_payload : bytes) (ref_height : N) (ref_hash : bytes).

#[global] Instance Op_eq_dec : EqDecision Op.
Proof. solve_decision. Defined.

Record InstructionProgram := mkProgram { pr_version : N; pr_ops : list Op }.

(** [rename_all = "snake_case"]. *)
Definition of_Op (v : serde) : result string Op :=
  '(n, arg) ← of_variant v;
  match arg with
  | None =>
      match n with
      | "add" => Ok Add | "sub" => Ok Sub | "mul" => Ok Mul | "mod" => Ok Mod | "cmp" => Ok Cmp
      | "select" => Ok Select | "emit" => Ok Emit | "halt" => Ok Halt
      | _ => Err "unknown variant"
      end
  | Some x =>
      match n with
      | "load_tx" => s ← of_string x; Ok (LoadTx s)
      | "load_const" => k ← of_u64 x; Ok (LoadConst k)
      | "call" =>
          fs ← get_struct ["target_token"; "entry_point"; "call_payload"; "ref_height"; "ref_hash"] x;
          match fs with
          | [a; b; c; d; e] =>
              t ← of_bytes a; p ← of_string b; q ← of_bytes c; h ← of_u64 d; r ← of_bytes e; Ok (Call t p q h r)
          | _ => Err "invalid length"
          end
      | _ => Err "unknown variant"
      end
  end.

Definition of_InstructionProgram (v : serde) : result string InstructionProgram :=
  fs ← get_struct ["version"; "ops"] v;
  match fs with
  | [a; b] => ver ← of_u32 a; ops ← of_list of_Op b; Ok (mkProgram ver ops)
  | _ => Err "invalid length"
  end.

Definition decode_program `{Rmp} (bytecode : bytes) : result string InstructionProgram :=
  '(v, _) ← rmp_dec bytecode; of_InstructionProgram v.

(** First at most eight bytes, padded on the left, big-endian. *)
Definition bytes_to_u64 (b : bytes) : N := foldl (λ acc x, acc * 256 + x)%N 0%N (take 8 b).

Definition load_tx_field (i : ExecutionInput) (field : string) : result ContractError N :=
  let tx := in_tx i in
  if String.eqb field "amount" then ok_or (Reverted "load_tx: amount is not set") (tx_amount tx)
  else if String.eqb field "sequence_number" then Ok (N.of_nat (tx_sequence_number tx))
  else if String.eqb field "gas_limit" then Ok (in_gas_limit i)
  else if String.eqb field "sender" then Ok (bytes_to_u64 (tx_sender tx))
  else if String.eqb field "receiver" then Ok (bytes_to_u64 (tx_receiver tx))
  else if String.eqb field "token_id" then Ok (bytes_to_u64 (tx_token_id tx))
  else if String.eqb field "payload" then Ok (bytes_to_u64 (tx_payload tx))
  else Err (Reverted ("load_tx: undeclared field " +:+ quoted field)).

(** The stack has its top first. *)
Definition underflow (op : string) : ContractError := Reverted (quoted op +:+ ": stack underflow").

Definition pop_one (stack : list N) (op : string) : result ContractError (N * list N) :=
  match stack with [] => Err (underflow op) | a :: s => Ok (a, s) end.

Definition pop_two (stack : list N) (op : string) : result ContractError (N * N * list N) :=
  '(a, s) ← pop_one stack op; '(b, s) ← pop_one s op; Ok (a, b, s).

Definition checked_sub (b a : N) : option N := if N.leb a b then Some (b - a)%N else None.
Definition checked_mul (b a : N) : option N := if N.leb (b * a) u64_max then Some (b * a)%N else None.

(** [u64::to_le_bytes]. *)
Definition u64_le (x : N) : bytes := reverse (u64_be x).

Record SpecState := mkSpecState { stack : list N; spec_result : bytes; spec_gas : N }.

Definition with_stack (l : list N) (s : SpecState) : SpecState := mkSpecState l (spec_result s) (spec_gas s).

Definition binop (name : string) (f : N → N → result ContractError N) (s : SpecState) : result ContractError SpecState :=
  '(a, b, st) ← pop_two (stack s) name; r ← f a b; Ok (with_stack (r :: st) s).

Section spec.
Context (run : ContractEngine → ExecutionInput → exec ExecutionOutput) (i : ExecutionInput).

Definition spec_call (target : bytes) (entry : string) (payload : bytes) (height : N) (hash : bytes) (s : SpecState)
    : exec SpecState :=
  match in_call_ctx i with
  | None => throw (Reverted "call: no call context")
  | Some ctx =>
      let remaining := if N.ltb 0 (in_gas_limit i) then sat_sub (in_gas_limit i) (spec_gas s) else u64_max in
      let sub := sat_sub remaining XCALL_CALL_BASE_SPEC in
      match execute_call run ctx (in_tx i) target entry payload (mkSnapshotRef height hash) sub with
      | None => None
      | Some outcome =>
          let gas := sat_add (spec_gas s) (wrap_add XCALL_CALL_BASE_SPEC (b_gas_used outcome)) in
          if N.ltb 0 (in_gas_limit i) && N.ltb (in_gas_limit i) gas then throw GasExhausted
          else mret (mkSpecState ((if is_success outcome then 1%N else 0%N) :: stack s) (spec_result s) gas)
      end
  end.

(** One instruction, other than [Halt]. *)
Definition spec_op (op : Op) (s : SpecState) : exec SpecState :=
  match op with
  | LoadTx field => lift (v ← load_tx_field i field; Ok (with_stack (v :: stack s) s))
  | LoadConst n => lift (Ok (with_stack (n :: stack s) s))
  | Add => lift (binop "add" (λ a b, ok_or (Reverted "addition overflow") (checked_add b a)) s)
  | Sub => lift (binop "sub" (λ a b, ok_or (Reverted "subtraction underflow") (checked_sub b a)) s)
  | Mul => lift (binop "mul" (λ a b, ok_or (Reverted "multiplication overflow") (checked_mul b a)) s)
  | Mod => lift (binop "mod" (λ a b, if N.eqb a 0 then Err (Reverted "modulo by zero") else Ok (b mod a)%N) s)
  | Cmp => lift (binop "cmp" (λ a b, Ok (if N.ltb a b then 1%N else if N.eqb b a then 2%N else 3%N)) s)
  | Select =>
      lift ('(cond, st) ← pop_one (stack s) "select"; '(b, st) ← pop_one st "select";
            '(a, st) ← pop_one st "select";
            Ok (with_stack ((if N.eqb cond 0 then b else a) :: st) s))
  | Emit => lift ('(v, st) ← pop_one (stack s) "emit"; Ok (mkSpecState st (u64_le v) (spec_gas s)))
  | Halt => mret s
  | Call target entry payload height hash => spec_call target entry payload height hash s
  end.

(** The gas meter, the instruction, the rest; [Halt] leaves the loop. The sums of
    gas wrap as in a release build. *)
Fixpoint spec_loop (ops : list Op) (s : SpecState) : exec SpecState :=
  match ops with
  | [] => mret s
  | op :: ops' =>
      if N.ltb 0 (in_gas_limit i) && N.leb (in_gas_limit i) (spec_gas s) then throw GasExhausted
      else
        let s1 := mkSpecState (stack s) (spec_result s) (wrap_add (spec_gas s) 1) in
        match op with
        | Halt => mret s1
        | _ => s2 ← spec_op op s1; spec_loop ops' s2
        end
  end.

Definition spec_execute `{Rmp} : exec ExecutionOutput :=
  match decode_program (sc_bytecode (in_contract i)) with
  | Err e => throw (BadBytecode ("undecodable AST: " +:+ e))
  | Ok program =>
      if negb (N.eqb (pr_version program) 1) then
        throw (BadBytecode ("unsupported program version " +:+ pretty (pr_version program)))
      else
        s ← spec_loop (pr_ops program) (mkSpecState [] [] 0);
        mret (mkOutput (spec_result s) (spec_gas s))
  end.
End spec.
