(* ===== verification/WasmHost.v ===== *)
(** * The WebAssembly engine's host (src/src/contracts/wasm.rs)

    The interpreter [wasmi] is an interface: a module's run is the tree of the
    host functions it calls, with the machine state at each. Everything the
    host does is here: the checks of a module, the linear-memory accesses with
    their slice bounds, the environment functions, storage, metering and caps.
    The last section closes the recursion between engines and calls. *)

From S2P Require Import Prelude Utf8 Interfaces Types Serialize Crypto Transactions Chain DataProvider Deserialize Tokens Contracts Engines.

(** ** Caps and costs *)

Definition WASM_MAX_MODULE_BYTES : N := 1048576.
Definition WASM_MAX_MEMORY_BYTES : N := 33554432.
Definition WASM_OUTPUT_CAP : Z := 16384.
Definition UNLIMITED_FUEL : N := u64_max.
Definition WASM_SLOAD_GAS : N := 100.
Definition WASM_SSTORE_NEW_GAS : N := 20000.
Definition WASM_SSTORE_REWRITE_GAS : N := 5000.
Definition WASM_SDELETE_GAS : N := 5000.
Definition WASM_STORAGE_CAP : N := 1048576.

Definition ALLOWED_ENV_IMPORTS : list string :=
  ["tx_amount"; "tx_sequence"; "sender_fuel"; "tx_payload_len"; "tx_payload"; "revert";
   "sload"; "sstore"; "sdelete"; "call"].

(** ** The interpreter's interface *)

Inductive ValType := I32 | I64 | F32 | F64 | OtherVal.

Inductive ExternType :=
| ExtFunc (params results : list ValType)
| ExtGlobal (content : ValType)
| ExtMemory
| ExtTable.

(** The imported function a guest calls, with its arguments. *)
Inductive HostCall :=
| HTxAmount | HTxSequence | HSenderFuel | HTxPayloadLen
| HTxPayload (ptr len : Z)
| HRevert
| HSload (key_ptr key_len out_ptr : Z)
| HSstore (key_ptr key_len value_ptr value_len : Z)
| HSdelete (key_ptr key_len : Z)
| HCall (target_ptr target_len entry_ptr entry_len payload_ptr payload_len ref_height
         ref_hash_ptr ref_hash_len out_ptr out_cap : Z).

Inductive Trap := TrapOutOfFuel | TrapRevert | TrapOther (msg : string).

(** A run of guest code from a machine state: it returns, traps, or calls the
    host and goes on with the state and the value the host leaves. *)
Inductive Run (St : Type) :=
| RunDone (st : St) (value : Z)
| RunTrap (t : Trap)
| RunHost (st : St) (c : HostCall) (k : St → Z → Run St).
Arguments RunDone {St} st value.
Arguments RunTrap {St} t.
Arguments RunHost {St} st c k.

Class Wasmi := {
  wmodule : Type;
  wstate : Type;
  (** [Module::new], and what the module declares *)
  module_new : bytes → result string wmodule;
  module_exports : wmodule → list (string * ExternType);
  module_imports : wmodule → list (string * string);
  (** [Linker::instantiate_and_start] with the store's fuel *)
  instantiate : wmodule → N → Run wstate;
  (** [get_typed_func] of the two exports, and calling them *)
  get_alloc : wstate → result string unit;
  get_execute : wstate → result string unit;
  call_alloc : wstate → Z → Run wstate;
  call_execute : wstate → Z → Z → Z → Z → Run wstate;
  (** the exported linear memory, and the fuel left *)
  w_memory : wstate → option bytes;
  w_set_memory : bytes → wstate → wstate;
  w_fuel : wstate → N;
}.

(** ** Checking a module *)

Definition is_float (t : ValType) : bool := match t with F32 | F64 => true | _ => false end.

Definition extern_type_has_float (t : ExternType) : bool :=
  match t with
  | ExtFunc params results => existsb is_float (params ++ results)
  | ExtGlobal c => is_float c
  | ExtMemory | ExtTable => false
  end.

(** The first export of a floating-point type. *)
Definition float_export (exports : list (string * ExternType)) : option string :=
  fst <$> find (λ e, extern_type_has_float e.2) exports.

Definition has_export (name : string) (exports : list (string * ExternType)) : bool :=
  existsb (λ e, String.eqb e.1 name) exports.

Fixpoint check_imports (imports : list (string * string)) : result ContractError unit :=
  match imports with
  | [] => Ok ()
  | (ns, name) :: imports' =>
      if negb (String.eqb ns "env") then
        Err (BadBytecode ("disallowed import namespace " +:+ quoted ns +:+ " (only " +:+ quoted "env" +:+ " is permitted)"))
      else if negb (existsb (String.eqb name) ALLOWED_ENV_IMPORTS) then
        Err (BadBytecode ("disallowed import " +:+ quoted ("env." +:+ name)))
      else check_imports imports'
  end.

Section host.
Context `{HashIter} `{Rmp} `{Wasmi}.

Definition validate_abi (m : wmodule) : result ContractError unit :=
  match float_export (module_exports m) with
  | Some name => Err (BadBytecode ("export " +:+ quoted name +:+ " uses f32/f64 (integer-only ABI)"))
  | None =>
      if negb (has_export "__alloc" (module_exports m)) then Err (BadBytecode "missing __alloc export")
      else if negb (has_export "execute" (module_exports m)) then Err (BadBytecode "missing execute export")
      else check_imports (module_imports m)
  end.

Definition validate_wasm_module (bytecode : bytes) : result ContractError wmodule :=
  if N.ltb WASM_MAX_MODULE_BYTES (len64 bytecode) then
    Err (BadBytecode ("module size " +:+ pretty (length bytecode) +:+ " bytes exceeds " +:+
                      pretty WASM_MAX_MODULE_BYTES +:+ " byte cap"))
  else
    m ← map_err (λ e, BadBytecode ("invalid module: " +:+ e)) (module_new bytecode);
    _ ← validate_abi m; Ok m.

(** ** Linear memory *)

(** [i32 as usize] and the casts to [i32] and [i64]. *)
Definition as_usize (z : Z) : N := Z.to_N (z mod 18446744073709551616).
Definition as_i32 (n : N) : Z := let m := (Z.of_N n mod 4294967296)%Z in if Z.ltb m 2147483648 then m else (m - 4294967296)%Z.
Definition as_i64 (n : N) : Z :=
  let m := (Z.of_N n mod 18446744073709551616)%Z in
  if Z.ltb m 9223372036854775808 then m else (m - 18446744073709551616)%Z.

(** [data[start..end]]: a panic unless [start <= end <= data.len()]. *)
Definition slice (data : bytes) (start end_ : N) : may_panic bytes :=
  if N.leb start end_ && N.leb end_ (len64 data)
  then Some (take (N.to_nat (end_ - start)) (drop (N.to_nat start) data)) else None.

(** [data[start..start + b.len()].copy_from_slice(&b)]. *)
Definition splice (data : bytes) (start : N) (b : bytes) : may_panic bytes :=
  if N.leb (start + len64 b) (len64 data)
  then Some (take (N.to_nat start) data ++ b ++ drop (N.to_nat start + length b) data) else None.

Definition clamp (data : bytes) (start n : N) : N := N.min n (sat_sub (len64 data) start).

(** The outcome of a host function: a panic, a trap, or a value. *)
Definition host_result (A : Type) : Type := option (result Trap A).
#[local] Instance host_ret : MRet host_result := λ A a, Some (Ok a).
#[local] Instance host_bind : MBind host_result :=
  λ A B f m, match m with Some (Ok a) => f a | Some (Err t) => Some (Err t) | None => None end.

Definition read_mem (st : wstate) (ptr len : Z) : host_result bytes :=
  match w_memory st with
  | None => Some (Err (TrapOther "no linear memory"))
  | Some data =>
      let start := as_usize ptr in
      let n := clamp data start (as_usize len) in
      Ok <$> slice data start (start + n)
  end.

Definition write_mem (st : wstate) (ptr : Z) (b : bytes) : host_result wstate :=
  match w_memory st with
  | None => Some (Err (TrapOther "no linear memory"))
  | Some data =>
      let start := as_usize ptr in
      let n := clamp data start (len64 b) in
      if N.leb start (len64 data) then (λ d, Ok (w_set_memory d st)) <$> splice data start (take (N.to_nat n) b)
      else None
  end.

(** ** The environment of a call *)

Record WasmEnv := mkWasmEnv {
  env_tx : Transaction;
  env_tx_amount : Z;
  env_tx_sequence : Z;
  env_sender_fuel : Z;
  env_payload : bytes;
  env_storage : gmap bytes bytes;
  env_delta : gmap bytes (option bytes);
  env_storage_gas : N;
  env_call_ctx : option CallContext;
  env_call_gas : N;
}.

Definition with_storage (d : gmap bytes (option bytes)) (gas : N) (e : WasmEnv) : WasmEnv :=
  mkWasmEnv (env_tx e) (env_tx_amount e) (env_tx_sequence e) (env_sender_fuel e) (env_payload e)
    (env_storage e) d gas (env_call_ctx e) (env_call_gas e).

Definition with_call_gas (gas : N) (e : WasmEnv) : WasmEnv :=
  mkWasmEnv (env_tx e) (env_tx_amount e) (env_tx_sequence e) (env_sender_fuel e) (env_payload e)
    (env_storage e) (env_delta e) (env_storage_gas e) (env_call_ctx e) gas.

(** The storage functions, on keys and values read from memory. *)
Definition sload (key : bytes) (e : WasmEnv) : WasmEnv * bytes :=
  (with_storage (env_delta e) (sat_add (env_storage_gas e) WASM_SLOAD_GAS) e,
   match env_delta e !! key with
   | Some (Some v) => v
   | Some None => []
   | None => default [] (env_storage e !! key)
   end).

Definition sstore (key value : bytes) (e : WasmEnv) : WasmEnv :=
  let is_new := is_none (env_storage e !! key) && is_none (env_delta e !! key) in
  let gas := if is_new then WASM_SSTORE_NEW_GAS else WASM_SSTORE_REWRITE_GAS in
  with_storage (<[key := Some value]> (env_delta e)) (sat_add (env_storage_gas e) gas) e.

Definition sdelete (key : bytes) (e : WasmEnv) : WasmEnv :=
  with_storage (<[key := None]> (env_delta e)) (sat_add (env_storage_gas e) WASM_SDELETE_GAS) e.

Context (run : ContractEngine → ExecutionInput → exec ExecutionOutput).

(** [env.call]: a memory error, a bad argument or any failure is the answer 0. *)
Definition host_call (e : WasmEnv) (st : wstate) (target_ptr target_len entry_ptr entry_len payload_ptr
    payload_len ref_height ref_hash_ptr ref_hash_len out_ptr out_cap : Z) : host_result (WasmEnv * wstate * Z) :=
  t ← read_mem st target_ptr target_len : option _; en ← read_mem st entry_ptr entry_len : option _;
  p ← read_mem st payload_ptr payload_len : option _; r ← read_mem st ref_hash_ptr ref_hash_len : option _;
  match t, en, p, r with
  | Ok target, Ok entry, Ok payload, Ok ref_hash =>
      match from_utf8 entry with
      | None => Some (Ok (e, st, 0%Z))
      | Some entry =>
          if Z.ltb ref_height 0 then Some (Ok (e, st, 0%Z))
          else match env_call_ctx e with
          | None => Some (Ok (e, st, 0%Z))
          | Some ctx =>
              let sub := sat_sub (w_fuel st) XCALL_CALL_BASE_WASM in
              outcome ← execute_call run ctx (env_tx e) target entry payload
                          (mkSnapshotRef (Z.to_N ref_height) ref_hash) sub : option _;
              let e := with_call_gas (sat_add (env_call_gas e) (wrap_add XCALL_CALL_BASE_WASM (b_gas_used outcome))) e in
              match outcome with
              | Failure _ _ => Some (Ok (e, st, 0%Z))
              | Success result_data _ =>
                  if N.ltb (as_usize out_cap) (len64 result_data) then Some (Ok (e, st, 0%Z))
                  else
                    w ← write_mem st out_ptr result_data : option _;
                    match w with
                    | Err _ => Some (Ok (e, st, 0%Z))
                    | Ok st => Some (Ok (e, st, as_i32 (len64 result_data)))
                    end
              end
          end
      end
  | _, _, _, _ => Some (Ok (e, st, 0%Z))
  end.

(** What the linked function does with the environment and the machine state. *)
Definition host (c : HostCall) (e : WasmEnv) (st : wstate) : host_result (WasmEnv * wstate * Z) :=
  match c with
  | HTxAmount => mret (e, st, env_tx_amount e)
  | HTxSequence => mret (e, st, env_tx_sequence e)
  | HSenderFuel => mret (e, st, env_sender_fuel e)
  | HTxPayloadLen => mret (e, st, as_i32 (len64 (env_payload e)))
  | HTxPayload ptr len =>
      let n := N.min (as_usize len) (len64 (env_payload e)) in
      match w_memory st with
      | None => mret (e, st, 0%Z)
      | Some data =>
          (λ d, Ok (e, w_set_memory d st, 0%Z)) <$> splice data (as_usize ptr) (take (N.to_nat n) (env_payload e))
      end
  | HRevert => Some (Err TrapRevert)
  | HSload key_ptr key_len out_ptr =>
      key ← read_mem st key_ptr key_len;
      let '(e, value) := sload key e in
      st ← write_mem st out_ptr value;
      mret (e, st, as_i32 (len64 value))
  | HSstore key_ptr key_len value_ptr value_len =>
      key ← read_mem st key_ptr key_len; value ← read_mem st value_ptr value_len;
      mret (sstore key value e, st, 0%Z)
  | HSdelete key_ptr key_len =>
      key ← read_mem st key_ptr key_len; mret (sdelete key e, st, 0%Z)
  | HCall a b c d e1 f g h i j k => host_call e st a b c d e1 f g h i j k
  end.

(** Guest code and host functions taking turns. *)
Fixpoint drive (e : WasmEnv) (r : Run wstate) : host_result (WasmEnv * wstate * Z) :=
  match r with
  | RunDone st v => mret (e, st, v)
  | RunTrap t => Some (Err t)
  | RunHost st c k => match host c e st with
                      | Some (Ok (e, st, v)) => drive e (k st v)
                      | Some (Err t) => Some (Err t)
                      | None => None
                      end
  end.

Definition map_runtime_err (t : Trap) : ContractError :=
  match t with
  | TrapOutOfFuel => GasExhausted
  | TrapRevert => Reverted "guest called env.revert()"
  | TrapOther msg => Reverted ("wasm trap: " +:+ msg)
  end.

Definition guest {A} (m : host_result A) : exec A :=
  match m with Some (Ok a) => mret a | Some (Err t) => throw (map_runtime_err t) | None => None end.

Definition fresh_env (i : ExecutionInput) : WasmEnv :=
  mkWasmEnv (in_tx i) (as_i64 (default 0%N (tx_amount (in_tx i)))) (as_i64 (N.of_nat (tx_sequence_number (in_tx i))))
    (as_i64 (fuel_balance (in_sender_state i))) (tx_payload (in_tx i)) (in_storage i) ∅ 0 (in_call_ctx i) 0.

(** After [execute] returned: caps, envelope, metering. *)
Definition wasm_finish (i : ExecutionInput) (budget : N) (e : WasmEnv) (st : wstate) (output : bytes)
    : result ContractError ExecutionOutput :=
  let post_size := state_size (apply_delta_to (env_delta e) (in_storage i)) in
  if N.ltb WASM_STORAGE_CAP (N.of_nat post_size) then
    Err (Reverted ("storage size " +:+ pretty post_size +:+ " bytes exceeds " +:+ pretty WASM_STORAGE_CAP +:+ " byte cap"))
  else
    result_data ← map_err (λ m, InvalidInput ("serialize WasmResult: " +:+ m))
      (rmp_enc (ser_WasmResult (mkWasmResult output (env_delta e))));
    let fuel_used := sat_sub budget (w_fuel st) in
    let gas_used := sat_add (sat_add fuel_used (env_storage_gas e)) (env_call_gas e) in
    if N.ltb 0 (in_gas_limit i) && N.ltb (in_gas_limit i) gas_used then Err GasExhausted
    else
      let mem_size := len64 (default [] (w_memory st)) in
      if N.ltb WASM_MAX_MEMORY_BYTES mem_size then
        Err (BadBytecode ("linear memory " +:+ pretty mem_size +:+ " bytes exceeds " +:+
                          pretty WASM_MAX_MEMORY_BYTES +:+ " byte cap"))
      else Ok (mkOutput result_data gas_used).

Definition wasm_execute (i : ExecutionInput) : exec ExecutionOutput :=
  m ← lift (validate_wasm_module (sc_bytecode (in_contract i)));
  let budget := if N.eqb (in_gas_limit i) 0 then UNLIMITED_FUEL else in_gas_limit i in
  '(e, st, _) ← guest (drive (fresh_env i) (instantiate m budget));
  in_bytes ← lift (map_err (InvalidInput ∘ display_encoding) (canonical_bytes i));
  _ ← lift (map_err (λ e, BadBytecode ("__alloc: " +:+ e)) (get_alloc st));
  match w_memory st with
  | None => throw (BadBytecode "module has no linear memory")
  | Some _ =>
      '(e, st, in_ptr) ← guest (drive e (call_alloc st (as_i32 (len64 in_bytes))));
      match splice (default [] (w_memory st)) (as_usize in_ptr) in_bytes with
      | None => None
      | Some data =>
          let st := w_set_memory data st in
          '(e, st, out_ptr) ← guest (drive e (call_alloc st WASM_OUTPUT_CAP));
          _ ← lift (map_err (λ e, BadBytecode ("execute: " +:+ e)) (get_execute st));
          '(e, st, out_len) ← guest (drive e (call_execute st in_ptr (as_i32 (len64 in_bytes)) out_ptr WASM_OUTPUT_CAP));
          if N.ltb (Z.to_N WASM_OUTPUT_CAP) (as_usize out_len) then
            throw (Reverted ("output length " +:+ pretty out_len +:+ " exceeds " +:+
                             pretty (Z.to_N WASM_OUTPUT_CAP) +:+ " byte cap"))
          else
            match slice (default [] (w_memory st)) (as_usize out_ptr) (as_usize out_ptr + as_usize out_len) with
            | None => None
            | Some output => lift (wasm_finish i budget e st output)
            end
      end
  end.
End host.

(** ** Engines closed over calls

    [levels] bounds the nesting of engine runs. *)

Section engines.
Context `{HashIter} `{Rmp} `{Wasmi}.

Fixpoint execute_at (levels : nat) (e : ContractEngine) (i : ExecutionInput) : exec ExecutionOutput :=
  match levels with
  | O => None
  | S l =>
      match e with
      | TransferEngine => lift (transfer_execute i)
      | SpecEngine => spec_execute (execute_at l) i
      | WasmEngine => wasm_execute (execute_at l) i
      end
  end.

(** [ContractEngine::execute]: as many levels as the depth cap leaves room for. *)
Definition engine_execute : ContractEngine → ExecutionInput → exec ExecutionOutput :=
  execute_at (S (N.to_nat MAX_CALL_DEPTH)).
End engines.

(** ** A concrete interpreter and concrete contracts *)

Module ConcreteWasm.
Import ConcreteChain.

(** Modules whose first byte says what their start function does: 1 loads the
    storage cell at the key pointer -1. *)
#[export] Instance script_wasmi : Wasmi := {|
  wmodule := bytes;
  wstate := bytes * N;
  module_new b := Ok b;
  module_exports _ := [("__alloc", ExtFunc [I32] [I32]); ("execute", ExtFunc [I32; I32; I32; I32] [I32])];
  module_imports _ := [("env", "sload")];
  instantiate m fuel :=
    let st := (replicate 8 0%N, fuel) in
    match m with
    | 1%N :: _ => RunHost st (HSload (-1) 1 0) (λ st v, RunDone st v)
    | _ => RunDone st 0
    end;
  get_alloc _ := Ok ();
  get_execute _ := Ok ();
  call_alloc st _ := RunDone st 0%Z;
  call_execute st _ _ _ _ := RunDone st 0%Z;
  w_memory st := Some st.1;
  w_set_memory d st := (d, st.2);
  w_fuel st := st.2;
|}.

Definition const_op : serde := SMap [(SStr "load_const", SInt 7)].
Definition program (ops : list serde) : bytes := enc_value (ser_struct [fld "version" (SInt 1); fld "ops" (SSeq ops)]).

Definition counter (ops : list serde) : SmartContract := mkContract "counter" (program ops) "1" ∅ [] 0.
Definition contract_token : Token :=
  set_metadata "contract_engine" "Spec" (set_metadata "token_type" "contract" (with_id [3%N] Token_new)).
Definition pinned (ops : list serde) : PinnedTarget :=
  mkPinned contract_token (counter ops) (mkUser [7%N] 10 0 0) (mkSnapshotRef 0 [1%N]).
Definition resolving (ops : list serde) : CallContext :=
  CallContext_new (λ _ _ _, Ok (pinned ops)) (register_defaults EngineRegistry_new).

Definition tx : Transaction :=
  mkTransaction "tx" "ContractCall" [3%N] None 0 [7%N] [8%N] (Some 1%N) 0 [] [] [] 0 [] None.

Definition input (gas_limit : N) (ops callee : list serde) : ExecutionInput :=
  mkInput tx (counter ops) (mkUser [7%N] 10 0 0) contract_token gas_limit ∅ (Some (resolving callee)).
End ConcreteWasm.
