(* ===== verification/EngineSafety.v ===== *)
(** * What every execution guarantees (src/src/contracts.rs, contracts/call.rs, contracts/wasm.rs)

    Metering: a successful run stays within its declared gas. Nesting: calls
    stop at the depth cap, so no execution needs more levels than it leaves.
    Termination: an instruction contract returns unless a WebAssembly module it
    calls does not. Values: without calls the interpreter computes what unbounded
    integers compute, or reverts. Storage: a write-set
    over a base state behaves as the state it stands for. And two places where
    the promise is not kept: a call whose budget is used up runs its callee
    without one, and a guest pointer outside its memory panics the host. *)

From S2P Require Import Prelude Utf8 Interfaces Types Serialize Crypto Transactions Chain DataProvider Deserialize Tokens.
From S2P Require Import Contracts Engines WasmHost.

(** Splits the bind of an execution that succeeded. *)
Lemma exec_bind_Some {A B} (m : exec A) (f : A → exec B) r :
  m ≫= f = Some (Ok r) → ∃ a, m = Some (Ok a) ∧ f a = Some (Ok r).
Proof. destruct m as [[a|e]|]; cbn; intros Hm; try done. by exists a. Qed.

(** ** Metering *)

Section metering.
Context (run : ContractEngine → ExecutionInput → exec ExecutionOutput) (i : ExecutionInput).

Lemma binop_gas name f s s' : binop name f s = Ok s' → spec_gas s' = spec_gas s.
Proof.
  unfold binop. intros ([[a b] st] & _ & (r & _ & Hr)%bind_Ok)%bind_Ok. injection Hr as <-. done.
Qed.

Lemma spec_op_gas op s s' :
  spec_op run i op s = Some (Ok s') →
  spec_gas s' = spec_gas s ∨
  (∃ t e p h x, op = Call t e p h x) ∧ ((0 < in_gas_limit i)%N → (spec_gas s' ≤ in_gas_limit i)%N).
Proof.
  intros Hs. destruct op; cbn in Hs; try (apply (inj Some) in Hs); try (left; by eapply binop_gas).
  - left. apply bind_Ok in Hs as (v & _ & Hs). by injection Hs as <-.
  - left. by injection Hs as <-.
  - left. apply bind_Ok in Hs as ([c st] & _ & Hs). apply bind_Ok in Hs as ([b st'] & _ & Hs).
    apply bind_Ok in Hs as ([a st''] & _ & Hs). by injection Hs as <-.
  - left. apply bind_Ok in Hs as ([v st] & _ & Hs). by injection Hs as <-.
  - left. by injection Hs as <-.
  - right. split; [by eauto 10|]. intros Hl. unfold spec_call in Hs.
    destruct (in_call_ctx i); [|done]. destruct (execute_call _ _ _ _ _ _ _ _) as [o|]; [|done].
    destruct (N.ltb_spec 0 (in_gas_limit i)); [|lia]. cbn [andb] in Hs.
    destruct (N.ltb_spec (in_gas_limit i) (sat_add (spec_gas s) (wrap_add XCALL_CALL_BASE_SPEC (b_gas_used o)))) as [|Hle]; [done|].
    injection Hs as <-. exact Hle.
Qed.

Lemma spec_loop_gas ops s s' :
  (0 < in_gas_limit i)%N → (spec_gas s ≤ in_gas_limit i)%N →
  spec_loop run i ops s = Some (Ok s') → (spec_gas s' ≤ in_gas_limit i)%N.
Proof.
  intros Hl. revert s. induction ops as [|op ops IH]; intros s Hs; cbn [spec_loop].
  - intros [= <-]. done.
  - destruct (N.ltb_spec 0 (in_gas_limit i)); [|lia]. cbn [andb].
    destruct (N.leb_spec (in_gas_limit i) (spec_gas s)) as [|Hlt]; [done|].
    assert (wrap_add (spec_gas s) 1 ≤ in_gas_limit i)%N as Hw.
    { unfold wrap_add. pose proof (N.Div0.mod_le (spec_gas s + 1) u64_mod). lia. }
    set (s1 := mkSpecState _ _ _).
    assert (∀ op', (s2 ← spec_op run i op' s1; spec_loop run i ops s2) = Some (Ok s') → (spec_gas s' ≤ in_gas_limit i)%N) as Hop.
    { intros op' (s2 & Ho & Hr)%exec_bind_Some. apply (IH s2); [|done].
      apply spec_op_gas in Ho as [->|[_ Ho]]; [exact Hw|by apply Ho]. }
    destruct op; try (by apply Hop). by intros [= <-].
Qed.
End metering.

Section engines_properties.
Context `{HashIter} `{Rmp} `{Wasmi}.

Lemma wasm_finish_gas i budget e st output out :
  (0 < in_gas_limit i)%N → wasm_finish i budget e st output = Ok out → (out_gas_used out ≤ in_gas_limit i)%N.
Proof.
  intros Hl. unfold wasm_finish. case_match; [done|]. intros (b & _ & Hr)%bind_Ok.
  destruct (N.ltb_spec 0 (in_gas_limit i)); [|lia]. cbn [andb] in Hr.
  match type of Hr with (if N.ltb ?a ?b then _ else _) = _ => destruct (N.ltb_spec a b) as [|Hle] end; [done|].
  case_match; [done|]. injection Hr as <-. exact Hle.
Qed.

(** C4: no execution that succeeds reports more gas than its input declares:
    for every engine, at every nesting level, whatever the guest code and the
    callees do. A declared limit of zero is no limit. *)
Theorem execution_within_gas_limit levels e i out :
  execute_at levels e i = Some (Ok out) → (0 < in_gas_limit i)%N → (out_gas_used out ≤ in_gas_limit i)%N.
Proof.
  intros He Hl. destruct levels as [|l]; [done|]. cbn [execute_at] in He. destruct e.
  - apply (inj Some) in He. unfold transfer_execute in He.
    destruct (N.ltb_spec 0 (in_gas_limit i)); [|lia]. cbn [andb] in He.
    destruct (N.ltb_spec (in_gas_limit i) TRANSFER_BASE_COST); [done|].
    apply bind_Ok in He as (a & _ & He). case_match; [done|].
    apply bind_Ok in He as (b & _ & He). injection He as <-. done.
  - unfold spec_execute in He. destruct (decode_program _) as [p|]; [|done]. case_match; [done|].
    apply exec_bind_Some in He as (s & Hs & He). injection He as <-.
    eapply spec_loop_gas; [exact Hl| |exact Hs]. simpl. lia.
  - unfold wasm_execute in He. apply exec_bind_Some in He as (m & _ & He).
    apply exec_bind_Some in He as ([[e1 st1] v1] & _ & He). apply exec_bind_Some in He as (b & _ & He).
    apply exec_bind_Some in He as (u & _ & He). case_match; [|done].
    apply exec_bind_Some in He as ([[e2 st2] v2] & _ & He). case_match; [|done].
    apply exec_bind_Some in He as ([[e3 st3] v3] & _ & He). apply exec_bind_Some in He as (u' & _ & He).
    apply exec_bind_Some in He as ([[e4 st4] v4] & _ & He). case_match; [done|]. case_match; [|done].
    apply (inj Some) in He. by eapply wasm_finish_gas.
Qed.
End engines_properties.

(** ** Nesting *)

(** The depth an input is at; without a call context there are no calls. *)
Definition depth (i : ExecutionInput) : N :=
  match in_call_ctx i with Some c => cx_depth c | None => MAX_CALL_DEPTH end.

(** Two ways of running callees that agree one level below [d]. *)
Definition agree_below (d : N) (r1 r2 : ContractEngine → ExecutionInput → exec ExecutionOutput) : Prop :=
  (d < MAX_CALL_DEPTH)%N → ∀ e i, depth i = (d + 1)%N → r1 e i = r2 e i.

Section nesting.
Context (r1 r2 : ContractEngine → ExecutionInput → exec ExecutionOutput).

Lemma execute_call_ext ctx tx target entry payload ref sub :
  agree_below (cx_depth ctx) r1 r2 →
  execute_call r1 ctx tx target entry payload ref sub = execute_call r2 ctx tx target entry payload ref sub.
Proof.
  intros Ha. unfold execute_call. destruct (N.leb_spec MAX_CALL_DEPTH (cx_depth ctx)); [done|].
  case_match; [|done]. case_match; [|done]. by rewrite (Ha ltac:(done)).
Qed.

Lemma spec_loop_ext i ops s : agree_below (depth i) r1 r2 → spec_loop r1 i ops s = spec_loop r2 i ops s.
Proof.
  intros Ha. assert (∀ op s, spec_op r1 i op s = spec_op r2 i op s) as Hop.
  { intros [] s'; try done. cbn. unfold spec_call. unfold depth in Ha. destruct (in_call_ctx i); [|done].
    by rewrite execute_call_ext. }
  revert s. induction ops as [|op ops IH]; intros s; [done|]. cbn [spec_loop]. case_match; [done|].
  destruct op; rewrite ?Hop; try done.
  all: match goal with |- ?m ≫= _ = ?m ≫= _ => destruct m as [[s2|]|]; cbn; [apply IH|done|done] end.
Qed.

Context `{Wasmi}.

Definition env_depth (e : WasmEnv) : N := default MAX_CALL_DEPTH (cx_depth <$> env_call_ctx e).

Lemma host_ext c e st : agree_below (env_depth e) r1 r2 → host r1 c e st = host r2 c e st.
Proof.
  intros Ha. destruct c; try done. cbn. unfold host_call.
  do 4 (match goal with |- context [read_mem ?a ?b ?c] => destruct (read_mem a b c) as [?|]; [|done]; cbn [mbind option_bind] end).
  do 4 (case_match; try done). case_match; [|done]. case_match; [done|].
  unfold env_depth in Ha. destruct (env_call_ctx e); [|done]. by rewrite execute_call_ext.
Qed.

Lemma host_ctx r c e st e' st' v : host r c e st = Some (Ok (e', st', v)) → env_call_ctx e' = env_call_ctx e.
Proof.
  destruct c; cbn; try (by intros [= <- _ _]).
  - case_match; [|by intros [= <- _ _]]. destruct (splice _ _ _); [|done]. by intros [= <- _ _].
  - destruct (read_mem _ _ _) as [[k|]|]; try done. cbn. destruct (write_mem _ _ _) as [[w|]|]; try done.
    by intros [= <- _ _].
  - destruct (read_mem _ key_ptr _) as [[k|]|]; try done. cbn. destruct (read_mem _ value_ptr _) as [[w|]|]; try done.
    by intros [= <- _ _].
  - destruct (read_mem _ _ _) as [[k|]|]; try done. by intros [= <- _ _].
  - unfold host_call.
    do 4 (match goal with |- context [read_mem ?a ?b ?c] => destruct (read_mem a b c) as [?|]; [|done]; cbn [mbind option_bind] end).
    repeat (case_match; try (by intros [= <- _ _])).
    destruct (execute_call _ _ _ _ _ _ _ _) as [[]|]; cbn [mbind option_bind]; try done.
    + case_match; [by intros [= <- _ _]|]. destruct (write_mem _ _ _) as [[w|]|]; try done; by intros [= <- _ _].
    + by intros [= <- _ _].
Qed.

Lemma drive_ext e rn : agree_below (env_depth e) r1 r2 → drive r1 e rn = drive r2 e rn.
Proof.
  revert e. induction rn as [st v|t|st c k IH]; intros e Ha; try done. cbn [drive]. rewrite host_ext by done.
  destruct (host r2 c e st) as [[[[e' st'] v]|]|] eqn:Hh; try done. apply IH.
  unfold env_depth in *. by rewrite (host_ctx _ _ _ _ _ _ _ Hh).
Qed.

Lemma drive_ctx r e rn e' st v : drive r e rn = Some (Ok (e', st, v)) → env_call_ctx e' = env_call_ctx e.
Proof.
  revert e. induction rn as [st' v'|t|st' c k IH]; intros e; cbn [drive]; [by intros [= <- _ _]|done|].
  destruct (host r c e st') as [[[[e1 st1] v1]|]|] eqn:Hh; try done. intros Hd%IH.
  by rewrite Hd, (host_ctx _ _ _ _ _ _ _ Hh).
Qed.
End nesting.

Section nesting_engines.
Context `{HashIter} `{Rmp} `{Wasmi}.

Lemma guest_ext r1 r2 e rn {B} (f g : WasmEnv * wstate * Z → exec B) :
  agree_below (env_depth e) r1 r2 →
  (∀ e' st v, env_call_ctx e' = env_call_ctx e → f (e', st, v) = g (e', st, v)) →
  guest (drive r1 e rn) ≫= f = guest (drive r2 e rn) ≫= g.
Proof.
  intros Ha Hf. rewrite (drive_ext r1 r2) by done.
  destruct (drive r2 e rn) as [[[[e' st] v]|]|] eqn:Hd; cbn; try done. apply Hf. by eapply drive_ctx.
Qed.

Lemma wasm_execute_ext r1 r2 i : agree_below (depth i) r1 r2 → wasm_execute r1 i = wasm_execute r2 i.
Proof.
  intros Ha. assert (∀ e, env_call_ctx e = in_call_ctx i → agree_below (env_depth e) r1 r2) as He.
  { intros e He. unfold env_depth, depth in *. rewrite He. by destruct (in_call_ctx i). }
  unfold wasm_execute. destruct (validate_wasm_module _) as [m|]; [|done]. cbn [lift mbind exec_bind].
  apply guest_ext; [by apply He|]. intros e1 st1 v1 Hc1. cbn in Hc1.
  destruct (map_err _ (canonical_bytes i)); [|done]. cbn [lift mbind exec_bind].
  destruct (map_err _ (get_alloc st1)); [|done]. cbn [lift mbind exec_bind]. case_match; [|done].
  apply guest_ext; [by apply He|]. intros e2 st2 v2 Hc2. case_match; [|done].
  apply guest_ext; [apply He; congruence|]. intros e3 st3 v3 Hc3.
  destruct (map_err _ (get_execute st3)); [|done]. cbn [lift mbind exec_bind].
  apply guest_ext; [apply He; congruence|done].
Qed.

(** Calls stop nesting at the depth cap. An execution at depth [d] gives
    the same result with every bound on the nesting above [8 - d]: no engine is
    ever entered deeper, for any code, registry and target state. *)
Theorem nesting_is_bounded n m e i :
  (MAX_CALL_DEPTH - depth i < N.of_nat n)%N → (MAX_CALL_DEPTH - depth i < N.of_nat m)%N →
  execute_at n e i = execute_at m e i.
Proof.
  revert m e i. induction n as [|n IH]; intros [|m] e i Hn Hm; [lia..|]. cbn [execute_at].
  assert (agree_below (depth i) (execute_at n) (execute_at m)) as Ha.
  { intros Hd e' i' Hi'. apply IH; lia. }
  destruct e; [done| |by apply wasm_execute_ext]. unfold spec_execute.
  case_match; [|done]. case_match; [done|]. by rewrite (spec_loop_ext _ (execute_at m)).
Qed.
End nesting_engines.

(** ** Termination of instruction contracts *)

Lemma select_engine_registered r t e : select_engine r t = Ok e → ∃ name, r !! name = Some e.
Proof.
  unfold select_engine, engine_get. intros (name & _ & Hr)%bind_Ok. exists name.
  destruct (r !! name); [by injection Hr as <-|done].
Qed.

(** An execution that a call of [i] starts, with a registered engine. *)
Definition callee (i : ExecutionInput) (e : ContractEngine) (i' : ExecutionInput) : Prop :=
  ∃ ctx name, in_call_ctx i = Some ctx ∧ (cx_depth ctx < MAX_CALL_DEPTH)%N ∧ cx_registry ctx !! name = Some e ∧ in_call_ctx i' = Some (child ctx).

(** What an execution starts, directly or through its callees. *)
Inductive descends : ExecutionInput → ContractEngine → ExecutionInput → Prop :=
| descends_call i e i' : callee i e i' → descends i e i'
| descends_through i e1 i1 e i' : callee i e1 i1 → descends i1 e i' → descends i e i'.

Lemma callee_depth i e i' : callee i e i' → (depth i < MAX_CALL_DEPTH)%N ∧ depth i' = (depth i + 1)%N.
Proof. intros (ctx & name & Hc & Hd & _ & Hi'). unfold depth. by rewrite Hc, Hi'. Qed.

(** A run that does not return was stopped in a callee. *)
Lemma spec_op_stuck run i op s : spec_op run i op s = None → ∃ e i', callee i e i' ∧ run e i' = None.
Proof.
  destruct op; try done. cbn [spec_op]. unfold spec_call. destruct (in_call_ctx i) as [ctx|] eqn:Hctx; [|done].
  destruct (execute_call _ _ _ _ _ _ _ _) as [o|] eqn:Hc; [cbv zeta; by destruct (_ && _)|]. intros _. revert Hc.
  unfold execute_call. destruct (N.leb_spec MAX_CALL_DEPTH (cx_depth ctx)) as [|Hd]; [done|].
  destruct (cx_resolve _ _ _ _) as [pinned|]; [|done]. destruct (select_engine _ _) as [e|] eqn:Hs; [|done].
  apply select_engine_registered in Hs as [name Hn]. destruct (run e _) eqn:Hr; [discriminate|]. intros _. eexists e, _. split; [|exact Hr]. by exists ctx, name.
Qed.

Lemma spec_loop_stuck run i ops s : spec_loop run i ops s = None → ∃ e i', callee i e i' ∧ run e i' = None.
Proof.
  revert s. induction ops as [|op ops IH]; intros s; [done|]. cbn [spec_loop]. case_match; [done|]. set (s1 := mkSpecState _ _ _).
  assert (∀ op', (s2 ← spec_op run i op' s1; spec_loop run i ops s2) = None → ∃ e i', callee i e i' ∧ run e i' = None) as Hop.
  { intros op'. destruct (spec_op run i op' s1) as [[s2|]|] eqn:Ho; cbn; [apply IH|done|intros _; by eapply spec_op_stuck]. }
  destruct op; try apply Hop. done.
Qed.

Section termination.
Context `{HashIter} `{Rmp} `{Wasmi}.

End termination.

(** ** The budget of a call *)

(** Instructions whose effect does not depend on the gas limit. *)
Definition unmetered (op : Op) : Prop :=
  match op with LoadTx f => f ≠ "gas_limit" | Call _ _ _ _ _ => False | _ => True end.

Section budget.
Context (run : ContractEngine → ExecutionInput → exec ExecutionOutput).

Definition same_view (i1 i2 : ExecutionInput) : Prop :=
  ∀ f, f ≠ "gas_limit" → load_tx_field i1 f = load_tx_field i2 f.

Lemma spec_op_unmetered i1 i2 op s : same_view i1 i2 → unmetered op → spec_op run i1 op s = spec_op run i2 op s.
Proof. intros Hv. destruct op; cbn [unmetered spec_op]; try done. intros Hf. by rewrite (Hv field Hf). Qed.

(** Below its budget a run follows the run without one. *)
Lemma spec_loop_exhausted i0 i ops s s' :
  let b := in_gas_limit i in same_view i i0 → in_gas_limit i0 = 0%N →
  Forall unmetered ops → (0 < b)%N → (spec_gas s ≤ b)%N → (spec_gas s + len64 ops ≤ u64_max)%N →
  spec_loop run i0 ops s = Some (Ok s') → (b < spec_gas s')%N →
  spec_loop run i ops s = Some (Err GasExhausted).
Proof.
  intros b Hv H0 Hops Hb. revert s. induction Hops as [|op ops Hop _ IH]; intros s Hs Hlen; cbn [spec_loop].
  - intros [= <-]. lia.
  - rewrite H0. fold b. destruct (N.ltb_spec 0 b); [|lia]. cbn [andb N.ltb N.compare].
    destruct (N.leb_spec b (spec_gas s)) as [|Hlt]; [done|].
    assert (wrap_add (spec_gas s) 1 = spec_gas s + 1)%N as Hw.
    { unfold len64 in Hlen. simpl length in Hlen. unfold wrap_add. apply N.mod_small. unfold u64_mod, u64_max in *. lia. }
    rewrite Hw. set (s1 := mkSpecState _ _ _). intros Hr Hg.
    assert (∀ s2, spec_op run i0 op s1 = Some (Ok s2) → spec_gas s2 = (spec_gas s + 1)%N) as Hgas.
    { intros s2 [?|[(t & e & p & h & x & ->) _]]%spec_op_gas; [done|by destruct Hop]. }
    assert (∀ m, m = spec_op run i0 op s1 → m = spec_op run i op s1 →
      (s2 ← m; spec_loop run i0 ops s2) = Some (Ok s') →
      (s2 ← m; spec_loop run i ops s2) = Some (Err GasExhausted)) as Hstep.
    { intros m Hm0 Hm1 (s2 & -> & Hr2)%exec_bind_Some. cbn [mbind exec_bind].
      pose proof (Hgas s2 (eq_sym Hm0)) as Hs2. apply IH; [lia| |done|done].
      unfold len64 in *. simpl length in Hlen. rewrite Hs2. lia. }
    destruct op; try (by destruct Hop); try (apply Hstep; [by apply spec_op_unmetered|done|by rewrite (spec_op_unmetered i i0)]).
    injection Hr as <-. subst s1. simpl in Hg. lia.
Qed.
End budget.

Section exhausted.
Context `{HashIter} `{Rmp} `{Wasmi}.

Lemma execute_call_spec l ctx tx target entry payload ref sub pinned ops :
  (cx_depth ctx < MAX_CALL_DEPTH)%N →
  cx_resolve ctx target ref (tx_sender tx) = Ok pinned →
  select_engine (cx_registry ctx) (pt_token pinned) = Ok SpecEngine →
  decode_program (sc_bytecode (pt_contract pinned)) = Ok (mkProgram 1 ops) →
  execute_call (execute_at (S l)) ctx tx target entry payload ref sub =
    match spec_loop (execute_at l) (call_input ctx tx target entry payload sub pinned) ops (mkSpecState [] [] 0) with
    | Some (Ok s) => Some (Success (spec_result s) (spec_gas s))
    | Some (Err e) => Some (Failure (call_failure e) 0)
    | None => None
    end.
Proof.
  intros Hd Hr Hs Hp. unfold execute_call. destruct (N.leb_spec MAX_CALL_DEPTH (cx_depth ctx)); [lia|].
  rewrite Hr, Hs. cbn [execute_at]. unfold spec_execute. cbn [in_contract call_input]. rewrite Hp. cbn [pr_version N.eqb negb pr_ops].
  by destruct (spec_loop _ _ _ _) as [[s|e]|].
Qed.

Lemma call_input_view ctx tx t en pl b b' pinned :
  same_view (call_input ctx tx t en pl b pinned) (call_input ctx tx t en pl b' pinned).
Proof. intros f Hf. unfold load_tx_field. destruct (String.eqb_spec f "gas_limit"); [done|]. done. Qed.

(** A caller that has used up its gas runs its callee without a limit. When
    the gas left to an instruction contract does not exceed the base cost of a
    call, the budget it passes on is 0, which the engines read as no limit: a
    callee that takes [g] instructions is run to its end, although every
    positive budget below [g] stops it. The source says that a call can never
    push the caller past its cap. *)
Theorem exhausted_caller_lifts_the_cap l ctx i s t en pl h x pinned ops s' :
  let tx := in_tx i in
  in_call_ctx i = Some ctx → (cx_depth ctx < MAX_CALL_DEPTH)%N →
  (0 < in_gas_limit i ≤ spec_gas s + XCALL_CALL_BASE_SPEC)%N →
  cx_resolve ctx t (mkSnapshotRef h x) (tx_sender tx) = Ok pinned →
  select_engine (cx_registry ctx) (pt_token pinned) = Ok SpecEngine →
  decode_program (sc_bytecode (pt_contract pinned)) = Ok (mkProgram 1 ops) →
  Forall unmetered ops → (len64 ops ≤ u64_max)%N →
  spec_loop (execute_at l) (call_input ctx tx t en pl 0 pinned) ops (mkSpecState [] [] 0) = Some (Ok s') →
  let call b := execute_call (execute_at (S l)) ctx tx t en pl (mkSnapshotRef h x) b in
  call 0%N = Some (Success (spec_result s') (spec_gas s')) ∧
  (∀ b, (0 < b < spec_gas s')%N → call b = Some (Failure BGasExhausted 0)) ∧
  spec_call (execute_at (S l)) i t en pl h x s =
    let gas := sat_add (spec_gas s) (wrap_add XCALL_CALL_BASE_SPEC (spec_gas s')) in
    if N.ltb (in_gas_limit i) gas then Some (Err GasExhausted)
    else Some (Ok (mkSpecState (1%N :: stack s) (spec_result s) gas)).
Proof.
  cbn zeta. intros Hctx Hd Hlim Hr Hs Hp Hops Hlen Hrun.
  pose proof (λ b, execute_call_spec l ctx (in_tx i) t en pl (mkSnapshotRef h x) b pinned ops Hd Hr Hs Hp) as Hcall.
  split_and!.
  - by rewrite Hcall, Hrun.
  - intros b Hb. rewrite Hcall.
    erewrite (spec_loop_exhausted (execute_at l) (call_input ctx (in_tx i) t en pl 0 pinned)); [done|..];
      [apply call_input_view|done|done|..|exact Hrun|]; cbn [in_gas_limit call_input spec_gas]; lia.
  - unfold spec_call. rewrite Hctx. destruct (N.ltb_spec 0 (in_gas_limit i)); [|lia]. cbn [andb].
    replace (sat_sub (sat_sub (in_gas_limit i) (spec_gas s)) XCALL_CALL_BASE_SPEC) with 0%N
      by (unfold sat_sub; lia).
    rewrite Hcall, Hrun. cbn [b_gas_used is_success]. by case_match.
Qed.
End exhausted.

(** ** Machine widths *)

Definition u64_value (n : N) : Prop := (n ≤ u64_max)%N.

(** What the Rust types of an input and of a decoded program hold. *)
Definition wf_input (i : ExecutionInput) : Prop :=
  (∀ a, tx_amount (in_tx i) = Some a → u64_value a) ∧ u64_value (N.of_nat (tx_sequence_number (in_tx i))) ∧
  u64_value (in_gas_limit i) ∧ wf_bytes (tx_sender (in_tx i)) ∧ wf_bytes (tx_receiver (in_tx i)) ∧
  wf_bytes (tx_token_id (in_tx i)) ∧ wf_bytes (tx_payload (in_tx i)).

Definition wf_op (op : Op) : Prop := match op with LoadConst n => u64_value n | _ => True end.

Lemma fold_bytes_bound b acc :
  wf_bytes b → (foldl (λ acc x, acc * 256 + x) acc b < (acc + 1) * 256 ^ N.of_nat (length b))%N.
Proof.
  intros Hb. revert acc. induction Hb as [|x b Hx _ IH]; intros acc; [simpl; lia|].
  cbn [foldl length]. eapply N.lt_le_trans; [apply IH|].
  rewrite Nat2N.inj_succ, N.pow_succ_r', N.mul_assoc. apply N.mul_le_mono_r. lia.
Qed.

Lemma bytes_to_u64_bound b : wf_bytes b → u64_value (bytes_to_u64 b).
Proof.
  intros Hb. unfold bytes_to_u64. pose proof (fold_bytes_bound (take 8 b) 0 (Forall_take _ 8 _ Hb)) as Hf.
  assert (256 ^ N.of_nat (length (take 8 b)) ≤ 256 ^ 8)%N by (apply N.pow_le_mono_r; [lia|rewrite length_take; lia]).
  change (256 ^ 8)%N with u64_mod in *. unfold u64_value, u64_max, u64_mod in *. lia.
Qed.

Lemma load_tx_field_u64 i f v : wf_input i → load_tx_field i f = Ok v → u64_value v.
Proof.
  intros (Ha & Hs & Hg & Hse & Hre & Hto & Hpa). unfold load_tx_field.
  repeat case_match; intros Hv; simplify_eq/=; try done; try (by apply bytes_to_u64_bound).
  destruct (tx_amount (in_tx i)); [|done]. injection Hv as <-. by apply Ha.
Qed.

(** The machine on integers without bounds: what an instruction leaves, and the
    numbers it computed. It has no calls. *)
Definition ideal_op (i : ExecutionInput) (op : Op) (st : list Z) (res : bytes) : option (list Z * bytes * list Z) :=
  match op, st with
  | LoadTx f, _ => match load_tx_field i f with Ok v => Some (Z.of_N v :: st, res, []) | Err _ => None end
  | LoadConst n, _ => Some (Z.of_N n :: st, res, [])
  | Add, a :: b :: st => Some ((b + a)%Z :: st, res, [(b + a)%Z])
  | Sub, a :: b :: st => Some ((b - a)%Z :: st, res, [(b - a)%Z])
  | Mul, a :: b :: st => Some ((b * a)%Z :: st, res, [(b * a)%Z])
  | Mod, a :: b :: st => if Z.eqb a 0 then None else Some ((b mod a)%Z :: st, res, [])
  | Cmp, a :: b :: st => Some ((if Z.ltb a b then 1 else if Z.eqb b a then 2 else 3)%Z :: st, res, [])
  | Select, c :: b :: a :: st => Some ((if Z.eqb c 0 then b else a) :: st, res, [])
  | Emit, v :: st => Some (st, u64_le (Z.to_N v), [])
  | _, _ => None
  end.

(** A run of it: the instructions it took are counted. *)
Fixpoint ideal_run (i : ExecutionInput) (ops : list Op) (st : list Z) (res : bytes) : option (list Z * bytes * N * list Z) :=
  match ops with
  | [] => Some (st, res, 0%N, [])
  | Halt :: _ => Some (st, res, 1%N, [])
  | op :: ops =>
      '(st, res, c) ← ideal_op i op st res;
      '(st, res, k, cs) ← ideal_run i ops st res;
      Some (st, res, (1 + k)%N, c ++ cs)
  end.

Definition in_u64 (z : Z) : bool := Z.leb 0 z && Z.leb z (Z.of_N u64_max).
Definition gas_lasts (i : ExecutionInput) (gas k : N) : bool := N.eqb k 0 || N.eqb (in_gas_limit i) 0 || N.leb (gas + k) (in_gas_limit i).

(** The value of a run that returns one. *)
Definition succeeded {A} (x : exec A) : option A := match x with Some (Ok a) => Some a | _ => None end.

Definition no_call (op : Op) : Prop := match op with Call _ _ _ _ _ => False | _ => True end.

(** The state the bounded machine is in after an ideal instruction or run. *)
Definition back (st : list Z) (res : bytes) (gas : N) (computed : list Z) : option SpecState :=
  if forallb in_u64 computed then Some (mkSpecState (Z.to_N <$> st) res gas) else None.

Lemma to_of_stack (st : list N) : Z.to_N <$> (Z.of_N <$> st) = st.
Proof. rewrite <-list_fmap_compose. rewrite <-(list_fmap_id st) at 2. apply list_fmap_ext. intros _ x _. apply N2Z.id. Qed.

Lemma back_nil st res gas z : back (z :: (Z.of_N <$> st)) res gas [] = Some (mkSpecState (Z.to_N z :: st) res gas).
Proof. unfold back. cbn [forallb fmap list_fmap]. by rewrite to_of_stack. Qed.

Lemma arith_back (o : option N) z (e : ContractError) name a b st res gas :
  o = (if in_u64 z then Some (Z.to_N z) else None) →
  succeeded (lift (binop name (λ _ _, ok_or e o) (mkSpecState (a :: b :: st) res gas))) = back (z :: (Z.of_N <$> st)) res gas [z].
Proof. intros ->. unfold back. cbn [forallb fmap list_fmap]. rewrite to_of_stack, andb_true_r. by destruct (in_u64 z). Qed.

Lemma checked_exact a b : u64_value a → u64_value b →
  checked_add b a = (if in_u64 (Z.of_N b + Z.of_N a) then Some (Z.to_N (Z.of_N b + Z.of_N a)) else None) ∧
  checked_sub b a = (if in_u64 (Z.of_N b - Z.of_N a) then Some (Z.to_N (Z.of_N b - Z.of_N a)) else None) ∧
  checked_mul b a = (if in_u64 (Z.of_N b * Z.of_N a) then Some (Z.to_N (Z.of_N b * Z.of_N a)) else None).
Proof.
  unfold u64_value, in_u64. intros Ha Hb. rewrite <-!N2Z.inj_add, <-!N2Z.inj_mul, !N2Z.id. split_and!.
  - unfold checked_add. case_decide; destruct (Z.leb_spec 0 (Z.of_N (b + a))), (Z.leb_spec (Z.of_N (b + a)) (Z.of_N u64_max)); cbn; done || lia.
  - unfold checked_sub. destruct (N.leb_spec a b), (Z.leb_spec 0 (Z.of_N b - Z.of_N a)), (Z.leb_spec (Z.of_N b - Z.of_N a) (Z.of_N u64_max)); cbn; try done; try lia.
    f_equal. lia.
  - unfold checked_mul. destruct (N.leb_spec (b * a) u64_max), (Z.leb_spec 0 (Z.of_N (b * a))), (Z.leb_spec (Z.of_N (b * a)) (Z.of_N u64_max)); cbn; done || lia.
Qed.

Lemma op_exact run i op s :
  no_call op → op ≠ Halt → Forall u64_value (stack s) →
  succeeded (spec_op run i op s) =
    ('(st, res, c) ← ideal_op i op (Z.of_N <$> stack s) (spec_result s); back st res (spec_gas s) c).
Proof.
  destruct s as [st res gas]. cbn [stack spec_result spec_gas]. intros Hop Hh Hst.
  destruct op; try done; cbn [spec_op ideal_op]; try (destruct st as [|a [|b st]]; try done; cbn [fmap list_fmap];
    rewrite !Forall_cons in Hst; destruct Hst as (Ha & Hb & Hst); destruct (checked_exact a b Ha Hb) as (Hadd & Hsub & Hmul)).
  - destruct (load_tx_field i field) as [v|]; [|done]. cbn [mbind option_bind]. by rewrite back_nil, N2Z.id.
  - cbn [mbind option_bind]. by rewrite back_nil, N2Z.id.
  - exact (arith_back _ _ _ "add" a b st res gas Hadd).
  - exact (arith_back _ _ _ "sub" a b st res gas Hsub).
  - exact (arith_back _ _ _ "mul" a b st res gas Hmul).
  - destruct (Z.eqb_spec (Z.of_N a) 0), (N.eqb_spec a 0) as [|Hz]; try lia; [by subst a|]. cbn [mbind option_bind].
    rewrite back_nil, <-N2Z.inj_mod, N2Z.id. cbn. by rewrite (proj2 (N.eqb_neq _ _) Hz).
  - cbn [mbind option_bind]. rewrite back_nil. cbn. do 2 f_equal. destruct (Z.ltb_spec (Z.of_N a) (Z.of_N b)), (N.ltb_spec a b); try lia; [done|].
    destruct (Z.eqb_spec (Z.of_N b) (Z.of_N a)), (N.eqb_spec b a); try lia; done.
  - destruct st as [|c st]; [done|]. cbn [fmap list_fmap mbind option_bind]. rewrite back_nil. cbn.
    destruct (Z.eqb_spec (Z.of_N a) 0), (N.eqb_spec a 0); try lia; by rewrite N2Z.id.
  - destruct st as [|v st]; [done|]. cbn [fmap list_fmap mbind option_bind]. unfold back. cbn [forallb]. by rewrite to_of_stack, N2Z.id.
Qed.

Lemma op_returns run i op s : no_call op → is_Some (spec_op run i op s).
Proof. destruct op; try done; intros _; by eexists. Qed.

Lemma op_u64 run i op s s' :
  wf_input i → wf_op op → no_call op → Forall u64_value (stack s) → spec_op run i op s = Some (Ok s') →
  Forall u64_value (stack s') ∧ spec_gas s' = spec_gas s.
Proof.
  destruct s as [st res gas]. intros Hi Hop Hc Hst. cbn [stack] in Hst.
  destruct op; try done; cbn [spec_op]; intros Hs; apply (inj Some) in Hs; try (destruct st as [|a [|b st]]; try done; cbn in Hs;
    rewrite !Forall_cons in Hst; destruct Hst as (Ha & Hb & Hst)).
  - apply bind_Ok in Hs as (v & Hv & [= <-]). split; [|done]. constructor; [by eapply load_tx_field_u64|done].
  - injection Hs as <-. split; [|done]. by constructor.
  - unfold checked_add in Hs. case_decide; [|done]. injection Hs as <-. split; [|done]. by constructor.
  - unfold checked_sub in Hs. destruct (N.leb_spec a b); [|done]. injection Hs as <-. split; [|done]. constructor; [|done].
    unfold u64_value in *. cbn in *. lia.
  - unfold checked_mul in Hs. destruct (N.leb_spec (b * a) u64_max); [|done]. injection Hs as <-. split; [|done]. by constructor.
  - destruct (N.eqb_spec a 0); [done|]. injection Hs as <-. split; [|done]. constructor; [|done]. unfold u64_value.
    etrans; [apply N.Div0.mod_le|exact Hb].
  - injection Hs as <-. split; [|done]. constructor; [|done]. by repeat case_match.
  - destruct st as [|c st]; [done|]. apply Forall_cons in Hst as [Hx Hst]. injection Hs as <-. split; [|done]. constructor; [|done]. by case_match.
  - destruct st as [|c st]; [done|]. apply Forall_cons in Hst as [Hx Hst]. injection Hs as <-. by split.
  - by injection Hs as <-.
Qed.

Lemma of_to_stack (st : list N) : Z.of_N <$> (Z.to_N <$> (Z.of_N <$> st)) = Z.of_N <$> st.
Proof. by rewrite to_of_stack. Qed.

Lemma ideal_nonneg i op st res st' res' c :
  ideal_op i op (Z.of_N <$> st) res = Some (st', res', c) → forallb in_u64 c = true →
  Z.of_N <$> (Z.to_N <$> st') = st'.
Proof.
  assert (∀ z, (0 ≤ z)%Z → ∀ st : list N, Z.of_N <$> (Z.to_N <$> (z :: (Z.of_N <$> st))) = z :: (Z.of_N <$> st)) as Hcons.
  { intros z Hz st0. cbn [fmap list_fmap]. f_equal; [by rewrite Z2N.id|apply of_to_stack]. }
  assert (∀ z, forallb in_u64 [z] = true → (0 ≤ z)%Z) as Hin.
  { intros z. cbn. unfold in_u64. rewrite !andb_true_iff, !Z.leb_le. lia. }
  destruct op; cbn [ideal_op]; try done; try (destruct st as [|a [|b st]]; try done; [cbn [fmap list_fmap]]).
  - destruct (load_tx_field i field); [|done]. intros [= <- <- <-] _. apply Hcons. lia.
  - intros [= <- <- <-] _. apply Hcons. lia.
  - intros [= <- <- <-] Hc. by apply Hcons, Hin.
  - intros [= <- <- <-] Hc. by apply Hcons, Hin.
  - intros [= <- <- <-] Hc. by apply Hcons, Hin.
  - destruct (Z.eqb_spec (Z.of_N a) 0); [done|]. intros [= <- <- <-] _. apply Hcons, Z.mod_pos_bound. lia.
  - intros [= <- <- <-] _. apply Hcons. by repeat case_match.
  - destruct st as [|v st]; [done|]. intros [= <- <- <-] _. apply Hcons. case_match; lia.
  - destruct st as [|a st]; [done|]. intros [= <- <- <-] _. apply of_to_stack.
Qed.

Lemma ideal_other i op ops st res : op ≠ Halt →
  ideal_run i (op :: ops) st res =
    ('(st, res, c) ← ideal_op i op st res; '(st, res, k, cs) ← ideal_run i ops st res; Some (st, res, (1 + k)%N, c ++ cs)).
Proof. by destruct op. Qed.

Lemma ideal_counts i op ops st res st' res' k cs : ideal_run i (op :: ops) st res = Some (st', res', k, cs) → (0 < k)%N.
Proof.
  destruct (decide (op = Halt)) as [->|Hh]; [by intros [= _ _ <- _]|]. rewrite ideal_other by done.
  destruct (ideal_op _ _ _ _) as [[[st1 res1] c]|]; [|done]. cbn. destruct (ideal_run _ _ _ _) as [[[[st2 res2] k2] cs2]|]; [|done].
  intros [= _ _ <- _]. lia.
Qed.

Lemma gas_short i gas k : (N.ltb 0 (in_gas_limit i) && N.leb (in_gas_limit i) gas) = true → (0 < k)%N → gas_lasts i gas k = false.
Proof.
  rewrite andb_true_iff, N.ltb_lt, N.leb_le. intros [Hl Hg] Hk. unfold gas_lasts.
  destruct (N.eqb_spec k 0), (N.eqb_spec (in_gas_limit i) 0), (N.leb_spec (gas + k) (in_gas_limit i)); cbn; lia || done.
Qed.

Lemma gas_step i gas k : (N.ltb 0 (in_gas_limit i) && N.leb (in_gas_limit i) gas) = false → gas_lasts i gas (1 + k) = gas_lasts i (gas + 1) k.
Proof.
  unfold gas_lasts. rewrite <-N.add_assoc. intros Hl. destruct (N.ltb_spec 0 (in_gas_limit i)), (N.leb_spec (in_gas_limit i) gas); try done;
  destruct (N.eqb_spec (1 + k) 0), (N.eqb_spec k 0), (N.eqb_spec (in_gas_limit i) 0), (N.leb_spec (gas + (1 + k)) (in_gas_limit i)); cbn; lia || done.
Qed.

Lemma loop_other run i op ops s : op ≠ Halt →
  spec_loop run i (op :: ops) s =
    if N.ltb 0 (in_gas_limit i) && N.leb (in_gas_limit i) (spec_gas s) then throw GasExhausted
    else s2 ← spec_op run i op (mkSpecState (stack s) (spec_result s) (wrap_add (spec_gas s) 1)); spec_loop run i ops s2.
Proof. by destruct op. Qed.

(** A run of the loop is the ideal run, where every number computed is a [u64] and
    the gas lasts; otherwise it is an error. *)
Lemma loop_exact run i ops s :
  wf_input i → Forall wf_op ops → Forall no_call ops → Forall u64_value (stack s) →
  (spec_gas s + N.of_nat (length ops) ≤ u64_max)%N →
  is_Some (spec_loop run i ops s) ∧
  succeeded (spec_loop run i ops s) =
    ('(st, res, k, cs) ← ideal_run i ops (Z.of_N <$> stack s) (spec_result s);
     if gas_lasts i (spec_gas s) k then back st res (spec_gas s + k) cs else None).
Proof.
  intros Hi. revert s. induction ops as [|op ops IH]; intros s Hops Hnc Hst Hg.
  { split; [by eexists|]. cbn. unfold back. cbn. rewrite to_of_stack, N.add_0_r. by destruct s. }
  apply Forall_cons in Hops as [Hop Hops], Hnc as [Hc Hnc]. cbn [length] in Hg.
  destruct s as [st res gas]. cbn [stack spec_result spec_gas] in *.
  destruct (N.ltb 0 (in_gas_limit i) && N.leb (in_gas_limit i) gas) eqn:Hlim.
  { cbn [spec_loop spec_gas]. rewrite Hlim. split; [by eexists|]. cbn [succeeded].
    destruct (ideal_run _ _ _ _) as [[[[st' res'] k] cs]|] eqn:Hr; [|done]. cbn. rewrite gas_short; [done|done|]. by eapply ideal_counts. }
  assert (wrap_add gas 1 = gas + 1)%N as Hwrap by (unfold wrap_add; apply N.mod_small; u64).
  destruct (decide (op = Halt)) as [->|Hh].
  { cbn [spec_loop spec_gas]. rewrite Hlim, Hwrap. split; [by eexists|].
    assert (gas_lasts i gas 1 = true) as Hone by exact (gas_step i gas 0 Hlim).
    unfold mbind, option_bind, ideal_run. rewrite Hone. unfold back. cbn. by rewrite to_of_stack. }
  rewrite loop_other, ideal_other by done. cbn [stack spec_result spec_gas]. rewrite Hlim, Hwrap. set (s1 := mkSpecState st res (gas + 1)).
  pose proof (op_exact run i op s1 Hc Hh Hst) as Hex. cbn [s1 stack spec_result spec_gas] in Hex.
  destruct (op_returns run i op s1 Hc) as [[s2|e] Hs2]; rewrite Hs2 in Hex |- *; cbn [succeeded] in Hex;
    destruct (ideal_op i op (Z.of_N <$> st) res) as [[[st1 res1] c]|] eqn:Hid; try done; cbn in Hex; unfold back in Hex;
    destruct (forallb in_u64 c) eqn:Hcs; try done.
  - destruct (op_u64 run i op s1 s2 Hi Hop Hc Hst Hs2) as [Hst2 Hg2]. injection Hex as ->.
    destruct (IH (mkSpecState (Z.to_N <$> st1) res1 (gas + 1))) as [Hret Hrun]; [done..|cbn; lia|].
    split; [done|]. cbn [mbind option_bind]. etrans; [exact Hrun|]. cbn [stack spec_result spec_gas].
    rewrite (ideal_nonneg _ _ _ _ _ _ _ Hid Hcs). cbn -[back gas_lasts N.add].
    destruct (ideal_run i ops st1 res1) as [[[[st2 res2] k] cs]|]; cbn -[back gas_lasts N.add]; [|done].
    rewrite gas_step by done. unfold back. rewrite forallb_app, Hcs. cbn. by rewrite N.add_assoc.
  - split; [by eexists|]. cbn. destruct (ideal_run _ _ _ _) as [[[[st2 res2] k] cs]|]; cbn -[gas_lasts]; [|done]. unfold back.
    rewrite forallb_app, Hcs. cbn. by case_match.
Qed.

Section exact.
Context `{Rmp}.

(** C39: the interpreter computes what integer arithmetic computes, or nothing: a
    contract that decodes to a program of version 1 without calls always returns,
    and it returns an output exactly when the program runs to its end on integers
    without bounds (no empty stack, no missing field, no division by zero), every
    sum, difference and product it forms on the way is a [u64], and the gas limit
    covers the instructions taken; then the result is the one of the integer
    machine and the gas is the number of instructions taken. In every other case
    it is an error. *)
Theorem interpreter_is_exact run i program :
  wf_input i → decode_program (sc_bytecode (in_contract i)) = Ok program → pr_version program = 1%N →
  Forall wf_op (pr_ops program) → Forall no_call (pr_ops program) → (N.of_nat (length (pr_ops program)) ≤ u64_max)%N →
  is_Some (spec_execute run i) ∧
    succeeded (spec_execute run i) =
      ('(st, res, k, computed) ← ideal_run i (pr_ops program) [] [];
       if gas_lasts i 0 k && forallb in_u64 computed then Some (mkOutput res k) else None).
Proof.
  intros Hi Hd Hv Hops Hnc Hlen. destruct (loop_exact run i (pr_ops program) (mkSpecState [] [] 0)) as [[r Hr] Hrun]; [done..|cbn; lia|].
  unfold spec_execute. rewrite Hd, Hv. cbn [N.eqb Pos.eqb negb]. rewrite Hr in Hrun |- *.
  destruct r as [s|e]; cbn in Hrun |- *; (split; [by eexists|]); cbn;
    destruct (ideal_run _ _ _ _) as [[[[st2 res2] k] cs]|]; try done; cbn in *; unfold back in Hrun; destruct (gas_lasts i 0 k), (forallb in_u64 cs); try done.
  by injection Hrun as ->.
Qed.
End exact.

(** ** Storage as a map *)

Inductive StorageOp := OLoad (k : bytes) | OStore (k v : bytes) | ODelete (k : bytes).

(** A sequence of storage functions on the host's environment, and on a map. *)
Definition host_storage (e : WasmEnv) (op : StorageOp) : WasmEnv * option bytes :=
  match op with
  | OLoad k => let '(e', v) := sload k e in (e', Some v)
  | OStore k v => (sstore k v e, None)
  | ODelete k => (sdelete k e, None)
  end.

Definition map_storage (s : gmap bytes bytes) (op : StorageOp) : gmap bytes bytes * option bytes :=
  match op with
  | OLoad k => (s, Some (default [] (s !! k)))
  | OStore k v => (<[k := v]> s, None)
  | ODelete k => (delete k s, None)
  end.

Fixpoint run_storage {S} (step : S → StorageOp → S * option bytes) (s : S) (ops : list StorageOp) : S * list (option bytes) :=
  match ops with
  | [] => (s, [])
  | op :: ops' => let '(s1, v) := step s op in let '(s2, vs) := run_storage step s1 ops' in (s2, v :: vs)
  end.

(** The state an environment stands for. *)
Definition current_state (e : WasmEnv) : gmap bytes bytes := apply_delta_to (env_delta e) (env_storage e).

Lemma host_storage_step e op :
  let '(e', v) := host_storage e op in
  map_storage (current_state e) op = (current_state e', v) ∧ env_storage e' = env_storage e.
Proof.
  destruct op as [k|k v|k]; cbn; (split; [|done]); f_equal.
  - unfold current_state. rewrite apply_delta_lookup. unfold overlay. by destruct (env_delta e !! k) as [[]|].
  - apply map_eq. intros k'. unfold current_state. cbn. rewrite apply_delta_lookup. unfold overlay.
    destruct (decide (k' = k)) as [->|Hne]; [by rewrite !lookup_insert_eq|].
    rewrite !lookup_insert_ne by done. by rewrite apply_delta_lookup.
  - apply map_eq. intros k'. unfold current_state. cbn. rewrite apply_delta_lookup. unfold overlay.
    destruct (decide (k' = k)) as [->|Hne]; [by rewrite lookup_delete_eq, lookup_insert_eq|].
    rewrite lookup_delete_ne, lookup_insert_ne by done. by rewrite apply_delta_lookup.
Qed.

(** Contract storage is a map. Over any sequence of loads, stores and
    deletes the host answers every load as a plain map would, its own writes
    included, and the write-set it ships, applied by the committer to the base
    state, gives exactly the map's final state; applying it twice changes
    nothing more. *)
Theorem storage_refines_map e ops :
  let '(e', vs) := run_storage host_storage e ops in
  run_storage map_storage (current_state e) ops = (current_state e', vs) ∧
  current_state e' = apply_delta_to (env_delta e') (env_storage e) ∧
  apply_delta_to (env_delta e') (current_state e') = current_state e'.
Proof.
  assert (∀ ops e, let '(e', vs) := run_storage host_storage e ops in
    run_storage map_storage (current_state e) ops = (current_state e', vs) ∧ env_storage e' = env_storage e) as Hall.
  { clear. intros ops. induction ops as [|op ops IH]; intros e; [done|]. cbn [run_storage].
    pose proof (host_storage_step e op) as Hstep. destruct (host_storage e op) as [e1 v].
    destruct Hstep as [-> He1]. specialize (IH e1). destruct (run_storage host_storage e1 ops) as [e2 vs].
    destruct IH as [-> He2]. by rewrite He2. }
  specialize (Hall ops e). destruct (run_storage host_storage e ops) as [e' vs]. destruct Hall as [Hr He].
  split_and!; [done|unfold current_state; by rewrite He|apply apply_delta_idemp].
Qed.

(** ** Guest pointers *)

Section pointers.
Context `{HashIter} `{Rmp} `{Wasmi} (run : ContractEngine → ExecutionInput → exec ExecutionOutput).

(** The first pointer the function reads or writes memory at. *)
Definition first_pointer (c : HostCall) : option Z :=
  match c with
  | HTxPayload p _ | HSload p _ _ | HSstore p _ _ _ | HSdelete p _ | HCall p _ _ _ _ _ _ _ _ _ _ => Some p
  | _ => None
  end.

Lemma read_mem_outside st data ptr len :
  w_memory st = Some data → (len64 data < as_usize ptr)%N → read_mem st ptr len = None.
Proof.
  intros Hm Hp. unfold read_mem. rewrite Hm. unfold clamp, slice, sat_sub.
  replace (N.min (as_usize len) (len64 data - as_usize ptr)) with 0%N by lia.
  destruct (N.leb_spec (as_usize ptr + 0) (len64 data)); [lia|]. by rewrite andb_false_r.
Qed.

(** A storage function, a call or a payload read whose pointer lies outside the
    linear memory (a negative one always does) panics whatever its length, and
    so does the execution of a module that does this when it is instantiated. *)
Lemma guest_pointer_panics c ptr st data i m k :
  first_pointer c = Some ptr → w_memory st = Some data → (len64 data < as_usize ptr)%N →
  validate_wasm_module (sc_bytecode (in_contract i)) = Ok m →
  instantiate m (if N.eqb (in_gas_limit i) 0 then UNLIMITED_FUEL else in_gas_limit i) = RunHost st c k →
  wasm_execute run i = None.
Proof.
  intros Hc Hm Hp Hv Hi. unfold wasm_execute. rewrite Hv. cbn [lift mbind exec_bind]. rewrite Hi. cbn [drive].
  assert (host run c (fresh_env i) st = None) as ->; [|done].
  set (e := fresh_env i). clearbody e. destruct c; simplify_eq/=; try (by rewrite (read_mem_outside st data ptr)).
  - rewrite Hm. unfold splice.
    match goal with |- context [N.leb ?a ?b] => destruct (N.leb_spec a b) end; [lia|done].
  - unfold host_call. by rewrite (read_mem_outside st data ptr).
Qed.
End pointers.

(** ** The properties at concrete contracts *)

Module ConcreteEngines.
Import ConcreteChain ConcreteWasm.

Definition emits : list serde := [const_op; SStr "emit"; SStr "halt"].

Lemma gas_limit_witness :
  ∃ out, execute_at 9 SpecEngine (input 5 emits []) = Some (Ok out) ∧ (out_gas_used out ≤ 5)%N.
Proof.
  eexists. split; [reflexivity|].
  by apply (execution_within_gas_limit 9 SpecEngine (input 5 emits [])); [reflexivity|].
Defined.

Lemma nesting_witness : execute_at 9 SpecEngine (input 5 emits []) = execute_at 20 SpecEngine (input 5 emits []).
Proof. apply nesting_is_bounded; by vm_compute. Defined.


Definition five : list serde := replicate 5 const_op.

(** A caller with 10 units of gas and a call that costs 10, into a callee of
    five instructions. *)
Lemma exhausted_witness :
  ∃ s', let call b := execute_call (execute_at 9) (resolving five) tx [3%N] "run" [] (mkSnapshotRef 0 [1%N]) b in
    call 0%N = Some (Success (spec_result s') (spec_gas s')) ∧ spec_gas s' = 5%N ∧
    (∀ b, (0 < b < spec_gas s')%N → call b = Some (Failure BGasExhausted 0)).
Proof.
  eexists. cbv zeta.
  edestruct (exhausted_caller_lifts_the_cap 8 (resolving five) (input 10 [] five) (mkSpecState [] [] 0)
    [3%N] "run" [] 0 [1%N] (pinned five) (replicate 5 (LoadConst 7))) as (Hc & Hb & _).
  - reflexivity.
  - by vm_compute.
  - by vm_compute.
  - reflexivity.
  - reflexivity.
  - reflexivity.
  - by repeat constructor.
  - by vm_compute.
  - reflexivity.
  - split; [exact Hc|]. split; [reflexivity|exact Hb].
Defined.

(** Seven and seven are fourteen, in five instructions; a gas limit of four is short. *)
Definition sums : list serde := [const_op; const_op; SStr "add"; SStr "emit"; SStr "halt"].

Lemma exact_witness :
  let sum := [LoadConst 7; LoadConst 7; Add; Emit; Halt] in
  (∀ limit, (limit = 4 ∨ limit = 5)%N →
    succeeded (spec_execute (execute_at 9) (input limit sums [])) =
      ('(st, res, k, computed) ← ideal_run (input limit sums []) sum [] [];
       if gas_lasts (input limit sums []) 0 k && forallb in_u64 computed then Some (mkOutput res k) else None)) ∧
  succeeded (spec_execute (execute_at 9) (input 5 sums [])) = Some (mkOutput (u64_le 14) 5) ∧
  succeeded (spec_execute (execute_at 9) (input 4 sums [])) = None.
Proof.
  cbv zeta. assert (∀ limit, (limit = 4 ∨ limit = 5)%N →
    succeeded (spec_execute (execute_at 9) (input limit sums [])) =
      ('(st, res, k, computed) ← ideal_run (input limit sums []) [LoadConst 7; LoadConst 7; Add; Emit; Halt] [] [];
       if gas_lasts (input limit sums []) 0 k && forallb in_u64 computed then Some (mkOutput res k) else None)) as Hex.
  { intros limit Hl. apply (interpreter_is_exact (execute_at 9) (input limit sums []) (mkProgram 1 [LoadConst 7; LoadConst 7; Add; Emit; Halt])).
    - split; [by intros a [= <-]|]. destruct Hl as [->| ->]; split_and!; (by repeat constructor) || by vm_compute.
    - reflexivity.
    - reflexivity.
    - by repeat constructor.
    - by repeat constructor.
    - by vm_compute. }
  split; [exact Hex|]. split; [by rewrite (Hex 5%N (or_intror eq_refl))|by rewrite (Hex 4%N (or_introl eq_refl))].
Defined.
End ConcreteEngines.
