(* ===== verification/Scan.v ===== *)
(** * The deploy-time scanner and its validators (src/src/contracts/scan.rs, validation/deploy.rs, validation/upgrade.rs)

    The static walk of an instruction program, the walk of a WebAssembly module
    over the payloads [wasmparser] reports, the canary run on a fixed input, and
    the two specifications that admit deployments and upgrades. The canary
    runs guest code, so scanning may panic. *)

From S2P Require Import Prelude Utf8 Interfaces Types Serialize Float Environment Crypto Transactions Chain Validation DataProvider.
From S2P Require Import Deserialize Tokens Contracts Engines WasmHost EngineSafety.

(** ** Findings *)

Definition CANARY_FUEL_BUDGET : N := 1000000.
Definition CANARY_MAX_OUTPUT : N := 4096.
Definition SPEC_MAX_INSTRUCTIONS : N := 1000.
Definition WASM_MAX_MEMORY_GROW : N := 64.
Definition WASM_MAX_DATA_BYTES : N := 65536.
Definition WASM_MAX_CUSTOM_BYTES : N := 16384.
Definition WASM_MAX_LOOP_NESTING : N := 2.
Definition OBFUSCATE_MAX_OPCODES : N := 500000.
Definition OBFUSCATE_MAX_FUNCTIONS : N := 2000.

Definition KNOWN_LOADTX_FIELDS : list string :=
  ["amount"; "sequence_number"; "gas_limit"; "sender"; "receiver"; "token_id"; "payload"].

Inductive Severity := Reject | Warn.

Inductive ScanCode :=
| SpecBadBytecode | SpecBadVersion | SpecUnknownLoadTx | SpecStackUnderflow | SpecTooManyInstructions
| WasmParseFailed | WasmBadImport | WasmFloatOpcode | WasmExtraExport | WasmMemoryGrowth | WasmUnboundedLoop
| WasmLargeData | WasmLargeCustom | WasmObfuscated
| CanaryEngineMissing | CanaryGasExhausted | CanaryOutputOverflow.

#[global] Instance ScanCode_eq_dec : EqDecision ScanCode.
Proof. solve_decision. Defined.

(** The audit text of a finding is left out. *)
Record ScanFinding := mkFinding { sf_code : ScanCode; sf_severity : Severity }.

Definition reject (c : ScanCode) : ScanFinding := mkFinding c Reject.
Definition warn (c : ScanCode) : ScanFinding := mkFinding c Warn.
Definition when (b : bool) (f : ScanFinding) : list ScanFinding := if b then [f] else [].

(** ** Instruction programs *)

Definition stack_effect (op : Op) : Z * Z :=
  match op with
  | LoadTx _ | LoadConst _ => (0, 1)
  | Add | Sub | Mul | Mod | Cmp => (2, 1)
  | Select => (3, 1)
  | Emit => (1, 0)
  | Call _ _ _ _ _ => (0, 1)
  | Halt => (0, 0)
  end%Z.

Definition unknown_field (op : Op) : bool :=
  match op with LoadTx f => negb (existsb (String.eqb f) KNOWN_LOADTX_FIELDS) | _ => false end.

(** The depth after each instruction; the walk ends at [Halt] and at an underflow. *)
Fixpoint walk_ops (ops : list Op) (depth : Z) (findings : list ScanFinding) : list ScanFinding * bool :=
  match ops with
  | [] => (findings, false)
  | Halt :: _ => (findings, false)
  | op :: ops' =>
      let '(pops, pushes) := stack_effect op in
      if Z.ltb depth pops then (findings, true)
      else walk_ops ops' (depth - pops + pushes) (findings ++ when (unknown_field op) (warn SpecUnknownLoadTx))
  end.

Definition scan_program (p : InstructionProgram) : list ScanFinding :=
  let findings := when (negb (N.eqb (pr_version p) 1)) (reject SpecBadVersion) ++
                  when (N.ltb SPEC_MAX_INSTRUCTIONS (len64 (pr_ops p))) (reject SpecTooManyInstructions) in
  let '(findings, underflow) := walk_ops (pr_ops p) 0 findings in
  findings ++ when underflow (warn SpecStackUnderflow).

Definition scan_spec `{Rmp} (bytecode : bytes) : list ScanFinding :=
  match decode_program bytecode with
  | Err _ => [reject SpecBadBytecode]
  | Ok p => scan_program p
  end.

(** ** WebAssembly modules *)

Inductive OperatorKind := OpMemoryGrow | OpLoop | OpEnd | OpOther.

(** An operator with its [Debug] name; an item the reader fails on is [None]. *)
Record Operator := mkOperator { op_debug : string; op_kind : OperatorKind }.

Inductive Payload :=
| ImportSection (imports : list (option (string * string)))
| ExportSection (names : list (option string))
| CodeSectionEntry (ops : option (list (option Operator)))
| DataSection (segments : list (option N))
| CustomSection (size : N)
| OtherPayload.

(** [wasmparser]: the payloads up to the end of the module, or a failure. *)
Class WasmParser := { parse_module : bytes → option (list Payload) }.

Record WasmWalkState := mkWalk {
  bad_import : bool;
  float_op : bool;
  extra_export : bool;
  memory_grow : N;
  data_bytes : N;
  custom_bytes : N;
  total_functions : N;
  total_opcodes : N;
  max_loop_nesting : N;
}.

Definition WalkState_default : WasmWalkState := mkWalk false false false 0 0 0 0 0 0.

Definition is_float_op (op : Operator) : bool :=
  String.prefix "F32" (op_debug op) || String.prefix "F64" (op_debug op).

Definition walk_operator (acc : WasmWalkState * N) (op : Operator) : WasmWalkState * N :=
  let '(s, nesting) := acc in
  let nesting' := match op_kind op with
                  | OpLoop => (nesting + 1)%N
                  | OpEnd => (nesting - 1)%N
                  | _ => nesting
                  end in
  (mkWalk (bad_import s) (float_op s || is_float_op op) (extra_export s)
     (match op_kind op with OpMemoryGrow => memory_grow s + 1 | _ => memory_grow s end)%N
     (data_bytes s) (custom_bytes s) (total_functions s) (total_opcodes s + 1)
     (match op_kind op with OpLoop => N.max (max_loop_nesting s) nesting' | _ => max_loop_nesting s end), nesting').

(** The operators up to the first the reader fails on. *)
Fixpoint readable {A} (l : list (option A)) : list A :=
  match l with Some a :: l' => a :: readable l' | _ => [] end.

Definition walk_function_body (s : WasmWalkState) (ops : option (list (option Operator))) : WasmWalkState :=
  let s := mkWalk (bad_import s) (float_op s) (extra_export s) (memory_grow s) (data_bytes s) (custom_bytes s)
             (total_functions s + 1) (total_opcodes s) (max_loop_nesting s) in
  match ops with None => s | Some l => (foldl walk_operator (s, 0%N) (readable l)).1 end.

Definition import_allowed (i : string * string) : bool :=
  String.eqb i.1 "env" && existsb (String.eqb i.2) ALLOWED_ENV_IMPORTS.

Definition walk_payload (s : WasmWalkState) (p : Payload) : WasmWalkState :=
  match p with
  | ImportSection l =>
      mkWalk (bad_import s || negb (forallb import_allowed (omap id l))) (float_op s) (extra_export s) (memory_grow s)
        (data_bytes s) (custom_bytes s) (total_functions s) (total_opcodes s) (max_loop_nesting s)
  | ExportSection l =>
      mkWalk (bad_import s) (float_op s)
        (extra_export s || negb (forallb (λ n, String.eqb n "__alloc" || String.eqb n "execute") (omap id l)))
        (memory_grow s) (data_bytes s) (custom_bytes s) (total_functions s) (total_opcodes s) (max_loop_nesting s)
  | CodeSectionEntry ops => walk_function_body s ops
  | DataSection l =>
      mkWalk (bad_import s) (float_op s) (extra_export s) (memory_grow s) (data_bytes s + sum_N (omap id l)) (custom_bytes s)
        (total_functions s) (total_opcodes s) (max_loop_nesting s)
  | CustomSection n =>
      mkWalk (bad_import s) (float_op s) (extra_export s) (memory_grow s) (data_bytes s) (custom_bytes s + n)
        (total_functions s) (total_opcodes s) (max_loop_nesting s)
  | OtherPayload => s
  end.

Definition into_findings (s : WasmWalkState) : list ScanFinding :=
  when (bad_import s) (reject WasmBadImport) ++
  when (float_op s) (reject WasmFloatOpcode) ++
  when (extra_export s) (warn WasmExtraExport) ++
  when (N.ltb WASM_MAX_MEMORY_GROW (memory_grow s)) (warn WasmMemoryGrowth) ++
  when (N.ltb WASM_MAX_DATA_BYTES (data_bytes s)) (warn WasmLargeData) ++
  when (N.ltb WASM_MAX_CUSTOM_BYTES (custom_bytes s)) (warn WasmLargeCustom) ++
  when (N.leb WASM_MAX_LOOP_NESTING (max_loop_nesting s)) (warn WasmUnboundedLoop) ++
  when (N.ltb OBFUSCATE_MAX_OPCODES (total_opcodes s) || N.ltb OBFUSCATE_MAX_FUNCTIONS (total_functions s))
    (warn WasmObfuscated).

Definition scan_wasm `{WasmParser} (bytecode : bytes) : list ScanFinding :=
  match parse_module bytecode with
  | None => [reject WasmParseFailed]
  | Some payloads => into_findings (foldl walk_payload WalkState_default payloads)
  end.

(** ** The canary and the dispatcher *)

Section scan.
Context `{HashIter} `{Rmp} `{Sha256} `{Wasmi} `{WasmParser}.

Definition zero32 : bytes := replicate 32 0%N.

Definition canary_input (engine : string) (bytecode : bytes) : ExecutionInput :=
  mkInput
    (mkTransaction "canary" "ContractCall" zero32 None 0 zero32 [] (Some 0%N) 0 [] [] [] CANARY_FUEL_BUDGET [] None)
    (mkContract "canary" bytecode "1" ∅ [] 0)
    (mkUser zero32 CANARY_FUEL_BUDGET 0 0)
    (set_metadata "contract_engine" engine (set_metadata "token_type" "contract" (with_id zero32 Token_new)))
    CANARY_FUEL_BUDGET ∅ None.

Definition canary_run (registry : gmap string ContractEngine) (engine : string) (bytecode : bytes)
    : may_panic (list ScanFinding) :=
  match engine_get registry engine with
  | None => Some [reject CanaryEngineMissing]
  | Some e =>
      r ← engine_execute e (canary_input engine bytecode);
      Some match r with
           | Err GasExhausted => [reject CanaryGasExhausted]
           | Err _ => []
           | Ok out => when (N.ltb CANARY_MAX_OUTPUT (len64 (out_result_data out))) (reject CanaryOutputOverflow)
           end
  end.

Definition scan_contract (registry : gmap string ContractEngine) (engine : string) (bytecode : bytes)
    : may_panic (list ScanFinding) :=
  if String.eqb engine "Spec" then c ← canary_run registry engine bytecode; Some (scan_spec bytecode ++ c)
  else if String.eqb engine "Wasm" then c ← canary_run registry engine bytecode; Some (scan_wasm bytecode ++ c)
  else Some [].

Definition rejected_by (l : list ScanFinding) : bool :=
  existsb (λ f, match sf_severity f with Reject => true | Warn => false end) l.

(** ** Admission of deployments and upgrades *)

Definition contract_risk (tx : Transaction) : TransactionRiskFactor :=
  mkRisk 1 (default 0%N (tx_amount tx)) true false.

(** The size cap and the module check of either specification. *)
Definition bytecode_cap (engine : string) : N :=
  if String.eqb engine "Wasm" then WASM_MAX_MODULE_BYTES else N.of_nat SPEC_MAX_BYTECODE.

Definition bytecode_ok (engine : string) (bytecode : bytes) : bool :=
  N.leb (len64 bytecode) (bytecode_cap engine) &&
  (negb (String.eqb engine "Wasm") || is_ok (validate_wasm_module bytecode)).

Definition decode_params {A} (read : serde → result string A) (payload : bytes) : result string A :=
  '(v, _) ← rmp_dec payload; read v.

Context `{DataProvider}.

(** [DeployValidationSpec::validate]. *)
Definition Deploy_validate (engines : gmap string ContractEngine) (st : store) (tx : Transaction)
    (env : EnvironmentMetadata) : may_panic (result PneumaticError TransactionValidationResult) :=
  let deploy_failed := Validation [ContractDeployFailed] in
  match decode_params of_DeployParams (tx_payload tx) with
  | Err _ => Some (Err deploy_failed)
  | Ok params =>
      if String.eqb (dp_name params) "" || Nat.ltb 64 (String.length (dp_name params)) then Some (Err deploy_failed)
      else if is_none (engine_get engines (dp_engine params)) then Some (Err deploy_failed)
      else if negb (bytecode_ok (dp_engine params) (dp_bytecode params)) then Some (Err deploy_failed)
      else
        findings ← scan_contract engines (dp_engine params) (dp_bytecode params);
        if rejected_by findings then Some (Err (Validation [ContractScanFailed]))
        else Some match get_user st (tx_sender tx) (environment_id env) with
                  | Err _ => Err deploy_failed
                  | Ok user =>
                      if bool_decide (nonce user ≠ tx_sequence_number tx) then Err (Validation [InvalidNonce])
                      else if f_gt (score (contract_risk tx)) (max_risk env) then Err (Validation [RiskExceedsThreshold])
                      else Ok (validation_valid [] (contract_risk tx))
                  end
  end.

(** [UpgradeValidationSpec::validate]. *)
Definition Upgrade_validate (engines : gmap string ContractEngine) (crypto : AsymCryptoProvider) (tx : Transaction)
    (token : Token) (env : EnvironmentMetadata) : may_panic (result PneumaticError TransactionValidationResult) :=
  let failed := Validation [ContractUpgradeFailed] in
  match decode_params of_UpgradeParams (tx_payload tx) with
  | Err _ => Some (Err failed)
  | Ok params =>
      if bool_decide (tok_metadata token !! "token_type" ≠ Some "contract") then Some (Err failed)
      else match get_contract token with
      | None => Some (Err failed)
      | Some current =>
          if N.eqb (sc_threshold current) 0 then Some (Err failed)
          else
            quorum ← verify_quorum crypto (tx_token_id tx) (up_new_bytecode params) (up_new_owners params)
              (up_new_threshold params) (up_proposal_epoch params) (up_owner_signatures params)
              (sc_owners current) (sc_threshold current);
            match quorum with
            | Err _ | Ok false => Some (Err failed)
            | Ok true =>
                let engine := default "" (tok_metadata token !! "contract_engine") in
                if negb (bytecode_ok engine (up_new_bytecode params)) then Some (Err failed)
                else
                  findings ← scan_contract engines engine (up_new_bytecode params);
                  if rejected_by findings then Some (Err (Validation [ContractScanFailed]))
                  else Some (if f_gt (score (contract_risk tx)) (max_risk env) then Err (Validation [RiskExceedsThreshold])
                             else Ok (validation_valid [] (contract_risk tx)))
            end
      end
  end.
End scan.

(** ** The stack walk is exact *)

Section walk.
Context (run : ContractEngine → ExecutionInput → exec ExecutionOutput) (i : ExecutionInput).

Definition underflows (r : exec SpecState) : Prop := ∃ name, r = Some (Err (underflow name)).

(** The error texts other than the underflow's do not start with a quote. *)
Definition starts_quoted (s : string) : bool :=
  match s with String c _ => Ascii.eqb c (Ascii.ascii_of_N 34) | EmptyString => false end.

Lemma not_underflow msg : starts_quoted msg = false → ∀ name, Reverted msg ≠ underflow name.
Proof. intros Hp name [= ->]. discriminate. Qed.

Lemma binop_stack name f s :
  (∀ a b e n, f a b = Err e → e ≠ underflow n) →
  if bool_decide (2 ≤ length (stack s))
  then (¬ underflows (Some (binop name f s))) ∧
       ∀ s', binop name f s = Ok s' → S (length (stack s')) = length (stack s)
  else underflows (Some (binop name f s)).
Proof.
  intros Hf. destruct s as [[|a [|b st]] res g]; cbn.
  1, 2: by exists name.
  split.
  - intros [n Hn]. destruct (f a b) as [r|e] eqn:Hab; cbn in Hn; [done|]. injection Hn as ->. by eapply Hf.
  - intros s' (r & _ & Hr)%bind_Ok. by injection Hr as <-.
Qed.

Lemma ok_or_err {A E} (e e' : E) (o : option A) : ok_or e o = Err e' → e' = e.
Proof. destruct o; [done|]. by intros [= ->]. Qed.

Lemma spec_op_stack op s :
  op ≠ Halt →
  if bool_decide ((stack_effect op).1 ≤ Z.of_nat (length (stack s)))%Z
  then (¬ underflows (spec_op run i op s)) ∧
       ∀ s', spec_op run i op s = Some (Ok s') →
         Z.of_nat (length (stack s')) = (Z.of_nat (length (stack s)) - (stack_effect op).1 + (stack_effect op).2)%Z
  else underflows (spec_op run i op s).
Proof.
  intros Hh. assert (∀ name f, (∀ a b e n, f a b = Err e → e ≠ underflow n) →
    if bool_decide (2 ≤ Z.of_nat (length (stack s)))%Z
    then (¬ underflows (lift (binop name f s))) ∧
         ∀ s', lift (binop name f s) = Some (Ok s') → Z.of_nat (length (stack s')) = (Z.of_nat (length (stack s)) - 2 + 1)%Z
    else underflows (lift (binop name f s))) as Hbin.
  { intros name f Hf. pose proof (binop_stack name f s Hf) as Hb.
    rewrite (bool_decide_ext _ (2 ≤ length (stack s))) by lia. case_bool_decide; [|done].
    destruct Hb as [Hn Hl]. split; [done|]. intros s' Hs'. apply (inj Some), Hl in Hs'. lia. }
  destruct op; try done; cbn [stack_effect fst snd spec_op].
  - rewrite bool_decide_true by lia. split.
    + intros [n Hn]. injection Hn as Hn. destruct (load_tx_field i field) as [v|e] eqn:Hl; cbn in Hn; [done|].
      injection Hn as ->. revert Hl. unfold load_tx_field.
      destruct (String.eqb field "amount"); [by intros Hu%ok_or_err%eq_sym%not_underflow|].
      repeat (match goal with |- (if ?b then _ else _) = _ → _ => destruct b; [done|] end).
      intros Hu%(inj Err). by apply not_underflow in Hu.
    + intros s' Hs'. apply (inj Some), bind_Ok in Hs' as (v & _ & Hs'). injection Hs' as <-. cbn. lia.
  - rewrite bool_decide_true by lia. split; [by intros [? ?]|]. intros s' [= <-]. cbn. lia.
  - apply Hbin. intros a b e n ->%ok_or_err. by apply not_underflow.
  - apply Hbin. intros a b e n ->%ok_or_err. by apply not_underflow.
  - apply Hbin. intros a b e n ->%ok_or_err. by apply not_underflow.
  - apply Hbin. intros a b e n. destruct (N.eqb a 0); intros He; [apply (inj Err) in He as <-; by apply not_underflow|discriminate].
  - by apply Hbin.
  - destruct s as [[|c [|b [|a st]]] res g]; cbn [stack].
    1-3: rewrite bool_decide_false by (cbn; lia); by exists "select".
    rewrite bool_decide_true by (cbn; lia). split; [by intros [? ?]|]. intros s' [= <-]. cbn. lia.
  - destruct s as [[|v st] res g]; cbn [stack].
    { rewrite bool_decide_false by (cbn; lia). by exists "emit". }
    rewrite bool_decide_true by (cbn; lia). split; [by intros [? ?]|]. intros s' [= <-]. cbn. lia.
  - rewrite bool_decide_true by lia. unfold spec_call.
    destruct (in_call_ctx i) as [ctx|].
    + destruct (execute_call _ _ _ _ _ _ _ _) as [o|]; [|by split; [intros [? ?]|]].
      match goal with |- context [if ?b then throw GasExhausted else _] => destruct b end.
      * split; [by intros [? ?]|done].
      * split; [by intros [? ?]|]. intros s' [= <-]. cbn. lia.
    + split; [|done]. intros [n Hn]. discriminate Hn.
Qed.

Lemma walk_ops_app ops d f g : walk_ops ops d (f ++ g) = (f ++ (walk_ops ops d g).1, (walk_ops ops d g).2).
Proof.
  revert d g. induction ops as [|op ops IH]; intros d g; [done|].
  destruct op; cbn [walk_ops stack_effect]; try done; case_match; try done; by rewrite <-app_assoc, IH.
Qed.

Lemma walk_ops_flag ops d f : (walk_ops ops d f).2 = (walk_ops ops d []).2.
Proof. by rewrite <-(app_nil_r f), walk_ops_app. Qed.

(** The scanner's stack walk is exact. A program it reports no underflow for
    never fails with a stack underflow, whatever the input, the gas and the
    callees; a program it reports one for never succeeds. *)
Theorem stack_walk_exact ops :
  ((walk_ops ops 0 []).2 = false → ¬ underflows (spec_loop run i ops (mkSpecState [] [] 0))) ∧
  ((walk_ops ops 0 []).2 = true → ∀ s, spec_loop run i ops (mkSpecState [] [] 0) ≠ Some (Ok s)).
Proof.
  assert (∀ ops s,
    ((walk_ops ops (Z.of_nat (length (stack s))) []).2 = false → ¬ underflows (spec_loop run i ops s)) ∧
    ((walk_ops ops (Z.of_nat (length (stack s))) []).2 = true → ∀ s', spec_loop run i ops s ≠ Some (Ok s'))) as Hall;
    [|apply (Hall ops (mkSpecState [] [] 0))].
  clear ops. intros ops. induction ops as [|op ops IH]; intros s.
  { split; [|done]. intros _ [n Hn]. done. }
  cbn [spec_loop]. case_match; [split; [|done]; by intros _ [n Hn]|].
  set (s1 := mkSpecState (stack s) (spec_result s) (wrap_add (spec_gas s) 1)).
  destruct (decide (op = Halt)) as [->|Hh]; [split; [|done]; by intros _ [n Hn]|].
  assert ((walk_ops (op :: ops) (Z.of_nat (length (stack s))) []).2 =
    if Z.ltb (Z.of_nat (length (stack s))) (stack_effect op).1 then true
    else (walk_ops ops (Z.of_nat (length (stack s)) - (stack_effect op).1 + (stack_effect op).2) []).2) as ->.
  { destruct op; cbn [walk_ops stack_effect fst snd]; try done; case_match; try done; apply walk_ops_flag. }
  pose proof (spec_op_stack op s1 Hh) as Hst. subst s1. cbn [stack] in Hst.
  set (m := spec_op run i op (mkSpecState (stack s) (spec_result s) (wrap_add (spec_gas s) 1))) in *.
  assert (match op with Halt => mret (mkSpecState (stack s) (spec_result s) (wrap_add (spec_gas s) 1))
          | _ => s2 ← m; spec_loop run i ops s2 end = (s2 ← m; spec_loop run i ops s2)) as Hm by (by destruct op).
  rewrite Hm. destruct (Z.ltb_spec (Z.of_nat (length (stack s))) (stack_effect op).1).
  - rewrite bool_decide_false in Hst by lia. destruct Hst as [n ->]. by split.
  - rewrite bool_decide_true in Hst by lia. destruct Hst as [Hn Hl].
    destruct m as [[s2|e]|]; cbn [mbind exec_bind].
    + rewrite <-(Hl s2) by done. apply IH.
    + split; [|done]. intros _ [n Hu]. apply Hn. by exists n.
    + split; [|done]. intros _ [n Hu]. done.
Qed.
End walk.

(** ** Scanning runs guest code *)

Section scan_panics.
Context `{HashIter} `{Rmp} `{Sha256} `{Wasmi} `{WasmParser} `{DataProvider}.

(** A deployment can panic the node that validates it. The scanner's canary
    instantiates the module on the validator's own thread; a module whose code
    passes a pointer outside its linear memory to a storage, payload or call
    function panics the host there, before the deployment is judged, although
    the scanner is documented to fail closed and the accesses to be clamped. *)
Theorem deploy_scan_panics engines st tx env params m w c ptr data k :
  decode_params of_DeployParams (tx_payload tx) = Ok params →
  dp_name params ≠ "" → String.length (dp_name params) ≤ 64 →
  dp_engine params = "Wasm" → engines !! "Wasm" = Some WasmEngine →
  (len64 (dp_bytecode params) ≤ WASM_MAX_MODULE_BYTES)%N →
  validate_wasm_module (dp_bytecode params) = Ok m →
  instantiate m CANARY_FUEL_BUDGET = RunHost w c k →
  first_pointer c = Some ptr → w_memory w = Some data → (len64 data < as_usize ptr)%N →
  Deploy_validate engines st tx env = None.
Proof.
  intros Hp Hn Hl He Hreg Hlen Hv Hi Hc Hm Hout. unfold Deploy_validate. rewrite Hp, He.
  destruct (String.eqb_spec (dp_name params) ""); [done|]. cbn [orb].
  destruct (Nat.ltb_spec 64 (String.length (dp_name params))); [lia|].
  unfold engine_get at 1. rewrite Hreg. cbn [is_none]. unfold bytecode_ok, bytecode_cap. cbn [String.eqb Ascii.eqb Bool.eqb andb negb orb].
  rewrite Hv. cbn [is_ok]. destruct (N.leb_spec (len64 (dp_bytecode params)) WASM_MAX_MODULE_BYTES); [|lia]. cbn [andb negb].
  unfold scan_contract. cbn [String.eqb Ascii.eqb Bool.eqb]. unfold canary_run, engine_get. rewrite Hreg.
  unfold engine_execute. cbn [N.to_nat]. change (S (N.to_nat MAX_CALL_DEPTH)) with 9. cbn [execute_at].
  by rewrite (guest_pointer_panics _ c ptr w data _ m k).
Qed.
End scan_panics.

(** ** The panic at a concrete module *)

Module ConcreteScan.
Import ConcreteChain ConcreteStore ConcreteWasm.

#[export] Instance no_sections : WasmParser := {| parse_module _ := Some [] |}.

Definition deploy_payload : bytes :=
  enc_value (ser_struct [
    fld "name" (SStr "probe"); fld "engine" (SStr "Wasm"); fld "bytecode" (ser_bytes [1%N]);
    fld "metadata" (SMap []); fld "owners" (SSeq []); fld "threshold" (SInt 0)]).
Definition deploy_tx : Transaction :=
  mkTransaction "tx" "DeployContract" [] None 0 [7%N] [] None 0 [] [] deploy_payload 0 [] None.

Lemma deploy_panic_witness :
  Deploy_validate {["Wasm" := WasmEngine]} empty_store deploy_tx ConcreteToken.env = None.
Proof.
  eapply (deploy_scan_panics {["Wasm" := WasmEngine]} empty_store deploy_tx ConcreteToken.env
    (mkDeployParams "probe" "Wasm" [1%N] ∅ [] 0) _ _ _ (-1));
    try reflexivity; try discriminate; try (by apply Nat.leb_le); by vm_compute.
Defined.
End ConcreteScan.
