(* ===== verification/NodeRegistry.v ===== *)
(** * The node registry (src/src/node.rs, node/registry.rs and its submodules, rns/identity.rs bindings)

    Who a node knows under which role: registration under the stake and
    capacity gates, acknowledgements, heartbeats and eviction, directory
    queries and responses, the roles of a key. Delivering a frame is left out:
    an operation returns the frame it sends. The transport's route table and the
    injected stake gate are fields of the host; the clock is an argument, in
    seconds. *)

From S2P Require Import Prelude Interfaces Types Crypto Deserialize.

(** ** Requests and entries *)

Inductive NodeRequestType :=
| Register
| Request
| Heartbeat
| RegisterAck (accepted : bool) (node_type : NodeRegistryType) (responder_key : bytes) (reason : string).

Record NodeRequest := mkNodeRequest {
  requester_key : bytes;
  requester_rhash : bytes;
  request_type : NodeRequestType;
  requester_types : list NodeRegistryType;
  requested_type : NodeRegistryType;
  binding_signature : bytes;
  query_target : option bytes;
  query_nonce : option bytes;
}.

Record NodeRegistryEntry := mkDirEntry {
  node_key : bytes;
  node_rhash : bytes;
  en_signature : bytes;
  en_requested_type : NodeRegistryType;
  en_node_types : list NodeRegistryType;
}.

Record NodeRegistryResponse := mkResponse {
  responder_key : bytes;
  responder_rhash : bytes;
  registry_type : NodeRegistryType;
  entries : list NodeRegistryEntry;
  rs_signature : bytes;
}.

(** A connection over the transport, or none. *)
Inductive Connection := RnsConnection (rhash : bytes) | NullConnection.

Record NodeRegistryNode := mkNode {
  nd_rhash : bytes;
  nd_conn : Connection;
  last_seen : N;
  directory_signature : bytes;
  directory_requested_type : NodeRegistryType;
  directory_node_types : list NodeRegistryType;
}.

Definition Node_new (now : N) (rhash : bytes) (conn : Connection) : NodeRegistryNode :=
  mkNode rhash conn now [] Archiver [].
Definition with_binding (now : N) (rhash : bytes) (conn : Connection) (signature : bytes) (requested : NodeRegistryType)
    (types : list NodeRegistryType) : NodeRegistryNode := mkNode rhash conn now signature requested types.
Definition with_last_seen (now : N) (n : NodeRegistryNode) : NodeRegistryNode :=
  mkNode (nd_rhash n) (nd_conn n) now (directory_signature n) (directory_requested_type n) (directory_node_types n).

(** ** Bindings *)

Definition ser_type (t : NodeRegistryType) : serde := SStr (type_name t).

Section bindings.
Context `{Rmp} `{SignaturePrims}.

Definition binding_value (rhash : bytes) (requested : NodeRegistryType) (types : list NodeRegistryType) : serde :=
  SSeq [ser_bytes rhash; ser_type requested; ser_list ser_type types].
Definition query_value (rhash responder nonce : bytes) (requested : NodeRegistryType) (types : list NodeRegistryType) : serde :=
  SSeq [ser_bytes rhash; ser_bytes responder; ser_bytes nonce; ser_type requested; ser_list ser_type types].

Definition binding_payload (rhash : bytes) (requested : NodeRegistryType) (types : list NodeRegistryType)
    : result PneumaticError bytes := map_err Encoding (rmp_enc (binding_value rhash requested types)).
Definition query_payload (rhash responder nonce : bytes) (requested : NodeRegistryType) (types : list NodeRegistryType)
    : result PneumaticError bytes := map_err Encoding (rmp_enc (query_value rhash responder nonce requested types)).

(** [check_signature(..).unwrap_or(false)] of a throwaway provider. *)
Definition check_unwrap (signature key data : bytes) : bool :=
  match Ed25519_check_signature signature key data with Ok b => b | Err _ => false end.

Definition verify_binding (key rhash : bytes) (requested : NodeRegistryType) (types : list NodeRegistryType)
    (signature : bytes) : bool :=
  match binding_payload rhash requested types with Ok p => check_unwrap signature key p | Err _ => false end.

Definition verify_query (key rhash responder nonce : bytes) (requested : NodeRegistryType)
    (types : list NodeRegistryType) (signature : bytes) : bool :=
  match query_payload rhash responder nonce requested types with Ok p => check_unwrap signature key p | Err _ => false end.

Definition sign_binding (identity : AsymCryptoProvider) (rhash : bytes) (requested : NodeRegistryType)
    (types : list NodeRegistryType) : result PneumaticError bytes :=
  p ← binding_payload rhash requested types; sign_data identity p.

Definition sign_query (identity : AsymCryptoProvider) (rhash responder nonce : bytes) (requested : NodeRegistryType)
    (types : list NodeRegistryType) : result PneumaticError bytes :=
  p ← query_payload rhash responder nonce requested types; sign_data identity p.
End bindings.

(** ** The registry and its host *)

Record Host := mkHost {
  h_public_key : bytes;
  h_rhash : bytes;
  h_max : gmap NodeRegistryType nat;
  h_observer : bool;
  h_signer : AsymCryptoProvider;
  stake_check : bytes → NodeRegistryType → bool;
  routes : option (bytes → bool);
}.

Definition get_max_node_number (h : Host) (t : NodeRegistryType) : nat := default 0 (h_max h !! t).

Record NodeRegistry := mkNodes {
  committers : gmap bytes NodeRegistryNode;
  sentinels : gmap bytes NodeRegistryNode;
  executors_ : gmap bytes NodeRegistryNode;
  finalizers : gmap bytes NodeRegistryNode;
  archivers : gmap bytes NodeRegistryNode;
  delivery_failures : gmap (bytes * NodeRegistryType) N;
  query_nonces : gmap (bytes * bytes) N;
  declared_roles : list NodeRegistryType;
  self_delivery : option (list NodeRegistryType);
}.

Definition NodeRegistry_init (declared : list NodeRegistryType) : NodeRegistry :=
  mkNodes ∅ ∅ ∅ ∅ ∅ ∅ ∅ declared None.

Definition get_nodes (t : NodeRegistryType) (r : NodeRegistry) : gmap bytes NodeRegistryNode :=
  match t with
  | Committer => committers r | Sentinel => sentinels r | Executor => executors_ r
  | Finalizer => finalizers r | Archiver => archivers r
  end.

Definition set_nodes (t : NodeRegistryType) (m : gmap bytes NodeRegistryNode) (r : NodeRegistry) : NodeRegistry :=
  let f t' := if bool_decide (t = t') then m else get_nodes t' r in
  mkNodes (f Committer) (f Sentinel) (f Executor) (f Finalizer) (f Archiver) (delivery_failures r) (query_nonces r)
    (declared_roles r) (self_delivery r).

Definition with_nonces (m : gmap (bytes * bytes) N) (r : NodeRegistry) : NodeRegistry :=
  mkNodes (committers r) (sentinels r) (executors_ r) (finalizers r) (archivers r) (delivery_failures r) m
    (declared_roles r) (self_delivery r).
Definition with_failures (m : gmap (bytes * NodeRegistryType) N) (r : NodeRegistry) : NodeRegistry :=
  mkNodes (committers r) (sentinels r) (executors_ r) (finalizers r) (archivers r) m (query_nonces r)
    (declared_roles r) (self_delivery r).

Definition set_declared_roles (l : list NodeRegistryType) (r : NodeRegistry) : NodeRegistry :=
  mkNodes (committers r) (sentinels r) (executors_ r) (finalizers r) (archivers r) (delivery_failures r)
    (query_nonces r) l (self_delivery r).
Definition install_self_delivery (l : list NodeRegistryType) (r : NodeRegistry) : NodeRegistry :=
  mkNodes (committers r) (sentinels r) (executors_ r) (finalizers r) (archivers r) (delivery_failures r)
    (query_nonces r) (declared_roles r) (Some l).
Definition self_delivery_roles (r : NodeRegistry) : list NodeRegistryType := default [] (self_delivery r).
Definition serves_locally (t : NodeRegistryType) (r : NodeRegistry) : bool := bool_decide (t ∈ self_delivery_roles r).

(** ** Lookups *)

Definition node_is_already_registered (key : bytes) (t : NodeRegistryType) (r : NodeRegistry) : bool :=
  bool_decide (is_Some (get_nodes t r !! key)).

Definition type_position (t : NodeRegistryType) : nat :=
  match t with Committer => 0 | Sentinel => 1 | Executor => 2 | Finalizer => 3 | Archiver => 4 end.
Definition type_le (a b : NodeRegistryType) : Prop := type_position a ≤ type_position b.
#[global] Instance type_le_dec : RelDecision type_le.
Proof. intros a b. apply (decide (_ ≤ _)). Defined.

Definition push_missing (l : list NodeRegistryType) (t : NodeRegistryType) : list NodeRegistryType :=
  if bool_decide (t ∈ l) then l else l ++ [t].

Section registry.
Context `{HashIter} `{Rmp} `{SignaturePrims} (h : Host).

Definition roles_of_key (key : bytes) (r : NodeRegistry) : list NodeRegistryType :=
  let in_buckets := filter (λ t, is_Some (get_nodes t r !! key)) all_types in
  let roles := if bool_decide (key = h_public_key h)
               then foldl push_missing in_buckets (self_delivery_roles r) else in_buckets in
  merge_sort type_le roles.

Definition find_node_type_by_public_key (key : bytes) (r : NodeRegistry) : option NodeRegistryType :=
  head (roles_of_key key r).
Definition find_node_types_by_public_key (key : bytes) (r : NodeRegistry) : list NodeRegistryType := roles_of_key key r.

Definition node_may_send_action (key : bytes) (allowed : list NodeRegistryType) (r : NodeRegistry) : bool :=
  existsb (λ role, bool_decide (role ∈ allowed)) (find_node_types_by_public_key key r).

Definition type_is_maxed_out (t : NodeRegistryType) (r : NodeRegistry) : bool :=
  Nat.leb (get_max_node_number h t) (size (get_nodes t r)).

Definition connect (rhash : bytes) : Connection := if is_none (routes h) then NullConnection else RnsConnection rhash.

(** ** Installing entries *)

Definition insert_node (t : NodeRegistryType) (key : bytes) (n : NodeRegistryNode) (r : NodeRegistry) : NodeRegistry :=
  set_nodes t (<[key := n]> (get_nodes t r)) r.

Definition register_peer (now : N) (key rhash : bytes) (t : NodeRegistryType) (conn : Connection) (r : NodeRegistry)
    : NodeRegistry * bool :=
  match get_nodes t r !! key with
  | Some n => (insert_node t key (mkNode rhash conn now (directory_signature n) (directory_requested_type n)
                                    (directory_node_types n)) r, true)
  | None =>
      if Nat.leb (get_max_node_number h t) (size (get_nodes t r)) then (r, false)
      else (insert_node t key (Node_new now rhash conn) r, true)
  end.

Definition register_peer_with_binding (now : N) (key rhash : bytes) (t : NodeRegistryType) (conn : Connection)
    (binding : NodeRequest) (r : NodeRegistry) : NodeRegistry * bool :=
  let n := with_binding now rhash conn (binding_signature binding) (requested_type binding) (requester_types binding) in
  match get_nodes t r !! key with
  | Some _ => (insert_node t key n r, true)
  | None =>
      if Nat.leb (get_max_node_number h t) (size (get_nodes t r)) then (r, false) else (insert_node t key n r, true)
  end.

Definition register_directory_peer (now : N) (key rhash : bytes) (t : NodeRegistryType) (conn : Connection)
    (r : NodeRegistry) : NodeRegistry * bool :=
  match get_nodes t r !! key with
  | Some n => (insert_node t key (with_last_seen now n) r, true)
  | None =>
      if Nat.leb (get_max_node_number h t) (size (get_nodes t r)) then (r, false)
      else (insert_node t key (Node_new now rhash conn) r, true)
  end.

Definition refresh_last_seen (now : N) (key : bytes) (t : NodeRegistryType) (r : NodeRegistry) : NodeRegistry :=
  match get_nodes t r !! key with
  | Some n => insert_node t key (with_last_seen now n) r
  | None => r
  end.

(** ** Registration *)

Definition registration_priority : list NodeRegistryType := [Finalizer; Executor; Sentinel; Committer].

Definition select_registration_node_types (req : NodeRequest) (r : NodeRegistry) : list NodeRegistryType :=
  filter (λ t, bool_decide (t ∈ requester_types req) && negb (type_is_maxed_out t r) = true) registration_priority.

Definition admit_node_under_type (now : N) (key rhash : bytes) (t : NodeRegistryType) (conn : Connection)
    (req : NodeRequest) (r : NodeRegistry) : NodeRegistry * bool :=
  if node_is_already_registered key t r then (r, true)
  else if negb (stake_check h key t) then (r, false)
  else if Nat.leb (get_max_node_number h t) (size (get_nodes t r)) then (r, false)
  else (insert_node t key (with_binding now rhash conn (binding_signature req) (requested_type req)
                             (requester_types req)) r, true).

(** The loop over the qualifying types; the flags are [accepted] and [failed_stake]. *)
Fixpoint admit_all (now : N) (req : NodeRequest) (qualifying registered : list NodeRegistryType)
    (accepted failed_stake : bool) (r : NodeRegistry) : NodeRegistry * list NodeRegistryType * bool * bool :=
  match qualifying with
  | [] => (r, registered, accepted, failed_stake)
  | t :: qualifying' =>
      if bool_decide (t ∈ registered) then admit_all now req qualifying' registered true failed_stake r
      else
        let '(r', ok) := admit_node_under_type now (requester_key req) (requester_rhash req) t
                           (connect (requester_rhash req)) req r in
        if ok then admit_all now req qualifying' (registered ++ [t]) true failed_stake r'
        else admit_all now req qualifying' registered accepted true r'
  end.

Definition build_register_ack (accepted : bool) (t : NodeRegistryType) (reason : string) (r : NodeRegistry)
    : option NodeRequest :=
  let key := if accepted then h_public_key h else [] in
  match sign_binding (h_signer h) (h_rhash h) t (declared_roles r) with
  | Err _ => None
  | Ok binding =>
      Some (mkNodeRequest (h_public_key h) (h_rhash h) (RegisterAck accepted t key reason) (declared_roles r) t binding
              None None)
  end.

Definition primary_registry_type (roles : list NodeRegistryType) : option NodeRegistryType :=
  find (λ t, bool_decide (t ∈ roles)) registration_priority.

(** The new registry, and the acknowledgement sent to the requester. *)
Definition handle_register (now : N) (req : NodeRequest) (r : NodeRegistry) : NodeRegistry * option NodeRequest :=
  if negb (verify_binding (requester_key req) (requester_rhash req) (requested_type req) (requester_types req)
             (binding_signature req)) then
    (r, build_register_ack false (requested_type req) "invalid binding signature" r)
  else
    let qualifying := select_registration_node_types req r in
    let already := find_node_types_by_public_key (requester_key req) r in
    let r := foldl (λ r t, refresh_last_seen now (requester_key req) t r) r already in
    let '(r, registered, accepted, failed_stake) :=
      admit_all now req qualifying already (negb (is_nil already)) false r in
    if accepted then
      (r, build_register_ack true (default (requested_type req) (primary_registry_type registered)) "" r)
    else
      (r, build_register_ack false (requested_type req)
            (if failed_stake then "insufficient stake" else "no registry type available") r).

Definition handle_register_ack (now : N) (req : NodeRequest) (accepted : bool) (t : NodeRegistryType)
    (responder : bytes) (r : NodeRegistry) : NodeRegistry :=
  if negb accepted then r
  else if is_nil responder then r
  else if negb (verify_binding responder (requester_rhash req) t (requester_types req) (binding_signature req)) then r
  else
    let install := if is_nil (requester_types req) then [t] else requester_types req in
    foldl (λ r t, (register_peer_with_binding now responder (requester_rhash req) t (connect (requester_rhash req)) req r).1)
      r install.

(** ** Liveness *)

Definition handle_heartbeat (now : N) (req : NodeRequest) (r : NodeRegistry) : NodeRegistry :=
  if negb (verify_binding (requester_key req) (requester_rhash req) (requested_type req) (requester_types req)
             (binding_signature req)) then r
  else match find_node_type_by_public_key (requester_key req) r with
       | Some t => refresh_last_seen now (requester_key req) t r
       | None => r
       end.

(** Entries not seen for 30 seconds leave every bucket. *)
Definition evict_nodes (now : N) (m : gmap bytes NodeRegistryNode) : gmap bytes NodeRegistryNode :=
  filter (λ kn : bytes * NodeRegistryNode, (now ≤ last_seen kn.2 + 30)%N) m.
Definition evict_expired (now : N) (r : NodeRegistry) : NodeRegistry :=
  foldl (λ r t, set_nodes t (evict_nodes now (get_nodes t r)) r) r all_types.

(** ** Directories *)

Definition QUERY_NONCE_WINDOW : N := 120.

Definition peer_is_reachable (rhash : bytes) : bool := match routes h with Some f => f rhash | None => false end.

Definition admit_directory_query (now : N) (req : NodeRequest) (r : NodeRegistry) : NodeRegistry * bool :=
  let registered := negb (is_none (find_node_type_by_public_key (requester_key req) r)) in
  match query_target req, query_nonce req with
  | Some target, Some nonce =>
      if negb (bool_decide (target = h_rhash h)) then (r, false)
      else if negb (verify_query (requester_key req) (requester_rhash req) target nonce (requested_type req)
                      (requester_types req) (binding_signature req)) then (r, false)
      else if negb registered && negb (peer_is_reachable (requester_rhash req)) then (r, false)
      else
        let kept := filter (λ kv : bytes * bytes * N, (sat_sub now kv.2 < QUERY_NONCE_WINDOW)%N) (query_nonces r) in
        let k := (requester_rhash req, nonce) in
        (with_nonces (<[k := now]> kept) r, is_none (kept !! k))
  | _, _ =>
      if negb (verify_binding (requester_key req) (requester_rhash req) (requested_type req) (requester_types req)
                 (binding_signature req)) then (r, false)
      else (r, registered)
  end.

Definition ser_NodeRegistryEntry (e : NodeRegistryEntry) : serde :=
  ser_struct [
    fld "node_key" (ser_bytes (node_key e));
    fld "node_rhash" (ser_bytes (node_rhash e));
    fld "signature" (ser_bytes (en_signature e));
    fld "requested_type" (ser_type (en_requested_type e));
    fld "node_types" (ser_list ser_type (en_node_types e))].

Definition directory_response_signature_payload (es : list NodeRegistryEntry) (t : NodeRegistryType) (rhash : bytes)
    : result PneumaticError bytes :=
  map_err Encoding (rmp_enc (SSeq [ser_list ser_NodeRegistryEntry es; ser_type t; ser_bytes rhash])).

Definition directory_entry (kn : bytes * NodeRegistryNode) : option NodeRegistryEntry :=
  if is_nil (directory_signature kn.2) then None
  else Some (mkDirEntry kn.1 (nd_rhash kn.2) (directory_signature kn.2) (directory_requested_type kn.2)
               (directory_node_types kn.2)).

Definition directory_entries (t : NodeRegistryType) (r : NodeRegistry) : list NodeRegistryEntry :=
  omap directory_entry (hash_iter (get_nodes t r)).

Definition build_directory_response (now : N) (req : NodeRequest) (r : NodeRegistry)
    : NodeRegistry * option NodeRegistryResponse :=
  let t := requested_type req in
  let '(r, admitted) := admit_directory_query now req r in
  (r, if negb admitted then None
      else
        let es := directory_entries t r in
        match directory_response_signature_payload es t (h_rhash h) with
        | Err _ => None
        | Ok payload =>
            match sign_data (h_signer h) payload with
            | Err _ => None
            | Ok signature => Some (mkResponse (h_public_key h) (h_rhash h) t es signature)
            end
        end).

Definition may_trust_unregistered_directory_responder (res : NodeRegistryResponse) (r : NodeRegistry) : bool :=
  h_observer h && negb (existsb is_consensus_role (declared_roles r)) && peer_is_reachable (responder_rhash res).

Definition entry_bound (e : NodeRegistryEntry) : bool :=
  verify_binding (node_key e) (node_rhash e) (en_requested_type e) (en_node_types e) (en_signature e).

Definition install_entry (now : N) (t : NodeRegistryType) (r : NodeRegistry) (e : NodeRegistryEntry) : NodeRegistry :=
  if bool_decide (node_rhash e = h_rhash h) || bool_decide (node_key e = h_public_key h) then r
  else (register_directory_peer now (node_key e) (node_rhash e) t (connect (node_rhash e)) r).1.

Definition handle_directory_response (now : N) (res : NodeRegistryResponse) (r : NodeRegistry)
    : NodeRegistry * result PneumaticError () :=
  if is_none (find_node_type_by_public_key (responder_key res) r) &&
     negb (may_trust_unregistered_directory_responder res r) then
    (r, Err (Registry "directory response from unregistered node"))
  else match directory_response_signature_payload (entries res) (registry_type res) (responder_rhash res) with
  | Err e => (r, Err e)
  | Ok payload =>
      if negb (check_unwrap (rs_signature res) (responder_key res) payload) then
        (r, Err (Registry "directory response signature invalid"))
      else if negb (forallb entry_bound (entries res)) then
        (r, Err (Registry "directory response entry signature invalid"))
      else (foldl (install_entry now (registry_type res)) r (entries res), Ok ())
  end.

(** ** Dispatch *)

(** The frame the node sends back, where it has a transport. *)
Inductive Reply := ReplyAck (ack : NodeRequest) | ReplyDirectory (res : NodeRegistryResponse).
Definition transmit (x : option Reply) : option Reply := if is_none (routes h) then None else x.

Definition handle_control (now : N) (req : NodeRequest) (r : NodeRegistry) : NodeRegistry * option Reply :=
  match request_type req with
  | Register => let '(r, ack) := handle_register now req r in (r, transmit (ReplyAck <$> ack))
  | RegisterAck accepted t responder _ => (handle_register_ack now req accepted t responder r, None)
  | Request => let '(r, res) := build_directory_response now req r in (r, transmit (ReplyDirectory <$> res))
  | Heartbeat => (handle_heartbeat now req r, None)
  end.

(** ** The requests a node builds *)

Definition build_request (kind : NodeRequestType) (requested : NodeRegistryType) (r : NodeRegistry)
    : result PneumaticError NodeRequest :=
  binding ← sign_binding (h_signer h) (h_rhash h) requested (declared_roles r);
  Ok (mkNodeRequest (h_public_key h) (h_rhash h) kind (declared_roles r) requested binding None None).

Definition build_register_request (r : NodeRegistry) : result PneumaticError NodeRequest :=
  t ← ok_or (Registry "peering: cannot register with an empty declared role set")
        (primary_registry_type (declared_roles r));
  build_request Register t r.

Definition build_heartbeat_request (r : NodeRegistry) : result PneumaticError NodeRequest :=
  t ← ok_or (Registry "peering: cannot heartbeat with an empty declared role set")
        (primary_registry_type (declared_roles r));
  build_request Heartbeat t r.

Definition build_directory_request (nonce : bytes) (for_type : NodeRegistryType) (responder : bytes) (r : NodeRegistry)
    : result PneumaticError NodeRequest :=
  binding ← sign_query (h_signer h) (h_rhash h) responder nonce for_type (declared_roles r);
  Ok (mkNodeRequest (h_public_key h) (h_rhash h) Request (declared_roles r) for_type binding (Some responder) (Some nonce)).

Definition routed_role_types : list NodeRegistryType := [Sentinel; Executor; Finalizer; Committer].

(** Every peer of the routed buckets, once. *)
Definition known_peers (r : NodeRegistry) : list (bytes * bytes) :=
  (foldl (λ (acc : gset bytes * list (bytes * bytes)) t,
     foldl (λ (acc : gset bytes * list (bytes * bytes)) (kn : bytes * NodeRegistryNode),
       if bool_decide (kn.1 ∈ acc.1) then acc
       else ({[kn.1]} ∪ acc.1, acc.2 ++ [(nd_rhash kn.2, kn.1)]))
       acc (hash_iter (get_nodes t r))) (∅, []) routed_role_types).2.

Definition bootstrap_peers_needing_directory (bootstrap : list bytes) (r : NodeRegistry) : list bytes :=
  filter (λ rhash, rhash ∉ (known_peers r).*1) bootstrap.

(** ** Fan-out bookkeeping *)

Definition record_delivery_failure (rhash : bytes) (t : NodeRegistryType) (r : NodeRegistry) : NodeRegistry :=
  with_failures (<[(rhash, t) := match delivery_failures r !! (rhash, t) with Some c => wrap_add c 1 | None => 1%N end]>
    (delivery_failures r)) r.

(** The copy a fan-out owes the host itself: [Some] is the frame fed to its own
    inbound path. *)
Definition deliver_self_copy (data : bytes) (t : NodeRegistryType) (r : NodeRegistry) : NodeRegistry * option bytes :=
  if negb (serves_locally t r) then (r, None)
  else if node_is_already_registered (h_public_key h) t r then (r, None)
  else match rmp_enc (ser_struct [fld "control" SNil; fld "data" (ser_bytes data)]) with
       | Ok frame => (r, Some frame)
       | Err _ => (record_delivery_failure (h_rhash h) t r, None)
       end.
End registry.

(** ** Buckets *)

Lemma get_set_nodes t t' m r : get_nodes t' (set_nodes t m r) = if bool_decide (t = t') then m else get_nodes t' r.
Proof. by destruct t'. Qed.

Lemma get_set_nodes_eq t m r : get_nodes t (set_nodes t m r) = m.
Proof. rewrite get_set_nodes. by rewrite bool_decide_true. Qed.

Lemma get_set_nodes_ne t t' m r : t ≠ t' → get_nodes t' (set_nodes t m r) = get_nodes t' r.
Proof. intros Hne. rewrite get_set_nodes. by rewrite bool_decide_false. Qed.

Lemma insert_node_lookup t key n r t' key' :
  get_nodes t' (insert_node t key n r) !! key' =
  if bool_decide (t = t' ∧ key = key') then Some n else get_nodes t' r !! key'.
Proof.
  unfold insert_node. rewrite get_set_nodes. destruct (decide (t = t')) as [->|Ht].
  - rewrite bool_decide_true by done. destruct (decide (key = key')) as [->|Hk].
    + by rewrite lookup_insert_eq, bool_decide_true.
    + rewrite lookup_insert_ne by done. rewrite bool_decide_false; [done|tauto].
  - rewrite !bool_decide_false; [done|tauto|done].
Qed.

Lemma all_types_elem t : t ∈ all_types.
Proof. unfold all_types. destruct t; set_solver. Qed.

Section buckets.
Context `{HashIter} `{Rmp} `{SignaturePrims} (h : Host).

(** Under how many keys each bucket may hold, and that installing keeps to it. *)
Definition bounded (r : NodeRegistry) : Prop := ∀ t, size (get_nodes t r) ≤ get_max_node_number h t.

Lemma bounded_replace t key n r : bounded r → is_Some (get_nodes t r !! key) → bounded (insert_node t key n r).
Proof.
  intros Hb [x Hx] t'. unfold insert_node. rewrite get_set_nodes. case_bool_decide; [subst|apply Hb].
  rewrite map_size_insert_Some by done. apply Hb.
Qed.

Lemma bounded_add t key n r : bounded r → size (get_nodes t r) < get_max_node_number h t → bounded (insert_node t key n r).
Proof.
  intros Hb Hs t'. unfold insert_node. rewrite get_set_nodes. case_bool_decide; [subst|apply Hb].
  destruct (get_nodes t' r !! key) eqn:E; [rewrite map_size_insert_Some by done|rewrite map_size_insert_None by done]; lia.
Qed.

Lemma refresh_lookup now key t r t' key' :
  get_nodes t' (refresh_last_seen now key t r) !! key' =
  if bool_decide (t = t' ∧ key = key') then with_last_seen now <$> get_nodes t' r !! key' else get_nodes t' r !! key'.
Proof.
  unfold refresh_last_seen. destruct (get_nodes t r !! key) as [n|] eqn:E.
  - rewrite insert_node_lookup. case_bool_decide as Hc; [|done]. destruct Hc as [-> ->]. by rewrite E.
  - case_bool_decide as Hc; [|done]. destruct Hc as [-> ->]. by rewrite E.
Qed.

Lemma refresh_bounded now key t r : bounded r → bounded (refresh_last_seen now key t r).
Proof. intros Hb. unfold refresh_last_seen. destruct (get_nodes t r !! key) eqn:E; [apply bounded_replace; [done|by rewrite E]|done]. Qed.

Lemma roles_of_key_elem key r t :
  t ∈ roles_of_key h key r ↔ is_Some (get_nodes t r !! key) ∨ (key = h_public_key h ∧ t ∈ self_delivery_roles r).
Proof.
  assert (∀ l acc, t ∈ foldl push_missing acc l ↔ t ∈ acc ∨ t ∈ l) as Hpush.
  { induction l as [|x l IH]; intros acc; simpl; [set_solver|]. rewrite IH. unfold push_missing. case_bool_decide; set_solver. }
  unfold roles_of_key. rewrite merge_sort_Permutation. case_bool_decide as Hk.
  - rewrite Hpush, list_elem_of_filter. pose proof (all_types_elem t). tauto.
  - rewrite list_elem_of_filter. pose proof (all_types_elem t). tauto.
Qed.
End buckets.
