(* ===== verification/NodeSafety.v ===== *)
(** * What the node registry guarantees, and what it does not

    The exact effect of a registration, the capacity of the buckets over every
    sequence of operations, directory answers and their nonces; and three ways
    round the gates: acknowledgements nobody asked for, heartbeats that keep one
    role alive, and an acknowledgement that spoils the directory. *)

From S2P Require Import Prelude Interfaces Types Crypto Deserialize NodeRegistry.

Section registration.
Context `{HashIter} `{Rmp} `{SignaturePrims} (h : Host).

Definition bound_node (now : N) (req : NodeRequest) : NodeRegistryNode :=
  with_binding now (requester_rhash req) (connect h (requester_rhash req)) (binding_signature req) (requested_type req)
    (requester_types req).

Lemma refresh_size now key t r t' : size (get_nodes t' (refresh_last_seen now key t r)) = size (get_nodes t' r).
Proof.
  unfold refresh_last_seen. destruct (get_nodes t r !! key) eqn:E; [|done]. unfold insert_node. rewrite get_set_nodes.
  case_bool_decide; [subst|done]. by rewrite map_size_insert_Some.
Qed.

Lemma refresh_all_lookup now key l r t key' :
  get_nodes t (foldl (λ r t, refresh_last_seen now key t r) r l) !! key' =
  if bool_decide (t ∈ l ∧ key' = key) then with_last_seen now <$> get_nodes t r !! key' else get_nodes t r !! key'.
Proof.
  revert r. induction l as [|x l IH]; intros r; cbn [foldl]; [rewrite bool_decide_false; [done|set_solver]|].
  rewrite IH, refresh_lookup. destruct (decide (key' = key)) as [->|Hk].
  - destruct (decide (t ∈ l)) as [Hl|Hl], (decide (x = t)) as [->|Hx];
      repeat first [rewrite bool_decide_true by (split; set_solver)|rewrite bool_decide_false by set_solver]; try done.
    by destruct (get_nodes t r !! key).
  - rewrite !bool_decide_false; [done|set_solver..].
Qed.

Lemma refresh_all_size now key l r t :
  size (get_nodes t (foldl (λ r t, refresh_last_seen now key t r) r l)) = size (get_nodes t r).
Proof. revert r. induction l as [|x l IH]; intros r; simpl; [done|]. by rewrite IH, refresh_size. Qed.

(** Whether the pass admits the requester under [t]. *)
Definition admitted (req : NodeRequest) (q reg : list NodeRegistryType) (r : NodeRegistry) (t : NodeRegistryType)
    (key : bytes) : Prop :=
  key = requester_key req ∧ t ∈ q ∧ (t ∉ reg) ∧ get_nodes t r !! key = None ∧ stake_check h key t = true.

Lemma admitted_skip req x q reg r t key :
  (x ∈ reg ∨ is_Some (get_nodes x r !! requester_key req) ∨ stake_check h (requester_key req) x = false) →
  admitted req (x :: q) reg r t key ↔ admitted req q reg r t key.
Proof.
  intros Hx. unfold admitted. rewrite elem_of_cons. split; [|tauto].
  intros (-> & [->|Hq] & Hr & Hn & Hs); [|done]. exfalso. destruct Hx as [?|[[n ?]|?]]; [done|congruence..].
Qed.

Lemma admitted_push req x q reg r t key :
  x ∉ q → admitted req q (reg ++ [x]) r t key ↔ admitted req q reg r t key.
Proof.
  intros Hx. unfold admitted. rewrite elem_of_app, list_elem_of_singleton.
  split; intros (? & Hq & Hr & ? & ?); split_and!; try done; [tauto|]. intros [?| ->]; done.
Qed.

(** One pass over the qualifying types. *)
Lemma admit_all_lookup now req q reg acc fs r t key :
  NoDup q → Forall (λ t, size (get_nodes t r) < get_max_node_number h t) q →
  (admitted req q reg r t key → get_nodes t (admit_all h now req q reg acc fs r).1.1.1 !! key = Some (bound_node now req)) ∧
  (¬ admitted req q reg r t key → get_nodes t (admit_all h now req q reg acc fs r).1.1.1 !! key = get_nodes t r !! key).
Proof.
  intros Hnd. revert reg acc fs r. induction Hnd as [|x q Hx _ IH]; intros reg acc fs r Hcap; cbn [admit_all].
  { split; [|done]. intros (_ & Hq & _). by apply not_elem_of_nil in Hq. }
  apply Forall_cons in Hcap as [Hcx Hcap]. destruct (bool_decide_reflect (x ∈ reg)) as [Hreg|Hreg].
  { rewrite admitted_skip by tauto. by apply IH. }
  unfold admit_node_under_type, node_is_already_registered.
  destruct (bool_decide_reflect (is_Some (get_nodes x r !! requester_key req))) as [Hin|Hin].
  { rewrite admitted_skip, <-(admitted_push req x) by tauto. by apply IH. }
  destruct (stake_check h (requester_key req) x) eqn:Hst; cbn [negb]; [|rewrite admitted_skip by tauto; by apply IH].
  destruct (Nat.leb_spec (get_max_node_number h x) (size (get_nodes x r))); [lia|].
  set (r1 := insert_node x (requester_key req) _ r).
  destruct (IH (reg ++ [x]) true fs r1) as [IH1 IH2].
  { apply Forall_forall. intros t' Ht'. unfold r1, insert_node. rewrite get_set_nodes_ne; [|intros ->; done].
    by eapply Forall_forall in Hcap. }
  destruct (decide (x = t ∧ requester_key req = key)) as [[Hxt Hkey]|Hne]; [subst t key|].
  - assert (get_nodes x r1 !! requester_key req = Some (bound_node now req)) as Hk.
    { unfold r1. rewrite insert_node_lookup. by rewrite bool_decide_true. }
    rewrite IH2, Hk by (intros (_ & _ & _ & Hn & _); congruence). split; [done|]. intros Hna. exfalso. apply Hna.
    split_and!; [done|left|done| |done]. by apply eq_None_not_Some.
  - assert (get_nodes t r1 !! key = get_nodes t r !! key) as Hk.
    { unfold r1. rewrite insert_node_lookup. by rewrite bool_decide_false. }
    assert (admitted req (x :: q) reg r t key ↔ admitted req q (reg ++ [x]) r1 t key) as Hiff.
    { rewrite admitted_push by done. unfold admitted. rewrite Hk, elem_of_cons. split; [|tauto].
      intros (-> & [->|Hq] & Hrest); [by destruct Hne|tauto]. }
    rewrite Hiff, <-Hk. done.
Qed.

(** What a registration must satisfy to enter the bucket of [t]. *)
Definition admits (req : NodeRequest) (r : NodeRegistry) (t : NodeRegistryType) : Prop :=
  t ∈ requester_types req ∧ t ≠ Archiver ∧ size (get_nodes t r) < get_max_node_number h t ∧
  stake_check h (requester_key req) t = true ∧ (requester_key req = h_public_key h → t ∉ self_delivery_roles r).
#[global] Instance admits_dec req r t : Decision (admits req r t).
Proof. unfold admits. apply _. Defined.

Lemma qualifying_elem req r t :
  t ∈ select_registration_node_types h req r ↔
  t ∈ requester_types req ∧ t ≠ Archiver ∧ size (get_nodes t r) < get_max_node_number h t.
Proof.
  unfold select_registration_node_types, type_is_maxed_out. rewrite list_elem_of_filter, andb_true_iff, bool_decide_eq_true.
  rewrite negb_true_iff, Nat.leb_gt. unfold registration_priority. destruct t; set_solver.
Qed.

Lemma qualifying_NoDup req r : NoDup (select_registration_node_types h req r).
Proof. apply NoDup_filter. apply (bool_decide_unpack (NoDup _)). by vm_compute. Qed.

Lemma handle_register_state now req r :
  verify_binding (requester_key req) (requester_rhash req) (requested_type req) (requester_types req)
    (binding_signature req) = true →
  let already := roles_of_key h (requester_key req) r in
  (handle_register h now req r).1 =
  (admit_all h now req (select_registration_node_types h req r) already (negb (is_nil already)) false
     (foldl (λ r t, refresh_last_seen now (requester_key req) t r) r already)).1.1.1.
Proof.
  intros Hv. cbv zeta. unfold handle_register, find_node_types_by_public_key. rewrite Hv. cbn [negb].
  destruct (admit_all _ _ _ _ _ _ _ _) as [[[r' reg] acc] fs]. by destruct acc.
Qed.

Lemma handle_register_lookup now req r t k :
  verify_binding (requester_key req) (requester_rhash req) (requested_type req) (requester_types req)
    (binding_signature req) = true →
  get_nodes t (handle_register h now req r).1 !! k =
    if decide (k = requester_key req) then
      match get_nodes t r !! k with
      | Some n => Some (with_last_seen now n)
      | None => if decide (admits req r t) then Some (bound_node now req) else None
      end
    else get_nodes t r !! k.
Proof.
  intros Hv. rewrite handle_register_state by done.
  set (already := roles_of_key h (requester_key req) r). set (q := select_registration_node_types h req r).
  set (r1 := foldl _ r already).
  destruct (admit_all_lookup now req q already (negb (is_nil already)) false r1 t k) as [Hyes Hno]; [apply qualifying_NoDup| |].
  { apply Forall_forall. intros t' Ht'%qualifying_elem. unfold r1. rewrite refresh_all_size. tauto. }
  assert (get_nodes t r1 !! k = if decide (k = requester_key req) then with_last_seen now <$> get_nodes t r !! k
                                else get_nodes t r !! k) as Hr1.
  { unfold r1. rewrite refresh_all_lookup. destruct (decide (k = requester_key req)) as [->|Hk].
    - case_bool_decide as Hb; [done|]. destruct (get_nodes t r !! requester_key req) eqn:E; [|done].
      exfalso. apply Hb. split; [|done]. apply roles_of_key_elem. left. by rewrite E.
    - by rewrite bool_decide_false by tauto. }
  unfold admitted in *. rewrite Hr1 in *. destruct (decide (k = requester_key req)) as [->|Hk]; [|apply Hno; tauto].
  destruct (get_nodes t r !! requester_key req) as [n|] eqn:E; [apply Hno; naive_solver|].
  assert (t ∈ already ↔ requester_key req = h_public_key h ∧ t ∈ self_delivery_roles r) as Ha.
  { unfold already. rewrite roles_of_key_elem, E. split; [intros [[? ?]|?]; done|tauto]. }
  destruct (decide (admits req r t)) as [Hadm|Hadm].
  - apply Hyes. rewrite Ha. unfold q. rewrite qualifying_elem. unfold admits in Hadm. tauto.
  - apply Hno. rewrite Ha. unfold q. rewrite qualifying_elem. unfold admits in Hadm. tauto.
Qed.
(** C38: what a registration does, exactly. A request whose binding does not verify
    changes nothing. Otherwise the requester enters the bucket of each role it
    declared, other than archiver, that has room and passes the stake gate; in
    the buckets it is already in it only becomes live again, so that the address
    and the binding of its first registration stay; nobody else is touched. *)
Theorem registration_admits_exactly now req r :
  let r' := (handle_register h now req r).1 in
  if verify_binding (requester_key req) (requester_rhash req) (requested_type req) (requester_types req)
       (binding_signature req)
  then ∀ t k, get_nodes t r' !! k =
    if decide (k = requester_key req) then
      match get_nodes t r !! k with
      | Some n => Some (with_last_seen now n)
      | None => if decide (admits req r t) then Some (bound_node now req) else None
      end
    else get_nodes t r !! k
  else r' = r.
Proof.
  cbv zeta. destruct (verify_binding _ _ _ _ _) eqn:Hv; [intros t k; by apply handle_register_lookup|].
  unfold handle_register. by rewrite Hv.
Qed.
End registration.

(** ** Every sequence of operations *)

Section histories.
Context `{HashIter} `{Rmp} `{SignaturePrims} (h : Host).

Inductive node_step (now : N) (r : NodeRegistry) : NodeRegistry → Prop :=
| step_control req : node_step now r (handle_control h now req r).1
| step_response res : node_step now r (handle_directory_response h now res r).1
| step_peer key rhash t conn : node_step now r (register_peer h now key rhash t conn r).1
| step_evict : node_step now r (evict_expired now r)
| step_roles l : node_step now r (set_declared_roles l r)
| step_self l : node_step now r (install_self_delivery l r).

(** A state preserved by the step of a fold. *)
Lemma foldl_preserves {A B} (P : A → Prop) (f : A → B → A) (l : list B) a :
  (∀ a b, P a → P (f a b)) → P a → P (foldl f a l).
Proof. intros Hf. revert a. induction l as [|b l IH]; intros a Ha; [done|]. apply IH, Hf, Ha. Qed.

Lemma admit_bounded now key rhash t conn req r :
  bounded h r → bounded h (admit_node_under_type h now key rhash t conn req r).1.
Proof.
  intros Hb. unfold admit_node_under_type. repeat case_match; try done. apply bounded_add; [done|].
  match goal with He : Nat.leb _ _ = false |- _ => by apply Nat.leb_gt in He end.
Qed.

Lemma admit_all_bounded now req q reg acc fs r : bounded h r → bounded h (admit_all h now req q reg acc fs r).1.1.1.
Proof.
  revert reg acc fs r. induction q as [|x q IH]; intros reg acc fs r Hb; cbn [admit_all]; [done|].
  case_match; [by apply IH|].
  pose proof (admit_bounded now (requester_key req) (requester_rhash req) x (connect h (requester_rhash req)) req r Hb).
  destruct (admit_node_under_type _ _ _ _ _ _ _ _) as [r' []]; by apply IH.
Qed.

Lemma full_or_room t r :
  Nat.leb (get_max_node_number h t) (size (get_nodes t r)) = false → size (get_nodes t r) < get_max_node_number h t.
Proof. apply Nat.leb_gt. Qed.

Lemma installed_bounded t key n r :
  bounded h r → is_Some (get_nodes t r !! key) ∨ size (get_nodes t r) < get_max_node_number h t →
  bounded h (insert_node t key n r).
Proof. intros Hb [?|?]; [by apply bounded_replace|by apply bounded_add]. Qed.

Lemma evict_bounded now r : bounded h r → bounded h (evict_expired now r).
Proof.
  intros Hr. unfold evict_expired. apply (foldl_preserves (bounded h)); [|done]. intros r0 t Hb t'. rewrite get_set_nodes. case_bool_decide; [subst|apply Hb].
  etrans; [|apply Hb]. apply map_subseteq_size, map_filter_subseteq.
Qed.

Lemma step_bounded now r r' : node_step now r r' → bounded h r → bounded h r'.
Proof.
  intros [req|res|key rhash t conn| |l|l] Hb; try exact Hb.
  - unfold handle_control. destruct (request_type req); cbn [fst].
    + destruct (verify_binding (requester_key req) (requester_rhash req) (requested_type req) (requester_types req)
                  (binding_signature req)) eqn:Hv; [|unfold handle_register; by rewrite Hv].
      pose proof (handle_register_state h now req r Hv) as Hs. cbv zeta in Hs.
      destruct (handle_register h now req r) as [r1 ack]. cbn [fst] in *. rewrite Hs.
      apply admit_all_bounded, (foldl_preserves (bounded h)); [intros; by apply refresh_bounded|done].
    + unfold build_directory_response, admit_directory_query. by repeat case_match; simplify_eq/=.
    + unfold handle_heartbeat. repeat case_match; try done. by apply refresh_bounded.
    + unfold handle_register_ack. do 3 (case_match; [done|]). apply (foldl_preserves (bounded h)); [|done].
      intros r0 t0 Hb0. unfold register_peer_with_binding. repeat case_match; cbn [fst]; try done;
        apply installed_bounded; eauto using full_or_room.
  - unfold handle_directory_response. repeat case_match; try done. apply (foldl_preserves (bounded h)); [|done].
    intros r0 e Hb0. unfold install_entry, register_directory_peer. repeat case_match; cbn [fst]; try done;
      apply installed_bounded; eauto using full_or_room.
  - unfold register_peer. repeat case_match; cbn [fst]; try done; apply installed_bounded; eauto using full_or_room.
  - by apply evict_bounded.
Qed.

(** No bucket ever holds more nodes than its type allows, whatever requests,
    acknowledgements, directory responses and evictions a registry goes through. *)
Theorem capacity_respected declared r :
  rtc (λ r r', ∃ now, node_step now r r') (NodeRegistry_init declared) r →
  ∀ t, size (get_nodes t r) ≤ get_max_node_number h t.
Proof.
  intros Hr. apply (rtc_ind_r (bounded h) (NodeRegistry_init declared)) in Hr; [exact Hr| |].
  - intros []; apply Nat.le_0_l.
  - intros r1 r2 _ [now Hs] Hb. by eapply step_bounded.
Qed.

(** ** Query nonces *)

Lemma admit_all_nonces now req q reg acc fs r :
  query_nonces (admit_all h now req q reg acc fs r).1.1.1 = query_nonces r.
Proof.
  revert reg acc fs r. induction q as [|x q IH]; intros reg acc fs r; cbn [admit_all]; [done|].
  case_match; [by apply IH|]. unfold admit_node_under_type. by repeat case_match; simplify_eq; rewrite IH.
Qed.

Lemma refresh_nonces now key t r : query_nonces (refresh_last_seen now key t r) = query_nonces r.
Proof. unfold refresh_last_seen. by case_match. Qed.

Definition remembered (t0 : N) (k : bytes * bytes) (r : NodeRegistry) : Prop :=
  ∃ t, (t0 ≤ t)%N ∧ query_nonces r !! k = Some t.

Lemma query_remembers t0 k now req r :
  (t0 ≤ now < t0 + QUERY_NONCE_WINDOW)%N → remembered t0 k r → remembered t0 k (admit_directory_query h now req r).1.
Proof.
  intros Ht (t & Hle & Hk). unfold admit_directory_query. repeat case_match; try (by exists t). cbn [fst].
  match goal with |- remembered _ _ (with_nonces (<[?k' := _]> _) _) => destruct (decide (k' = k)) as [->|Hne] end.
  - exists now. split; [lia|]. cbn. by rewrite lookup_insert_eq.
  - exists t. split; [done|]. cbn. rewrite lookup_insert_ne by done. apply map_lookup_filter_Some_2; [done|].
    unfold sat_sub, QUERY_NONCE_WINDOW in *. cbn. lia.
Qed.

Lemma step_remembers t0 k now r r' :
  (t0 ≤ now < t0 + QUERY_NONCE_WINDOW)%N → node_step now r r' → remembered t0 k r → remembered t0 k r'.
Proof.
  intros Ht Hs Hr.
  assert (∀ r', query_nonces r' = query_nonces r → remembered t0 k r') as Hkeep by (unfold remembered; by intros r1 ->).
  destruct Hs as [req|res|key rhash t conn| |l|l]; try (by apply Hkeep).
  - unfold handle_control. destruct (request_type req); cbn [fst].
    + apply Hkeep. destruct (verify_binding (requester_key req) (requester_rhash req) (requested_type req)
                               (requester_types req) (binding_signature req)) eqn:Hv; [|unfold handle_register; by rewrite Hv].
      pose proof (handle_register_state h now req r Hv) as Hs. cbv zeta in Hs.
      destruct (handle_register h now req r) as [r1 ack]. cbn [fst] in *. rewrite Hs, admit_all_nonces.
      apply (foldl_preserves (λ r', query_nonces r' = query_nonces r)); [|done]. intros. by rewrite refresh_nonces.
    + unfold build_directory_response. pose proof (query_remembers t0 k now req r Ht Hr) as Hq.
      by destruct (admit_directory_query h now req r) as [r1 b].
    + apply Hkeep. unfold handle_heartbeat. repeat case_match; try done. by rewrite refresh_nonces.
    + apply Hkeep. unfold handle_register_ack. do 3 (case_match; [done|]).
      apply (foldl_preserves (λ r', query_nonces r' = query_nonces r)); [|done].
      intros r0 t0' <-. unfold register_peer_with_binding. by repeat case_match.
  - apply Hkeep. unfold handle_directory_response. repeat case_match; try done.
    apply (foldl_preserves (λ r', query_nonces r' = query_nonces r)); [|done].
    intros r0 e <-. unfold install_entry, register_directory_peer. by repeat case_match.
  - apply Hkeep. unfold register_peer. by repeat case_match.
Qed.

(** A directory query is answered at most once. After a query that names its
    responder and a nonce is admitted, every other query from the same address
    with that nonce goes unanswered until the window has passed, whatever else
    the registry processes in between. *)
Theorem query_nonce_answers_once t0 req r r1 r2 target nonce now req' :
  query_target req = Some target → query_nonce req = Some nonce →
  admit_directory_query h t0 req r = (r1, true) →
  rtc (λ r r', ∃ now, (t0 ≤ now < t0 + QUERY_NONCE_WINDOW)%N ∧ node_step now r r') r1 r2 →
  (t0 ≤ now < t0 + QUERY_NONCE_WINDOW)%N → is_Some (query_target req') → query_nonce req' = Some nonce →
  requester_rhash req' = requester_rhash req →
  (build_directory_response h now req' r2).2 = None.
Proof.
  intros Htg Hn Ha Hsteps Hnow [target' Htg'] Hn' Hrh.
  assert (remembered t0 (requester_rhash req, nonce) r1) as Hr1.
  { unfold admit_directory_query in Ha. rewrite Htg, Hn in Ha. repeat case_match; simplify_eq.
    exists t0. split; [done|]. apply lookup_insert_eq. }
  assert (remembered t0 (requester_rhash req, nonce) r2) as (t & Hle & Hk).
  { apply (rtc_ind_r (remembered t0 (requester_rhash req, nonce)) r1) in Hsteps; [done..|].
    intros ra rb _ (now' & Hw & Hs) Hr. by eapply step_remembers. }
  assert ((admit_directory_query h now req' r2).2 = false) as Hf.
  { unfold admit_directory_query. rewrite Htg', Hn', Hrh. repeat (case_match; [done|]). cbn [snd].
    rewrite (map_lookup_filter_Some_2 _ _ _ t); [done..|]. unfold sat_sub, QUERY_NONCE_WINDOW in *. cbn. lia. }
  unfold build_directory_response. destruct (admit_directory_query h now req' r2) as [r3 b]. cbn [snd] in *. by rewrite Hf.
Qed.
End histories.

(** ** Round the gates *)

Section gates.
Context `{HashIter} `{Rmp} `{SignaturePrims} (h : Host).

Definition ack_step (now : N) (req : NodeRequest) (key : bytes) (r : NodeRegistry) (t : NodeRegistryType) : NodeRegistry :=
  (register_peer_with_binding h now key (requester_rhash req) t (connect h (requester_rhash req)) req r).1.

Lemma ack_step_lookup now req key r t t' k :
  get_nodes t' (ack_step now req key r t) !! k =
  if bool_decide (t' = t ∧ k = key) then
    (if bool_decide (is_Some (get_nodes t r !! key)) || negb (type_is_maxed_out h t r) then Some (bound_node h now req) else None)
  else get_nodes t' r !! k.
Proof.
  unfold ack_step, register_peer_with_binding, type_is_maxed_out.
  destruct (get_nodes t r !! key) as [n|] eqn:E; [|case_match]; cbn [fst].
  all: rewrite ?insert_node_lookup; destruct (decide (t' = t ∧ k = key)) as [[-> ->]|Hne];
    [rewrite !bool_decide_true by done|rewrite !bool_decide_false by naive_solver]; cbn; try done.
  all: rewrite bool_decide_false by (by intros [? ?]); by cbn.
Qed.

Lemma ack_step_size now req key r t t' : t' ≠ t → get_nodes t' (ack_step now req key r t) = get_nodes t' r.
Proof.
  intros Hne. unfold ack_step, register_peer_with_binding, insert_node.
  repeat case_match; cbn [fst]; rewrite ?get_set_nodes_ne; done.
Qed.

(** An installed key keeps its entry, and a role with room gets one. *)
Lemma ack_fold_keeps now req key l r t :
  get_nodes t r !! key = Some (bound_node h now req) →
  get_nodes t (foldl (ack_step now req key) r l) !! key = Some (bound_node h now req).
Proof.
  apply (foldl_preserves (λ r, get_nodes t r !! key = Some (bound_node h now req))). intros r0 x Hk.
  rewrite ack_step_lookup. case_bool_decide as Hc; [|done]. destruct Hc as [-> _]. rewrite bool_decide_true by (by rewrite Hk). done.
Qed.

Lemma ack_fold_installs now req key l r t :
  t ∈ l → is_Some (get_nodes t r !! key) ∨ size (get_nodes t r) < get_max_node_number h t →
  get_nodes t (foldl (ack_step now req key) r l) !! key = Some (bound_node h now req).
Proof.
  revert r. induction l as [|x l IH]; intros r; [by intros ?%not_elem_of_nil|]. rewrite elem_of_cons. cbn [foldl].
  destruct (decide (t = x)) as [->|Hne].
  - intros _ Hroom. apply ack_fold_keeps. rewrite ack_step_lookup, bool_decide_true by done.
    destruct Hroom as [Hin|Hs]; [by rewrite bool_decide_true|].
    unfold type_is_maxed_out. apply Nat.leb_gt in Hs. rewrite Hs. by rewrite orb_true_r.
  - intros [->|Hl] Hroom; [done|]. apply IH; [done|]. by rewrite ack_step_size.
Qed.

Lemma ack_installs now req t key reason r role :
  request_type req = RegisterAck true t key reason → key ≠ [] →
  verify_binding key (requester_rhash req) t (requester_types req) (binding_signature req) = true →
  role ∈ requester_types req → size (get_nodes role r) < get_max_node_number h role →
  get_nodes role (handle_control h now req r).1 !! key = Some (bound_node h now req).
Proof.
  intros Hty Hkey Hv Hrole Hroom. unfold handle_control. rewrite Hty. cbn [fst]. unfold handle_register_ack. cbn [negb].
  destruct key as [|b key]; [done|]. cbn [is_nil]. rewrite Hv. cbn [negb].
  destruct (requester_types req) as [|x l] eqn:El; [by apply not_elem_of_nil in Hrole|]. cbn [is_nil].
  apply ack_fold_installs; [done|by right].
Qed.

(** The stake gate can be walked round. A registration of a key that fails
    the stake gate under every role gives it no role; an acknowledgement from the
    same key, which nobody has to have asked for and which only its own signature
    covers, installs it under every role it claims for itself that has room. *)
Theorem ack_skips_the_stake_gate now req t key reason r :
  request_type req = RegisterAck true t key reason → key ≠ [] →
  verify_binding key (requester_rhash req) t (requester_types req) (binding_signature req) = true →
  (∀ role, stake_check h key role = false) →
  (∀ role, role ∈ requester_types req → size (get_nodes role r) < get_max_node_number h role) →
  (∀ role, role ∈ requester_types req → role ∈ find_node_types_by_public_key h key (handle_control h now req r).1) ∧
  (∀ now' reg, requester_key reg = key →
     ∀ role, is_Some (get_nodes role (handle_register h now' reg r).1 !! key) → is_Some (get_nodes role r !! key)).
Proof.
  intros Hty Hkey Hv Hst Hroom. split.
  - intros role Hrole. apply roles_of_key_elem. left. rewrite (ack_installs now req t key reason) by auto. done.
  - intros now' reg Hreg role.
    destruct (verify_binding (requester_key reg) (requester_rhash reg) (requested_type reg) (requester_types reg)
                (binding_signature reg)) eqn:Hb; [|unfold handle_register; by rewrite Hb].
    rewrite handle_register_lookup, decide_True by done. rewrite <-Hreg. destruct (get_nodes role r !! requester_key reg); [done|].
    rewrite decide_False; [done|]. intros (_ & _ & _ & Hs & _). rewrite Hreg, Hst in Hs. done.
Qed.

(** ** Heartbeats *)

Lemma evict_get now r t : get_nodes t (evict_expired now r) = evict_nodes now (get_nodes t r).
Proof. by destruct t. Qed.

Definition heartbeats (beats : list (N * NodeRequest)) (r : NodeRegistry) : NodeRegistry :=
  foldl (λ r beat, handle_heartbeat h beat.1 beat.2 r) r beats.

Lemma roles_of_key_same key r r' :
  (∀ t, is_Some (get_nodes t r' !! key) ↔ is_Some (get_nodes t r !! key)) → self_delivery r' = self_delivery r →
  roles_of_key h key r' = roles_of_key h key r.
Proof.
  intros Hd Hs. unfold roles_of_key, self_delivery_roles. rewrite Hs.
  by rewrite (list_filter_iff (λ t, is_Some (get_nodes t r' !! key)) (λ t, is_Some (get_nodes t r !! key))).
Qed.

Lemma heartbeat_other at_ req r key t1 t :
  find_node_type_by_public_key h key r = Some t1 → t ≠ t1 →
  let r' := handle_heartbeat h at_ req r in
  get_nodes t r' !! key = get_nodes t r !! key ∧ find_node_type_by_public_key h key r' = Some t1.
Proof.
  intros Hf Hne. cbv zeta. unfold handle_heartbeat. case_match; [done|].
  destruct (find_node_type_by_public_key h (requester_key req) r) as [x|] eqn:Ex; [|done]. split.
  - rewrite refresh_lookup, bool_decide_false; [done|]. intros [-> Hk]. congruence.
  - unfold find_node_type_by_public_key in *. rewrite <-Hf. f_equal. apply roles_of_key_same.
    + intros t'. rewrite refresh_lookup. case_bool_decide; [by rewrite fmap_is_Some|done].
    + unfold refresh_last_seen. by case_match.
Qed.

(** Heartbeats keep one role of a node alive. A node known under several
    roles, say from directory responses, is refreshed only under the first of
    them by its heartbeats: however many arrive, from it or from others, the
    first eviction after thirty seconds drops it from every other role. *)
Theorem heartbeats_keep_one_role key t1 t n r beats now :
  find_node_type_by_public_key h key r = Some t1 → t ≠ t1 → get_nodes t r !! key = Some n →
  (last_seen n + 30 < now)%N →
  get_nodes t (evict_expired now (heartbeats beats r)) !! key = None.
Proof.
  intros Hf Hne Hn Hold.
  assert (get_nodes t (heartbeats beats r) !! key = Some n ∧
          find_node_type_by_public_key h key (heartbeats beats r) = Some t1) as [Hk _].
  { apply (foldl_preserves (λ r, get_nodes t r !! key = Some n ∧ find_node_type_by_public_key h key r = Some t1)); [|done].
    intros r0 beat [Hk Hr]. destruct (heartbeat_other beat.1 beat.2 r0 key t1 t Hr Hne) as [Hsame Hr']. by rewrite Hsame. }
  rewrite evict_get. unfold evict_nodes. apply map_lookup_filter_None. right. rewrite Hk. intros x [= <-]. cbn. lia.
Qed.

(** ** Directories *)

Lemma install_entry_lookup now t r e t' k :
  get_nodes t' (install_entry h now t r e) !! k = get_nodes t' r !! k ∨
  (t' = t ∧ k = node_key e ∧ k ≠ h_public_key h ∧
   get_nodes t' (install_entry h now t r e) !! k =
     Some match get_nodes t r !! k with
          | Some n => with_last_seen now n
          | None => Node_new now (node_rhash e) (connect h (node_rhash e))
          end).
Proof.
  unfold install_entry. destruct (bool_decide (node_rhash e = h_rhash h)); [by left|].
  destruct (bool_decide_reflect (node_key e = h_public_key h)) as [|Hne]; [by left|]. cbn [orb]. unfold register_directory_peer.
  destruct (decide (t' = t ∧ k = node_key e)) as [[-> ->]|Hd].
  - destruct (get_nodes t r !! node_key e) as [n|] eqn:E; [|case_match; [by left|]]; right; cbn [fst];
      rewrite insert_node_lookup, bool_decide_true by done; done.
  - left. destruct (get_nodes t r !! node_key e); [|case_match; [done|]]; cbn [fst];
      rewrite insert_node_lookup, bool_decide_false by naive_solver; done.
Qed.

Definition same_binding (n n' : NodeRegistryNode) : Prop :=
  nd_rhash n' = nd_rhash n ∧ nd_conn n' = nd_conn n ∧ directory_signature n' = directory_signature n.

Lemma install_keeps now t l r t' k n :
  get_nodes t' r !! k = Some n → ∃ n', get_nodes t' (foldl (install_entry h now t) r l) !! k = Some n' ∧ same_binding n n'.
Proof.
  intros Hn. apply (foldl_preserves (λ r, ∃ n', get_nodes t' r !! k = Some n' ∧ same_binding n n')); [|by exists n].
  intros r0 e (n' & Hn' & Hsame).
  destruct (install_entry_lookup now t r0 e t' k) as [Heq|(-> & -> & _ & Heq)]; rewrite Heq; [by exists n'|].
  rewrite Hn'. by exists (with_last_seen now n').
Qed.

Lemma install_new now t l r t' k :
  get_nodes t' r !! k = None → is_Some (get_nodes t' (foldl (install_entry h now t) r l) !! k) →
  t' = t ∧ k ≠ h_public_key h ∧ ∃ e, e ∈ l ∧ node_key e = k.
Proof.
  revert r. induction l as [|e l IH]; intros r Hn; cbn [foldl]; [by rewrite Hn; intros [? ?]|]. intros Hs.
  destruct (get_nodes t' (install_entry h now t r e) !! k) as [n|] eqn:E.
  - destruct (install_entry_lookup now t r e t' k) as [Heq|(-> & -> & Hne & _)]; [congruence|].
    split_and!; [done..|]. exists e. split; [left|done].
  - destruct (IH _ E Hs) as (-> & Hne & e' & He' & Hk). split_and!; [done..|]. exists e'. split; [by right|done].
Qed.

(** A directory response never redirects a known peer. Every entry a registry
    holds keeps its address, connection and binding through any response; a key
    the response adds is another node's, comes with a binding of its own that
    verifies, and is filed under the type the response names. *)
Theorem directory_never_redirects now res r :
  let r' := (handle_directory_response h now res r).1 in
  (∀ t k n, get_nodes t r !! k = Some n → ∃ n', get_nodes t r' !! k = Some n' ∧ same_binding n n') ∧
  (∀ t k, get_nodes t r !! k = None → is_Some (get_nodes t r' !! k) →
     t = registry_type res ∧ k ≠ h_public_key h ∧ ∃ e, e ∈ entries res ∧ node_key e = k ∧ entry_bound e = true).
Proof.
  cbv zeta. unfold handle_directory_response.
  assert ((∀ t k n, get_nodes t r !! k = Some n → ∃ n', get_nodes t r !! k = Some n' ∧ same_binding n n') ∧
    (∀ t k, get_nodes t r !! k = None → is_Some (get_nodes t r !! k) →
     t = registry_type res ∧ k ≠ h_public_key h ∧ ∃ e, e ∈ entries res ∧ node_key e = k ∧ entry_bound e = true)) as Hsame.
  { split; [intros t k n Hn; by exists n|]. intros t k Hn [? ?]. congruence. }
  case_match; [exact Hsame|]. case_match; [|exact Hsame]. case_match; [exact Hsame|].
  destruct (forallb entry_bound (entries res)) eqn:Hall; cbn [negb fst]; [|exact Hsame]. split.
  - intros t k n. apply install_keeps.
  - intros t k Hn Hs. destruct (install_new now _ _ r t k Hn Hs) as (-> & Hne & e & He & Hk). split_and!; [done..|].
    exists e. split_and!; [done..|]. rewrite forallb_forall in Hall. by apply Hall, list_elem_of_In.
Qed.

(** One acknowledgement spoils a directory. An acknowledgement is checked
    under the type inside it and stored under the type of its envelope: when the
    signer makes the two differ, the entry that results fails the check every
    receiver makes, and a response is refused whole for one bad entry. From then
    on no directory response for that role is accepted by anyone. *)
Theorem mismatched_ack_spoils_directory now req t key reason r role :
  request_type req = RegisterAck true t key reason → key ≠ [] → binding_signature req ≠ [] →
  verify_binding key (requester_rhash req) t (requester_types req) (binding_signature req) = true →
  verify_binding key (requester_rhash req) (requested_type req) (requester_types req) (binding_signature req) = false →
  role ∈ requester_types req → size (get_nodes role r) < get_max_node_number h role →
  ∀ now' q res, requested_type q = role →
    (build_directory_response h now' q (handle_control h now req r).1).2 = Some res →
    ∀ h2 now2 r2, (handle_directory_response h2 now2 res r2).1 = r2 ∧ is_ok (handle_directory_response h2 now2 res r2).2 = false.
Proof.
  intros Hty Hkey Hsig Hv Hbad Hrole Hroom now' q res Hq Hres h2 now2 r2.
  pose proof (ack_installs now req t key reason r role Hty Hkey Hv Hrole Hroom) as Hk.
  set (r1 := (handle_control h now req r).1) in *.
  assert (∃ e, e ∈ entries res ∧ entry_bound e = false) as (e & He & Hb).
  { unfold build_directory_response in Hres.
    destruct (admit_directory_query h now' q r1) as [r3 b] eqn:Ea. cbn [snd] in Hres. repeat case_match; simplify_eq. cbn [entries].
    exists (mkDirEntry key (requester_rhash req) (binding_signature req) (requested_type req) (requester_types req)).
    split; [|done]. unfold directory_entries. apply list_elem_of_omap. exists (key, bound_node h now req). split.
    - rewrite hash_iter_perm. apply elem_of_map_to_list.
      assert (∀ t, get_nodes t r3 = get_nodes t r1) as -> by (unfold admit_directory_query in Ea; intros []; repeat case_match; by simplify_eq).
      done.
    - unfold directory_entry. cbn. by destruct (binding_signature req). }
  unfold handle_directory_response. case_match; [done|]. case_match; [|done]. case_match; [done|].
  destruct (forallb entry_bound (entries res)) eqn:Hall; [|done].
  rewrite forallb_forall in Hall. rewrite Hall in Hb; [done|by apply list_elem_of_In].
Qed.
End gates.

(** ** The properties at concrete nodes *)

Module ConcreteNodes.
Import ConcreteCrypto.
Export Concrete.
#[export] Existing Instance forward_iter.

Definition signer : AsymCryptoProvider := provider_of 0 node_keys.
Definition key : bytes := ed_public (signing_seed node_keys).
Definition room : gmap NodeRegistryType nat := {[Committer := 2; Sentinel := 2; Finalizer := 2]}.
Definition host : Host := mkHost [1%N] [2%N] room false signer (λ _ _, false) (Some (λ _, true)).
Definition empty : NodeRegistry := NodeRegistry_init [Committer].

Definition signature (t : NodeRegistryType) (types : list NodeRegistryType) : bytes :=
  match sign_binding signer [9%N] t types with Ok s => s | Err _ => [] end.
Definition ack (envelope : NodeRegistryType) : NodeRequest :=
  mkNodeRequest key [9%N] (RegisterAck true Finalizer key "") [Sentinel; Finalizer] envelope
    (signature Finalizer [Sentinel; Finalizer]) None None.

Lemma ack_verifies : verify_binding key [9%N] Finalizer [Sentinel; Finalizer] (signature Finalizer [Sentinel; Finalizer]) = true.
Proof. by vm_compute. Qed.

Lemma role_has_room role : role ∈ [Sentinel; Finalizer] → size (get_nodes role empty) < get_max_node_number host role.
Proof. rewrite !elem_of_cons. intros [->|[->|?%not_elem_of_nil]]; [by apply Nat.ltb_lt..|done]. Qed.

Lemma ack_witness :
  Sentinel ∈ find_node_types_by_public_key host key (handle_control host 5 (ack Finalizer) empty).1.
Proof.
  refine (proj1 (ack_skips_the_stake_gate host 5 (ack Finalizer) Finalizer key "" empty eq_refl _ ack_verifies _ _) Sentinel _).
  - by vm_compute.
  - done.
  - exact role_has_room.
  - left.
Defined.

Lemma spoiled_witness :
  ∀ now' q res, requested_type q = Sentinel →
    (build_directory_response host now' q (handle_control host 5 (ack Committer) empty).1).2 = Some res →
    ∀ h2 now2 r2, (handle_directory_response h2 now2 res r2).1 = r2 ∧ is_ok (handle_directory_response h2 now2 res r2).2 = false.
Proof.
  refine (mismatched_ack_spoils_directory host 5 (ack Committer) Finalizer key "" empty Sentinel eq_refl _ _ ack_verifies _ _ _).
  - by vm_compute.
  - by vm_compute.
  - by vm_compute.
  - left.
  - apply role_has_room. left.
Defined.

(** Known as a sentinel and as a finalizer, and never refreshed as a finalizer. *)
Definition known : NodeRegistry := (handle_control host 5 (ack Finalizer) empty).1.

Lemma heartbeat_witness :
  get_nodes Finalizer (evict_expired 50 (heartbeats host [(20%N, ack Finalizer); (40%N, ack Finalizer)] known)) !! key = None.
Proof.
  assert (get_nodes Finalizer known !! key = Some (bound_node host 5 (ack Finalizer))) as Hk.
  { refine (ack_installs host 5 (ack Finalizer) Finalizer key "" empty Finalizer eq_refl _ ack_verifies _ _).
    - by vm_compute.
    - right. left.
    - apply role_has_room. right. left. }
  apply (heartbeats_keep_one_role host key Sentinel Finalizer (bound_node host 5 (ack Finalizer)) known _ 50); [by vm_compute|done|exact Hk|by vm_compute].
Defined.

Lemma capacity_witness : size (get_nodes Sentinel known) ≤ 2.
Proof.
  apply (capacity_respected host [Committer] known). apply rtc_once. exists 5%N. apply step_control.
Defined.

Definition query : NodeRequest :=
  mkNodeRequest key [9%N] Request [] Sentinel
    (match sign_query signer [9%N] [2%N] [4%N] Sentinel [] with Ok s => s | Err _ => [] end) (Some [2%N]) (Some [4%N]).

Lemma nonce_witness : (build_directory_response host 60 query (admit_directory_query host 10 query empty).1).2 = None.
Proof.
  assert ((admit_directory_query host 10 query empty).2 = true) as Ha by (by vm_compute).
  destruct (admit_directory_query host 10 query empty) as [r1 b] eqn:E. cbn [snd fst] in *. subst b.
  refine (query_nonce_answers_once host 10 query empty r1 r1 [2%N] [4%N] 60 query eq_refl eq_refl E (rtc_refl _ _) _
    (ex_intro _ [2%N] eq_refl) eq_refl eq_refl).
  by split.
Defined.
End ConcreteNodes.
