(* ===== verification/StakeIndex.v ===== *)
(** * The stake index behind the registration gate (src/src/node/stake_index.rs)

    A map from keys to the stakes of the current epoch's snapshot, replaced entry
    by entry by two threads (the refresher's tick and an epoch change) while the
    gate reads it. The replacement is a sequence of map operations, so that a
    reader, and the other thread, can come between any two of them. *)

From S2P Require Import Prelude Interfaces Types StakeSets Float Environment Config Serialize Crypto DataProvider NodeRegistry NodeSafety.

Record StakeIndex := mkStakeIndex {
  si_inner : gmap bytes N;
  si_partition : string;
  si_epoch : N;
  si_shutdown : bool;
  si_started : bool;
}.

Definition StakeIndex_new (partition : string) (epoch : N) : StakeIndex := mkStakeIndex ∅ partition epoch false false.
Definition set_inner (m : gmap bytes N) (x : StakeIndex) : StakeIndex :=
  mkStakeIndex m (si_partition x) (si_epoch x) (si_shutdown x) (si_started x).

Definition start (x : StakeIndex) : StakeIndex :=
  if si_started x then x else mkStakeIndex (si_inner x) (si_partition x) (si_epoch x) (si_shutdown x) true.
Definition stop (x : StakeIndex) : StakeIndex := mkStakeIndex (si_inner x) (si_partition x) (si_epoch x) true false.

(** ** Replacing the entries *)

Inductive map_op := Remove (key : bytes) | Insert (key : bytes) (stake : N).

Definition run_op (m : gmap bytes N) (o : map_op) : gmap bytes N :=
  match o with Remove k => delete k m | Insert k v => <[k := v]> m end.

Section index.
Context `{HashIter}.

(** The keys dropped since the last snapshot go first, then the new entries are
    written, each in the map's iteration order. *)
Definition stale_keys (inner new : gmap bytes N) : list bytes := filter (λ k, new !! k = None) (hash_keys inner).
Definition write_ops (new : gmap bytes N) : list map_op := (λ kv, Insert kv.1 kv.2) <$> hash_iter new.
Definition replace_ops (inner new : gmap bytes N) : list map_op := (Remove <$> stale_keys inner new) ++ write_ops new.
Definition replace_inner_map (inner new : gmap bytes N) : gmap bytes N := foldl run_op inner (replace_ops inner new).

Section provider.
Context `{DataProvider}.

Definition build_index (st : store) (partition : string) (epoch : N) : result DataError (gmap bytes N) :=
  snapshot ← get_stake_snapshot st epoch partition;
  Ok (foldl (λ m kv, <[kv.1 := kv.2]> m) ∅ (hash_iter (stakers snapshot))).

Definition refresh (st : store) (x : StakeIndex) : StakeIndex * result DataError () :=
  match build_index st (si_partition x) (si_epoch x) with
  | Ok new => (set_inner (replace_inner_map (si_inner x) new) x, Ok ())
  | Err e => (x, Err e)
  end.

(** A failure is logged. *)
Definition warm (st : store) (x : StakeIndex) : StakeIndex := (refresh st x).1.

Definition set_epoch (st : store) (epoch : N) (x : StakeIndex) : StakeIndex :=
  (refresh st (mkStakeIndex (si_inner x) (si_partition x) epoch (si_shutdown x) (si_started x))).1.

(** One turn of [refresher_loop]. *)
Definition refresher_turn (st : store) (x : StakeIndex) : StakeIndex := if si_shutdown x then x else warm st x.
End provider.

(** The gate: a lookup and the configuration's floors. *)
Definition make_check (c : Config) (inner : gmap bytes N) (key : bytes) (t : NodeRegistryType) : bool :=
  meets_minimum_stake (default 0%N (inner !! key)) (get_global_min_stake c) (get_min_type_stake c t).
End index.

(** ** Threads

    A refresh, of the refresher's turn or of an epoch change, goes through phases:
    it has read the epoch, has the snapshot, has collected the stale keys and is
    on its way through the operations, or has failed. An operation on the shared
    map, and the collection of its stale keys, is one step. [pointed] and [served]
    record the epochs the index has been pointed at and what the data service
    answered. *)

Inductive Refresh :=
| Fetching (epoch : N)
| Collecting (epoch : N) (new : gmap bytes N)
| Applying (epoch : N) (new : gmap bytes N) (ops : list map_op)
| Unchanged.

Record IndexSystem := mkSystem {
  shared : gmap bytes N;
  epoch_cell : N;
  refreshes : list Refresh;
  pointed : list N;
  served : list (N * gmap bytes N);
}.

Definition set_refresh (i : nat) (w : Refresh) (y : IndexSystem) : IndexSystem :=
  mkSystem (shared y) (epoch_cell y) (<[i := w]> (refreshes y)) (pointed y) (served y).
Definition note_served (epoch : N) (new : gmap bytes N) (y : IndexSystem) : IndexSystem :=
  mkSystem (shared y) (epoch_cell y) (refreshes y) (pointed y) (served y ++ [(epoch, new)]).
Definition set_shared (m : gmap bytes N) (y : IndexSystem) : IndexSystem :=
  mkSystem m (epoch_cell y) (refreshes y) (pointed y) (served y).

Inductive index_step `{HashIter} `{DataProvider} (partition : string) (y : IndexSystem) : IndexSystem → Prop :=
(** [*self.epoch.write() = epoch] *)
| step_point epoch : index_step partition y (mkSystem (shared y) epoch (refreshes y) (pointed y ++ [epoch]) (served y))
(** [*self.epoch.read()] *)
| step_begin : index_step partition y (mkSystem (shared y) (epoch_cell y) (refreshes y ++ [Fetching (epoch_cell y)]) (pointed y) (served y))
(** [build_index], on the store as it is then *)
| step_fetch i st epoch new :
    refreshes y !! i = Some (Fetching epoch) → build_index st partition epoch = Ok new →
    index_step partition y (note_served epoch new (set_refresh i (Collecting epoch new) y))
| step_fail i st epoch e :
    refreshes y !! i = Some (Fetching epoch) → build_index st partition epoch = Err e →
    index_step partition y (set_refresh i Unchanged y)
(** the first statement of [replace_inner_map], and its loops *)
| step_collect i epoch new :
    refreshes y !! i = Some (Collecting epoch new) →
    index_step partition y (set_refresh i (Applying epoch new (replace_ops (shared y) new)) y)
| step_op i epoch new o rest :
    refreshes y !! i = Some (Applying epoch new (o :: rest)) →
    index_step partition y (set_shared (run_op (shared y) o) (set_refresh i (Applying epoch new rest) y)).

Definition system_start (epoch : N) : IndexSystem := mkSystem ∅ epoch [] [epoch] [].

(** ** Lemmas *)

Section lemmas.
Context `{HashIter}.

Lemma foldl_insert_list (l : list (bytes * N)) (m : gmap bytes N) :
  NoDup l.*1 → foldl (λ m kv, <[kv.1 := kv.2]> m) m l = list_to_map l ∪ m.
Proof.
  revert m. induction l as [|[k v] l IH]; intros m; cbn [foldl fmap list_fmap fst snd]; [intros _; by rewrite list_to_map_nil, map_empty_union|].
  intros [Hk Hl]%NoDup_cons. rewrite (IH _ Hl). rewrite list_to_map_cons, <-insert_union_l.
  symmetry. apply insert_union_r, not_elem_of_list_to_map_1, Hk.
Qed.

Lemma collected (m : gmap bytes N) : foldl (λ m kv, <[kv.1 := kv.2]> m) ∅ (hash_iter m) = m.
Proof.
  rewrite foldl_insert_list by apply hash_iter_NoDup. rewrite map_union_empty.
  rewrite (list_to_map_proper _ (map_to_list m)) by (apply hash_iter_NoDup || apply hash_iter_perm). apply list_to_map_to_list.
Qed.

(** What is read back from a snapshot is the snapshot. *)
Lemma build_index_ok `{DataProvider} st partition epoch :
  build_index st partition epoch = (s ← get_stake_snapshot st epoch partition; Ok (stakers s)).
Proof. unfold build_index. destruct (get_stake_snapshot _ _ _); [|done]. simpl. by rewrite collected. Qed.

Lemma removes_lookup ks m k : foldl run_op m (Remove <$> ks) !! k = if decide (k ∈ ks) then None else m !! k.
Proof.
  revert m. induction ks as [|x ks IH]; intros m; cbn [foldl fmap list_fmap run_op]; [by rewrite decide_False by set_solver|].
  rewrite IH. destruct (decide (k = x)) as [->|Hne].
  - rewrite lookup_delete_eq. rewrite (decide_True (P:=x ∈ x :: ks)) by set_solver. by destruct (decide _).
  - rewrite lookup_delete_ne by done. by rewrite (decide_ext (k ∈ x :: ks) (k ∈ ks)) by set_solver.
Qed.

Lemma writes_foldl l m : foldl run_op m ((λ kv : bytes * N, Insert kv.1 kv.2) <$> l) = foldl (λ m kv, <[kv.1 := kv.2]> m) m l.
Proof. revert m. induction l as [|kv l IH]; intros m; [done|]. cbn [foldl fmap list_fmap run_op]. apply IH. Qed.

Lemma stale_keys_spec inner new k : k ∈ stale_keys inner new ↔ is_Some (inner !! k) ∧ new !! k = None.
Proof.
  unfold stale_keys, hash_keys. rewrite list_elem_of_filter, list_elem_of_fmap. split.
  - intros (Hn & [k' v] & -> & Hin). cbn [fst] in *. rewrite hash_iter_perm, elem_of_map_to_list in Hin. split; [by rewrite Hin|done].
  - intros ([v Hv] & Hn). split; [done|]. exists (k, v). by rewrite hash_iter_perm, elem_of_map_to_list.
Qed.

Lemma replace_inner_map_eq inner new : replace_inner_map inner new = new.
Proof.
  unfold replace_inner_map, replace_ops, write_ops. rewrite foldl_app, writes_foldl, foldl_insert_list by apply hash_iter_NoDup.
  rewrite (list_to_map_proper _ (map_to_list new)) by (apply hash_iter_NoDup || apply hash_iter_perm).
  rewrite list_to_map_to_list. apply map_eq. intros k. rewrite lookup_union, removes_lookup.
  destruct (new !! k) as [v|] eqn:Hn; [by destruct (decide _), (inner !! k)|].
  destruct (decide _) as [|Hs]; [done|]. destruct (inner !! k) eqn:Hi; [|done].
  exfalso. apply Hs, stale_keys_spec. by rewrite Hi.
Qed.

(** What each operation writes comes from the snapshot. *)
Lemma write_ops_from new k v : Insert k v ∈ write_ops new → new !! k = Some v.
Proof.
  unfold write_ops. rewrite list_elem_of_fmap. intros ([k' v'] & [= -> ->] & Hin). cbn [fst snd] in *.
  by rewrite hash_iter_perm, elem_of_map_to_list in Hin.
Qed.

(** A stake in the index, or about to be written, was served for an epoch the
    index was pointed at. *)
Definition from_served (y : IndexSystem) (k : bytes) (v : N) : Prop :=
  ∃ epoch s, (epoch, s) ∈ served y ∧ epoch ∈ pointed y ∧ s !! k = Some v.

Definition refresh_sourced (y : IndexSystem) (w : Refresh) : Prop :=
  match w with
  | Fetching e => e ∈ pointed y
  | Collecting e s => e ∈ pointed y ∧ (e, s) ∈ served y
  | Applying e s ops => e ∈ pointed y ∧ (e, s) ∈ served y ∧ (∀ k v, Insert k v ∈ ops → s !! k = Some v)
  | Unchanged => True
  end.

Definition sourced (y : IndexSystem) : Prop :=
  epoch_cell y ∈ pointed y ∧ (∀ k v, shared y !! k = Some v → from_served y k v) ∧ (∀ w, w ∈ refreshes y → refresh_sourced y w).

Lemma from_served_mono y y' k v :
  pointed y ⊆ pointed y' → served y ⊆ served y' → from_served y k v → from_served y' k v.
Proof. intros Hp Hs (e & s & ? & ? & ?). exists e, s. auto. Qed.
Lemma refresh_sourced_mono y y' w :
  pointed y ⊆ pointed y' → served y ⊆ served y' → refresh_sourced y w → refresh_sourced y' w.
Proof. intros Hp Hs. destruct w; cbn; naive_solver. Qed.

Lemma set_refresh_elem i w x (l : list Refresh) : x ∈ <[i := w]> l → x = w ∨ x ∈ l.
Proof.
  intros [j Hj]%list_elem_of_lookup. destruct (decide (i = j)) as [->|Hne].
  - pose proof (lookup_lt_Some _ _ _ Hj) as Hl. rewrite length_insert in Hl. rewrite list_lookup_insert_eq in Hj by done. left. congruence.
  - rewrite list_lookup_insert_ne in Hj by done. right. by eapply list_elem_of_lookup_2.
Qed.

(** A step that leaves the map alone and moves one refresh to a sourced phase. *)
Lemma sourced_quiet y i w e s :
  sourced y → (∀ y', pointed y ⊆ pointed y' → (e, s) ∈ served y' → refresh_sourced y' w) → sourced (note_served e s (set_refresh i w y)).
Proof.
  intros (Hc & Hsh & Hr) Hw. set (y' := note_served _ _ _). assert (served y ⊆ served y') as Hs by (cbn; set_solver).
  split_and!; [done|intros k v Hk; by apply (from_served_mono y y'), Hsh|].
  intros x [->|Hx]%set_refresh_elem; [apply Hw; cbn; set_solver|by apply (refresh_sourced_mono y y'); [done|done|apply Hr]].
Qed.

Lemma sourced_move y i w : sourced y → refresh_sourced y w → sourced (set_refresh i w y).
Proof.
  intros (Hc & Hsh & Hr) Hw. split_and!; [done|exact Hsh|]. by intros x [->|Hx]%set_refresh_elem; [|apply Hr].
Qed.

Lemma sourced_step `{DataProvider} partition y y' : index_step partition y y' → sourced y → sourced y'.
Proof.
  intros Hstep Hsrc. pose proof Hsrc as (Hc & Hsh & Hr). destruct Hstep as [epoch| |i st epoch new Hi Hb|i st epoch e Hi Hb|i epoch new Hi|i epoch new o rest Hi];
    try (pose proof (Hr _ (list_elem_of_lookup_2 _ _ _ Hi)) as Hw; cbn in Hw).
  - set (y' := mkSystem _ _ _ _ _). assert (pointed y ⊆ pointed y') as Hp by (cbn; set_solver).
    split_and!; [cbn; set_solver|intros k v Hk; by apply (from_served_mono y y'), Hsh|].
    intros w Hw. by apply (refresh_sourced_mono y y'); [done|done|apply Hr].
  - split_and!; [done|exact Hsh|]. intros w [Hw|Hw%list_elem_of_singleton]%elem_of_app; [by apply (refresh_sourced_mono y); [done|done|apply Hr]|by subst w].
  - apply sourced_quiet; [done|]. intros y' Hp Hs. split; [by apply Hp|done].
  - by apply sourced_move.
  - apply sourced_move; [done|]. destruct Hw as [Hp Hs]. split_and!; [done..|]. intros k v.
    unfold replace_ops. rewrite elem_of_app, list_elem_of_fmap. intros [(? & ? & ?)|Hin]; [done|by apply write_ops_from].
  - destruct Hw as (Hp & Hs & Hops). destruct (sourced_move y i (Applying epoch new rest) Hsrc) as (Hc' & _ & Hr').
    { split_and!; [done..|]. intros k v Hin. apply Hops. by right. }
    split_and!; [done| |done]. intros k v Hk. destruct o as [k'|k' v']; cbn in Hk; [apply lookup_delete_Some in Hk as [_ Hk]; by apply Hsh|].
    apply lookup_insert_Some in Hk as [[-> ->]|[_ Hk]]; [|by apply Hsh]. exists epoch, new. split_and!; [done..|]. apply Hops. left.
Qed.

Lemma sourced_reachable `{DataProvider} partition epoch y :
  rtc (index_step partition) (system_start epoch) y → sourced y.
Proof.
  intros Hr. assert (sourced (system_start epoch)) as Hs.
  { split_and!; cbn; [set_solver|intros k v; by rewrite lookup_empty|intros w Hw; by apply elem_of_nil in Hw]. }
  revert Hs. induction Hr; eauto using sourced_step.
Qed.

(** ** A refresh that runs alone *)

Definition settled (w : Refresh) : Prop := match w with Unchanged => True | Applying _ _ ops => ops = [] | _ => False end.
Definition quiet (y : IndexSystem) : Prop := Forall settled (refreshes y).

(** What the map is while one refresh runs from the map [m]. *)
Definition lone_map (m : gmap bytes N) (w : Refresh) (m' : gmap bytes N) : Prop :=
  match w with
  | Applying _ new ops => ∃ done, replace_ops m new = done ++ ops ∧ m' = foldl run_op m done
  | _ => m' = m
  end.

(** Nothing has begun since [y], or one refresh. *)
Definition lone (y y' : IndexSystem) : Prop :=
  refreshes y' = refreshes y ∧ shared y' = shared y ∧ (pointed y' = pointed y → epoch_cell y' = epoch_cell y) ∨
  ∃ w, refreshes y' = refreshes y ++ [w] ∧ lone_map (shared y) w (shared y') ∧
    (pointed y' = pointed y → epoch_cell y' = epoch_cell y ∧
      match w with Fetching e | Collecting e _ | Applying e _ _ => e = epoch_cell y | Unchanged => True end).

Lemma quiet_settled y i w0 : quiet y → refreshes y !! i = Some w0 → settled w0.
Proof. intros Hq Hi. unfold quiet in Hq. rewrite Forall_forall in Hq. apply Hq. by eapply list_elem_of_lookup_2. Qed.

(** What is being moved is the last refresh. *)
Lemma moved_is_last y i w w0 w1 :
  quiet y → (refreshes y ++ [w]) !! i = Some w0 → ¬ settled w0 → w0 = w ∧ <[i := w1]> (refreshes y ++ [w]) = refreshes y ++ [w1].
Proof.
  intros Hq Hi Hw. apply lookup_app_Some in Hi as [Hi|[Hl Hi]].
  - by destruct (Hw (quiet_settled _ _ _ Hq Hi)).
  - apply list_lookup_singleton_Some in Hi as [Hi <-]. split; [done|].
    replace i with (length (refreshes y) + 0) by lia. by rewrite insert_app_r.
Qed.
Lemma pointed_again (l l' : list N) e : l' ++ [e] = l → length l ≤ length l' → False.
Proof. intros <-. rewrite length_app. cbn. lia. Qed.

Lemma lone_refresh_step `{DataProvider} partition y y1 y2 :
  quiet y → length (pointed y) ≤ length (pointed y1) → lone y y1 → index_step partition y1 y2 →
  length (refreshes y2) ≤ S (length (refreshes y)) → lone y y2.
Proof.
  intros Hq Hlen Hl Hstep Hle. destruct Hstep as [epoch| |i st epoch new Hi Hb|i st epoch e Hi Hb|i epoch new Hi|i epoch new o rest Hi].
  - destruct Hl as [(Hr & Hs & _)|(w & Hr & Hm & _)]; [left|right; exists w]; cbn; (split_and!; [done..|]); intros Hp; destruct (pointed_again _ _ _ Hp Hlen).
  - destruct Hl as [(Hr & Hs & Hc)|(w & Hr & _)].
    + right. exists (Fetching (epoch_cell y1)). cbn. rewrite Hr, Hs. split_and!; [done..|]. intros Hp. by rewrite Hc.
    + cbn in Hle. rewrite Hr, !length_app in Hle. cbn in Hle. lia.
  - destruct Hl as [(Hr & _)|(w & Hr & Hm & Hc)]; rewrite Hr in Hi; [by pose proof (quiet_settled _ _ _ Hq Hi)|].
    destruct (moved_is_last y i w _ (Collecting epoch new) Hq Hi) as [<- He]; [intros Hf; by cbn in Hf|]. right. exists (Collecting epoch new). cbn. by rewrite Hr, He.
  - destruct Hl as [(Hr & _)|(w & Hr & Hm & Hc)]; rewrite Hr in Hi; [by pose proof (quiet_settled _ _ _ Hq Hi)|].
    destruct (moved_is_last y i w _ Unchanged Hq Hi) as [<- He]; [intros Hf; by cbn in Hf|]. right. exists Unchanged. cbn. rewrite Hr, He. split_and!; [done..|naive_solver].
  - destruct Hl as [(Hr & _)|(w & Hr & Hm & Hc)]; rewrite Hr in Hi; [by pose proof (quiet_settled _ _ _ Hq Hi)|].
    destruct (moved_is_last y i w _ (Applying epoch new (replace_ops (shared y1) new)) Hq Hi) as [<- He]; [intros Hf; by cbn in Hf|]. cbn in Hm. right.
    eexists. cbn. rewrite Hr, He. split_and!; [done| |done]. exists []. by rewrite Hm.
  - destruct Hl as [(Hr & _)|(w & Hr & Hm & Hc)]; rewrite Hr in Hi; [by pose proof (quiet_settled _ _ _ Hq Hi)|].
    destruct (moved_is_last y i w _ (Applying epoch new rest) Hq Hi) as [<- He]; [intros Hf; by cbn in Hf|]. right. eexists. cbn. rewrite Hr, He.
    split_and!; [done| |done]. destruct Hm as (dn & Hd & Hm). exists (dn ++ [o]). by rewrite Hd, <-app_assoc, foldl_app, Hm.
Qed.

Lemma refreshes_grow `{DataProvider} partition y y' :
  rtc (index_step partition) y y' → length (refreshes y) ≤ length (refreshes y') ∧ length (pointed y) ≤ length (pointed y').
Proof.
  induction 1 as [|y1 y2 y3 Hs _ [IH1 IH2]]; [done|]. destruct Hs; cbn in *; rewrite ?length_insert, ?length_app in *; cbn in *; lia.
Qed.

Lemma lone_run `{DataProvider} partition y y' :
  quiet y → rtc (index_step partition) y y' → length (refreshes y') ≤ S (length (refreshes y)) → lone y y'.
Proof.
  intros Hq. revert y'. apply (rtc_ind_r (λ y', length (refreshes y') ≤ S (length (refreshes y)) → lone y y')); [left; by split_and!|].
  intros y1 y2 Hr Hs IH Hle.
  destruct (refreshes_grow _ _ _ Hr) as [_ Hp]. destruct (refreshes_grow _ _ _ (rtc_once _ _ Hs)) as [Hg _].
  eapply lone_refresh_step; [done|exact Hp|apply IH; lia|exact Hs|done].
Qed.

(** Each key goes from its old stake to its new one, or to nothing. *)
Lemma applied_lookup m new dn ops k :
  replace_ops m new = dn ++ ops → foldl run_op m dn !! k = m !! k ∨ foldl run_op m dn !! k = new !! k.
Proof.
  intros Hd. assert (∀ o, o ∈ dn → o ∈ replace_ops m new) as Hin by (rewrite Hd; set_solver). clear Hd ops.
  induction dn as [|o dn IH] using rev_ind; [by left|]. rewrite foldl_app. cbn [foldl].
  assert (o ∈ replace_ops m new) as Ho by (apply Hin; set_solver).
  destruct IH as [IH|IH]; [intros x Hx; apply Hin; set_solver|..].
  all: unfold replace_ops in Ho; apply elem_of_app in Ho as [(k' & -> & Hk)%list_elem_of_fmap|Hw]; [|destruct o as [k'|k' v]; [by apply list_elem_of_fmap in Hw as (? & ? & _)|apply write_ops_from in Hw]]; cbn [run_op].
  - apply stale_keys_spec in Hk as [_ Hk]. destruct (decide (k' = k)) as [->|?]; [right; by rewrite lookup_delete_eq|left; by rewrite lookup_delete_ne].
  - destruct (decide (k' = k)) as [->|?]; [right; by rewrite lookup_insert_eq|left; by rewrite lookup_insert_ne].
  - right. apply stale_keys_spec in Hk as [_ Hk]. destruct (decide (k' = k)) as [->|?]; [by rewrite lookup_delete_eq|by rewrite lookup_delete_ne].
  - right. destruct (decide (k' = k)) as [->|?]; [by rewrite lookup_insert_eq|by rewrite lookup_insert_ne].
Qed.

Lemma refresh_epoch `{DataProvider} st x : si_epoch (refresh st x).1 = si_epoch x ∧ si_partition (refresh st x).1 = si_partition x.
Proof. unfold refresh. by destruct (build_index _ _ _). Qed.
End lemmas.

(** ** Properties *)

Section properties.
Context `{HashIter} `{DataProvider}.

(** C12: however refreshes and epoch changes interleave, and whatever the data service
    answers, a key that passes a gate with a floor has a stake that a snapshot gave
    it, one served for an epoch the index was pointed at. And from a state in which
    no refresh is running, one refresh that runs alone takes the index, key by key,
    from what it held to the snapshot it read: on the way the gate sees the old or
    the new stake of a key, at the end exactly the snapshot, with every key that the
    snapshot dropped gone; it is the snapshot of the epoch the index is pointed at,
    unless the epoch was changed meanwhile; and a refresh that fails changes
    nothing. *)
Theorem gate_stakes_are_served c partition epoch0 y :
  rtc (index_step partition) (system_start epoch0) y →
  (∀ key t, meets_floors c t 0 = false → make_check c (shared y) key t = true →
     ∃ epoch s v, epoch ∈ pointed y ∧ (epoch, s) ∈ served y ∧ s !! key = Some v ∧ meets_floors c t v = true) ∧
  (∀ y', quiet y → rtc (index_step partition) y y' → length (refreshes y') = S (length (refreshes y)) →
     match last (refreshes y') with
     | Some (Applying epoch s ops) =>
         (∀ key t, make_check c (shared y') key t = meets_floors c t (default 0%N (shared y !! key)) ∨
                   make_check c (shared y') key t = meets_floors c t (default 0%N (s !! key))) ∧
         (ops = [] → shared y' = s) ∧ (pointed y' = pointed y → epoch = epoch_cell y')
     | _ => shared y' = shared y
     end).
Proof.
  intros Hr. split.
  - apply sourced_reachable in Hr as (_ & Hsh & _). intros key t Hz Hc. unfold make_check in Hc.
    destruct (shared y !! key) as [v|] eqn:Hk; [|unfold meets_floors in Hz; cbn in Hc; congruence].
    destruct (Hsh _ _ Hk) as (epoch & s & Hs & Hp & Hv). by exists epoch, s, v.
  - intros y' Hq Hrun Hlen. destruct (lone_run partition y y' Hq Hrun) as [(Hl & _)|(w & Hl & Hm & Hc)]; [lia|rewrite Hl in Hlen; lia|].
    rewrite Hl, last_snoc. destruct w as [e|e s|e s ops|]; try done. destruct Hm as (dn & Hd & Hm). split_and!.
    + intros key t. unfold make_check, meets_floors. rewrite Hm. by destruct (applied_lookup _ _ _ _ key Hd) as [->| ->]; [left|right].
    + intros ->. rewrite app_nil_r in Hd. rewrite Hm, <-Hd. apply replace_inner_map_eq.
    + intros Hp. destruct (Hc Hp) as [-> ->]. done.
Qed.

(** A refresh that succeeds alone leaves exactly the snapshot of its epoch, one
    that fails leaves what was there; and the registration handler, gated by an
    index so refreshed, takes in a new key under a role exactly when the snapshot
    gives the key both floors of the role (and the role was declared, is not the
    archiver's, has room, and is not one the node serves itself). *)
Theorem registration_follows_the_snapshot `{Rmp} `{SignaturePrims} st c x h now req r t :
  stake_check h = make_check c (si_inner (warm st x)) →
  verify_binding (requester_key req) (requester_rhash req) (requested_type req) (requester_types req)
    (binding_signature req) = true →
  get_nodes t r !! requester_key req = None →
  is_Some (get_nodes t (handle_register h now req r).1 !! requester_key req) ↔
  t ∈ requester_types req ∧ t ≠ Archiver ∧ size (get_nodes t r) < get_max_node_number h t ∧
  (requester_key req = h_public_key h → t ∉ self_delivery_roles r) ∧
  meets_floors c t match get_stake_snapshot st (si_epoch x) (si_partition x) with
                   | Ok s => StakeSet_get_stake s (requester_key req)
                   | Err _ => default 0%N (si_inner x !! requester_key req)
                   end = true.
Proof.
  intros Hh Hv Hn. rewrite handle_register_lookup, decide_True, Hn by done.
  assert (stake_check h (requester_key req) t =
    meets_floors c t match get_stake_snapshot st (si_epoch x) (si_partition x) with
                     | Ok s => StakeSet_get_stake s (requester_key req)
                     | Err _ => default 0%N (si_inner x !! requester_key req)
                     end) as Hst.
  { rewrite Hh. unfold make_check, warm, refresh, meets_floors, StakeSet_get_stake. rewrite build_index_ok.
    destruct (get_stake_snapshot _ _ _) as [s|]; simpl; [by rewrite replace_inner_map_eq|done]. }
  destruct (decide (admits h req r t)) as [Ha|Ha]; unfold admits in Ha; rewrite Hst in Ha.
  - split; [tauto|by eexists].
  - split; [by intros [? ?]|tauto].
Qed.

Lemma run_ops partition y i epoch new ops :
  refreshes y !! i = Some (Applying epoch new ops) →
  rtc (index_step partition) y (set_shared (foldl run_op (shared y) ops) (set_refresh i (Applying epoch new []) y)).
Proof.
  revert y. induction ops as [|o ops IH]; intros y Hi; cbn [foldl].
  { unfold set_shared, set_refresh. cbn. rewrite list_insert_id by done. destruct y. apply rtc_refl. }
  eapply rtc_l; [by apply (step_op partition y i epoch new o ops)|]. etrans; [apply IH; cbn; apply list_lookup_insert_eq; by eapply lookup_lt_Some|].
  unfold set_shared, set_refresh. cbn. rewrite list_insert_insert_eq. apply rtc_refl.
Qed.

Lemma replace_ops_empty new : replace_ops ∅ new = write_ops new.
Proof.
  unfold replace_ops. destruct (stale_keys ∅ new) as [|k l] eqn:E; [done|].
  assert (k ∈ stale_keys ∅ new) as [[v Hv] _]%stale_keys_spec by (rewrite E; left). by rewrite lookup_empty in Hv.
Qed.

(** From the epoch's read to the collected keys. *)
Lemma load_steps partition st s y :
  get_stake_snapshot st (epoch_cell y) partition = Ok s →
  rtc (index_step partition) y
    (mkSystem (shared y) (epoch_cell y) (refreshes y ++ [Applying (epoch_cell y) (stakers s) (replace_ops (shared y) (stakers s))])
       (pointed y) (served y ++ [(epoch_cell y, stakers s)])).
Proof.
  intros Hs. eapply rtc_l; [apply step_begin|]. eapply rtc_l.
  { apply (step_fetch partition _ (length (refreshes y)) st (epoch_cell y) (stakers s)); [by apply list_lookup_middle|by rewrite build_index_ok, Hs]. }
  unfold note_served, set_refresh. cbn. rewrite insert_app_r_alt, Nat.sub_diag by done. cbn.
  eapply rtc_l; [apply (step_collect partition _ (length (refreshes y)) (epoch_cell y) (stakers s)); by apply list_lookup_middle|].
  unfold set_refresh. cbn. rewrite insert_app_r_alt, Nat.sub_diag by done. apply rtc_refl.
Qed.

Lemma run_writes m s : foldl run_op m (write_ops s) = s ∪ m.
Proof.
  unfold write_ops. rewrite writes_foldl, foldl_insert_list by apply hash_iter_NoDup.
  rewrite (list_to_map_proper _ (map_to_list s)) by (apply hash_iter_NoDup || apply hash_iter_perm). by rewrite list_to_map_to_list.
Qed.

(** A tick of the refresher that read the old epoch's snapshot may finish after
    the refresh of an epoch change: with no refresh left running and the index
    pointed at the new epoch, the old epoch's stakes are back, over the new ones,
    and a key slashed or gone in between passes the gate as before. *)
Theorem overlapping_refreshes_mix_epochs st partition e1 e2 s1 s2 :
  get_stake_snapshot st e1 partition = Ok s1 → get_stake_snapshot st e2 partition = Ok s2 →
  ∃ y, rtc (index_step partition) (system_start e1) y ∧ quiet y ∧
    epoch_cell y = e2 ∧ shared y = stakers s1 ∪ stakers s2 ∧
    (∀ c key t v, stakers s1 !! key = Some v → make_check c (shared y) key t = meets_floors c t v).
Proof.
  intros H1 H2. eexists. split; [|split; [|split; [|split]]].
  - etrans; [by apply (load_steps partition st s1)|]. eapply rtc_l; [apply (step_point partition _ e2)|].
    etrans; [by apply (load_steps partition st s2)|]. etrans; [by apply (run_ops partition _ 1)|]. by apply (run_ops partition _ 0).
  - by repeat constructor.
  - done.
  - cbn. rewrite !replace_ops_empty, !run_writes. by rewrite map_union_empty.
  - intros c key t v Hv. unfold make_check, meets_floors. cbn. rewrite !replace_ops_empty, !run_writes.
    by rewrite (lookup_union_Some_l _ _ _ _ Hv).
Qed.
End properties.

(** ** A concrete index, and the properties at it *)

Module ConcreteIndex.
Import Concrete ConcreteStore.
#[local] Existing Instance forward_iter.

Definition key : bytes := [7%N].
Definition served_set : StakeSet := mkStakeSet {[ key := 50%N ]}.
Definition stored : store := (save_stake_snapshot (empty_store : store) 1 served_set "token").1.
Definition config : Config := mkConfig key [2%N] false Full all_types "env" "" ∅ ∅.
Definition idle : IndexSystem := system_start 1.
Definition loaded : IndexSystem :=
  mkSystem (stakers served_set) 1 [Applying 1 (stakers served_set) []] [1%N] [(1%N, stakers served_set)].

Lemma loaded_reachable : rtc (index_step "token") idle loaded.
Proof.
  etrans; [apply (load_steps "token" stored served_set); by vm_compute|]. etrans; [by apply (run_ops "token" _ 0)|].
  unfold set_shared, set_refresh, idle, system_start. cbn [shared epoch_cell refreshes pointed served app]. rewrite replace_ops_empty, run_writes, map_union_empty. apply rtc_refl.
Qed.

Lemma served_witness :
  (∃ v, stakers served_set !! key = Some v ∧ meets_floors config Sentinel v = true) ∧ shared loaded = stakers served_set.
Proof.
  split.
  - destruct (proj1 (gate_stakes_are_served config "token" 1 loaded loaded_reachable) key Sentinel) as (e & s & v & _ & Hs & Hv & Hm);
      [by vm_compute|by vm_compute|].
    exists v. split; [|done]. by apply list_elem_of_singleton in Hs as [= -> ->].
  - refine (proj1 (proj2 (proj2 (gate_stakes_are_served config "token" 1 idle (rtc_refl _ _)) loaded _ loaded_reachable eq_refl)) eq_refl).
    constructor.
Defined.
End ConcreteIndex.
