(* ===== verification/Messages.v ===== *)
(** * Envelopes (src/src/messages.rs, src/src/auth.rs)

    The message every role sends and receives, how it is signed and written, and
    the check every role makes of its sender: the signature over the body, and the
    roles the sender's key is registered under. *)

From S2P Require Import Prelude Interfaces Types StakeSets Serialize Crypto Deserialize NodeRegistry.

Record Message := mkMessage {
  chain_id : string;
  action : string;
  body : bytes;
  msg_signature : bytes;
  msg_public_key : bytes;
  stake_set : option StakeSet;
}.

(** [Message::signed]. *)
Definition signed_message (identity : AsymCryptoProvider) (chain_id action : string) (body : bytes)
    (stakes : option StakeSet) : result PneumaticError Message :=
  signature ← sign_data identity body;
  key ← public_key identity;
  Ok (mkMessage chain_id action body signature key stakes).

Inductive EnvelopeAuthError :=
| BadSignature (key : bytes) (reason : option PneumaticError)
| Unregistered (key : bytes).

Definition authenticate_envelope (crypto : AsymCryptoProvider) (h : Host) (r : NodeRegistry) (signature key body : bytes)
    : result EnvelopeAuthError (list NodeRegistryType) :=
  match check_signature crypto signature key body with
  | Err e => Err (BadSignature key (Some e))
  | Ok false => Err (BadSignature key None)
  | Ok true =>
      match find_node_types_by_public_key h key r with
      | [] => Err (Unregistered key)
      | roles => Ok roles
      end
  end.

(** ** On the wire *)

Section wire.
Context `{HashIter}.

Definition ser_StakeSet (s : StakeSet) : serde := ser_struct [fld "stakers" (ser_hash_stakes (stakers s))].

Definition ser_Message (m : Message) : serde :=
  ser_struct [
    fld "chain_id" (SStr (chain_id m));
    fld "action" (SStr (action m));
    fld "body" (ser_bytes (body m));
    fld "signature" (ser_bytes (msg_signature m));
    fld "public_key" (ser_bytes (msg_public_key m));
    fld "stake_set" (ser_option ser_StakeSet (stake_set m))].

Definition of_Message (v : serde) : result string Message :=
  fs ← get_struct_default [("chain_id", None); ("action", None); ("body", None); ("signature", None); ("public_key", None);
         ("stake_set", Some SNil)] v;
  match fs with
  | [a; b; c; d; e; f] =>
      i ← of_string a; x ← of_string b; y ← of_bytes c; s ← of_bytes d; k ← of_bytes e; st ← of_option of_StakeSet f;
      Ok (mkMessage i x y s k st)
  | _ => Err "invalid length"
  end.

Lemma of_StakeSet_ser s : wf_stakes (stakers s) → of_StakeSet (ser_StakeSet s) = Ok s.
Proof. destruct s as [m]. intros Hm. unfold of_StakeSet. cbn in *. by rewrite of_stakes_ser. Qed.

Arguments of_option : simpl never.

#[export, refine] Instance Message_serde : Serde Message := {|
  to_serde := ser_Message; of_serde := of_Message;
  wf m := wf_bytes (body m) ∧ wf_bytes (msg_signature m) ∧ wf_bytes (msg_public_key m) ∧
          match stake_set m with Some s => wf_stakes (stakers s) | None => True end;
|}.
Proof.
  intros [i x y s k st] (Hy & Hs & Hk & Hst). unfold of_Message. cbn in *. rewrite of_bytes_ser by done. cbn.
  rewrite of_bytes_ser by done. cbn. rewrite of_bytes_ser by done. cbn. destruct st as [st|]; [|done].
  unfold of_option, ser_option. cbn. rewrite of_stakes_ser by done. by destruct st.
Defined.
End wire.

(** An envelope its sender signed passes the check of everyone who knows the
    sender. *)
Lemma signed_authenticates (identity crypto : AsymCryptoProvider) h r chain act b stakes m roles :
  signed_message identity chain act b stakes = Ok m →
  check_signature crypto (msg_signature m) (msg_public_key m) b = Ok true →
  find_node_types_by_public_key h (msg_public_key m) r = roles → roles ≠ [] →
  authenticate_envelope crypto h r (msg_signature m) (msg_public_key m) (body m) = Ok roles.
Proof.
  intros Hm Hc <- Hr. apply bind_Ok in Hm as (sig & _ & Hm). apply bind_Ok in Hm as (key & _ & [= <-]).
  cbn in *. unfold authenticate_envelope. rewrite Hc. by destruct (find_node_types_by_public_key h key r).
Qed.
