(* ===== verification/RoleDispatcher.v ===== *)
(** * Roles of a composite host (node-server/src/role_dispatcher.rs, role_selector.rs)

    Which roles a node installs from its stake, and how the installed ones share
    the inbound messages and the epoch changes. The dispatcher is proved against
    the interface [RoleHost]; NodeServer.v gives the roles' instances. *)

From S2P Require Import Prelude Steps Types Float Environment Config Serialize StakeSets DataProvider Deserialize Crypto NodeRegistry Messages.

(** ** The dispatcher *)

Inductive RoleError :=
| UnknownAction (action : string)
| AmbiguousAction (action : string) (roles : list NodeRegistryType)
| Downstream (e : PneumaticError).

(** [RoleHandler] and [RoleHost]: a plugin of a host whose state is [S]. *)
Record RoleHost (S : Type) := mkRoleHost {
  host_role : NodeRegistryType;
  allowed_actions : list string;
  host_handle : Message → step S RoleError ();
  host_advance_epoch : N → S → S;
  host_shutdown : S → S;
}.
Arguments mkRoleHost {S} _ _ _ _ _.
Arguments host_role {S} _.
Arguments allowed_actions {S} _.
Arguments host_handle {S} _ _.
Arguments host_advance_epoch {S} _ _ _.
Arguments host_shutdown {S} _ _.

Section dispatcher.
Context {S : Type}.

Definition owners (hosts : list (RoleHost S)) (a : string) : list (RoleHost S) :=
  filter (λ h, existsb (String.eqb a) (allowed_actions h) = true) hosts.

Definition dispatch (hosts : list (RoleHost S)) (m : Message) : step S RoleError () :=
  match owners hosts (action m) with
  | [] => fails (UnknownAction (action m))
  | [h] => host_handle h m
  | hs => fails (AmbiguousAction (action m) (host_role <$> hs))
  end.

Definition dispatcher_roles (hosts : list (RoleHost S)) : list NodeRegistryType := host_role <$> hosts.

Definition roll_forward (hosts : list (RoleHost S)) (epoch : N) (s : S) : S * list NodeRegistryType :=
  (foldl (λ s h, host_advance_epoch h epoch s) s hosts, host_role <$> hosts).

Definition initiate_all_shutdown (hosts : list (RoleHost S)) (s : S) : S :=
  foldl (λ s h, host_shutdown h s) s hosts.

(** ** What it promises *)

Lemma owners_elem hosts a h : h ∈ owners hosts a ↔ h ∈ hosts ∧ a ∈ allowed_actions h.
Proof.
  unfold owners. rewrite list_elem_of_filter, existsb_exists. split.
  - intros [(x & Hx%list_elem_of_In & ->%String.eqb_eq) ?]. done.
  - intros [? Ha]. split; [|done]. exists a. split; [by apply list_elem_of_In|apply String.eqb_refl].
Qed.

(** The message of an action that exactly one position owns runs that host. *)
Lemma dispatch_owned l1 h l2 m :
  action m ∈ allowed_actions h → (∀ h', h' ∈ l1 ++ l2 → action m ∉ allowed_actions h') →
  dispatch (l1 ++ h :: l2) m = host_handle h m.
Proof.
  intros Ha Hother. assert (∀ l, (∀ h', h' ∈ l → action m ∉ allowed_actions h') → owners l (action m) = []) as Hnil.
  { intros l Hl. destruct (owners l (action m)) as [|x k] eqn:E; [done|].
    assert (x ∈ owners l (action m)) as [Hx Hxa]%owners_elem by (rewrite E; left). by destruct (Hl x Hx). }
  unfold dispatch, owners in *. rewrite filter_app, filter_cons_True.
  - rewrite (Hnil l1), (Hnil l2) by set_solver. done.
  - apply existsb_exists. exists (action m). split; [by apply list_elem_of_In|apply String.eqb_refl].
Qed.

Lemma dispatch_unowned hosts m :
  (∀ h, h ∈ hosts → action m ∉ allowed_actions h) → dispatch hosts m = fails (UnknownAction (action m)).
Proof.
  intros Hl. unfold dispatch. destruct (owners hosts (action m)) as [|x k] eqn:E; [done|].
  assert (x ∈ owners hosts (action m)) as [Hx Hxa]%owners_elem by (rewrite E; left). by destruct (Hl x Hx).
Qed.
End dispatcher.

(** ** The selector *)

Definition ROLE_PRIORITY : list NodeRegistryType := [Finalizer; Executor; Sentinel; Committer].

Record RoleSelector := mkSelector {
  sel_config : Config;
  sel_epoch : N;
  last_selected : list NodeRegistryType;
}.

Section selector.
(** [StakeProvider::stake]. *)
Context (stake : bytes → N → N).

Definition RoleSelector_new (c : Config) : RoleSelector := mkSelector c 1 [].

Definition selector_set_epoch (epoch : N) (x : RoleSelector) : RoleSelector := mkSelector (sel_config x) epoch (last_selected x).

Definition own_stake (x : RoleSelector) : N := stake (cf_public_key (sel_config x)) (sel_epoch x).

Definition select (x : RoleSelector) : RoleSelector * list NodeRegistryType :=
  let own := own_stake x in
  let global_min := get_global_min_stake (sel_config x) in
  let qualifying := filter (λ t, meets_minimum_stake own global_min (get_min_type_stake (sel_config x) t) = true) all_types in
  (mkSelector (sel_config x) (sel_epoch x) qualifying, qualifying).

Definition select_primary (x : RoleSelector) : option NodeRegistryType :=
  find (λ t, meets_minimum_stake (own_stake x) (get_global_min_stake (sel_config x)) (get_min_type_stake (sel_config x) t))
    ROLE_PRIORITY.

Lemma select_elem x t : t ∈ (select x).2 ↔ meets_floors (sel_config x) t (own_stake x) = true.
Proof. unfold select. cbn zeta. cbn [snd]. rewrite list_elem_of_filter. unfold meets_floors. destruct t; set_solver. Qed.

Lemma select_NoDup x : NoDup (select x).2.
Proof. apply NoDup_filter. apply (bool_decide_unpack (NoDup _)). by vm_compute. Qed.

(** The primary role is one of the selected ones, and no role before it in the
    order of priority is selected; there is none exactly when at most the
    archiver's role is selected. *)
Theorem primary_role_is_the_first_selected x :
  match select_primary x with
  | Some t => t ∈ (select x).2 ∧ ∃ l1 l2, ROLE_PRIORITY = l1 ++ t :: l2 ∧ Forall (λ t', t' ∉ (select x).2) l1
  | None => ∀ t, t ∈ (select x).2 → t = Archiver
  end.
Proof.
  unfold select_primary.
  assert (∀ t, meets_minimum_stake (own_stake x) (get_global_min_stake (sel_config x)) (get_min_type_stake (sel_config x) t) =
    bool_decide (t ∈ (select x).2)) as Hm.
  { intros t. apply Bool.eq_iff_eq_true. rewrite bool_decide_eq_true, select_elem. done. }
  unfold ROLE_PRIORITY. cbn [find]. rewrite !Hm.
  repeat case_bool_decide.
  - split; [done|]. by exists [], [Executor; Sentinel; Committer].
  - split; [done|]. exists [Finalizer], [Sentinel; Committer]. by repeat constructor.
  - split; [done|]. exists [Finalizer; Executor], [Committer]. by repeat constructor.
  - split; [done|]. exists [Finalizer; Executor; Sentinel], []. by repeat constructor.
  - by intros [].
Qed.
End selector.

(** The provider of bin/node-server.rs: the user's row, whatever the epoch. *)
Definition data_stake `{DataProvider} (st : store) (partition_id : string) (key : bytes) (epoch : N) : N :=
  match get_user st key partition_id with Ok user => user_stake user | Err _ => 0%N end.
