(* ===== verification/ActionRouter.v ===== *)
(** * The action router (src/src/action_router.rs)

    What a message's action asks of its sender before it is handled: the nonce, the
    gas and the stake, read from the sender's user record. The router reads and
    never writes. *)

From S2P Require Import Prelude Utf8 Interfaces Types Float StakeSets Environment Config Serialize Crypto Transactions Chain Validation DataProvider Deserialize.
From S2P Require Import Wire Messages.

Inductive ActionRouterResult :=
| NonceUpdated (sender : bytes) (new_nonce : nat)
| GasVerified (gas_used gas_remaining : N)
| StakeChecked (node_type : NodeRegistryType) (stake : N)
| TokenDispatched (token_id : bytes)
| Forwarded (node_type : NodeRegistryType) (entry_count : nat)
| UnknownAction (a : string).

Section router.
Context `{Rmp} `{DataProvider}.

Record ActionRouter := mkRouter { ar_environment : EnvironmentMetadata; ar_config : Config }.

Definition invalid (r : ValidationFailureReason) : result PneumaticError ActionRouterResult := Err (Validation [r]).
Definition sender_record (a : ActionRouter) (st : store) (sender : bytes) : result PneumaticError User :=
  map_err Data (get_user st sender (token_partition_id (ar_environment a))).

Definition check_nonce (a : ActionRouter) (st : store) (sender : bytes) (expected_nonce : nat) : result PneumaticError ActionRouterResult :=
  user ← sender_record a st sender;
  if Nat.eqb (nonce user) expected_nonce then Ok (NonceUpdated sender (S expected_nonce)) else invalid InvalidNonce.

Definition verify_gas (a : ActionRouter) (st : store) (sender : bytes) (act : string) (amount : N) : result PneumaticError ActionRouterResult :=
  user ← sender_record a st sender;
  let cm := cost_model (ar_environment a) in
  let gas_used := compute_gas cm amount (default f64_one (amount_multiplier cm !! act)) in
  if N.ltb (fuel_balance user) gas_used then invalid GasLimitExceeded else Ok (GasVerified gas_used (fuel_balance user - gas_used)).

Definition check_stake (a : ActionRouter) (st : store) (sender : bytes) (t : NodeRegistryType) : result PneumaticError ActionRouterResult :=
  user ← sender_record a st sender;
  if N.ltb (user_stake user) (global_min_stake (cost_model (ar_environment a))) then invalid InsufficientStake
  else if N.ltb (user_stake user) (get_min_type_stake (ar_config a) t) then invalid InsufficientStake
  else Ok (StakeChecked t (user_stake user)).

Definition route_process (a : ActionRouter) (st : store) (m : Message) : result PneumaticError ActionRouterResult :=
  tx ← map_err Encoding (deserialize_rmp_to Transaction (body m));
  nonce_result ← check_nonce a st (msg_public_key m) (tx_sequence_number tx);
  match tx_amount tx with
  | None => invalid InvalidAmount
  | Some amount => _ ← verify_gas a st (msg_public_key m) "Process" amount; Ok nonce_result
  end.

Definition route_preload (a : ActionRouter) (st : store) (m : Message) : result PneumaticError ActionRouterResult :=
  tx ← map_err Encoding (deserialize_rmp_to Transaction (body m));
  match tx_amount tx with
  | None => invalid InvalidAmount
  | Some amount => _ ← verify_gas a st (msg_public_key m) "Preload" amount; check_stake a st (msg_public_key m) Executor
  end.

Definition route (a : ActionRouter) (st : store) (m : Message) : result PneumaticError ActionRouterResult :=
  if String.eqb (action m) "Process" then route_process a st m
  else if String.eqb (action m) "Preload" then route_preload a st m
  else if String.eqb (action m) "Sign" then check_stake a st (msg_public_key m) Finalizer
  else if String.eqb (action m) "Confirm" then Ok (GasVerified 0 0)
  else if String.eqb (action m) "Reject" then Ok (NonceUpdated (msg_public_key m) 0)
  else if String.eqb (action m) "Register" then check_stake a st (msg_public_key m) Sentinel
  else if String.eqb (action m) "Clear" then Ok (NonceUpdated (msg_public_key m) 0)
  else if String.eqb (action m) "DistributeToken" then Ok (TokenDispatched (msg_public_key m))
  else Ok (UnknownAction (action m)).
End router.

(** ** Properties *)

Section properties.
Context `{Rmp} `{DataProvider}.

(** A Process message is answered in this order: its nonce, then its amount, then
    the gas of that amount at the action's own multiplier. *)
Lemma process_outcome a st m tx user :
  action m = "Process" → deserialize_rmp_to Transaction (body m) = Ok tx →
  get_user st (msg_public_key m) (token_partition_id (ar_environment a)) = Ok user →
  let cm := cost_model (ar_environment a) in
  route a st m =
    if Nat.eqb (nonce user) (tx_sequence_number tx) then
      match tx_amount tx with
      | None => invalid InvalidAmount
      | Some amount =>
          if N.leb (compute_gas cm amount (default f64_one (amount_multiplier cm !! "Process"))) (fuel_balance user)
          then Ok (NonceUpdated (msg_public_key m) (S (tx_sequence_number tx))) else invalid GasLimitExceeded
      end
    else invalid InvalidNonce.
Proof.
  intros Ha Hd Hu cm. unfold route, route_process, check_nonce, verify_gas, sender_record. rewrite Ha, Hd, Hu. cbn [String.eqb Ascii.eqb Bool.eqb map_err mbind result_bind].
  destruct (Nat.eqb _ _); [|done]. cbn [mbind result_bind]. destruct (tx_amount tx) as [amount|]; [|done]. cbn [mbind result_bind].
  fold cm. rewrite N.leb_antisym. by destruct (N.ltb _ _).
Qed.

(** The stake the router asks for is the floor of the registration gate, when the
    environment it was built with is the node's own. *)
Lemma router_agrees_with_the_gate a st m user :
  environment_metadata (ar_config a) !! main_environment_id (ar_config a) = Some (ar_environment a) →
  get_user st (msg_public_key m) (token_partition_id (ar_environment a)) = Ok user →
  ∀ t, (action m, t) ∈ [("Register", Sentinel); ("Sign", Finalizer)] →
  route a st m = if meets_floors (ar_config a) t (user_stake user) then Ok (StakeChecked t (user_stake user)) else invalid InsufficientStake.
Proof.
  intros He Hu t Ht. assert (route a st m = check_stake a st (msg_public_key m) t) as ->.
  { apply elem_of_cons in Ht as [[= Ha ->]|[[= Ha ->]|[]%elem_of_nil]%elem_of_cons]; unfold route; by rewrite Ha. }
  unfold check_stake, sender_record, meets_floors, meets_minimum_stake, get_global_min_stake. rewrite He, Hu. cbn [map_err mbind result_bind].
  rewrite !N.leb_antisym. by repeat destruct (N.ltb _ _).
Qed.

(** Whoever asks to clear or reject is told a nonce of zero, known or not. *)
Lemma clear_answers_anyone a st m : action m = "Clear" ∨ action m = "Reject" → route a st m = Ok (NonceUpdated (msg_public_key m) 0).
Proof. unfold route. by intros [-> | ->]. Qed.
End properties.
