(* ===== verification/Packets.v ===== *)
(** * Packets of the transport (the wire forms of src/src/node.rs)

    The control-plane requests, the directory responses and the packet that
    carries either, as they are written and read. *)

From S2P Require Import Prelude Interfaces Types Serialize Deserialize NodeRegistry StakeSets DataProvider Messages.

Definition of_type (v : serde) : result string NodeRegistryType :=
  '(n, x) ← of_variant v;
  if (match x with None | Some SNil => true | _ => false end : bool) then
    ok_or ("unknown variant " +:+ n) (find (λ t, String.eqb (type_name t) n) all_types)
  else Err "invalid type: expected unit variant".

Definition of_bool (v : serde) : result string bool :=
  match v with SBool b => Ok b | _ => Err "invalid type: expected a boolean" end.

Definition of_array16 (v : serde) : result string bytes :=
  b ← of_bytes v; if bool_decide (length b = 16) then Ok b else Err "invalid length".

(** ** Requests *)

Definition ser_NodeRequestType (t : NodeRequestType) : serde :=
  match t with
  | Register => SStr "Register"
  | Request => SStr "Request"
  | Heartbeat => SStr "Heartbeat"
  | RegisterAck accepted t key reason =>
      variant "RegisterAck" (ser_struct [
        fld "accepted" (SBool accepted);
        fld "node_type" (ser_type t);
        fld "responder_key" (ser_bytes key);
        fld "reason" (SStr reason)])
  end.

Definition of_unit_request (n : string) : result string NodeRequestType :=
  if String.eqb n "Register" then Ok Register
  else if String.eqb n "Request" then Ok Request
  else if String.eqb n "Heartbeat" then Ok Heartbeat
  else Err ("unknown variant " +:+ n).

Definition of_NodeRequestType (v : serde) : result string NodeRequestType :=
  '(n, x) ← of_variant v;
  match x with
  | Some w =>
      if String.eqb n "RegisterAck" then
        fs ← get_struct ["accepted"; "node_type"; "responder_key"; "reason"] w;
        match fs with
        | [a; b; c; d] => ok ← of_bool a; t ← of_type b; k ← of_bytes c; m ← of_string d; Ok (RegisterAck ok t k m)
        | _ => Err "invalid length"
        end
      else match w with SNil => of_unit_request n | _ => Err "invalid type: expected unit variant" end
  | None => of_unit_request n
  end.

Definition ser_NodeRequest (r : NodeRequest) : serde :=
  ser_struct [
    fld "requester_key" (ser_bytes (requester_key r));
    fld "requester_rhash" (ser_bytes (requester_rhash r));
    fld "request_type" (ser_NodeRequestType (request_type r));
    fld "requester_types" (ser_list ser_type (requester_types r));
    fld "requested_type" (ser_type (requested_type r));
    fld "binding_signature" (ser_bytes (binding_signature r));
    fld "query_target" (ser_option ser_bytes (query_target r));
    fld "query_nonce" (ser_option ser_bytes (query_nonce r))].

Definition of_NodeRequest (v : serde) : result string NodeRequest :=
  fs ← get_struct_default [("requester_key", None); ("requester_rhash", None); ("request_type", None); ("requester_types", None);
         ("requested_type", None); ("binding_signature", None); ("query_target", Some SNil); ("query_nonce", Some SNil)] v;
  match fs with
  | [a; b; c; d; e; f; g; h] =>
      k ← of_bytes a; r ← of_array16 b; rt ← of_NodeRequestType c; ts ← of_list of_type d; t ← of_type e; s ← of_bytes f;
      q ← of_option of_array16 g; n ← of_option of_array16 h; Ok (mkNodeRequest k r rt ts t s q n)
  | _ => Err "invalid length"
  end.

(** ** Directory responses *)

Definition of_NodeRegistryEntry (v : serde) : result string NodeRegistryEntry :=
  fs ← get_struct ["node_key"; "node_rhash"; "signature"; "requested_type"; "node_types"] v;
  match fs with
  | [a; b; c; d; e] =>
      k ← of_bytes a; r ← of_array16 b; s ← of_bytes c; t ← of_type d; ts ← of_list of_type e; Ok (mkDirEntry k r s t ts)
  | _ => Err "invalid length"
  end.

Definition ser_NodeRegistryResponse (r : NodeRegistryResponse) : serde :=
  ser_struct [
    fld "responder_key" (ser_bytes (responder_key r));
    fld "responder_rhash" (ser_bytes (responder_rhash r));
    fld "registry_type" (ser_type (registry_type r));
    fld "entries" (ser_list ser_NodeRegistryEntry (entries r));
    fld "signature" (ser_bytes (rs_signature r))].

Definition of_NodeRegistryResponse (v : serde) : result string NodeRegistryResponse :=
  fs ← get_struct ["responder_key"; "responder_rhash"; "registry_type"; "entries"; "signature"] v;
  match fs with
  | [a; b; c; d; e] =>
      k ← of_bytes a; r ← of_array16 b; t ← of_type c; es ← of_list of_NodeRegistryEntry d; s ← of_bytes e;
      Ok (mkResponse k r t es s)
  | _ => Err "invalid length"
  end.

(** ** Packets *)

Record NetworkPacket := mkPacket { control : option NodeRequest; data : option bytes }.

Definition ser_NetworkPacket (p : NetworkPacket) : serde :=
  ser_struct [fld "control" (ser_option ser_NodeRequest (control p)); fld "data" (ser_option ser_bytes (data p))].

(** Two [Option] fields: a map may leave them out, a sequence may not. *)
Definition of_NetworkPacket (v : serde) : result string NetworkPacket :=
  fs ← match v with
       | SSeq _ => get_struct ["control"; "data"] v
       | _ => get_struct_default [("control", Some SNil); ("data", Some SNil)] v
       end;
  match fs with
  | [a; b] => c ← of_option of_NodeRequest a; d ← of_option of_bytes b; Ok (mkPacket c d)
  | _ => Err "invalid length"
  end.

(** ** Round trips *)

Definition wf_array16 (b : bytes) : Prop := wf_bytes b ∧ length b = 16.
Definition wf_opt {A} (P : A → Prop) (o : option A) : Prop := match o with Some a => P a | None => True end.

Definition wf_NodeRequest (r : NodeRequest) : Prop :=
  wf_bytes (requester_key r) ∧ wf_array16 (requester_rhash r) ∧
  match request_type r with RegisterAck _ _ k _ => wf_bytes k | _ => True end ∧
  wf_bytes (binding_signature r) ∧ wf_opt wf_array16 (query_target r) ∧ wf_opt wf_array16 (query_nonce r).

Definition wf_NodeRegistryEntry (e : NodeRegistryEntry) : Prop :=
  wf_bytes (node_key e) ∧ wf_array16 (node_rhash e) ∧ wf_bytes (en_signature e).

Definition wf_NodeRegistryResponse (r : NodeRegistryResponse) : Prop :=
  wf_bytes (responder_key r) ∧ wf_array16 (responder_rhash r) ∧ Forall wf_NodeRegistryEntry (entries r) ∧
  wf_bytes (rs_signature r).

Arguments of_option : simpl never.
Arguments of_array16 : simpl never.
Arguments of_type : simpl never.

Lemma of_type_ser t : of_type (ser_type t) = Ok t.
Proof. by destruct t. Qed.

Lemma of_types_ser ts : of_list of_type (ser_list ser_type ts) = Ok ts.
Proof. apply of_list_ser, Forall_forall. intros. apply of_type_ser. Qed.

Lemma of_array16_ser b : wf_array16 b → of_array16 (ser_bytes b) = Ok b.
Proof. intros [Hb Hl]. unfold of_array16. rewrite of_bytes_ser by done. simpl. by rewrite bool_decide_true. Qed.

Lemma of_option_array16_ser o : wf_opt wf_array16 o → of_option of_array16 (ser_option ser_bytes o) = Ok o.
Proof. destruct o as [b|]; [|done]. intros Hb%of_array16_ser. unfold of_option, ser_option, ser_bytes in *. by rewrite Hb. Qed.

Lemma of_NodeRequestType_ser t :
  match t with RegisterAck _ _ k _ => wf_bytes k | _ => True end → of_NodeRequestType (ser_NodeRequestType t) = Ok t.
Proof.
  destruct t as [| | |a t k m]; [done..|]. intros Hk. unfold of_NodeRequestType. cbn. rewrite of_type_ser. cbn.
  by rewrite of_bytes_ser.
Qed.

Arguments of_NodeRequestType : simpl never.
Arguments ser_NodeRequestType : simpl never.

Lemma of_NodeRequest_ser r : wf_NodeRequest r → of_NodeRequest (ser_NodeRequest r) = Ok r.
Proof.
  destruct r as [k r rt ts t s q n]. intros (Hk & Hr & Hrt & Hs & Hq & Hn). cbn in Hk, Hr, Hrt, Hs, Hq, Hn.
  unfold of_NodeRequest. cbn. rewrite of_bytes_ser by done. cbn. rewrite of_array16_ser by done. cbn.
  rewrite of_NodeRequestType_ser by done. cbn. rewrite of_types_ser. cbn. rewrite of_type_ser. cbn.
  rewrite of_bytes_ser by done. cbn. rewrite of_option_array16_ser by done. cbn. by rewrite of_option_array16_ser.
Qed.

Lemma of_NodeRegistryEntry_ser e : wf_NodeRegistryEntry e → of_NodeRegistryEntry (ser_NodeRegistryEntry e) = Ok e.
Proof.
  destruct e as [k r s t ts]. intros (Hk & Hr & Hs). cbn in Hk, Hr, Hs. unfold of_NodeRegistryEntry. cbn.
  rewrite of_bytes_ser by done. cbn. rewrite of_array16_ser by done. cbn. rewrite of_bytes_ser by done. cbn.
  rewrite of_type_ser. cbn. by rewrite of_types_ser.
Qed.

Arguments of_NodeRegistryEntry : simpl never.
Arguments of_NodeRequest : simpl never.
Arguments ser_NodeRequest : simpl never.

#[export, refine] Instance NodeRegistryResponse_serde : Serde NodeRegistryResponse := {|
  to_serde := ser_NodeRegistryResponse; of_serde := of_NodeRegistryResponse; wf := wf_NodeRegistryResponse |}.
Proof.
  intros [k r t es s] (Hk & Hr & He & Hs). cbn in Hk, Hr, He, Hs. unfold of_NodeRegistryResponse. cbn.
  rewrite of_bytes_ser by done. cbn. rewrite of_array16_ser by done. cbn. rewrite of_type_ser. cbn.
  rewrite of_list_ser by (eapply Forall_impl; [exact He|apply of_NodeRegistryEntry_ser]). cbn. by rewrite of_bytes_ser.
Defined.

#[export, refine] Instance NetworkPacket_serde : Serde NetworkPacket := {|
  to_serde := ser_NetworkPacket; of_serde := of_NetworkPacket;
  wf p := wf_opt wf_NodeRequest (control p) ∧ wf_opt wf_bytes (data p) |}.
Proof.
  intros [c d] [Hc Hd]. cbn in Hc, Hd. unfold of_NetworkPacket. cbn.
  assert (of_option of_NodeRequest (ser_option ser_NodeRequest c) = Ok c) as ->.
  { destruct c as [c|]; [|done]. unfold of_option, ser_option.
    rewrite of_NodeRequest_ser by done. by unfold ser_NodeRequest, ser_struct. }
  cbn. destruct d as [d|]; [|done]. apply of_bytes_ser in Hd. unfold of_option, ser_option, ser_bytes in *. by rewrite Hd.
Defined.

(** A role's message is never taken for a directory response. *)
Lemma message_is_not_a_response `{HashIter} m : is_ok (of_NodeRegistryResponse (ser_Message m)) = false.
Proof. done. Qed.

(** What was written is read. *)
Lemma written_is_read `{Rmp} {A} `{Serde A} (a : A) b : wf a → rmp_enc (to_serde a) = Ok b → deserialize_rmp_to A b = Ok a.
Proof.
  intros Ha Hb. unfold deserialize_rmp_to. apply (rmp_round _ _ []) in Hb. rewrite app_nil_r in Hb. rewrite Hb.
  by apply of_to_serde.
Qed.

(** ** What a reader lets through *)

Lemma mapM_Ok_Forall2 {E A B} (f : A → result E B) l k : mapM f l = Ok k → Forall2 (λ x y, f x = Ok y) l k.
Proof.
  revert k. induction l as [|x l IH]; intros k; cbn; [by intros [= <-]|].
  destruct (f x) as [y|] eqn:Hx; cbn; [|done]. destruct (mapM f l) as [k'|] eqn:Hl; cbn; [|done]. intros [= <-].
  constructor; [done|]. by apply IH.
Qed.

Lemma of_bytes_inv v b : of_bytes v = Ok b → wf_bytes b.
Proof.
  unfold of_bytes, of_list. destruct v; try done. intros Hl%mapM_Ok_Forall2. induction Hl as [|x y l k Hx _ IH]; constructor; [|done].
  unfold of_u8 in Hx. destruct x; try done. case_bool_decide; [|done]. injection Hx as <-. lia.
Qed.

Lemma of_u64_inv v n : of_u64 v = Ok n → wf_u64 n.
Proof. unfold of_u64, wf_u64. destruct v; try done. case_bool_decide as Hn; [|done]. intros [= <-]. unfold u64_max in *. lia. Qed.

Lemma of_stakes_inv v m : of_stakes v = Ok m → wf_stakes m.
Proof.
  unfold of_stakes. destruct v as [| | | | | |l]; try done.
  destruct (mapM _ l) as [kvs|] eqn:Hl; [|done]. cbn. intros [= <-]. apply mapM_Ok_Forall2 in Hl.
  assert (Forall (λ kn, wf_bytes kn.1 ∧ wf_u64 kn.2) kvs) as Hf.
  { induction Hl as [|[x y] [k n] l ks Hx _ IH]; constructor; [|done]. cbn in *.
    destruct (of_bytes x) as [k'|] eqn:Hk; [|done]. cbn in Hx. destruct (of_u64 y) as [n'|] eqn:Hn; [|done]. cbn in Hx. simplify_eq.
    split; [by eapply of_bytes_inv|by eapply of_u64_inv]. }
  assert (∀ m0, wf_stakes m0 → wf_stakes (foldl (λ m kv, <[kv.1:=kv.2]> m) m0 kvs)) as Hall; [|apply Hall, map_Forall_empty].
  clear Hl. induction Hf as [|[k n] kvs Hkn _ IH]; intros m0 Hm0; [done|]. cbn. apply IH. by apply map_Forall_insert_2.
Qed.

Lemma of_Message_inv `{HashIter} v m : of_Message v = Ok m → wf m.
Proof.
  unfold of_Message. destruct (get_struct_default _ v) as [fs|]; [|done]. cbn.
  destruct fs as [|a [|b [|c [|d [|e [|f [|? ?]]]]]]]; try done.
  destruct (of_string a); [|done]. cbn. destruct (of_string b); [|done]. cbn.
  destruct (of_bytes c) eqn:Hc; [|done]. cbn. destruct (of_bytes d) eqn:Hd; [|done]. cbn. destruct (of_bytes e) eqn:He; [|done]. cbn.
  destruct (of_option of_StakeSet f) as [st|] eqn:Hf; [|done]. cbn. intros [= <-].
  split_and!; [by eapply of_bytes_inv..|]. cbn. destruct st as [st|]; [|done].
  assert (of_StakeSet f = Ok st) as Hst.
  { destruct f; try discriminate Hf; unfold of_option in Hf; destruct (of_StakeSet _); cbn in Hf; congruence. }
  revert Hst. unfold of_StakeSet. destruct (get_struct ["stakers"] f) as [fs|]; [|done]. cbn. destruct fs as [|x [|? ?]]; try done.
  destruct (of_stakes x) as [s'|] eqn:Hs; [|done]. cbn. intros [= <-]. by eapply of_stakes_inv.
Qed.

(** A message that was read is read again from its encoding. *)
Lemma read_message_travels `{HashIter} `{Rmp} raw m b :
  deserialize_rmp_to Message raw = Ok m → rmp_enc (ser_Message m) = Ok b → deserialize_rmp_to Message b = Ok m.
Proof.
  unfold deserialize_rmp_to at 1. destruct (rmp_dec raw) as [[v r]|]; [|done]. cbn. intros Hm Hb.
  apply written_is_read; [by eapply of_Message_inv|done].
Qed.

Module ConcretePackets.
Import Concrete.

Lemma enc_pos_wf p : wf_bytes (enc_pos p).
Proof. induction p; cbn; repeat constructor; done. Qed.
Lemma enc_Z_wf z : wf_bytes (enc_Z z).
Proof. destruct z; cbn; repeat constructor; apply enc_pos_wf. Qed.
Lemma enc_chars_wf s : wf_bytes (enc_chars (string_bytes s)).
Proof. induction s as [|c s IH]; cbn; repeat constructor; [|done]. apply Ascii.N_ascii_bounded. Qed.

Lemma enc_value_wf v : wf_bytes (enc_value v).
Proof.
  induction v as [|[]|z|n|s|l IH|l IH] using serde_ind'; cbn [enc_value].
  - by repeat constructor.
  - by repeat constructor.
  - by repeat constructor.
  - constructor; [done|apply enc_Z_wf].
  - constructor; [done|apply enc_Z_wf].
  - constructor; [done|apply enc_chars_wf].
  - constructor; [done|]. induction IH as [|x l Hx _ IHl]; [by repeat constructor|].
    constructor; [done|]. by apply Forall_app.
  - constructor; [done|]. induction IH as [|[k x] l [Hk Hx] _ IHl]; [by repeat constructor|].
    constructor; [done|]. apply Forall_app. split; [done|]. by apply Forall_app.
Qed.

Definition encoded (v : serde) : bytes := enc_value v.

Lemma encoded_read {A} `{Serde A} (a : A) : wf a → deserialize_rmp_to A (encoded (to_serde a)) = Ok a.
Proof. intros Ha. by apply written_is_read. Qed.
End ConcretePackets.
