(* ===== verification/Pool.v ===== *)
(** * The transaction pool (src/src/transactions.rs)

    The life cycle of a pending transaction with its stage locks, and the
    per-token ordered queue a leader proposes from. *)

From S2P Require Import Prelude Types.

(** ** The life cycle of one transaction *)

Inductive TransactionState :=
| Pending
| Preloaded (transaction : Transaction)
| Validated (transaction : Transaction) (validation : TransactionValidationResult)
| Executing (transaction : Transaction)
| Finalizing (transaction : Transaction) (finalizer_key : bytes)
| Committed (transaction : Transaction) (block_hash : bytes)
| Failed (transaction : Transaction) (reasons : list ValidationFailureReason).

Definition is_pending (s : TransactionState) : bool :=
  match s with Pending => true | _ => false end.
Definition is_finalizing (s : TransactionState) : bool :=
  match s with Finalizing _ _ => true | _ => false end.

(** [TransactionState::transaction]. *)
Definition state_transaction (s : TransactionState) : option Transaction :=
  match s with
  | Preloaded t | Validated t _ | Executing t | Finalizing t _ | Committed t _ | Failed t _ => Some t
  | Pending => None
  end.

(** The transaction of an entry that is still to be finalized. *)
Definition held_transaction (s : TransactionState) : option Transaction :=
  match s with Preloaded t | Validated t _ | Executing t | Finalizing t _ => Some t | _ => None end.

Record PendingTransaction := mkPending {
  pt_id : string;
  pt_state : TransactionState;
  lock_count : nat;
}.

Definition PendingTransaction_new (id : string) (s : TransactionState) : PendingTransaction :=
  mkPending id s 0.

(** The states [acquire] refuses and [release] drops in. *)
Definition is_terminal (s : TransactionState) : bool :=
  match s with Failed _ _ | Committed _ _ => true | _ => false end.

Definition acquire (p : PendingTransaction) : PendingTransaction * result () () :=
  if is_terminal (pt_state p) then (p, Err ())
  else (mkPending (pt_id p) (pt_state p) (S (lock_count p)), Ok ()).

Definition release (p : PendingTransaction) : PendingTransaction * bool :=
  let p' := mkPending (pt_id p) (pt_state p)
              (if bool_decide (0 < lock_count p) then lock_count p - 1 else lock_count p) in
  (p', bool_decide (lock_count p' = 0) && is_terminal (pt_state p')).

Definition with_state (s : TransactionState) (p : PendingTransaction) : PendingTransaction :=
  mkPending (pt_id p) s (lock_count p).

Definition transition_to_preloaded (t : Transaction) := with_state (Preloaded t).
Definition transition_to_validated (t : Transaction) (v : TransactionValidationResult) :=
  with_state (Validated t v).
Definition transition_to_executing (t : Transaction) := with_state (Executing t).
Definition transition_to_finalizing (t : Transaction) (k : bytes) := with_state (Finalizing t k).
Definition transition_to_committed (t : Transaction) (h : bytes) := with_state (Committed t h).
Definition transition_to_failed (t : Transaction) (rs : list ValidationFailureReason) :=
  with_state (Failed t rs).

Definition is_awaiting_finalizer (p : PendingTransaction) : bool :=
  match pt_state p with Validated _ _ => true | _ => false end.

(** ** The ordered queues *)

(** An index entry, the source's tuple [(token_id, sequence_number, timestamp, sender)]. *)
Record PoolEntry := mkEntry {
  pe_token : bytes;
  pe_seq : nat;
  pe_time : Z;
  pe_sender : bytes;
}.

Record TransactionPool := mkPool {
  pools : gmap bytes (list string);
  index : gmap string PoolEntry;
}.

Definition TransactionPool_new : TransactionPool := mkPool ∅ ∅.

(** The order of tuples [(usize, i64)]: is [x] after [y]? *)
Definition tuple_gt (x y : nat * Z) : bool :=
  bool_decide (y.1 < x.1) || (bool_decide (x.1 = y.1) && bool_decide (y.2 < x.2)%Z).

(** The closure [enqueue] passes to [position]: does the queued [id] come
    after the new transaction? *)
Definition comes_after (idx : gmap string PoolEntry) (seq : nat) (time : Z) (sender : bytes)
    (id : string) : bool :=
  match idx !! id with
  | Some existing =>
      if bool_decide (pe_sender existing = sender) then bool_decide (seq < pe_seq existing)
      else tuple_gt (pe_seq existing, pe_time existing) (seq, time)
  | None => true
  end.

Fixpoint position {A} (f : A → bool) (l : list A) : option nat :=
  match l with
  | [] => None
  | x :: l' => if f x then Some 0 else S <$> position f l'
  end.

(** [Vec::insert]; the position is at most the length here. *)
Definition vec_insert {A} (i : nat) (x : A) (l : list A) : list A := take i l ++ x :: drop i l.

Definition enqueue (tx_id : string) (token_id : bytes) (sequence_number : nat) (timestamp : Z)
    (sender : bytes) (p : TransactionPool) : TransactionPool :=
  let idx := <[tx_id := mkEntry token_id sequence_number timestamp sender]> (index p) in
  let pool := default [] (pools p !! token_id) in
  let pool' :=
    match position (comes_after idx sequence_number timestamp sender) pool with
    | Some i => vec_insert i tx_id pool
    | None => pool ++ [tx_id]
    end in
  mkPool (<[token_id := pool']> (pools p)) idx.

Definition pool_remove (tx_id : string) (p : TransactionPool) : TransactionPool * option PoolEntry :=
  match index p !! tx_id with
  | None => (p, None)
  | Some entry =>
      let ps :=
        match pools p !! pe_token entry with
        | Some pool =>
            let pool' := filter (λ id, id ≠ tx_id) pool in
            match pool' with
            | [] => delete (pe_token entry) (pools p)
            | _ => <[pe_token entry := pool']> (pools p)
            end
        | None => pools p
        end in
      (mkPool ps (delete tx_id (index p)), Some entry)
  end.

Definition peek_top (token_id : bytes) (n : nat) (p : TransactionPool) : list string :=
  match pools p !! token_id with Some pool => take n pool | None => [] end.

Definition pool_dequeue (token_id : bytes) (n : nat) (p : TransactionPool) : TransactionPool * list string :=
  let ids := peek_top token_id n p in
  let ps :=
    match pools p !! token_id with
    | Some pool =>
        let remaining := drop (n `min` length pool) pool in
        match remaining with
        | [] => delete token_id (pools p)
        | _ => <[token_id := remaining]> (pools p)
        end
    | None => pools p
    end in
  (mkPool ps (index p), ids).

Definition pool_len (token_id : bytes) (p : TransactionPool) : nat :=
  match pools p !! token_id with Some pool => length pool | None => 0 end.
Definition pool_is_empty (token_id : bytes) (p : TransactionPool) : bool :=
  match pools p !! token_id with Some [] => true | Some _ => false | None => true end.
Definition total_len (p : TransactionPool) : nat := size (index p).
Definition pool_token_ids `{HashIter} (p : TransactionPool) : list bytes := hash_keys (pools p).

(** ** The order of a queue *)

(** The leader's order: sequence number first, then timestamp. *)
Definition entry_le (x y : PoolEntry) : Prop :=
  pe_seq x < pe_seq y ∨ (pe_seq x = pe_seq y ∧ (pe_time x ≤ pe_time y)%Z).

Definition before (idx : gmap string PoolEntry) (a b : string) : Prop :=
  ∃ ea eb, idx !! a = Some ea ∧ idx !! b = Some eb ∧ entry_le ea eb.

(** What holds of one token's queue: its ids are distinct, indexed under the
    token, in the leader's order, and of distinct nonces. *)
Record queue_ok (idx : gmap string PoolEntry) (tok : bytes) (ids : list string) : Prop := {
  qo_nonempty : ids ≠ [];
  qo_nodup : NoDup ids;
  qo_indexed : ∀ id, id ∈ ids → ∃ e, idx !! id = Some e ∧ pe_token e = tok;
  qo_sorted : StronglySorted (before idx) ids;
  qo_nonce : ∀ a b ea eb, a ∈ ids → b ∈ ids → idx !! a = Some ea → idx !! b = Some eb →
    pe_sender ea = pe_sender eb → pe_seq ea = pe_seq eb → a = b;
}.

Definition pool_ok (p : TransactionPool) : Prop := map_Forall (queue_ok (index p)) (pools p).

Definition queued (p : TransactionPool) (id : string) : Prop :=
  ∃ tok ids, pools p !! tok = Some ids ∧ id ∈ ids.

(** ** Lemmas on positions and insertion *)

Lemma vec_insert_perm {A} i (x : A) l : vec_insert i x l ≡ₚ x :: l.
Proof. unfold vec_insert. by rewrite <-Permutation_middle, take_drop. Qed.

Definition insert_at {A} (f : A → bool) (x : A) (l : list A) : list A :=
  match position f l with Some i => vec_insert i x l | None => l ++ [x] end.

Lemma insert_at_cons {A} (f : A → bool) x y l :
  insert_at f x (y :: l) = if f y then x :: y :: l else y :: insert_at f x l.
Proof. unfold insert_at. simpl. destruct (f y); [done|]. by destruct (position f l). Qed.

Lemma insert_at_perm {A} (f : A → bool) x l : insert_at f x l ≡ₚ x :: l.
Proof.
  unfold insert_at. destruct (position f l); [apply vec_insert_perm|].
  by rewrite Permutation_app_comm.
Qed.

(** Inserting before the first element that [f] says comes after keeps a
    sorted list sorted, when [f] decides the order. *)
Lemma insert_at_sorted {A} (R : relation A) (f : A → bool) x l :
  (∀ y, y ∈ l → if f y then R x y ∧ (∀ z, R y z → R x z) else R y x) →
  StronglySorted R l → StronglySorted R (insert_at f x l).
Proof.
  intros Hf Hs. induction Hs as [|y l Hs IH Hall]; [by repeat constructor|].
  rewrite insert_at_cons. pose proof (Hf y (list_elem_of_here _ _)) as Hy.
  destruct (f y).
  - destruct Hy as [Hxy Htr]. constructor; [by constructor|]. constructor; [done|].
    eapply Forall_impl; [done|]. auto.
  - constructor; [apply IH; intros z ?; apply Hf; by right|].
    rewrite insert_at_perm. by constructor.
Qed.

Lemma StronglySorted_impl {A} (R S : relation A) l :
  (∀ x y, x ∈ l → y ∈ l → R x y → S x y) → StronglySorted R l → StronglySorted S l.
Proof.
  intros HRS Hs. induction Hs as [|x l Hs IH Hall]; constructor.
  - apply IH. intros ?????. apply HRS; [by right..|done].
  - rewrite Forall_forall in Hall |- *. intros y Hy. apply HRS; [left|by right|auto].
Qed.

Lemma StronglySorted_sublist {A} (R : relation A) l k :
  sublist l k → StronglySorted R k → StronglySorted R l.
Proof.
  intros Hl. induction Hl as [|x l k Hl IH|x l k Hl IH]; inversion 1; subst; [done| |auto].
  constructor; [auto|]. rewrite Forall_forall in * |- *. intros y Hy.
  eapply sublist_subseteq in Hy; eauto.
Qed.

(** ** The queues stay in order *)

Lemma comes_after_spec idx seq time sender id e :
  idx !! id = Some e → (pe_sender e = sender → pe_seq e ≠ seq) →
  comes_after idx seq time sender id = true ↔
    (seq < pe_seq e ∨ (pe_seq e = seq ∧ (time < pe_time e)%Z)).
Proof.
  intros He Hn. unfold comes_after, tuple_gt. rewrite He. simpl.
  case_bool_decide; rewrite ?orb_true_iff, ?andb_true_iff, ?bool_decide_eq_true; [|tauto].
  split; [by left|]. intros [?|[??]]; [done|]. exfalso. by apply Hn.
Qed.

Lemma entry_le_trans x y z : entry_le x y → entry_le y z → entry_le x z.
Proof. unfold entry_le. lia. Qed.

(** A queue depends on the index only at its own ids. *)
Lemma queue_ok_index idx idx' tok ids :
  (∀ id, id ∈ ids → idx' !! id = idx !! id) → queue_ok idx tok ids → queue_ok idx' tok ids.
Proof.
  intros Hsame [Hne Hnd Hix Hs Hno]. split; [done|done| | |].
  - intros id Hid. rewrite Hsame by done. auto.
  - eapply StronglySorted_impl; [|done]. intros x y Hx Hy (ex & ey & Ex & Ey & ?).
    exists ex, ey. by rewrite !Hsame.
  - intros a b ea eb Ha Hb. rewrite !Hsame by done. eauto.
Qed.

(** Dropping ids keeps a queue in order. *)
Lemma queue_ok_sublist idx tok ids ids' :
  sublist ids' ids → ids' ≠ [] → queue_ok idx tok ids → queue_ok idx tok ids'.
Proof.
  intros Hsub Hne [_ Hnd Hix Hs Hno].
  assert (∀ id, id ∈ ids' → id ∈ ids) by (intros id; by apply sublist_subseteq).
  split; [done|by eapply sublist_NoDup| | |].
  - auto.
  - by eapply StronglySorted_sublist.
  - intros a b ea eb Ha Hb. eauto.
Qed.

(** No queued transaction of [tok] has this nonce. *)
Definition nonce_unqueued (p : TransactionPool) (tok sender : bytes) (seq : nat) : Prop :=
  ∀ ids id e, pools p !! tok = Some ids → id ∈ ids → index p !! id = Some e →
    pe_sender e = sender → pe_seq e ≠ seq.

Lemma enqueue_queue_ok idx id tok seq time sender ids :
  id ∉ ids → (ids = [] ∨ queue_ok idx tok ids) →
  (∀ id' e, id' ∈ ids → idx !! id' = Some e → pe_sender e = sender → pe_seq e ≠ seq) →
  idx !! id = Some (mkEntry tok seq time sender) →
  queue_ok idx tok (insert_at (comes_after idx seq time sender) id ids).
Proof.
  intros Hid Hq Hnonce Hix.
  assert (NoDup ids ∧ (∀ id', id' ∈ ids → ∃ e, idx !! id' = Some e ∧ pe_token e = tok) ∧
    StronglySorted (before idx) ids) as (Hnd & Hi & Hs).
  { destruct Hq as [->|[]]; [|done]. split; [constructor|]. split; [by intros ? ?%elem_of_nil|constructor]. }
  split.
  - intros E. pose proof (insert_at_perm (comes_after idx seq time sender) id ids) as Hp.
    rewrite E in Hp. by apply Permutation_nil_l in Hp.
  - rewrite insert_at_perm. by constructor.
  - intros id'. rewrite insert_at_perm, elem_of_cons. intros [->|?]; eauto.
  - apply insert_at_sorted; [|done]. intros y Hy. destruct (Hi y Hy) as (e & He & _).
    destruct (comes_after idx seq time sender y) eqn:E.
    + eapply comes_after_spec in E; [|done|by eapply Hnonce].
      assert (before idx id y) as Hb by (do 2 eexists; split_and!; [done..|unfold entry_le; simpl; lia]).
      split; [done|]. intros z (ey & ez & Ey & Ez & Hle). destruct Hb as (e1 & e2 & E1 & E2 & Hle').
      exists e1, ez. simplify_eq. eauto using entry_le_trans.
    + exists e, (mkEntry tok seq time sender). split_and!; [done..|].
      apply not_true_iff_false in E. rewrite (comes_after_spec _ _ _ _ _ e) in E by eauto.
      unfold entry_le. simpl. lia.
  - intros a b ea eb. rewrite insert_at_perm, !elem_of_cons.
    destruct Hq as [->|[_ _ _ _ Hno]]; intros [->|Ha] [->|Hb] Ea Eb; simplify_eq/=;
      try (by apply elem_of_nil in Ha); try (by apply elem_of_nil in Hb); eauto.
    + intros Hse Hsq. exfalso. eapply (Hnonce b); eauto.
    + intros Hse Hsq. exfalso. eapply (Hnonce a); eauto.
Qed.

Lemma enqueue_ok p id tok seq time sender :
  pool_ok p → ¬ queued p id → nonce_unqueued p tok sender seq →
  pool_ok (enqueue id tok seq time sender p).
Proof.
  intros Hp Hq Hn tok' ids'. unfold enqueue. simpl.
  set (idx := <[id := _]> (index p)).
  assert (∀ t ids id', pools p !! t = Some ids → id' ∈ ids → idx !! id' = index p !! id') as Hsame.
  { intros t ids id' ??. apply lookup_insert_ne. intros ->. apply Hq. by exists t, ids. }
  rewrite lookup_insert_Some. intros [[<- <-]|[Hne Hl]].
  - apply (enqueue_queue_ok idx id tok seq time sender); [| | |by apply lookup_insert_eq].
    + destruct (pools p !! tok) eqn:E; simpl; [|by intros ?%elem_of_nil].
      intros ?. apply Hq. by do 2 eexists.
    + destruct (pools p !! tok) as [ids|] eqn:E; [right|by left].
      apply (queue_ok_index (index p)); [by eauto|by apply Hp].
    + destruct (pools p !! tok) as [ids|] eqn:E; [|by intros ?? ?%elem_of_nil].
      intros id' e Hid' He. rewrite (Hsame tok ids) in He by done. by eapply Hn.
  - apply (queue_ok_index (index p)); [by eauto|by apply Hp].
Qed.

Lemma remove_ok p id : pool_ok p → pool_ok (pool_remove id p).1.
Proof.
  intros Hp. unfold pool_remove. destruct (index p !! id) as [entry|] eqn:Hid; [|done]. simpl.
  assert (∀ t ids, queue_ok (index p) t ids → id ∉ ids → queue_ok (delete id (index p)) t ids) as Hdel.
  { intros t ids Hq Hn. eapply queue_ok_index; [|done]. intros id' Hid'.
    apply lookup_delete_ne. by intros ->. }
  assert (∀ t ids, pools p !! t = Some ids → t ≠ pe_token entry → queue_ok (delete id (index p)) t ids) as Hoth.
  { intros t ids Hl Hne. apply Hdel; [by apply Hp|]. intros Hin.
    destruct (qo_indexed _ _ _ (Hp _ _ Hl) id Hin) as (e & ? & ?). congruence. }
  intros t ids. simpl. destruct (pools p !! pe_token entry) as [pool|] eqn:Hpool.
  - destruct (filter _ pool) as [|x l] eqn:Hf.
    + rewrite lookup_delete_Some. intros [? ?]. auto.
    + rewrite lookup_insert_Some. intros [[<- <-]|[? ?]]; [|auto].
      apply Hdel; rewrite <-Hf.
      * eapply queue_ok_sublist; [apply sublist_filter|by rewrite Hf|by apply Hp].
      * rewrite list_elem_of_filter. tauto.
  - intros Hl. apply Hoth; [done|]. intros ->. congruence.
Qed.

Lemma dequeue_ok p tok n : pool_ok p → pool_ok (pool_dequeue tok n p).1.
Proof.
  intros Hp t ids. unfold pool_dequeue. simpl. destruct (pools p !! tok) as [pool|] eqn:Hpool; [|apply Hp].
  destruct (drop _ pool) as [|x l] eqn:Hd.
  - rewrite lookup_delete_Some. intros [_ ?]. by apply Hp.
  - rewrite lookup_insert_Some. intros [[<- <-]|[_ ?]]; [|by apply Hp].
    rewrite <-Hd. eapply queue_ok_sublist; [apply sublist_drop|by rewrite Hd|by apply Hp].
Qed.

(** Dequeuing splits the queue: what is returned, then what stays. *)
Lemma dequeue_split p tok n :
  default [] (pools p !! tok) =
    (pool_dequeue tok n p).2 ++ default [] (pools (pool_dequeue tok n p).1 !! tok).
Proof.
  unfold pool_dequeue, peek_top. simpl. destruct (pools p !! tok) as [pool|] eqn:E; simpl; [|by rewrite E].
  assert (take n pool ++ drop (n `min` length pool) pool = pool) as Heq.
  { destruct (decide (n ≤ length pool)).
    - rewrite Nat.min_l by done. apply take_drop.
    - rewrite Nat.min_r, take_ge, drop_ge, app_nil_r by lia. done. }
  destruct (drop _ pool) as [|x l] eqn:Hd.
  - rewrite lookup_delete_eq. by rewrite app_nil_r in Heq |- *.
  - by rewrite lookup_insert_eq.
Qed.
