(* ===== verification/Registry.v ===== *)
(** * The pending-transaction registry (src/src/registry.rs, registry/pending.rs)

    Everything in flight: the standard transactions by id, the pool a leader
    draws from, the consumed nonces, the shielded transfers, the gas and
    admin-credit side tables. Each method is one function on the registry; a
    [DashMap] is a finite map and its single-key operations are atomic. *)

From S2P Require Import Prelude Types Pool Tokens.

Record PendingTransactionRegistry := mkRegistry {
  transactions : gmap string PendingTransaction;
  pool : TransactionPool;
  admin_credits : gmap string PendingAdminCredit;
  gas_tracker : gmap string N;
  used_nonces : gset (bytes * bytes * nat);
  shielded_transactions : gmap string ShieldedTransaction;
}.

Definition Registry_new : PendingTransactionRegistry := mkRegistry ∅ TransactionPool_new ∅ ∅ ∅ ∅.

Definition with_transactions (m : gmap string PendingTransaction) (r : PendingTransactionRegistry) :=
  mkRegistry m (pool r) (admin_credits r) (gas_tracker r) (used_nonces r) (shielded_transactions r).
Definition with_pool (p : TransactionPool) (r : PendingTransactionRegistry) :=
  mkRegistry (transactions r) p (admin_credits r) (gas_tracker r) (used_nonces r) (shielded_transactions r).
Definition with_credits (m : gmap string PendingAdminCredit) (r : PendingTransactionRegistry) :=
  mkRegistry (transactions r) (pool r) m (gas_tracker r) (used_nonces r) (shielded_transactions r).
Definition with_gas (m : gmap string N) (r : PendingTransactionRegistry) :=
  mkRegistry (transactions r) (pool r) (admin_credits r) m (used_nonces r) (shielded_transactions r).
Definition with_nonces (s : gset (bytes * bytes * nat)) (r : PendingTransactionRegistry) :=
  mkRegistry (transactions r) (pool r) (admin_credits r) (gas_tracker r) s (shielded_transactions r).
Definition with_shielded (m : gmap string ShieldedTransaction) (r : PendingTransactionRegistry) :=
  mkRegistry (transactions r) (pool r) (admin_credits r) (gas_tracker r) (used_nonces r) m.

(** A method that may fail: the registry afterwards and the result. *)
Abbreviation outcome A := (PendingTransactionRegistry * result PneumaticError A)%type (only parsing).

Definition not_found (id : string) : PneumaticError :=
  Registry ("Transaction " +:+ id +:+ " not found in registry").

Definition contains (id : string) (r : PendingTransactionRegistry) : bool :=
  bool_decide (is_Some (transactions r !! id)).
Definition in_flight_count (r : PendingTransactionRegistry) : nat := size (transactions r).
Definition shielded_count (r : PendingTransactionRegistry) : nat := size (shielded_transactions r).

Definition add_transaction (id : string) (t : PendingTransaction) (r : PendingTransactionRegistry)
    : outcome () :=
  let r' := with_transactions (<[id := t]> (transactions r)) r in
  match transactions r !! id with
  | Some _ => (r', Err (Registry ("Transaction " +:+ id +:+ " already exists in registry")))
  | None => (r', Ok ())
  end.

Definition register_pending (id : string) (r : PendingTransactionRegistry) : outcome () :=
  add_transaction id (PendingTransaction_new id Pending) r.

Definition remove_transaction (id : string) (r : PendingTransactionRegistry) : outcome () :=
  match transactions r !! id with
  | None => (r, Err (not_found id))
  | Some _ => (with_transactions (delete id (transactions r)) r, Ok ())
  end.

Definition register_shielded (tx : ShieldedTransaction) (r : PendingTransactionRegistry) : outcome () :=
  let r' := with_shielded (<[sh_id tx := tx]> (shielded_transactions r)) r in
  match shielded_transactions r !! sh_id tx with
  | Some old =>
      (with_shielded (<[sh_id tx := old]> (shielded_transactions r')) r',
       Err (Registry ("ShieldedTransaction " +:+ sh_id tx +:+ " already exists in registry")))
  | None => (r', Ok ())
  end.

Definition contains_shielded (id : string) (r : PendingTransactionRegistry) : bool :=
  bool_decide (is_Some (shielded_transactions r !! id)).
Definition get_shielded (id : string) (r : PendingTransactionRegistry) : option ShieldedTransaction :=
  shielded_transactions r !! id.

Definition acquire_transaction (id : string) (r : PendingTransactionRegistry) : outcome () :=
  match transactions r !! id with
  | None => (r, Err (not_found id))
  | Some entry =>
      let (entry', res) := acquire entry in
      (with_transactions (<[id := entry']> (transactions r)) r,
       map_err (λ _, Registry ("Transaction " +:+ id +:+ " in terminal state")) res)
  end.

Definition get_validation_result (id : string) (r : PendingTransactionRegistry)
    : result PneumaticError TransactionValidationResult :=
  match transactions r !! id with
  | None => Err (not_found id)
  | Some entry =>
      match pt_state entry with
      | Validated _ validation => Ok validation
      | _ => Err (Registry ("Transaction " +:+ id +:+ " is not in Validated state"))
      end
  end.

Definition set_requested_finalizer (id : string) (finalizer_key : bytes)
    (r : PendingTransactionRegistry) : outcome () :=
  match transactions r !! id with
  | None => (r, Err (not_found id))
  | Some entry =>
      match pt_state entry with
      | Validated transaction _ =>
          (with_transactions (<[id := transition_to_finalizing transaction finalizer_key entry]>
             (transactions r)) r, Ok ())
      | old_state =>
          (with_transactions (<[id := with_state old_state entry]> (transactions r)) r,
           Err (Registry ("Transaction " +:+ id +:+ " is not validated, cannot set finalizer")))
      end
  end.

Definition is_requested_finalizer (id : string) (expected_key : bytes)
    (r : PendingTransactionRegistry) : bool :=
  if bool_decide (expected_key = []) then false
  else match transactions r !! id with
       | None => false
       | Some entry =>
           match pt_state entry with
           | Finalizing _ finalizer_key => bool_decide (finalizer_key = expected_key)
           | Validated _ validation =>
               negb (bool_decide (finalizer_public_key validation = [])) &&
               bool_decide (finalizer_public_key validation = expected_key)
           | _ => false
           end
       end.

Definition release_transaction (id : string) (r : PendingTransactionRegistry) : outcome bool :=
  match transactions r !! id with
  | None => (r, Err (not_found id))
  | Some entry =>
      let (entry', res) := release entry in
      (with_transactions (<[id := entry']> (transactions r)) r, Ok res)
  end.

(** [get_transaction_mut]: the caller changes the entry in place by [f]. *)
Definition get_transaction_mut (id : string) (f : PendingTransaction → PendingTransaction)
    (r : PendingTransactionRegistry) : outcome () :=
  match transactions r !! id with
  | None => (r, Err (not_found id))
  | Some entry => (with_transactions (<[id := f entry]> (transactions r)) r, Ok ())
  end.

Definition transaction_is_awaiting_finalizer (id : string) (r : PendingTransactionRegistry) : bool :=
  match transactions r !! id with Some e => is_awaiting_finalizer e | None => false end.

Definition duplicate_nonce (token_id sender : bytes) (sequence_number : nat) : PneumaticError :=
  Registry ("duplicate nonce: (token_id=" +:+ debug_bytes token_id +:+ ", sender=" +:+
    debug_bytes sender +:+ ", sequence_number=" +:+ pretty sequence_number +:+ ") already admitted").

Definition enqueue_to_pool (tx_id : string) (token_id : bytes) (sequence_number : nat)
    (timestamp : Z) (sender : bytes) (r : PendingTransactionRegistry) : outcome () :=
  let key := (token_id, sender, sequence_number) in
  let r' := with_nonces ({[key]} ∪ used_nonces r) r in
  if bool_decide (key ∈ used_nonces r) then (r', Err (duplicate_nonce token_id sender sequence_number))
  else (with_pool (enqueue tx_id token_id sequence_number timestamp sender (pool r')) r', Ok ()).

Definition dequeue_for_leader (token_id : bytes) (n : nat) (r : PendingTransactionRegistry)
    : PendingTransactionRegistry * list string :=
  let (p, ids) := pool_dequeue token_id n (pool r) in (with_pool p r, ids).

Definition remove_from_pool (tx_id : string) (r : PendingTransactionRegistry) : PendingTransactionRegistry :=
  with_pool (pool_remove tx_id (pool r)).1 r.

Definition get_transaction (id : string) (r : PendingTransactionRegistry) : result PneumaticError Transaction :=
  match transactions r !! id with
  | None => Err (not_found id)
  | Some entry =>
      match pt_state entry with
      | Validated transaction _ => Ok transaction
      | _ => Err (Registry ("Transaction " +:+ id +:+ " is not in Validated state"))
      end
  end.

(** The loop of [get_ordered_transactions]: the first failing id ends it. *)
Fixpoint fetch_all (ids : list string) (r : PendingTransactionRegistry)
    : result PneumaticError (list Transaction) :=
  match ids with
  | [] => Ok []
  | id :: ids' => tx ← get_transaction id r; rest ← fetch_all ids' r; Ok (tx :: rest)
  end.

Definition get_ordered_transactions (token_id : bytes) (limit : nat) (r : PendingTransactionRegistry)
    : outcome (list Transaction) :=
  let (r', tx_ids) := dequeue_for_leader token_id limit r in (r', fetch_all tx_ids r').

Definition record_gas_used (tx_id : string) (gas_used : N) (r : PendingTransactionRegistry) :=
  with_gas (<[tx_id := gas_used]> (gas_tracker r)) r.
Definition get_gas_used (tx_id : string) (r : PendingTransactionRegistry) : option N :=
  gas_tracker r !! tx_id.

Definition record_admin_credit (c : PendingAdminCredit) (r : PendingTransactionRegistry) :=
  with_credits (<[credit_id c := c]> (admin_credits r)) r.
Definition get_admin_credit (id : string) (r : PendingTransactionRegistry) : option PendingAdminCredit :=
  admin_credits r !! id.
Definition take_admin_credit (id : string) (r : PendingTransactionRegistry)
    : PendingTransactionRegistry * option PendingAdminCredit :=
  match admin_credits r !! id with
  | None => (r, None)
  | Some c => (with_credits (delete id (admin_credits r)) r, Some c)
  end.

Definition transition_to_validated_and_enqueue (tx_id : string) (transaction : Transaction)
    (validation : TransactionValidationResult) (r : PendingTransactionRegistry) : outcome () :=
  match transactions r !! tx_id with
  | None => (r, Err (Registry ("Transaction " +:+ tx_id +:+ " not found")))
  | Some entry =>
      let r1 := with_transactions (<[tx_id := transition_to_validated transaction validation entry]>
                  (transactions r)) r in
      enqueue_to_pool tx_id (tx_token_id transaction) (tx_sequence_number transaction)
        (tx_timestamp transaction) (tx_sender transaction) r1
  end.

(** ** A node's run over the registry

    Every method that changes the registry, as one step. *)

Inductive RegistryOp :=
| OpAdd (id : string) (t : PendingTransaction)
| OpRegister (id : string)
| OpRemove (id : string)
| OpShielded (tx : ShieldedTransaction)
| OpAcquire (id : string)
| OpRelease (id : string)
| OpSetFinalizer (id : string) (key : bytes)
| OpMutate (id : string) (f : PendingTransaction → PendingTransaction)
| OpEnqueue (id : string) (token_id : bytes) (seq : nat) (time : Z) (sender : bytes)
| OpValidate (id : string) (tx : Transaction) (v : TransactionValidationResult)
| OpDequeue (token_id : bytes) (n : nat)
| OpOrdered (token_id : bytes) (n : nat)
| OpRemoveFromPool (id : string)
| OpGas (id : string) (gas : N)
| OpCredit (c : PendingAdminCredit)
| OpTakeCredit (id : string).

Definition run_op (r : PendingTransactionRegistry) (o : RegistryOp) : PendingTransactionRegistry :=
  match o with
  | OpAdd id t => (add_transaction id t r).1
  | OpRegister id => (register_pending id r).1
  | OpRemove id => (remove_transaction id r).1
  | OpShielded tx => (register_shielded tx r).1
  | OpAcquire id => (acquire_transaction id r).1
  | OpRelease id => (release_transaction id r).1
  | OpSetFinalizer id key => (set_requested_finalizer id key r).1
  | OpMutate id f => (get_transaction_mut id f r).1
  | OpEnqueue id tok seq time sender => (enqueue_to_pool id tok seq time sender r).1
  | OpValidate id tx v => (transition_to_validated_and_enqueue id tx v r).1
  | OpDequeue tok n => (dequeue_for_leader tok n r).1
  | OpOrdered tok n => (get_ordered_transactions tok n r).1
  | OpRemoveFromPool id => remove_from_pool id r
  | OpGas id gas => record_gas_used id gas r
  | OpCredit c => record_admin_credit c r
  | OpTakeCredit id => (take_admin_credit id r).1
  end.

Definition run_ops (r : PendingTransactionRegistry) (os : list RegistryOp) : PendingTransactionRegistry :=
  foldl run_op r os.

(** ** The registry's invariant *)

(** Every queued transaction's nonce is recorded as used. *)
Definition nonces_recorded (r : PendingTransactionRegistry) : Prop :=
  ∀ tok ids id e, pools (pool r) !! tok = Some ids → id ∈ ids → index (pool r) !! id = Some e →
    (tok, pe_sender e, pe_seq e) ∈ used_nonces r.

Definition registry_ok (r : PendingTransactionRegistry) : Prop :=
  pool_ok (pool r) ∧ nonces_recorded r.

(** A transaction id is put in a queue only while it is in none. *)
Definition fresh_id (r : PendingTransactionRegistry) (o : RegistryOp) : Prop :=
  match o with
  | OpEnqueue id _ _ _ _ | OpValidate id _ _ => ¬ queued (pool r) id
  | _ => True
  end.

Inductive reachable : PendingTransactionRegistry → Prop :=
| reach_new : reachable Registry_new
| reach_step r o : reachable r → fresh_id r o → reachable (run_op r o).

(** Most operations leave the pool and the nonces alone. *)
Lemma registry_ok_same r r' :
  pool r' = pool r → used_nonces r' = used_nonces r → registry_ok r → registry_ok r'.
Proof. intros Hp Hn [??]. unfold registry_ok, nonces_recorded. by rewrite Hp, Hn. Qed.

Lemma registry_ok_enqueue r id tok seq time sender :
  registry_ok r → ¬ queued (pool r) id → registry_ok (enqueue_to_pool id tok seq time sender r).1.
Proof.
  intros [Hp Hn] Hq. unfold enqueue_to_pool. case_bool_decide as Hu; simpl.
  { split; [done|]. intros ??????? . apply elem_of_union_r. by eapply Hn. }
  split; simpl.
  - apply enqueue_ok; [done..|]. intros ids id' e Hl Hid He <- <-. apply Hu. by eapply Hn.
  - intros tok' ids' id' e. simpl. rewrite lookup_insert_Some. intros Hl Hid He.
    destruct (decide (id' = id)) as [->|Hne].
    + rewrite lookup_insert_eq in He. simplify_eq/=.
      destruct Hl as [[<- _]|[_ Hl]]; [set_solver|]. exfalso. apply Hq. by do 2 eexists.
    + rewrite lookup_insert_ne in He by done. apply elem_of_union_r.
      destruct Hl as [[<- <-]|[_ Hl]]; [|by eapply Hn].
      change (id' ∈ insert_at (comes_after (<[id := mkEntry tok seq time sender]> (index (pool r)))
        seq time sender) id (default [] (pools (pool r) !! tok))) in Hid.
      rewrite insert_at_perm, elem_of_cons in Hid. destruct Hid as [?|Hid]; [done|].
      destruct (pools (pool r) !! tok) eqn:E; [by eapply Hn|by apply elem_of_nil in Hid].
Qed.

(** Taking ids out of the queues keeps what is left recorded. *)
Lemma nonces_recorded_sub r p :
  (∀ tok ids id, pools p !! tok = Some ids → id ∈ ids →
     ∃ ids', pools (pool r) !! tok = Some ids' ∧ id ∈ ids') →
  (∀ id e, index p !! id = Some e → index (pool r) !! id = Some e) →
  nonces_recorded r → nonces_recorded (with_pool p r).
Proof.
  intros Hq Hi Hn tok ids id e Hl Hid He. simpl in *.
  destruct (Hq _ _ _ Hl Hid) as (ids' & ? & ?). by eapply Hn; eauto.
Qed.

Lemma registry_ok_dequeue r tok n : registry_ok r → registry_ok (dequeue_for_leader tok n r).1.
Proof.
  intros [Hp Hn]. unfold dequeue_for_leader. simpl.
  split; [apply (dequeue_ok _ tok n Hp)|]. apply nonces_recorded_sub; [|done|done].
  intros t ids id. simpl. destruct (pools (pool r) !! tok) as [q|] eqn:Hq; [|by eauto].
  destruct (drop _ q) as [|x l] eqn:Hd.
  - rewrite lookup_delete_Some. intros [_ ?]. by eauto.
  - rewrite lookup_insert_Some. intros [[<- <-]|[_ ?]]; [|by eauto]. intros Hin.
    exists q. split; [done|]. eapply sublist_subseteq; [apply sublist_drop|]. by rewrite Hd.
Qed.

Lemma registry_ok_remove_pool r id : registry_ok r → registry_ok (remove_from_pool id r).
Proof.
  intros [Hp Hn]. split; [apply (remove_ok _ id Hp)|]. unfold remove_from_pool.
  apply nonces_recorded_sub; [| |done]; unfold pool_remove;
    destruct (index (pool r) !! id) as [entry|] eqn:Hid; simpl; eauto.
  - intros t ids x. destruct (pools (pool r) !! pe_token entry) as [q|] eqn:Hq; [|by eauto].
    destruct (filter _ q) as [|y l] eqn:Hf.
    + rewrite lookup_delete_Some. intros [_ ?]. by eauto.
    + rewrite lookup_insert_Some. intros [[<- <-]|[_ ?]]; [|by eauto]. rewrite <-Hf.
      rewrite list_elem_of_filter. intros [_ ?]. by eauto.
  - intros x e. rewrite lookup_delete_Some. tauto.
Qed.

(** The operations on single transactions touch neither pool nor nonces nor shielded entries. *)
Definition entry_op (o : RegistryOp) : bool :=
  match o with
  | OpEnqueue _ _ _ _ _ | OpValidate _ _ _ | OpDequeue _ _ | OpOrdered _ _ | OpRemoveFromPool _
  | OpShielded _ => false
  | _ => true
  end.

Lemma entry_op_frame r o :
  entry_op o = true →
  pool (run_op r o) = pool r ∧ used_nonces (run_op r o) = used_nonces r ∧
  shielded_transactions (run_op r o) = shielded_transactions r.
Proof.
  destruct o; try done; intros _; simpl;
    unfold register_pending, add_transaction, remove_transaction, acquire_transaction,
      release_transaction, set_requested_finalizer, get_transaction_mut, take_admin_credit;
    repeat case_match; by split_and!.
Qed.

Lemma reachable_ok r : reachable r → registry_ok r.
Proof.
  induction 1 as [|r o _ IH Hf].
  { split; [apply map_Forall_empty|]. intros tok ids id e. simpl. by rewrite lookup_empty. }
  destruct (entry_op o) eqn:Ho.
  { destruct (entry_op_frame r o Ho) as (? & ? & _). by apply (registry_ok_same r). }
  destruct o; try done; simpl in *.
  - unfold register_shielded. case_match; by apply (registry_ok_same r).
  - by apply registry_ok_enqueue.
  - unfold transition_to_validated_and_enqueue. case_match; [|done].
    apply registry_ok_enqueue; [by apply (registry_ok_same r)|done].
  - by apply registry_ok_dequeue.
  - by apply registry_ok_dequeue.
  - by apply registry_ok_remove_pool.
Qed.

(** ** What the registry promises *)

Lemma run_op_nonces r o : used_nonces r ⊆ used_nonces (run_op r o).
Proof.
  destruct (entry_op o) eqn:Ho; [by destruct (entry_op_frame r o Ho) as (_ & -> & _)|].
  destruct o; try done; simpl;
    unfold register_shielded, transition_to_validated_and_enqueue, enqueue_to_pool;
    repeat case_match; simpl; set_solver.
Qed.

Lemma run_op_shielded r o id tx :
  shielded_transactions r !! id = Some tx → shielded_transactions (run_op r o) !! id = Some tx.
Proof.
  intros Hid. destruct (entry_op o) eqn:Ho; [by destruct (entry_op_frame r o Ho) as (_ & _ & ->)|].
  destruct o as [| | |tx'| | | | | | | | | | | |]; try done; simpl;
    unfold register_shielded, transition_to_validated_and_enqueue, enqueue_to_pool;
    repeat case_match; try done; simpl.
  - rewrite insert_insert_eq. destruct (decide (sh_id tx' = id)) as [<-|?].
    + rewrite lookup_insert_eq. congruence.
    + by rewrite lookup_insert_ne.
  - rewrite lookup_insert_ne; [done|congruence].
Qed.

Lemma run_ops_nonces r os : used_nonces r ⊆ used_nonces (run_ops r os).
Proof.
  revert r. induction os as [|o os IH]; intros r; [done|]. simpl.
  etrans; [apply (run_op_nonces r o)|apply IH].
Qed.

Lemma run_ops_shielded r os id tx :
  shielded_transactions r !! id = Some tx → shielded_transactions (run_ops r os) !! id = Some tx.
Proof. revert r. induction os; intros; [done|]. simpl. eauto using run_op_shielded. Qed.

(** Admission is durable. Once a nonce [(token_id, sender, sequence_number)]
    is admitted, then after any further registry operations whatsoever every
    enqueue with that nonce is refused and changes nothing; once a shielded
    transfer is admitted, any later state of the registry still holds exactly
    it, and a second transfer under its id is refused and changes nothing. *)
Theorem admission_is_durable r os :
  (∀ id id' tok seq time time' sender,
     (enqueue_to_pool id tok seq time sender r).2 = Ok () →
     let r' := run_ops (enqueue_to_pool id tok seq time sender r).1 os in
     enqueue_to_pool id' tok seq time' sender r' = (r', Err (duplicate_nonce tok sender seq))) ∧
  (∀ tx tx',
     (register_shielded tx r).2 = Ok () → sh_id tx' = sh_id tx →
     let r' := run_ops (register_shielded tx r).1 os in
     get_shielded (sh_id tx) r' = Some tx ∧
     (register_shielded tx' r').1 = r' ∧ is_ok (register_shielded tx' r').2 = false).
Proof.
  split.
  - intros id id' tok seq time time' sender Hok r'.
    assert ((tok, sender, seq) ∈ used_nonces r') as Hin.
    { apply run_ops_nonces. unfold enqueue_to_pool in *. case_bool_decide; [done|]. simpl. set_solver. }
    clearbody r'. unfold enqueue_to_pool. rewrite bool_decide_true by done. f_equal.
    destruct r' as [t p c g n s]. unfold with_nonces. simpl in *. f_equal. set_solver.
  - intros tx tx' Hok Hid r'.
    assert (shielded_transactions r' !! sh_id tx = Some tx) as Hin.
    { apply run_ops_shielded. unfold register_shielded in *.
      destruct (shielded_transactions r !! sh_id tx); [done|]. simpl. apply lookup_insert_eq. }
    split; [done|]. clearbody r'. unfold register_shielded. rewrite Hid, Hin. simpl.
    split; [|done]. rewrite insert_insert_eq, insert_id by done. by destruct r'.
Qed.

(** A leader draws transactions in the order (sequence number, timestamp).
    In every registry a node can reach, dequeuing [n] ids of a token returns the
    first [n] of its queue; the returned ids and those left behind are together
    free of repetitions and in the leader's order, and no two of them carry the
    same nonce of the same sender. *)
Theorem leader_dequeues_in_order r tok n :
  reachable r →
  let '(r', ids) := dequeue_for_leader tok n r in
  let rest := default [] (pools (pool r') !! tok) in
  length ids = n `min` pool_len tok (pool r) ∧
  NoDup (ids ++ rest) ∧
  StronglySorted (before (index (pool r))) (ids ++ rest) ∧
  ∀ a b ea eb, a ∈ ids ++ rest → b ∈ ids ++ rest →
    index (pool r) !! a = Some ea → index (pool r) !! b = Some eb →
    pe_sender ea = pe_sender eb → pe_seq ea = pe_seq eb → a = b.
Proof.
  intros [Hp _]%reachable_ok. pose proof (dequeue_split (pool r) tok n) as Hs.
  unfold dequeue_for_leader. destruct (pool_dequeue tok n (pool r)) as [p ids] eqn:E. simpl in *.
  rewrite <-Hs. split.
  { apply (f_equal snd) in E. simpl in E. subst ids. unfold peek_top, pool_len.
    destruct (pools (pool r) !! tok); [by rewrite length_take | by rewrite Nat.min_0_r]. }
  destruct (pools (pool r) !! tok) as [q|] eqn:Hq; simpl.
  - by destruct (Hp _ _ Hq).
  - split_and!; [constructor|constructor|]. by intros ???? ?%elem_of_nil.
Qed.

(** Validating and enqueuing, on every branch. An unknown id is an error
    that changes nothing. A fresh nonce leaves the entry [Validated] (its locks
    kept), puts the id in the token's queue once and makes the transaction
    retrievable. A used nonce is an error that leaves the pool as it was, but
    the entry has already become [Validated]. *)
Theorem validate_and_enqueue_branches tx_id tx v r :
  let '(r', res) := transition_to_validated_and_enqueue tx_id tx v r in
  let nonce := (tx_token_id tx, tx_sender tx, tx_sequence_number tx) in
  match transactions r !! tx_id with
  | None => r' = r ∧ is_ok res = false
  | Some entry =>
      transactions r' !! tx_id = Some (mkPending (pt_id entry) (Validated tx v) (lock_count entry)) ∧
      get_transaction tx_id r' = Ok tx ∧
      (nonce ∈ used_nonces r → pool r' = pool r ∧ is_ok res = false) ∧
      (nonce ∉ used_nonces r →
         res = Ok () ∧ nonce ∈ used_nonces r' ∧
         default [] (pools (pool r') !! tx_token_id tx) ≡ₚ
           tx_id :: default [] (pools (pool r) !! tx_token_id tx))
  end.
Proof.
  unfold transition_to_validated_and_enqueue.
  destruct (transactions r !! tx_id) as [entry|] eqn:Hid; [|done].
  unfold enqueue_to_pool. simpl.
  assert (∀ r', transactions r' = <[tx_id := transition_to_validated tx v entry]> (transactions r) →
    transactions r' !! tx_id = Some (mkPending (pt_id entry) (Validated tx v) (lock_count entry)) ∧
    get_transaction tx_id r' = Ok tx) as Hent.
  { intros r' Hr'. unfold get_transaction. by rewrite Hr', lookup_insert_eq. }
  case_bool_decide as Hu.
  - destruct (Hent (with_nonces ({[(tx_token_id tx, tx_sender tx, tx_sequence_number tx)]} ∪ used_nonces r)
      (with_transactions (<[tx_id := transition_to_validated tx v entry]> (transactions r)) r)))
      as [H1 H2]; [done|]. by split_and!.
  - split_and!; [by apply lookup_insert_eq| |done|].
    { unfold get_transaction. simpl. by rewrite lookup_insert_eq. }
    intros _. split_and!; [done|set_solver|]. simpl. rewrite lookup_insert_eq. simpl. apply insert_at_perm.
Qed.

(** ** A concrete run: two validated transactions, enqueued out of order *)

Module ConcreteRegistry.
Definition ops : list RegistryOp := [OpEnqueue "b" [1%N] 2 10 [7%N]; OpEnqueue "a" [1%N] 1 20 [7%N]].
Definition registry : PendingTransactionRegistry := run_ops Registry_new ops.

Lemma registry_reachable : reachable registry.
Proof.
  apply (reach_step (run_op Registry_new (OpEnqueue "b" [1%N] 2 10 [7%N]))).
  - apply reach_step; [constructor|]. intros (tok & ids & H & _). change (((∅ : gmap bytes (list string)) !! tok) = Some ids) in H.
    by rewrite lookup_empty in H.
  - intros (tok & ids & H & Hin).
    change ((<[[1%N] := ["b"]]> (∅ : gmap bytes (list string))) !! tok = Some ids) in H.
    rewrite lookup_insert_Some, lookup_empty in H.
    destruct H as [[_ <-]|[_ ?]]; [|done]. by apply list_elem_of_singleton in Hin.
Qed.

Lemma leader_dequeues_witness :
  (dequeue_for_leader [1%N] 1 registry).2 = ["a"] ∧ length ["a"] = 1 `min` pool_len [1%N] (pool registry).
Proof.
  pose proof (leader_dequeues_in_order registry [1%N] 1 registry_reachable) as H.
  destruct (dequeue_for_leader [1%N] 1 registry) as [r' ids] eqn:E.
  assert (ids = ["a"]) as -> by (change ids with (r', ids).2; rewrite <-E; by vm_compute).
  split; [done|]. apply H.
Defined.
End ConcreteRegistry.
