(* ===== verification/Nullifiers.v ===== *)
(** * The spent-nullifier set (src/src/registry/nullifiers.rs)

    Marking nullifiers spent, one or a batch at a time, and the scoped inverse
    of the pool's rollback. A batch is marked by a sequence of single-key
    [DashMap] operations that other callers can interleave with, so besides the
    functions the file has the small-step machine of any number of concurrent
    callers. *)

From S2P Require Import Prelude Types.

Abbreviation NullifierRegistry := (gset bytes) (only parsing).

Definition stale_nullifier : PneumaticError := Validation [StaleNullifier].

Definition NullifierRegistry_new : NullifierRegistry := ∅.

Definition try_mark_spent (n : bytes) (s : NullifierRegistry) : NullifierRegistry * result PneumaticError () :=
  if bool_decide (n ∈ s) then ({[n]} ∪ s, Err stale_nullifier) else ({[n]} ∪ s, Ok ()).

Definition contains_nullifier (n : bytes) (s : NullifierRegistry) : bool := bool_decide (n ∈ s).
Definition nullifiers_len (s : NullifierRegistry) : nat := size s.
Definition nullifiers_is_empty (s : NullifierRegistry) : bool := bool_decide (s = ∅).

(** Removing keys one by one: the rollback of phase 2, and [unmark_many]. *)
Definition unmark_many (ns : list bytes) (s : NullifierRegistry) : NullifierRegistry :=
  foldl (λ s n, s ∖ {[n]}) s ns.

(** Phase 2: insert all, tracking this call's own inserts. *)
Fixpoint insert_all (ns inserted : list bytes) (s : NullifierRegistry)
    : NullifierRegistry * result PneumaticError () :=
  match ns with
  | [] => (s, Ok ())
  | n :: ns' =>
      if bool_decide (n ∈ s) then (unmark_many inserted s, Err stale_nullifier)
      else insert_all ns' (inserted ++ [n]) ({[n]} ∪ s)
  end.

Definition mark_many_atomic (ns : list bytes) (s : NullifierRegistry)
    : NullifierRegistry * result PneumaticError () :=
  if existsb (λ n, bool_decide (n ∈ s)) ns then (s, Err stale_nullifier)
  else insert_all ns [] s.

(** ** Concurrent callers

    One caller of [mark_many_atomic] between two of its [DashMap] operations. *)

Inductive MarkCall :=
| Checking (todo batch : list bytes)
| Inserting (todo inserted batch : list bytes)
| RollingBack (todo batch : list bytes)
| Returned (ok : bool) (batch : list bytes).

Definition mark_start (batch : list bytes) : MarkCall := Checking batch batch.

Definition mark_step (s : NullifierRegistry) (c : MarkCall) : NullifierRegistry * MarkCall :=
  match c with
  | Checking (n :: todo) b => if bool_decide (n ∈ s) then (s, Returned false b) else (s, Checking todo b)
  | Checking [] b => (s, Inserting b [] b)
  | Inserting (n :: todo) ins b =>
      if bool_decide (n ∈ s) then ({[n]} ∪ s, RollingBack ins b)
      else ({[n]} ∪ s, Inserting todo (ins ++ [n]) b)
  | Inserting [] ins b => (s, Returned true b)
  | RollingBack (n :: todo) b => (s ∖ {[n]}, RollingBack todo b)
  | RollingBack [] b => (s, Returned false b)
  | Returned ok b => (s, c)
  end.

Definition returned (c : MarkCall) : bool := match c with Returned _ _ => true | _ => false end.

(** One of the callers makes its next operation. *)
Inductive calls_step : gset bytes * list MarkCall → gset bytes * list MarkCall → Prop :=
| a_call_steps s cs i c s' c' :
    cs !! i = Some c → returned c = false → mark_step s c = (s', c') →
    calls_step (s, cs) (s', <[i := c']> cs).

(** ** One caller alone *)

Lemma unmark_many_spec ns s : unmark_many ns s = s ∖ list_to_set ns.
Proof.
  revert s. induction ns as [|n ns IH]; intros s; simpl; [set_solver|].
  rewrite IH. set_solver.
Qed.

Lemma insert_all_spec ns ins s :
  insert_all ns ins s =
    if bool_decide (NoDup ns ∧ Forall (λ n, n ∉ s) ns) then (list_to_set ns ∪ s, Ok ())
    else ((insert_all ns ins s).1, Err stale_nullifier).
Proof.
  revert ins s. induction ns as [|n ns IH]; intros ins s; cbn [insert_all].
  { rewrite bool_decide_true by (split; constructor). f_equal. set_solver. }
  destruct (bool_decide (n ∈ s)) eqn:Hn; [apply bool_decide_eq_true in Hn|apply bool_decide_eq_false in Hn].
  { rewrite bool_decide_false; [done|]. rewrite Forall_cons. tauto. }
  rewrite IH. case_bool_decide as H1; case_bool_decide as H2; simpl; [f_equal; set_solver|exfalso|exfalso|done];
    rewrite ?NoDup_cons, ?Forall_cons, !Forall_forall in *; set_solver.
Qed.

(** A failed phase 2 removes what it inserted and nothing else. *)
Lemma insert_all_rollback ns ins s0 e :
  list_to_set ins ## s0 →
  (insert_all ns ins (list_to_set ins ∪ s0)).2 = Err e →
  (insert_all ns ins (list_to_set ins ∪ s0)).1 = s0.
Proof.
  revert ins. induction ns as [|n ns IH]; intros ins Hdis; simpl; [done|].
  case_bool_decide as Hn.
  - intros _. simpl. rewrite unmark_many_spec. set_solver.
  - intros He.
    assert (({[n]} ∪ (list_to_set ins ∪ s0) : gset bytes) = list_to_set (ins ++ [n]) ∪ s0) as Heq.
    { rewrite list_to_set_app_L. set_solver. }
    rewrite Heq in *. apply IH; [set_solver|done].
Qed.

(** The two outcomes of a batch. *)
Lemma mark_many_ok ns s : NoDup ns → (∀ n, n ∈ ns → n ∉ s) → mark_many_atomic ns s = (list_to_set ns ∪ s, Ok ()).
Proof.
  intros Hnd Hns. unfold mark_many_atomic. destruct (existsb _ ns) eqn:Hex.
  - apply existsb_exists in Hex as (n & Hin%list_elem_of_In & Hs%bool_decide_eq_true). by destruct (Hns n).
  - rewrite insert_all_spec, bool_decide_true; [done|]. split; [done|by apply Forall_forall].
Qed.

Lemma mark_many_fails ns s : ¬ (NoDup ns ∧ ∀ n, n ∈ ns → n ∉ s) → mark_many_atomic ns s = (s, Err stale_nullifier).
Proof.
  intros Hn. unfold mark_many_atomic. destruct (existsb _ ns); [done|].
  pose proof (insert_all_spec ns [] s) as Hspec. rewrite bool_decide_false in Hspec by (by rewrite Forall_forall).
  pose proof (insert_all_rollback ns [] s stale_nullifier) as Hrb.
  assert ((list_to_set [] ∪ s : gset bytes) = s) as Heq by set_solver. rewrite Heq in Hrb.
  rewrite Hspec. f_equal. apply Hrb; [set_solver|by rewrite Hspec].
Qed.

Lemma unmark_marked ns s : (∀ n, n ∈ ns → n ∉ s) → unmark_many ns (list_to_set ns ∪ s) = s.
Proof. rewrite unmark_many_spec. set_solver. Qed.

(** A batch is marked all or nothing. [mark_many_atomic] succeeds exactly
    when the batch repeats no nullifier and none is spent yet, and then spends
    exactly the batch; otherwise it reports [StaleNullifier] and the set is
    what it was. Unmarking the batch of a successful call restores the set. *)
Theorem mark_many_all_or_nothing ns s :
  let '(s', res) := mark_many_atomic ns s in
  (res = Ok () ↔ NoDup ns ∧ ∀ n, n ∈ ns → n ∉ s) ∧
  (res = Ok () → s' = list_to_set ns ∪ s ∧ unmark_many ns s' = s) ∧
  (res ≠ Ok () → res = Err stale_nullifier ∧ s' = s).
Proof.
  destruct (decide (NoDup ns ∧ Forall (λ n, n ∉ s) ns)) as [Hok|Hno]; rewrite Forall_forall in *.
  - destruct Hok as [H1 H2]. rewrite mark_many_ok by done. split_and!; [done| |done].
    intros _. split; [done|]. by apply unmark_marked.
  - rewrite mark_many_fails by done. by split_and!.
Qed.

(** ** Any number of callers *)

(** The nullifiers in the set on account of a call. *)
Definition owned (c : MarkCall) : list bytes :=
  match c with
  | Checking _ _ => []
  | Inserting _ ins _ => ins
  | RollingBack todo _ => todo
  | Returned ok b => if ok then b else []
  end.

Definition call_ok (c : MarkCall) : Prop :=
  match c with Inserting todo ins b => b = ins ++ todo | _ => True end.

(** The operations a call still makes at most. *)
Definition ops_left (c : MarkCall) : nat :=
  match c with
  | Checking todo b => length todo + 2 * length b + 3
  | Inserting todo ins _ => 2 * length todo + length ins + 2
  | RollingBack todo _ => length todo + 1
  | Returned _ _ => 0
  end.

(** The set is the initial one plus what the calls own, and nothing is owned twice. *)
Definition accounted (init s : gset bytes) (l : list bytes) : Prop :=
  NoDup l ∧ Forall (λ n, n ∉ init) l ∧ s = init ∪ list_to_set l.

Lemma accounted_perm init s l l' : l ≡ₚ l' → accounted init s l → accounted init s l'.
Proof.
  unfold accounted. intros Hp (H1 & H2 & ->).
  split_and!; [by rewrite <-Hp|by rewrite <-Hp|]. apply set_eq. intros x. by rewrite Hp.
Qed.

Lemma mark_step_accounted init s c s' c' l :
  mark_step s c = (s', c') → call_ok c → accounted init s (owned c ++ l) →
  call_ok c' ∧ accounted init s' (owned c' ++ l).
Proof.
  intros Hstep Hok Hacc.
  destruct c as [[|n todo] b|[|n todo] ins b|[|n todo] b|ok b]; simpl in *; simplify_eq; try done.
  - case_bool_decide; by simplify_eq/=.
  - by rewrite app_nil_r.
  - destruct Hacc as (Hnd & Hf & ->). case_bool_decide as Hn; simplify_eq/=.
    + split; [done|]. split_and!; [done..|]. set_solver.
    + split; [by rewrite <-app_assoc|]. apply (accounted_perm _ _ (n :: ins ++ l)).
      { rewrite <-app_assoc. apply Permutation_middle. }
      split_and!; [|constructor; [set_solver|done]|set_solver].
      constructor; [|done]. intros Hin. apply Hn. apply elem_of_union_r. by apply elem_of_list_to_set.
  - destruct Hacc as (Hnd & Hf & ->). split; [done|].
    apply NoDup_cons in Hnd as [Hn Hnd]. apply Forall_cons in Hf as [Hi Hf].
    split_and!; [done..|]. rewrite <-(elem_of_list_to_set (C:=gset bytes)) in Hn. set_solver.
Qed.

Lemma mark_step_decreases s c s' c' :
  mark_step s c = (s', c') → returned c = false → ops_left c' < ops_left c.
Proof.
  intros Hstep Hr.
  destruct c as [[|n todo] b|[|n todo] ins b|[|n todo] b|ok b]; simpl in *; try done;
    try case_bool_decide; simplify_eq/=; rewrite ?length_app; simpl; lia.
Qed.

Definition all_owned (cs : list MarkCall) : list bytes := concat (owned <$> cs).

Lemma concat_insert_perm cs i c c' :
  cs !! i = Some c → ∃ l, all_owned cs ≡ₚ owned c ++ l ∧ all_owned (<[i := c']> cs) ≡ₚ owned c' ++ l.
Proof.
  intros Hi. exists (all_owned (take i cs) ++ all_owned (drop (S i) cs)).
  pose proof (lookup_lt_Some _ _ _ Hi). unfold all_owned. split.
  - rewrite <-(take_drop_middle cs i c) at 1 by done.
    rewrite fmap_app, concat_app, fmap_cons. simpl. apply Permutation_app_swap_app.
  - rewrite insert_take_drop, fmap_app, concat_app, fmap_cons by done. simpl.
    apply Permutation_app_swap_app.
Qed.

Lemma calls_step_accounted init s cs s' cs' :
  calls_step (s, cs) (s', cs') → Forall call_ok cs → accounted init s (all_owned cs) →
  Forall call_ok cs' ∧ accounted init s' (all_owned cs').
Proof.
  intros Hstep Hok Hacc. inversion Hstep as [? ? i c ? c' Hi Hr Hm]; simplify_eq.
  destruct (concat_insert_perm cs i c c' Hi) as (l & Hp & Hp').
  eapply accounted_perm in Hacc; [|exact Hp].
  eapply mark_step_accounted in Hacc as [Hc' Hacc']; [|done|by eapply Forall_lookup_1].
  split; [by apply Forall_insert|]. by eapply accounted_perm; [symmetry|].
Qed.

Definition total_ops (cs : list MarkCall) : nat := sum_list_with ops_left cs.

Lemma calls_step_decreases s cs s' cs' :
  calls_step (s, cs) (s', cs') → total_ops cs' < total_ops cs.
Proof.
  intros Hstep. inversion Hstep as [? ? i c ? c' Hi Hr Hm]; simplify_eq.
  pose proof (mark_step_decreases _ _ _ _ Hm Hr). pose proof (lookup_lt_Some _ _ _ Hi).
  unfold total_ops. rewrite <-(take_drop_middle cs i c) at 2 by done.
  rewrite insert_take_drop by done. rewrite !sum_list_with_app. simpl. lia.
Qed.

(** The machine with one caller computes the function. *)
Lemma lone_step s c s' c' :
  returned c = false → mark_step s c = (s', c') → calls_step (s, [c]) (s', [c']).
Proof. intros. by apply (a_call_steps s [c] 0 c s' c'). Qed.

Lemma lone_rollback todo b s :
  rtc calls_step (s, [RollingBack todo b]) (unmark_many todo s, [Returned false b]).
Proof.
  revert s. induction todo as [|n todo IH]; intros s.
  - apply rtc_once. by apply lone_step.
  - eapply rtc_l; [by apply lone_step|]. apply IH.
Qed.

Lemma lone_insert todo ins b s :
  rtc calls_step (s, [Inserting todo ins b])
    ((insert_all todo ins s).1, [Returned (is_ok (insert_all todo ins s).2) b]).
Proof.
  revert ins s. induction todo as [|n todo IH]; intros ins s.
  - apply rtc_once. by apply lone_step.
  - eapply rtc_l; [by apply lone_step, surjective_pairing|]. simpl.
    case_bool_decide as Hn; [|apply IH]. simpl.
    replace ({[n]} ∪ s) with s by set_solver. apply lone_rollback.
Qed.

Lemma lone_check todo b s :
  rtc calls_step (s, [Checking todo b])
    (if existsb (λ n, bool_decide (n ∈ s)) todo then (s, [Returned false b])
     else ((insert_all b [] s).1, [Returned (is_ok (insert_all b [] s).2) b])).
Proof.
  induction todo as [|n todo IH].
  - eapply rtc_l; [by apply lone_step|]. apply lone_insert.
  - eapply rtc_l; [by apply lone_step, surjective_pairing|]. simpl.
    case_bool_decide; [apply rtc_refl|apply IH].
Qed.

(** Every state of a run is accounted for, and every operation counts. *)
Lemma run_accounted init k s cs s' cs' :
  nsteps calls_step k (s, cs) (s', cs') → Forall call_ok cs → accounted init s (all_owned cs) →
  k + total_ops cs' ≤ total_ops cs ∧ accounted init s' (all_owned cs').
Proof.
  revert s cs. induction k as [|k IH]; intros s cs; inversion 1 as [|? ? [s2 c2] ? Hst Hrest]; subst; [done|].
  intros Hok Hacc. pose proof (calls_step_decreases _ _ _ _ Hst).
  destruct (calls_step_accounted init _ _ _ _ Hst) as [Hok' Hacc']; [done..|].
  destruct (IH _ _ Hrest Hok' Hacc'). split; [lia|done].
Qed.

Lemma start_accounted init batches :
  Forall call_ok (mark_start <$> batches) ∧ accounted init init (all_owned (mark_start <$> batches)).
Proof.
  split; [by apply Forall_fmap, Forall_true|]. unfold accounted.
  replace (all_owned (mark_start <$> batches)) with (@nil bytes).
  - split_and!; [constructor|constructor|set_solver].
  - unfold all_owned. by induction batches.
Qed.

(** Concurrent batches never spend a nullifier twice. From any set, let any
    number of [mark_many_atomic] calls interleave their single-key operations
    in any order. At every moment the nullifiers spent before are still spent,
    a call that returned success has its whole batch spent, and no nullifier
    belongs to two successful calls or was spent before. The calls make at most
    [total_ops] operations together, and when all have returned the set is the
    initial one plus exactly the successful batches. A call running alone
    computes [mark_many_atomic]. *)
Theorem concurrent_marks_exclusive init batches :
  let start := mark_start <$> batches in
  (∀ k s cs, nsteps calls_step k (init, start) (s, cs) →
     k ≤ total_ops start ∧ init ⊆ s ∧
     (∀ i b, cs !! i = Some (Returned true b) →
        NoDup b ∧ ∀ n, n ∈ b → n ∈ s ∧ n ∉ init) ∧
     (∀ i j bi bj n, cs !! i = Some (Returned true bi) → cs !! j = Some (Returned true bj) →
        n ∈ bi → n ∈ bj → i = j) ∧
     (forallb returned cs = true → s = init ∪ list_to_set (all_owned cs))) ∧
  (∀ ns, rtc calls_step (init, [mark_start ns])
     ((mark_many_atomic ns init).1, [Returned (is_ok (mark_many_atomic ns init).2) ns])).
Proof.
  intros start. split; [|intros ns; unfold mark_many_atomic].
  2:{ pose proof (lone_check ns ns init) as H. by destruct (existsb _ ns). }
  intros k s cs Hrun. destruct (start_accounted init batches) as [Hok Hacc].
  destruct (run_accounted init _ _ _ _ _ Hrun Hok Hacc) as [Hk (Hnd & Hf & ->)].
  assert (∀ i b, cs !! i = Some (Returned true b) → ∃ l, all_owned cs ≡ₚ b ++ l) as Hown.
  { intros i b Hi. destruct (concat_insert_perm cs i _ (Returned true b) Hi) as (l & Hp & _). by exists l. }
  split_and!; [etrans; [|exact Hk]; lia|set_solver| | |done].
  - intros i b Hi. destruct (Hown i b Hi) as (l & Hp). rewrite Hp in Hnd, Hf.
    apply NoDup_app in Hnd as (? & _ & _). apply Forall_app in Hf as [Hf _].
    rewrite Forall_forall in Hf. split; [done|]. intros n Hn. split; [|auto].
    apply elem_of_union_r, elem_of_list_to_set. rewrite Hp. set_solver.
  - intros i j bi bj n Hi Hj Hni Hnj. destruct (decide (i = j)) as [|Hne]; [done|exfalso].
    destruct (concat_insert_perm cs i _ (Returned false bi) Hi) as (l & Hp & Hp').
    destruct (concat_insert_perm (<[i := Returned false bi]> cs) j (Returned true bj) (Returned true bj))
      as (l' & Hq & _); [by rewrite list_lookup_insert_ne|].
    simpl in Hp, Hp', Hq. rewrite Hp' in Hq. rewrite Hp in Hnd. apply NoDup_app in Hnd as (_ & Hdis & _).
    apply (Hdis n); [done|]. rewrite Hq. set_solver.
Qed.
