(* ===== verification/Executor.v ===== *)
(** * The executor (executor/src/executor.rs)

    Preloading with its backpressure slots, the dispatch of a transaction to a
    deployment, an upgrade or a contract engine, the checks of the result, and
    the hand-over to the routed Finalizer. Whether a frame reaches its target is an
    argument of the model, and the frames delivered are part of an execution's
    outcome; which of the concurrent steps of a slot happens next is free. *)

From S2P Require Import Prelude Utf8 Interfaces Types Serialize Crypto Transactions Chain DataProvider Deserialize Tokens.
From S2P Require Import Contracts Engines WasmHost EngineSafety Scan NodeRegistry Messages Pool Registry.

(** ** Results and errors *)

Record ExecutionResult := mkResult {
  er_transaction_id : string;
  er_result_data : bytes;
  er_result_hash : bytes;
  er_gas_used : N;
}.

Inductive ExecutorError :=
| XData (e : DataError)
| XEncoding (msg : string)
| XRegistry (msg : string)
| XInvalidState (msg : string)
| XValidation (reasons : list ValidationFailureReason)
| XNoFinalizers (msg : string)
| XNoRoutingDecision (id : string)
| XCrypto (e : PneumaticError)
| XAtCapacity (max_in_flight current : nat)
| XExecutionTimeout.

Definition from_contract_error (e : ContractError) : ExecutorError := XValidation (to_failure_reasons e).

Definition display_DataError (e : DataError) : string :=
  match e with
  | FromStore msg => "FromStore(" +:+ msg +:+ ")"
  | SerializationError msg => "SerializationError(" +:+ msg +:+ ")"
  | DeserializationError msg => "DeserializationError(" +:+ msg +:+ ")"
  | DataNotFound => "DataNotFound"
  | StoreNotFound => "StoreNotFound"
  | CacheError => "CacheError"
  | Poisoned => "Poisoned"
  | InvalidOperation op => "InvalidOperation(" +:+ op +:+ ")"
  | DEInvalidSignature => "InvalidSignature"
  | DECryptoError msg => "CryptoError(" +:+ msg +:+ ")"
  | Timeout msg => "Timeout(" +:+ msg +:+ ")"
  | PeerUnauthenticated msg => "PeerUnauthenticated(" +:+ msg +:+ ")"
  | SnapshotCorrupt msg => "SnapshotCorrupt(" +:+ msg +:+ ")"
  end.

Definition failure (r : ValidationFailureReason) : ExecutorError := XValidation [r].

Section executor.
Context `{HashIter} `{Rmp} `{Sha256} `{Wasmi} `{DataProvider}.

(** ** Checking a result *)

Definition validate_execution_result (tx : Transaction) (res : ExecutionResult)
    : result (list ValidationFailureReason) () :=
  let reasons :=
    (if is_nil (er_result_data res) then [ContractExecutionFailed] else []) ++
    (if is_nil (er_result_hash res) then [MissingResultHash] else []) ++
    (if N.ltb 0 (tx_gas_limit tx) && N.ltb (tx_gas_limit tx) (er_gas_used res) then [GasLimitExceeded] else []) ++
    match decode_params of_TransferDelta (er_result_data res) with
    | Ok delta =>
        if bool_decide (td_amount delta ≠ default 0%N (tx_amount tx)) || bool_decide (td_sender delta ≠ tx_sender tx) ||
           bool_decide (td_receiver delta ≠ tx_receiver tx) || bool_decide (td_token_id delta ≠ tx_token_id tx)
        then [InvalidAmount] else []
    | Err _ => []
    end in
  match reasons with [] => Ok () | _ => Err reasons end.

(** ** The operations *)

(** [ExecutorTargetProvider::resolve]. *)
Definition resolve (st : store) (partition : string) (target : bytes) (ref : SnapshotRef) (sender : bytes)
    : result ContractError PinnedTarget :=
  token ← map_err (λ e, InvalidInput ("target token fetch failed: " +:+ display_DataError e))
            (get_token st target partition);
  _ ← map_err InvalidInput (validate_snapshot_ref (blockchain token) ref);
  contract ← ok_or (InvalidInput "target token has no contract asset") (get_contract token);
  user ← map_err (λ e, InvalidInput ("target sender fetch failed: " +:+ display_DataError e))
           (get_user st sender partition);
  Ok (mkPinned token contract user ref).

Definition without_selection (t : Transaction) : Transaction :=
  mkTransaction (tx_id t) (tx_action t) (tx_token_id t) (tx_bid t) (tx_sequence_number t) (tx_sender t)
    (tx_receiver t) (tx_amount t) (tx_timestamp t) (tx_result_hash t) (tx_sender_signature t) (tx_payload t)
    (tx_gas_limit t) (tx_result_data t) None.

(** A panic of the engine is caught and fails the transaction. *)
Definition execute_contract (st : store) (partition : string) (engines : gmap string ContractEngine)
    (tx : Transaction) (token : Token) (user : User) : result ExecutorError ExecutionOutput :=
  contract ← ok_or (failure ContractNotFound) (get_contract token);
  engine ← map_err from_contract_error (select_engine engines token);
  let input := mkInput (without_selection tx) contract user token (tx_gas_limit tx) (sc_storage contract)
                 (Some (CallContext_new (resolve st partition) engines)) in
  match engine_execute engine input with
  | Some (Ok out) => Ok out
  | Some (Err e) => Err (from_contract_error e)
  | None => Err (failure ContractExecutionFailed)
  end.

Definition execute_deploy (tx : Transaction) : may_panic (result ExecutorError ExecutionOutput) :=
  match decode_params of_DeployParams (tx_payload tx) with
  | Err _ => Some (Err (failure ContractDeployFailed))
  | Ok params =>
      let gas := deploy_gas (len64 (dp_bytecode params)) in
      if N.ltb 0 (tx_gas_limit tx) && N.ltb (tx_gas_limit tx) gas then Some (Err (failure GasLimitExceeded))
      else
        delta ← deploy_contract (tx_sender tx) (N.of_nat (tx_sequence_number tx)) params;
        Some (d ← map_err from_contract_error delta;
              data ← map_err (λ _, failure ContractDeployFailed) (rmp_enc (ser_CreateTokenDelta d));
              Ok (mkOutput data gas))
  end.

Definition execute_upgrade (crypto : AsymCryptoProvider) (tx : Transaction) (token : Token)
    : may_panic (result ExecutorError ExecutionOutput) :=
  let failed := failure ContractUpgradeFailed in
  match decode_params of_UpgradeParams (tx_payload tx) with
  | Err _ => Some (Err failed)
  | Ok params =>
      let gas := upgrade_gas (len64 (up_new_bytecode params)) in
      if N.ltb 0 (tx_gas_limit tx) && N.ltb (tx_gas_limit tx) gas then Some (Err (failure GasLimitExceeded))
      else match get_contract token with
      | None => Some (Err failed)
      | Some current =>
          if N.eqb (sc_threshold current) 0 then Some (Err failed)
          else
            quorum ← verify_quorum crypto (tx_token_id tx) (up_new_bytecode params) (up_new_owners params)
              (up_new_threshold params) (up_proposal_epoch params) (up_owner_signatures params)
              (sc_owners current) (sc_threshold current);
            Some (q ← map_err from_contract_error quorum;
                  if negb q then Err failed
                  else
                    data ← map_err (λ _, failed)
                      (rmp_enc (ser_ReplaceAssetDelta (mkReplaceAsset (tx_token_id tx) (up_new_bytecode params)
                         (up_new_owners params) (up_new_threshold params) (up_proposal_epoch params))));
                    Ok (mkOutput data gas))
      end
  end.

Definition get_finalizer_key (tx : Transaction) (r : PendingTransactionRegistry) : bytes :=
  let from_registry :=
    match transactions r !! tx_id tx with
    | Some entry =>
        match pt_state entry with
        | Validated _ validation => finalizer_public_key validation
        | Finalizing _ key => key
        | _ => []
        end
    | None => []
    end in
  match tx_selection tx with
  | Some record => if is_nil (sr_finalizer_public_key record) then from_registry else sr_finalizer_public_key record
  | None => from_registry
  end.

(** ** The pipeline of one transaction *)

Record Handle := mkHandle {
  h_env_id : string;
  h_partition : string;
  h_engines : gmap string ContractEngine;
  h_crypto : AsymCryptoProvider;
  h_identity : AsymCryptoProvider;
}.

(** Whether [send_to_peers] reaches the Finalizer with this key with this payload:
    the node registry's addresses and the transport. *)
Context (delivers : bytes → bytes → bool).

(** A signed envelope as it goes on the wire. The text of the error is not kept. *)
Definition framed_message (h : Handle) (act : string) (b : bytes) : result ExecutorError bytes :=
  m ← map_err (λ _, XData (DECryptoError "")) (signed_message (h_identity h) (h_env_id h) act b None);
  map_err XEncoding (rmp_enc (ser_Message m)).

(** The vote: the result hash, signed. *)
Definition executor_vote (h : Handle) (id : string) (result_hash : bytes) : result ExecutorError bytes :=
  signature ← map_err XCrypto (sign_data (h_identity h) result_hash);
  let vote := mkSignature (string_bytes id) (string_bytes (h_env_id h)) result_hash signature 0 in
  b ← map_err XEncoding (rmp_enc (ser_TransactionSignature vote));
  framed_message h "Sign" b.

(** The frames delivered, with their target, and the outcome. *)
Definition send_to_finalizer (h : Handle) (id : string) (tx_bytes result_hash finalizer_key : bytes)
    : list (bytes * bytes) * result ExecutorError () :=
  if is_nil finalizer_key then ([], Err (XNoRoutingDecision id))
  else
    match framed_message h "PreloadForFinalizer" tx_bytes with
    | Err e => ([], Err e)
    | Ok preload =>
        if negb (delivers finalizer_key preload) then
          ([], Err (XNoFinalizers ("the Finalizer assigned to tx " +:+ id +:+ " is not reachable from this executor")))
        else
          match executor_vote h id result_hash with
          | Err e => ([(finalizer_key, preload)], Err e)
          | Ok vote =>
              if negb (delivers finalizer_key vote) then
                ([(finalizer_key, preload)], Err (XNoFinalizers ("the vote for tx " +:+ id +:+ " did not reach its assigned Finalizer")))
              else ([(finalizer_key, preload); (finalizer_key, vote)], Ok ())
          end
    end.

Definition with_result_data (d : bytes) (t : Transaction) : Transaction :=
  mkTransaction (tx_id t) (tx_action t) (tx_token_id t) (tx_bid t) (tx_sequence_number t) (tx_sender t)
    (tx_receiver t) (tx_amount t) (tx_timestamp t) (tx_result_hash t) (tx_sender_signature t) (tx_payload t)
    (tx_gas_limit t) d (tx_selection t).

(** The transaction of a state an execution starts from. *)
Definition executable (s : TransactionState) : option Transaction :=
  match s with Preloaded t | Validated t _ | Executing t => Some t | _ => None end.

(** Steps 3 to 5. *)
Definition dispatch_execution (h : Handle) (st : store) (tx : Transaction) : may_panic (result ExecutorError ExecutionOutput) :=
  if String.eqb (tx_action tx) "DeployContract" then execute_deploy tx
  else
    match get_token st (tx_token_id tx) (h_partition h) with
    | Err e => Some (Err (XData e))
    | Ok token =>
        match get_user st (tx_sender tx) (h_partition h) with
        | Err e => Some (Err (XData e))
        | Ok user =>
            if String.eqb (tx_action tx) "UpgradeContract" then execute_upgrade (h_crypto h) tx token
            else Some (execute_contract st (h_partition h) (h_engines h) tx token user)
        end
    end.

Definition set_state (id : string) (f : PendingTransaction → PendingTransaction) (r : PendingTransactionRegistry) :=
  (get_transaction_mut id f r).1.

(** Steps 6 to 11, on the output of the dispatch. *)
Definition hand_over (h : Handle) (id : string) (tx : Transaction) (out : ExecutionOutput) (r : PendingTransactionRegistry)
    : PendingTransactionRegistry * list (bytes * bytes) * result ExecutorError ExecutionResult :=
  let final := mkResult id (out_result_data out) (sha256 (out_result_data out)) (out_gas_used out) in
  match validate_execution_result tx final with
  | Err reasons => (set_state id (transition_to_failed tx reasons) r, [], Err (XValidation reasons))
  | Ok _ =>
      let tx := with_result_data (er_result_data final) tx in
      let key := get_finalizer_key tx r in
      let r := set_state id (transition_to_finalizing tx key) r in
      match rmp_enc (ser_Transaction tx) with
      | Err e => (r, [], Err (XEncoding e))
      | Ok tx_bytes =>
          match send_to_finalizer h id tx_bytes (er_result_hash final) key with
          | (sent, Err e) => (set_state id (transition_to_failed tx [ContractNotFound]) r, sent, Err e)
          | (sent, Ok _) => (r, sent, Ok final)
          end
      end
  end.

(** The registry after the run, the frames delivered and the outcome. *)
Definition run_execution (h : Handle) (st : store) (id : string) (r : PendingTransactionRegistry)
    : may_panic (PendingTransactionRegistry * list (bytes * bytes) * result ExecutorError ExecutionResult) :=
  match transactions r !! id with
  | None => Some (r, [], Err (XRegistry ("Transaction " +:+ id +:+ " not found in registry")))
  | Some entry =>
      match executable (pt_state entry) with
      | None => Some (r, [], Err (XInvalidState ("Transaction " +:+ id +:+ " in terminal state")))
      | Some tx =>
          let r := set_state id (transition_to_executing tx) r in
          out ← dispatch_execution h st tx;
          Some match out with
               | Err (XValidation reasons) => (set_state id (transition_to_failed tx reasons) r, [], Err (XValidation reasons))
               | Err e => (r, [], Err e)
               | Ok out => hand_over h id tx out r
               end
      end
  end.

(** The timeout branch of the spawned task. *)
Definition fail_timed_out (id : string) (r : PendingTransactionRegistry) : PendingTransactionRegistry :=
  match transactions r !! id with
  | Some entry =>
      match executable (pt_state entry) with
      | Some tx => set_state id (transition_to_failed tx [ExecutionTimeout]) r
      | None => r
      end
  | None => r
  end.

(** ** Preloading *)

(** The registry lock, then the capacity check; [Ok] goes on to spawn the task. *)
Definition preload_for_transaction (max_in_flight : nat) (active : gset string) (id : string)
    (r : PendingTransactionRegistry) : PendingTransactionRegistry * result ExecutorError () :=
  let '(r', acquired) := acquire_transaction id r in
  match acquired with
  | Err _ => (r', Err (XRegistry ("Transaction " +:+ id +:+ " not found or in terminal state")))
  | Ok _ =>
      if bool_decide (max_in_flight ≤ size active) then (r', Err (XAtCapacity max_in_flight (size active)))
      else (r', Ok ())
  end.

(** [ingest_preload] on the decoded transaction. *)
Definition ingest_preload (max_in_flight : nat) (active : gset string) (tx : Transaction)
    (r : PendingTransactionRegistry) : PendingTransactionRegistry * result ExecutorError () :=
  let registered :=
    match transactions r !! tx_id tx with
    | Some entry =>
        Ok (if is_pending (pt_state entry) then set_state (tx_id tx) (transition_to_preloaded tx) r else r)
    | None =>
        match register_pending (tx_id tx) r with
        | (r', Err e) => Err (r', e)
        | (r', Ok _) => Ok (set_state (tx_id tx) (transition_to_preloaded tx) r')
        end
    end in
  match registered with
  | Err (r', e) => (r', Err (XRegistry (match e with Registry msg => "Registry(" +:+ msg +:+ ")" | _ => "" end)))
  | Ok r' => preload_for_transaction max_in_flight active (tx_id tx) r'
  end.
End executor.

(** ** The backpressure slots

    A call spawns its task, then enters its id among the active ones; the task
    removes the id when it settles. The two run concurrently. *)

Record Slots := mkSlots {
  active_tasks : gset string;
  running : gset string;
  entering : gset string;
}.

Inductive slot_step (max_in_flight : nat) : Slots → Slots → Prop :=
| slot_spawn id a rn en :
    size a < max_in_flight → slot_step max_in_flight (mkSlots a rn en) (mkSlots a ({[id]} ∪ rn) ({[id]} ∪ en))
| slot_track id a rn en :
    id ∈ en → slot_step max_in_flight (mkSlots a rn en) (mkSlots ({[id]} ∪ a) rn (en ∖ {[id]}))
| slot_settle id a rn en :
    id ∈ rn → slot_step max_in_flight (mkSlots a rn en) (mkSlots (a ∖ {[id]}) (rn ∖ {[id]}) en).

(** ** Outcomes of an execution *)

Section outcomes.
Context `{HashIter} `{Rmp} `{Sha256} `{Wasmi} `{DataProvider}.
Context (delivers : bytes → bytes → bool).

(** The state of an entry, and its lock. *)
Definition state_at (id : string) (r : PendingTransactionRegistry) : option TransactionState :=
  pt_state <$> transactions r !! id.
Definition lock_at (id : string) (r : PendingTransactionRegistry) : option nat :=
  lock_count <$> transactions r !! id.

Lemma set_state_at id s r :
  is_Some (transactions r !! id) →
  state_at id (set_state id (with_state s) r) = Some s ∧ lock_at id (set_state id (with_state s) r) = lock_at id r ∧
  ∀ id', id' ≠ id → transactions (set_state id (with_state s) r) !! id' = transactions r !! id'.
Proof.
  intros [entry He]. unfold set_state, get_transaction_mut, state_at, lock_at. rewrite He. cbn.
  rewrite lookup_insert_eq. split_and!; [done..|]. intros id' Hne. by rewrite lookup_insert_ne.
Qed.

Lemma lock_at_Some id r : is_Some (lock_at id r) ↔ is_Some (transactions r !! id).
Proof. unfold lock_at. by rewrite fmap_is_Some. Qed.

(** What a result the executor hands over satisfies; a result that reads as a
    transfer is the transfer that was asked for. *)
Definition result_ok (tx : Transaction) (res : ExecutionResult) : Prop :=
  er_result_data res ≠ [] ∧ er_result_hash res = sha256 (er_result_data res) ∧
  ((0 < tx_gas_limit tx)%N → (er_gas_used res ≤ tx_gas_limit tx)%N) ∧
  ∀ delta, decode_params of_TransferDelta (er_result_data res) = Ok delta →
    td_amount delta = default 0%N (tx_amount tx) ∧ td_sender delta = tx_sender tx ∧
    td_receiver delta = tx_receiver tx ∧ td_token_id delta = tx_token_id tx.

Definition result_of (id : string) (out : ExecutionOutput) : ExecutionResult :=
  mkResult id (out_result_data out) (sha256 (out_result_data out)) (out_gas_used out).

Lemma validate_ok tx id out : validate_execution_result tx (result_of id out) = Ok () → result_ok tx (result_of id out).
Proof.
  unfold validate_execution_result, result_of. cbn [er_result_data er_result_hash er_gas_used]. intros Hv.
  match type of Hv with match ?l with _ => _ end = _ => destruct l eqn:Hl; [|done] end. clear Hv.
  apply app_nil in Hl as [Hd Hl]. apply app_nil in Hl as [_ Hl]. apply app_nil in Hl as [Hg Ht].
  split_and!; [cbn; intros Hn; by rewrite Hn in Hd|done|..]; cbn.
  - intros Hlim. destruct (N.ltb_spec 0 (tx_gas_limit tx)); [|lia]. cbn [andb] in Hg.
    by destruct (N.ltb_spec (tx_gas_limit tx) (out_gas_used out)).
  - intros delta Hdelta. rewrite Hdelta in Ht. destruct (_ || _) eqn:Hor; [done|].
    rewrite !orb_false_iff, !bool_decide_eq_false in Hor. destruct Hor as [[[Ha Hs] Hr] Hk].
    split_and!; by apply dec_stable.
Qed.

(** The one Finalizer a transaction was routed to. *)
Definition routed_key (tx : Transaction) : bytes := default [] (sr_finalizer_public_key <$> tx_selection tx).

(** The frames of a hand-over: the transaction, then the vote for its hash. *)
Definition handed_over (h : Handle) (id : string) (t : Transaction) (hash key : bytes) (sent : list (bytes * bytes)) : Prop :=
  ∃ tx_bytes preload vote, rmp_enc (ser_Transaction t) = Ok tx_bytes ∧ framed_message h "PreloadForFinalizer" tx_bytes = Ok preload ∧
    executor_vote h id hash = Ok vote ∧ delivers key preload = true ∧ delivers key vote = true ∧ sent = [(key, preload); (key, vote)].

(** Where a run can fail: the error it reports, the frames it had delivered, and
    the state of the entry. *)
Inductive fails_at (h : Handle) (st : store) (id : string) (tx : Transaction)
    : ExecutorError → list (bytes * bytes) → TransactionState → Prop :=
| at_execution reasons : dispatch_execution h st tx = Some (Err (XValidation reasons)) →
    fails_at h st id tx (XValidation reasons) [] (Failed tx reasons)
| at_read e : dispatch_execution h st tx = Some (Err e) → (∀ reasons, e ≠ XValidation reasons) →
    fails_at h st id tx e [] (Executing tx)
| at_check out reasons : dispatch_execution h st tx = Some (Ok out) →
    validate_execution_result tx (result_of id out) = Err reasons →
    fails_at h st id tx (XValidation reasons) [] (Failed tx reasons)
| at_encoding out e key : dispatch_execution h st tx = Some (Ok out) →
    validate_execution_result tx (result_of id out) = Ok () →
    rmp_enc (ser_Transaction (with_result_data (out_result_data out) tx)) = Err e →
    fails_at h st id tx (XEncoding e) [] (Finalizing (with_result_data (out_result_data out) tx) key)
| at_delivery out e tx_bytes key sent : dispatch_execution h st tx = Some (Ok out) →
    validate_execution_result tx (result_of id out) = Ok () →
    rmp_enc (ser_Transaction (with_result_data (out_result_data out) tx)) = Ok tx_bytes →
    send_to_finalizer delivers h id tx_bytes (sha256 (out_result_data out)) key = (sent, Err e) → length sent ≤ 1 →
    fails_at h st id tx e sent (Failed (with_result_data (out_result_data out) tx) [ContractNotFound]).

(** A delivery is complete, or it is an error after at most the first frame. *)
Lemma send_outcome h id t tx_bytes hash key :
  rmp_enc (ser_Transaction t) = Ok tx_bytes →
  match send_to_finalizer delivers h id tx_bytes hash key with
  | (sent, Ok _) => key ≠ [] ∧ handed_over h id t hash key sent
  | (sent, Err _) => length sent ≤ 1
  end.
Proof.
  intros Hb. unfold send_to_finalizer. destruct key as [|k key]; cbn [is_nil]; [cbn; lia|].
  destruct (framed_message _ _ _) as [preload|] eqn:Hp; [|cbn; lia]. destruct (delivers _ preload) eqn:Hd1; cbn [negb]; [|cbn; lia].
  destruct (executor_vote _ _ _) as [vote|] eqn:Hv; [|cbn; lia]. destruct (delivers _ vote) eqn:Hd2; cbn [negb]; [|cbn; lia].
  split; [done|]. by exists tx_bytes, preload, vote.
Qed.

(** An entry that is in flight, and what a step may change. *)
Definition only_moves (id : string) (r r' : PendingTransactionRegistry) : Prop :=
  lock_at id r' = lock_at id r ∧ ∀ id', id' ≠ id → transactions r' !! id' = transactions r !! id'.

Lemma set_state_moves id s r r0 :
  is_Some (transactions r0 !! id) → only_moves id r0 r →
  state_at id (set_state id (with_state s) r) = Some s ∧ only_moves id r0 (set_state id (with_state s) r).
Proof.
  intros Hi [Hl Hf]. assert (is_Some (transactions r !! id)) as Hi' by (apply lock_at_Some; rewrite Hl; by apply lock_at_Some).
  destruct (set_state_at id s r Hi') as (Hs & Hl' & Hf'). split; [done|]. split; [congruence|].
  intros id' Hne. by rewrite Hf', Hf.
Qed.

(** While an entry executes, the only key there is for its transaction is the
    routed one. *)
Lemma executing_key id tx d r :
  state_at id r = Some (Executing tx) → tx_id tx = id → get_finalizer_key (with_result_data d tx) r = routed_key tx.
Proof.
  unfold state_at. intros (entry & He & Hs)%fmap_Some <-. unfold get_finalizer_key, routed_key. cbn. rewrite He, <-Hs.
  destruct (tx_selection tx) as [rec|]; [|done]. cbn. by destruct (sr_finalizer_public_key rec).
Qed.

Lemma recorded_key tx d r rec :
  tx_selection tx = Some rec → sr_finalizer_public_key rec ≠ [] → get_finalizer_key (with_result_data d tx) r = routed_key tx.
Proof. unfold get_finalizer_key, routed_key. cbn. intros -> Hne. cbn. by destruct (sr_finalizer_public_key rec). Qed.

(** What a run leaves of its entry. *)
Definition run_leaves (h : Handle) (st : store) (id : string) (tx : Transaction) (r' : PendingTransactionRegistry)
    (sent : list (bytes * bytes)) (res : result ExecutorError ExecutionResult) : Prop :=
  match res with
  | Ok res => result_ok tx res ∧
      ∃ key, let t := with_result_data (er_result_data res) tx in
        key ≠ [] ∧ (tx_id tx = id ∨ routed_key tx ≠ [] → key = routed_key tx) ∧
        state_at id r' = Some (Finalizing t key) ∧ handed_over h id t (er_result_hash res) key sent
  | Err e => ∃ s, state_at id r' = Some s ∧ fails_at h st id tx e sent s
  end.

Lemma hand_over_spec h st id tx out r0 r :
  is_Some (transactions r0 !! id) → only_moves id r0 r → state_at id r = Some (Executing tx) →
  dispatch_execution h st tx = Some (Ok out) →
  let '(r', sent, res) := hand_over delivers h id tx out r in
  only_moves id r0 r' ∧ run_leaves h st id tx r' sent res.
Proof.
  intros Hi Hm Hx Hout. unfold hand_over. fold (result_of id out). destruct (validate_execution_result _ _) as [[]|reasons] eqn:Hv.
  - cbn [er_result_data er_result_hash result_of]. set (tx' := with_result_data _ tx). set (key := get_finalizer_key tx' r).
    destruct (set_state_moves id (Finalizing tx' key) r r0 Hi Hm) as [Hs1 Hm1].
    destruct (rmp_enc (ser_Transaction tx')) as [b|e] eqn:Hb.
    + pose proof (send_outcome h id tx' b (sha256 (out_result_data out)) key Hb) as Hsend.
      destruct (send_to_finalizer _ _ _ _ _ _) as [sent [[]|e]] eqn:Hsent.
      * destruct Hsend as [Hne Hho]. split; [done|]. split; [by apply validate_ok|]. exists key. cbv zeta. split_and!; [done| |done|done].
        intros [Hid|Hrk]; [exact (executing_key id tx _ r Hx Hid)|]. unfold routed_key in Hrk. destruct (tx_selection tx) as [rec|] eqn:Hsel; [|done].
        exact (recorded_key tx _ r rec Hsel Hrk).
      * destruct (set_state_moves id (Failed tx' [ContractNotFound]) _ r0 Hi Hm1) as [Hs2 Hm2].
        split; [done|]. eexists. split; [exact Hs2|]. by apply (at_delivery h st id tx out e b key sent).
    + split; [done|]. eexists. split; [exact Hs1|]. by apply (at_encoding h st id tx out e key).
  - destruct (set_state_moves id (Failed tx reasons) r r0 Hi Hm) as [Hs1 Hm1]. split; [done|].
    eexists. split; [exact Hs1|]. by apply (at_check h st id tx out reasons).
Qed.

(** C32: what the executor hands over was checked, and it was handed over. A run
    that reports a result has delivered two frames, in order, to one Finalizer: the
    transaction carrying the result data, and the signed vote for the hash of that
    data; the entry is [Finalizing] under that Finalizer's key, which is the one the
    transaction's routing record names when there is one or when the entry holds
    the transaction of its own id. The data is not empty, its gas is within a
    declared limit, and data that reads as a transfer is the transfer asked for.
    A run that reports an error stopped at one of five points: a refused execution
    or a refused result leaves the entry [Failed] with the reasons, a failed read
    of the store leaves it [Executing], a transaction that cannot be written leaves
    it [Finalizing] with nothing sent, and a failed delivery leaves it [Failed]
    with at most the first frame delivered. Either way no other entry changes and
    the entry keeps its lock. *)
Theorem execution_hands_over_checked_results h st id r r' sent res entry tx :
  transactions r !! id = Some entry → executable (pt_state entry) = Some tx →
  run_execution delivers h st id r = Some (r', sent, res) →
  only_moves id r r' ∧ run_leaves h st id tx r' sent res.
Proof.
  intros He Hx. unfold run_execution. rewrite He, Hx. assert (is_Some (transactions r !! id)) as Hi by done.
  destruct (set_state_moves id (Executing tx) r r Hi) as [Hs1 Hm1]; [by split|].
  destruct (dispatch_execution h st tx) as [[out|e]|] eqn:Hd; cbn [mbind option_bind]; [..|done].
  - intros [= Hr]. pose proof (hand_over_spec h st id tx out r _ Hi Hm1 Hs1 Hd) as Ho. unfold transition_to_executing in Hr.
    by rewrite Hr in Ho.
  - assert ((∃ reasons, e = XValidation reasons) ∨ ∀ reasons, e ≠ XValidation reasons) as [[reasons ->]|Hne]
      by (destruct e; (by left; eexists) || by right).
    + intros [= <- <- <-]. destruct (set_state_moves id (Failed tx reasons) _ r Hi Hm1) as [Hs2 Hm2]. split; [done|].
      eexists. split; [exact Hs2|]. by constructor.
    + intros Hr. assert (Some (set_state id (with_state (Executing tx)) r, [], Err e) = Some (r', sent, res)) as [= <- <- <-]
        by (rewrite <-Hr; destruct e; try done; by destruct (Hne reasons)).
      split; [done|]. eexists. split; [exact Hs1|]. by constructor.
Qed.
End outcomes.

(** ** Slots *)

Lemma leak_one max id a rn :
  size a < max → id ∉ a → id ∉ rn →
  rtc (slot_step max) (mkSlots a rn ∅) (mkSlots ({[id]} ∪ a) rn ∅).
Proof.
  intros Hsz Ha Hr. eapply rtc_l; [by apply (slot_spawn max id)|].
  eapply rtc_l; [apply (slot_settle max id); set_solver|]. eapply rtc_l; [apply (slot_track max id); set_solver|].
  match goal with |- rtc _ ?x ?y => replace x with y by (f_equal; set_solver) end. done.
Qed.

Lemma leak_all max ids : NoDup ids → length ids ≤ max → rtc (slot_step max) (mkSlots ∅ ∅ ∅) (mkSlots (list_to_set ids) ∅ ∅).
Proof.
  induction 1 as [|id ids Hni Hnd IH]; intros Hl; [done|]. simpl in Hl. etrans; [apply IH; lia|].
  simpl. apply leak_one; [rewrite size_list_to_set by done; lia|set_solver..].
Qed.

(** The backpressure slots leak. A call enters its id among the active tasks
    only after it spawned the task, and the task removes it when it settles: a
    task that settles first leaves the id behind. From an idle executor, one
    such interleaving per slot reaches a state in which no task runs and no call
    is under way, every slot is taken, and no step is possible any more: the
    executor refuses every transaction for good. *)
Theorem slots_leak_to_standstill max ids :
  NoDup ids → length ids = max →
  ∃ s, rtc (slot_step max) (mkSlots ∅ ∅ ∅) s ∧ running s = ∅ ∧ entering s = ∅ ∧
    active_tasks s = list_to_set ids ∧ ¬ ∃ s', slot_step max s s'.
Proof.
  intros Hnd Hl. exists (mkSlots (list_to_set ids) ∅ ∅). split_and!; [apply leak_all; [done|lia]|done..|].
  intros [s' Hs]. inversion Hs; subst; [|set_solver..].
  match goal with Hsz : size _ < _ |- _ => rewrite size_list_to_set in Hsz by done; lia end.
Qed.

(** ** The properties at a concrete transaction *)

Module ConcreteExecutor.
Import ConcreteChain ConcreteStore ConcreteWasm ConcreteContracts.

(** A routed deployment. *)
Definition routed_tx : Transaction :=
  mkTransaction "tx" "DeployContract" [] None 0 [7%N] [] None 0 [] [] ConcreteScan.deploy_payload 0 []
    (Some (mkSelection [5%N] 1 [] [6%N] [])).
Definition preloaded : PendingTransactionRegistry :=
  set_state "tx" (transition_to_preloaded routed_tx) (register_pending "tx" Registry_new).1.
Definition handle : Handle := mkHandle "env" "tokens" (register_defaults EngineRegistry_new) self_signing self_signing.
Definition reachable (target payload : bytes) : bool := true.

Lemma hand_over_witness :
  match run_execution reachable handle empty_store "tx" preloaded with
  | Some (r', sent, Ok res) => result_ok routed_tx res ∧ only_moves "tx" preloaded r' ∧
      let t := with_result_data (er_result_data res) routed_tx in
      state_at "tx" r' = Some (Finalizing t [5%N]) ∧ handed_over reachable handle "tx" t (er_result_hash res) [5%N] sent ∧ sent.*1 = [[5%N]; [5%N]]
  | _ => False
  end.
Proof.
  destruct (run_execution reachable handle empty_store "tx" preloaded) as [[[r' sent] res]|] eqn:E; [|by vm_compute in E].
  pose (seen (x : option (PendingTransactionRegistry * list (bytes * bytes) * result ExecutorError ExecutionResult)) :=
    match x with Some (_, frames, res) => is_ok res && bool_decide (frames.*1 = [[5%N]; [5%N]]) | None => false end).
  assert (seen (Some (r', sent, res)) = true) as Hseen by (rewrite <-E; vm_compute; reflexivity).
  cbn in Hseen. apply andb_true_iff in Hseen as [Hok Hto]. apply bool_decide_eq_true in Hto.
  edestruct (execution_hands_over_checked_results reachable handle empty_store "tx" preloaded r' sent res) as [Hm Hr];
    [reflexivity|reflexivity|exact E|].
  destruct res as [res|e]; [|discriminate]. destruct Hr as (Hres & key & _ & Hk & Hs & Hho).
  specialize (Hk (or_introl eq_refl)). subst key. split; [exact Hres|]. split; [exact Hm|]. split; [exact Hs|]. split; [exact Hho|exact Hto].
Defined.

Lemma standstill_witness :
  ∃ s, rtc (slot_step 2) (mkSlots ∅ ∅ ∅) s ∧ running s = ∅ ∧ ¬ ∃ s', slot_step 2 s s'.
Proof.
  destruct (slots_leak_to_standstill 2 ["a"; "b"]) as (s & Hr & Hi & _ & _ & Hs); [|done|by exists s].
  apply (bool_decide_unpack (NoDup _)). by vm_compute.
Defined.
End ConcreteExecutor.
