(* ===== verification/Signatures.v ===== *)
(** * Executor signatures and quorum (src/src/registry/signatures.rs, finalizer/src/signature_collector.rs)

    The per-transaction signature registry, and the Finalizer's collector: the
    responsible set its votes are weighed against, the stake quorum of shielded
    votes and the reconciliation of executor votes. *)

From S2P Require Import Prelude Types Float StakeSets.

(** ** The signature registry *)

Abbreviation SignatureRegistry := (gmap string (gmap bytes TransactionSignature)) (only parsing).

Definition SignatureRegistry_new : SignatureRegistry := ∅.

Definition try_add_transaction (tx_id : string) (r : SignatureRegistry)
    : SignatureRegistry * result PneumaticError () :=
  if bool_decide (is_Some (r !! tx_id)) then
    (r, Err (Registry ("Transaction " +:+ tx_id +:+ " already in signature registry")))
  else (<[tx_id := ∅]> r, Ok ()).

Definition ensure_transaction_registered (tx_id : string) (r : SignatureRegistry) : SignatureRegistry :=
  match r !! tx_id with Some _ => r | None => <[tx_id := ∅]> r end.

Definition transaction_is_registered (tx_id : string) (r : SignatureRegistry) : bool :=
  bool_decide (is_Some (r !! tx_id)).

Definition get_transaction_registry (tx_id : string) (r : SignatureRegistry)
    : option (gmap bytes TransactionSignature) := r !! tx_id.

Definition try_add_signature (tx_id : string) (executor_key : bytes) (signature : TransactionSignature)
    (r : SignatureRegistry) : SignatureRegistry * result PneumaticError () :=
  match r !! tx_id with
  | None => (r, Err (Registry ("Transaction " +:+ tx_id +:+ " not in signature registry")))
  | Some m =>
      if bool_decide (is_Some (m !! executor_key)) then
        (r, Err (Registry ("Duplicate signature from executor " +:+ debug_bytes executor_key +:+
           " for transaction " +:+ tx_id)))
      else (<[tx_id := <[executor_key := signature]> m]> r, Ok ())
  end.

Definition try_remove_transaction (tx_id : string) (r : SignatureRegistry)
    : SignatureRegistry * result PneumaticError () :=
  match r !! tx_id with
  | None => (r, Err (Registry ("Transaction " +:+ tx_id +:+ " not in signature registry")))
  | Some _ => (delete tx_id r, Ok ())
  end.

Definition signatures_is_empty (r : SignatureRegistry) : bool := bool_decide (r = ∅).
Definition signatures_len (r : SignatureRegistry) : nat := size r.

(** ** The responsible set *)

Record ResponsibleSet := mkResponsible { members : gmap bytes N }.

Definition positive_stake (kv : bytes * N) : Prop := (0 < kv.2)%N.

Definition from_stake_set (s : StakeSet) : ResponsibleSet :=
  mkResponsible (filter positive_stake (stakers s)).

(** Collecting into a [HashMap]: a later entry of a key replaces an earlier one. *)
Definition with_members (l : list (bytes * N)) : ResponsibleSet :=
  mkResponsible (foldl (λ m kv, <[kv.1 := kv.2]> m) ∅ (filter positive_stake l)).

(** [u64] sums wrap. *)
Definition sum_u64 (l : list N) : N := foldl wrap_add 0%N l.

Definition responsible_len (r : ResponsibleSet) : nat := size (members r).
Definition responsible_is_empty (r : ResponsibleSet) : bool := bool_decide (members r = ∅).
Definition stake_of (key : bytes) (r : ResponsibleSet) : option N := members r !! key.

(** ** The collector *)

Record SignatureCollector := mkCollector {
  signature_registry : SignatureRegistry;
  quorum_percentage : f32;
  quorum_shortfalls : N;
  unassigned_votes : N;
}.

Record ExecutorSignature := mkExecutorSignature {
  executor_public_key : bytes;
  es_signature : bytes;
  es_stake : N;
}.

Record ReconciledSignatures := mkReconciled {
  executor_signatures : list ExecutorSignature;
  winning_finalizer : bytes;
  conflict_resolved : bool;
}.

Definition SignatureCollector_new (r : SignatureRegistry) (q : f32) : SignatureCollector :=
  mkCollector r q 0 0.

Definition with_signatures (r : SignatureRegistry) (c : SignatureCollector) : SignatureCollector :=
  mkCollector r (quorum_percentage c) (quorum_shortfalls c) (unassigned_votes c).

Definition add_signature (tx_id : string) (executor_key : bytes) (signature : TransactionSignature)
    (c : SignatureCollector) : SignatureCollector * result PneumaticError () :=
  let r1 := ensure_transaction_registered tx_id (signature_registry c) in
  let (r2, res) := try_add_signature tx_id executor_key signature r1 in
  (with_signatures r2 c, res).

Definition u128_max : N := 340282366920938463463374607431768211455.
Definition u128_mul (a b : N) : N := ((a * b) mod (u128_max + 1))%N.

(** [self.quorum_percentage.round() as u128]. *)
Definition quorum_pct (c : SignatureCollector) : N :=
  cast_with round_magnitude u128_max (quorum_percentage c).

(** [x * 100 >= total * pct] in [u128]. *)
Definition quorum_met (x total pct : N) : bool :=
  bool_decide (u128_mul total pct ≤ u128_mul x 100)%N.

Section collector.
Context `{HashIter}.

Definition responsible_total (r : ResponsibleSet) : N := sum_u64 (hash_values (members r)).

Definition check_stake_quorum (tx_id : string) (total_stake : N) (c : SignatureCollector)
    : result PneumaticError bool :=
  match get_transaction_registry tx_id (signature_registry c) with
  | None => Err (Registry ("Transaction " +:+ tx_id +:+ " not in signature registry for quorum check"))
  | Some sig_map =>
      let admitted := sum_N (ts_current_stake <$> hash_values sig_map) in
      if bool_decide (total_stake = 0%N) then Ok false
      else Ok (quorum_met admitted total_stake (quorum_pct c))
  end.

(** A vote from a responsible key, priced at the declared stake. *)
Record Candidate := mkCandidate { cd_key : bytes; cd_stake : N; cd_signature : bytes }.

Definition candidate (r : ResponsibleSet) (ks : bytes * TransactionSignature) : option Candidate :=
  stake ← stake_of ks.1 r; Some (mkCandidate ks.1 stake (ts_signature ks.2)).

Definition candidates (r : ResponsibleSet) (sig_map : gmap bytes TransactionSignature) : list Candidate :=
  omap (candidate r) (hash_iter sig_map).

Definition unassigned_in (r : ResponsibleSet) (sig_map : gmap bytes TransactionSignature) : nat :=
  length (filter (λ ks, stake_of ks.1 r = None) (hash_iter sig_map)).
End collector.

(** [sort_by(|a, b| b.1.cmp(&a.1))], a stable sort: highest stake first. *)
Fixpoint insert_desc (x : Candidate) (l : list Candidate) : list Candidate :=
  match l with
  | [] => [x]
  | y :: l' => if bool_decide (cd_stake x < cd_stake y)%N then y :: insert_desc x l' else x :: y :: l'
  end.
Definition sort_desc (l : list Candidate) : list Candidate := foldr insert_desc [] l.

Definition executor_signature (x : Candidate) : ExecutorSignature :=
  mkExecutorSignature (cd_key x) (cd_signature x) (cd_stake x).

(** The accumulation loop: it stops at the candidate that reaches the quorum. *)
Fixpoint tally (total pct cumulative : N) (winning : list ExecutorSignature) (l : list Candidate)
    : list ExecutorSignature * bytes :=
  match l with
  | [] => (winning, [])
  | x :: l' =>
      let cumulative := wrap_add cumulative (cd_stake x) in
      let winning := winning ++ [executor_signature x] in
      if quorum_met cumulative total pct then (winning, cd_key x)
      else tally total pct cumulative winning l'
  end.

Definition quorum_not_reached (tx_id : string) (arriving total pct : N) (len unassigned : nat) : PneumaticError :=
  EpochError ("Quorum not reached for tx " +:+ tx_id +:+ ": eligible votes carry " +:+ pretty arriving +:+
    " of " +:+ pretty total +:+ " responsible stake (" +:+ pretty pct +:+ "% of " +:+ pretty len +:+
    " members required, " +:+ pretty unassigned +:+
    " vote(s) from unassigned keys excluded) — refusing to finalize on a smaller base").

Section reconcile.
Context `{HashIter}.

Definition reconcile_signatures (tx_id : string) (r : ResponsibleSet) (c : SignatureCollector)
    : SignatureCollector * result PneumaticError ReconciledSignatures :=
  if responsible_is_empty r then
    (c, Err (EpochError ("Cannot reconcile signatures for tx " +:+ tx_id +:+
       ": the responsible set is empty — a quorum over nothing is not a quorum")))
  else match get_transaction_registry tx_id (signature_registry c) with
  | None =>
      (c, Err (Registry ("Transaction " +:+ tx_id +:+ " not in signature registry for reconciliation")))
  | Some sig_map =>
      let unassigned := unassigned_in r sig_map in
      let c1 := mkCollector (signature_registry c) (quorum_percentage c) (quorum_shortfalls c)
                  (if bool_decide (0 < unassigned) then wrap_add (unassigned_votes c) (N.of_nat unassigned)
                   else unassigned_votes c) in
      let cands := sort_desc (candidates r sig_map) in
      let total := responsible_total r in
      let arriving := sum_u64 (cd_stake <$> cands) in
      let pct := quorum_pct c in
      let '(winning, finalizer) := tally total pct 0 [] cands in
      if bool_decide (finalizer = []) then
        (mkCollector (signature_registry c1) (quorum_percentage c1) (wrap_add (quorum_shortfalls c1) 1)
           (unassigned_votes c1),
         Err (quorum_not_reached tx_id arriving total pct (responsible_len r) unassigned))
      else (c1, Ok (mkReconciled winning finalizer true))
  end.

Definition signature_count (tx_id : string) (c : SignatureCollector) : nat :=
  match get_transaction_registry tx_id (signature_registry c) with Some m => size m | None => 0 end.

Definition has_signatures (tx_id : string) (c : SignatureCollector) : bool :=
  bool_decide (0 < signature_count tx_id c).

(** [min_by(|a, b| a.0.cmp(&b.0))]: the first of the smallest keys. *)
Definition smaller_key {V} (acc : option (bytes * V)) (kv : bytes * V) : option (bytes * V) :=
  match acc with
  | None => Some kv
  | Some m => if bytes_leb m.1 kv.1 then Some m else Some kv
  end.

Definition first_signature (tx_id : string) (c : SignatureCollector) : option (bytes * TransactionSignature) :=
  m ← get_transaction_registry tx_id (signature_registry c);
  foldl smaller_key None (hash_iter m).
End reconcile.

(** ** Lemmas *)

Definition stake_total (m : gmap bytes N) : N := sum_N (map_to_list m).*2.

(** The responsible members that voted, with their declared stakes. *)
Definition voted (r : ResponsibleSet) (sig_map : gmap bytes TransactionSignature) : gmap bytes N :=
  filter (λ kv, is_Some (sig_map !! kv.1)) (members r).

Lemma foldl_wrap_add l a : (a + sum_N l ≤ u64_max)%N → foldl wrap_add a l = (a + sum_N l)%N.
Proof.
  revert a. induction l as [|x l IH]; intros a; simpl; [by rewrite N.add_0_r|]. intros Hle.
  rewrite IH; unfold wrap_add; rewrite N.mod_small by u64; [lia..].
Qed.

Lemma sum_u64_exact l : (sum_N l ≤ u64_max)%N → sum_u64 l = sum_N l.
Proof. apply (foldl_wrap_add l 0). Qed.

Lemma quorum_met_spec x total pct :
  (x ≤ u64_max)%N → (total ≤ u64_max)%N → (pct ≤ 100)%N →
  quorum_met x total pct = true ↔ (total * pct ≤ 100 * x)%N.
Proof.
  intros. unfold quorum_met, u128_mul. rewrite bool_decide_eq_true.
  rewrite !N.mod_small; unfold u128_max, u64_max in *; nia.
Qed.

Lemma insert_desc_perm x l : insert_desc x l ≡ₚ x :: l.
Proof. induction l as [|y l IH]; simpl; [done|]. case_bool_decide; [|done]. by rewrite IH, Permutation_swap. Qed.

Lemma sort_desc_perm l : sort_desc l ≡ₚ l.
Proof. induction l as [|x l IH]; simpl; [done|]. by rewrite insert_desc_perm, IH. Qed.

Definition stake_ge (x y : Candidate) : Prop := (cd_stake y ≤ cd_stake x)%N.

Lemma insert_desc_sorted x l : StronglySorted stake_ge l → StronglySorted stake_ge (insert_desc x l).
Proof.
  induction 1 as [|y l Hs IH Hall]; simpl; [by repeat constructor|].
  case_bool_decide as Hlt; unfold stake_ge in *.
  - constructor; [done|]. rewrite insert_desc_perm. constructor; [lia|done].
  - constructor; [by constructor|]. constructor; [lia|].
    eapply Forall_impl; [done|]. simpl. intros z Hz. lia.
Qed.

Lemma sort_desc_sorted l : StronglySorted stake_ge (sort_desc l).
Proof. induction l; simpl; [constructor|]. by apply insert_desc_sorted. Qed.

Lemma StronglySorted_app_elem {A} (R : relation A) l k x y :
  StronglySorted R (l ++ k) → x ∈ l → y ∈ k → R x y.
Proof.
  induction l as [|z l IH]; simpl; [by intros _ ?%elem_of_nil|].
  inversion 1 as [|? ? Hs Hall]; subst. rewrite elem_of_cons. intros [->|Hx] Hy; [|auto].
  rewrite Forall_forall in Hall. apply Hall. set_solver.
Qed.

Definition stakes_sum (l : list Candidate) : N := sum_N (cd_stake <$> l).

Lemma stakes_sum_app l k : stakes_sum (l ++ k) = (stakes_sum l + stakes_sum k)%N.
Proof. unfold stakes_sum. by rewrite fmap_app, sum_N_app. Qed.

Lemma stakes_sum_cons x l : stakes_sum (x :: l) = (cd_stake x + stakes_sum l)%N.
Proof. done. Qed.

(** The loop stops at the first candidate that reaches the quorum, or runs out. *)
Lemma tally_spec total pct a w l :
  (a + stakes_sum l ≤ u64_max)%N → (total ≤ u64_max)%N → (pct ≤ 100)%N →
  (∃ pre x post, l = pre ++ x :: post ∧ tally total pct a w l = (w ++ (executor_signature <$> pre ++ [x]), cd_key x) ∧
     (total * pct ≤ 100 * (a + stakes_sum (pre ++ [x])))%N ∧
     (pre = [] ∨ (100 * (a + stakes_sum pre) < total * pct)%N)) ∨
  ((tally total pct a w l).2 = [] ∧ (l = [] ∨ (100 * (a + stakes_sum l) < total * pct)%N)).
Proof.
  intros Hle Ht Hp. revert a w Hle. induction l as [|x l IH]; intros a w Hle; [by right; auto|].
  rewrite stakes_sum_cons in *. cbn [tally].
  assert (wrap_add a (cd_stake x) = a + cd_stake x)%N as -> by (unfold wrap_add; apply N.mod_small; u64).
  destruct (quorum_met _ _ _) eqn:Hq.
  - left. exists [], x, l. rewrite quorum_met_spec in Hq by lia.
    split_and!; [done|done| |by left]. simpl. rewrite stakes_sum_cons. unfold stakes_sum. simpl. lia.
  - apply not_true_iff_false in Hq. rewrite quorum_met_spec in Hq by lia.
    assert (a + cd_stake x + stakes_sum l ≤ u64_max)%N as Hle' by lia.
    destruct (IH _ (w ++ [executor_signature x]) Hle') as
      [(pre & y & post & -> & Hy & Hr & Hpre)|[He Hl]].
    + left. exists (x :: pre), y, post. split_and!; [done| | |right].
      * by rewrite Hy, <-app_assoc.
      * simpl. rewrite stakes_sum_cons. lia.
      * rewrite stakes_sum_cons. destruct Hpre as [->|?]; [unfold stakes_sum; simpl|]; lia.
    + right. split; [done|]. right. destruct Hl as [->|?]; [unfold stakes_sum; simpl|]; lia.
Qed.

Section candidates.
Context `{HashIter}.

Lemma elem_of_candidates r m x :
  x ∈ candidates r m ↔ ∃ s, m !! cd_key x = Some s ∧ members r !! cd_key x = Some (cd_stake x) ∧
    cd_signature x = ts_signature s.
Proof.
  unfold candidates, candidate, stake_of. rewrite list_elem_of_omap. split.
  - intros ([k s] & Hks & Hx). apply elem_of_hash_iter in Hks. simpl in Hx.
    destruct (members r !! k) eqn:Hk; simplify_eq/=. eauto.
  - intros (s & Hs & Hk & Hsig). exists (cd_key x, s). rewrite elem_of_hash_iter. split; [done|].
    simpl. rewrite Hk. simpl. rewrite <-Hsig. by destruct x.
Qed.

Lemma candidates_keys_NoDup r m : NoDup (cd_key <$> candidates r m).
Proof.
  pose proof (hash_iter_NoDup m) as Hnd. unfold candidates. induction (hash_iter m) as [|[k s] l IH]; [constructor|].
  rewrite fmap_cons in Hnd. apply NoDup_cons in Hnd as [Hk Hnd].
  change (omap (candidate r) ((k, s) :: l)) with
    (match candidate r (k, s) with Some y => y :: omap (candidate r) l | None => omap (candidate r) l end).
  destruct (candidate r (k, s)) as [x|] eqn:Hx; [|auto]. rewrite fmap_cons. constructor; [|auto].
  assert (∀ ks x, candidate r ks = Some x → cd_key x = ks.1) as Hkey.
  { intros ks y Hy. unfold candidate in Hy. destruct (stake_of ks.1 r); by simplify_eq/=. }
  rewrite (Hkey _ _ Hx). intros (y & Ey & (ks & Hks & Hy)%list_elem_of_omap)%list_elem_of_fmap.
  apply Hk. apply list_elem_of_fmap. exists ks. split; [|done]. by rewrite Ey, (Hkey _ _ Hy).
Qed.

(** The candidates are the responsible voters at their declared stakes. *)
Lemma candidates_voted r m :
  ((λ x, (cd_key x, cd_stake x)) <$> candidates r m) ≡ₚ map_to_list (voted r m).
Proof.
  apply NoDup_Permutation.
  - apply (NoDup_fmap_1 fst). rewrite <-list_fmap_compose. apply candidates_keys_NoDup.
  - apply NoDup_map_to_list.
  - intros [k v]. unfold voted. rewrite elem_of_map_to_list, map_lookup_filter_Some. simpl.
    rewrite list_elem_of_fmap. split.
    + intros (x & [= -> ->] & (s & Hs & Hk & _)%elem_of_candidates). eauto.
    + intros [Hk [s Hs]]. exists (mkCandidate k v (ts_signature s)). split; [done|].
      apply elem_of_candidates. simpl. eauto.
Qed.

Lemma candidates_total r m : stakes_sum (candidates r m) = stake_total (voted r m).
Proof.
  unfold stakes_sum, stake_total. rewrite <-(candidates_voted r m), <-list_fmap_compose. done.
Qed.

Lemma voted_le r m : (stake_total (voted r m) ≤ stake_total (members r))%N.
Proof.
  unfold stake_total. assert (voted r m ⊆ members r) as Hsub by apply map_filter_subseteq.
  apply map_to_list_submseteq in Hsub. destruct (submseteq_Permutation _ _ Hsub) as [k Hk].
  rewrite Hk, fmap_app, sum_N_app. lia.
Qed.

Lemma responsible_total_exact r :
  (stake_total (members r) ≤ u64_max)%N → responsible_total r = stake_total (members r).
Proof.
  unfold responsible_total, hash_values, stake_total. intros Hle.
  rewrite sum_u64_exact; by rewrite (hash_iter_perm (members r)).
Qed.
End candidates.

(** ** Properties *)

(** The verdict of a reconciliation, on the votes alone. *)
Lemma reconcile_cases `{HashIter} tx_id r c sig_map :
  signature_registry c !! tx_id = Some sig_map → members r !! [] = None →
  (quorum_pct c ≤ 100)%N → (stake_total (members r) ≤ u64_max)%N →
  let total := stake_total (members r) in
  let res := (reconcile_signatures tx_id r c).2 in
  (∃ won x lost, won ++ x :: lost ≡ₚ candidates r sig_map ∧
     StronglySorted stake_ge (won ++ x :: lost) ∧
     res = Ok (mkReconciled (executor_signature <$> won ++ [x]) (cd_key x) true) ∧
     (total * quorum_pct c ≤ 100 * stakes_sum (won ++ [x]))%N ∧
     (won = [] ∨ (100 * stakes_sum won < total * quorum_pct c)%N)) ∨
  (is_ok res = false ∧
     (candidates r sig_map = [] ∨ (100 * stake_total (voted r sig_map) < total * quorum_pct c)%N)).
Proof.
  intros Hreg Hempty Hpct Htot total res. subst res. unfold reconcile_signatures.
  pose proof (sort_desc_perm (candidates r sig_map)) as Hperm.
  assert (stakes_sum (sort_desc (candidates r sig_map)) = stake_total (voted r sig_map)) as Hsum.
  { unfold stakes_sum. rewrite Hperm. apply candidates_total. }
  pose proof (voted_le r sig_map) as Hle.
  unfold responsible_is_empty, get_transaction_registry. case_bool_decide as He.
  { right. split; [done|]. left. destruct (candidates r sig_map) as [|x l] eqn:E; [done|].
    assert (x ∈ candidates r sig_map) as (s & _ & Hm & _)%elem_of_candidates by (rewrite E; left).
    by rewrite He, lookup_empty in Hm. }
  rewrite Hreg, responsible_total_exact by done. fold total.
  destruct (tally_spec total (quorum_pct c) 0 [] (sort_desc (candidates r sig_map)))
    as [(won & x & lost & Hl & Ht & Hr & Hw)|[Ht Hl]]; [by rewrite Hsum; fold total in Hle; lia|done|done| |].
  - left. exists won, x, lost. rewrite <-Hl. rewrite Ht. rewrite bool_decide_false.
    + split_and!; [done|apply sort_desc_sorted|done|done|done].
    + intros Hk. assert (x ∈ candidates r sig_map) as (s & _ & Hm & _)%elem_of_candidates.
      { rewrite <-Hperm, Hl. set_solver. }
      rewrite Hk in Hm. discriminate (eq_trans (eq_sym Hm) Hempty).
  - right. destruct (tally _ _ _ _ _) as [w f] eqn:E. simpl in Ht. subst f. rewrite bool_decide_true by done.
    split; [done|]. destruct Hl as [Hl|Hl]; [left|right; rewrite Hsum in Hl; done].
    rewrite Hl in Hperm. by apply Permutation_nil_l in Hperm.
Qed.

Lemma candidates_nil `{HashIter} r m : candidates r m = [] ↔ voted r m = ∅.
Proof.
  pose proof (candidates_voted r m) as Hcv. split; intros E.
  - rewrite E in Hcv. simpl in Hcv. symmetry in Hcv. apply Permutation_nil_r in Hcv.
    by apply map_to_list_empty_iff.
  - rewrite E, map_to_list_empty in Hcv. by apply Permutation_nil_r, fmap_nil_inv in Hcv.
Qed.

Lemma reconcile_ok_iff `{HashIter} tx_id r c sig_map :
  signature_registry c !! tx_id = Some sig_map → members r !! [] = None →
  (quorum_pct c ≤ 100)%N → (stake_total (members r) ≤ u64_max)%N →
  is_ok (reconcile_signatures tx_id r c).2 = true ↔
    voted r sig_map ≠ ∅ ∧
    (stake_total (members r) * quorum_pct c ≤ 100 * stake_total (voted r sig_map))%N.
Proof.
  intros Hreg Hempty Hpct Htot. rewrite <-candidates_nil.
  pose proof (reconcile_cases tx_id r c sig_map Hreg Hempty Hpct Htot) as Hcases. cbn zeta in Hcases.
  destruct Hcases as [(won & x & lost & Hp & _ & Hres & Hq & _)|[-> Hshort]].
  - rewrite Hres. split; [intros _|done]. split.
    + intros E. rewrite E in Hp. by apply Permutation_nil_r, app_nil in Hp as [_ ?].
    + rewrite <-candidates_total. unfold stakes_sum in *. rewrite <-Hp.
      rewrite fmap_app, fmap_cons, sum_N_app in *. simpl in *. lia.
  - split; [done|]. intros [Hne Hge]. destruct Hshort as [Hnil|?]; [done|lia].
Qed.

(** C34: reconciliation is a stake quorum over the responsible set. When the
    declared stakes fit a [u64], no member has the empty key and the quorum is
    at most 100%, a reconciliation succeeds exactly when some responsible
    member voted and the voters' declared stake reaches the quorum of the
    stake of all members, silent ones included. The result lists distinct
    responsible voters at their declared stake with the signatures they sent;
    their stake reaches the quorum, without the last one it does not, nobody
    left out has more stake than anyone listed, and the winner is the last. *)
Theorem reconcile_is_stake_quorum `{HashIter} tx_id r c sig_map :
  signature_registry c !! tx_id = Some sig_map → members r !! [] = None →
  (quorum_pct c ≤ 100)%N → (stake_total (members r) ≤ u64_max)%N →
  let quorum := (stake_total (members r) * quorum_pct c)%N in
  let res := (reconcile_signatures tx_id r c).2 in
  (is_ok res = true ↔
     voted r sig_map ≠ ∅ ∧ (quorum ≤ 100 * stake_total (voted r sig_map))%N) ∧
  ∀ rs, res = Ok rs → ∃ won x,
    executor_signatures rs = executor_signature <$> won ++ [x] ∧
    winning_finalizer rs = cd_key x ∧
    NoDup (cd_key <$> won ++ [x]) ∧
    (∀ y, y ∈ won ++ [x] → ∃ s, sig_map !! cd_key y = Some s ∧
       members r !! cd_key y = Some (cd_stake y) ∧ cd_signature y = ts_signature s) ∧
    (quorum ≤ 100 * stakes_sum (won ++ [x]))%N ∧
    (won = [] ∨ (100 * stakes_sum won < quorum)%N) ∧
    (∀ k st, voted r sig_map !! k = Some st → k ∉ cd_key <$> won ++ [x] →
       ∀ y, y ∈ won ++ [x] → (st ≤ cd_stake y)%N).
Proof.
  intros Hreg Hempty Hpct Htot quorum res. split; [by apply reconcile_ok_iff|].
  intros rs Ers. pose proof (candidates_voted r sig_map) as Hcv.
  pose proof (reconcile_cases tx_id r c sig_map Hreg Hempty Hpct Htot) as Hcases.
  cbn zeta in Hcases. fold res quorum in Hcases.
  destruct Hcases as [(won & x & lost & Hp & Hs & Hres & Hq & Hmin)|[Hno _]]; [|by rewrite Ers in Hno].
  rewrite Hres in Ers. apply (inj Ok) in Ers as <-. exists won, x. simpl.
  replace (won ++ x :: lost) with ((won ++ [x]) ++ lost) in Hp, Hs by (by rewrite <-app_assoc).
  split_and!; [done|done| | |done|done|].
  - pose proof (candidates_keys_NoDup r sig_map) as Hnd. rewrite <-Hp, fmap_app in Hnd.
    by apply NoDup_app in Hnd as [? _].
  - intros y Hy. apply elem_of_candidates. rewrite <-Hp. set_solver.
  - intros k st Hk Hnin y Hy.
    assert ((k, st) ∈ map_to_list (voted r sig_map)) as Hin by (by apply elem_of_map_to_list).
    rewrite <-Hcv, <-Hp in Hin. apply list_elem_of_fmap in Hin as (z & [= -> ->] & Hz).
    apply elem_of_app in Hz as [Hz|Hz]; [exfalso; apply Hnin; by apply list_elem_of_fmap_2|].
    by eapply (StronglySorted_app_elem stake_ge).
Qed.

Section votes.
Context `{HashIter}.

(** One transaction's votes, added in their order of arrival. *)
Definition add_votes (tx_id : string) (votes : list (bytes * TransactionSignature)) (c : SignatureCollector)
    : SignatureCollector :=
  foldl (λ c v, (add_signature tx_id v.1 v.2 c).1) c votes.

Lemma add_signature_registered tx_id k s c m :
  signature_registry c !! tx_id = Some m →
  add_signature tx_id k s c =
    match m !! k with
    | Some _ => (c, Err (Registry ("Duplicate signature from executor " +:+ debug_bytes k +:+
                   " for transaction " +:+ tx_id)))
    | None => (with_signatures (<[tx_id := <[k := s]> m]> (signature_registry c)) c, Ok ())
    end.
Proof.
  intros Hm. unfold add_signature, ensure_transaction_registered, try_add_signature. rewrite Hm. rewrite Hm.
  destruct (m !! k) eqn:Hk.
  - rewrite bool_decide_true by eauto. by destruct c.
  - by rewrite bool_decide_false by (intros [? ?]; congruence).
Qed.

(** Later votes of an executor change nothing. *)
Lemma add_votes_registered tx_id votes c m :
  signature_registry c !! tx_id = Some m →
  ∃ c', add_votes tx_id votes c = c' ∧ signature_registry c' !! tx_id = Some (m ∪ list_to_map votes) ∧
    quorum_percentage c' = quorum_percentage c ∧
    (∀ id, id ≠ tx_id → signature_registry c' !! id = signature_registry c !! id).
Proof.
  revert c m. induction votes as [|[k s] votes IH]; intros c m Hm.
  { exists c. simpl. by rewrite (right_id_L ∅ (∪)). }
  simpl. rewrite (add_signature_registered tx_id k s c m Hm). destruct (m !! k) as [s'|] eqn:Hk; simpl.
  - destruct (IH c m Hm) as (c' & ? & Hc' & ? & ?). exists c'. split_and!; [done| |done|done].
    rewrite Hc'. f_equal. apply map_eq. intros k'. rewrite !lookup_union.
    destruct (decide (k' = k)) as [->|?]; [by rewrite Hk, lookup_insert_eq, !union_Some_l|by rewrite lookup_insert_ne].
  - destruct (IH (with_signatures (<[tx_id := <[k := s]> m]> (signature_registry c)) c) (<[k := s]> m))
      as (c' & ? & Hc' & ? & Hoth); [apply lookup_insert_eq|].
    exists c'. split_and!; [done| |done|].
    + rewrite Hc'. f_equal. rewrite <-insert_union_l. by rewrite insert_union_r.
    + intros id Hid. rewrite Hoth by done. simpl. by rewrite lookup_insert_ne.
Qed.

(** Every executor votes once. Whatever votes arrive for a transaction, in
    whatever order and with whatever repetitions, the collector holds each
    executor's first vote, other transactions are untouched, and a further vote
    is accepted exactly from an executor that has not voted. The shielded
    quorum then counts the stakes of those first votes: against a total of zero
    it is refused, otherwise it is met exactly when they reach the quorum's
    share of the total (the products fit a [u128]). *)
Theorem first_votes_count tx_id v votes c total :
  signature_registry c !! tx_id = None →
  (quorum_pct c ≤ 100)%N → (total ≤ u64_max)%N →
  let c' := add_votes tx_id (v :: votes) c in
  let first := list_to_map (v :: votes) : gmap bytes TransactionSignature in
  let stake := sum_N (ts_current_stake <$> (map_to_list first).*2) in
  (100 * stake ≤ u128_max)%N →
  signature_registry c' !! tx_id = Some first ∧
  (∀ id, id ≠ tx_id → signature_registry c' !! id = signature_registry c !! id) ∧
  (∀ k s, is_ok (add_signature tx_id k s c').2 = true ↔ k ∉ (v :: votes).*1) ∧
  check_stake_quorum tx_id total c' =
    Ok (bool_decide (total ≠ 0)%N && bool_decide (total * quorum_pct c ≤ 100 * stake)%N).
Proof.
  intros Hnone Hpct Htot c' first stake Hfit.
  assert (c' = add_votes tx_id (v :: votes) (with_signatures (<[tx_id := ∅]> (signature_registry c)) c)) as Hc'.
  { unfold c', add_votes. simpl. f_equal. f_equal. unfold add_signature, ensure_transaction_registered. simpl.
    by rewrite Hnone, lookup_insert_eq. }
  destruct (add_votes_registered tx_id (v :: votes) (with_signatures (<[tx_id := ∅]> (signature_registry c)) c) ∅)
    as (c'' & Hc'' & Hreg & Hq & Hoth); [apply lookup_insert_eq|].
  rewrite <-Hc' in Hc''. subst c''. rewrite (left_id_L ∅ (∪)) in Hreg. fold first in Hreg. clearbody c'.
  split_and!; [done| | |].
  - intros id Hid. rewrite Hoth by done. simpl. by rewrite lookup_insert_ne.
  - intros k s. rewrite (add_signature_registered tx_id k s c' first) by done.
    pose proof (not_elem_of_list_to_map (M:=gmap bytes) (v :: votes) k) as Hk.
    unfold first. destruct (list_to_map (v :: votes) !! k) eqn:E; simpl.
    + split; [done|]. intros ?%Hk. congruence.
    + split; [intros _; by apply Hk|done].
  - unfold check_stake_quorum, get_transaction_registry. rewrite Hreg.
    assert (sum_N (ts_current_stake <$> hash_values first) = stake) as ->.
    { unfold hash_values. by rewrite hash_iter_perm. }
    assert (quorum_pct c' = quorum_pct c) as -> by (unfold quorum_pct; by rewrite Hq).
    case_bool_decide; [by rewrite bool_decide_false by tauto|]. rewrite bool_decide_true by done. f_equal.
    unfold quorum_met, u128_mul. unfold u64_max, u128_max in *. rewrite !N.mod_small by nia.
    apply bool_decide_ext. lia.
Qed.
End votes.

(** ** Two votes of equal stake *)

Module ConcreteVotes.
Definition vote (n : N) : TransactionSignature := mkSignature [] [] [] [n] 50.
(** 50.0 and 67.0 as [f32]. *)
Definition f32_50 : f32 := SpecFloat.S754_finite false 13107200 (-18).
Definition f32_67 : f32 := SpecFloat.S754_finite false 8781824 (-17).
Definition both : gmap bytes TransactionSignature := {[ [1%N] := vote 1; [2%N] := vote 2 ]}.
Definition responsible : ResponsibleSet := mkResponsible {[ [1%N] := 50%N; [2%N] := 50%N ]}.
Definition collector (q : f32) : SignatureCollector := mkCollector {[ "tx" := both ]} q 0 0.

Lemma reconcile_witness :
  is_ok (@reconcile_signatures forward_iter "tx" responsible (collector f32_67)).2 = true ↔
    voted responsible both ≠ ∅ ∧
    (stake_total (members responsible) * quorum_pct (collector f32_67) ≤ 100 * stake_total (voted responsible both))%N.
Proof.
  apply (@reconcile_is_stake_quorum forward_iter "tx" responsible (collector f32_67) both);
    [done|done|by vm_compute|by vm_compute].
Defined.

Lemma first_votes_witness :
  @check_stake_quorum forward_iter "tx" 100
    (add_votes "tx" [([1%N], vote 1); ([1%N], vote 9); ([2%N], vote 2)] (mkCollector ∅ f32_67 0 0)) = Ok true.
Proof.
  etrans; [apply (@first_votes_count forward_iter "tx" ([1%N], vote 1) [([1%N], vote 9); ([2%N], vote 2)]
    (mkCollector ∅ f32_67 0 0) 100); [done|by vm_compute|by vm_compute|by vm_compute]|by vm_compute].
Defined.
End ConcreteVotes.

(** Nodes agree on the verdict, not on the winner. Two nodes holding the
    same votes and the same responsible set either both reconcile or both
    refuse, whatever the iteration orders of their hash maps. Among voters of
    equal stake, though, the order the map happens to yield decides: there are
    votes on which two nodes name different winners. *)
Theorem reconcile_verdict_agrees_winner_may_not :
  (∀ (h1 h2 : HashIter) tx_id r c sig_map,
     signature_registry c !! tx_id = Some sig_map → members r !! [] = None →
     (quorum_pct c ≤ 100)%N → (stake_total (members r) ≤ u64_max)%N →
     is_ok (@reconcile_signatures h1 tx_id r c).2 = is_ok (@reconcile_signatures h2 tx_id r c).2) ∧
  ∃ tx_id r c rs1 rs2,
    (@reconcile_signatures forward_iter tx_id r c).2 = Ok rs1 ∧
    (@reconcile_signatures backward_iter tx_id r c).2 = Ok rs2 ∧
    winning_finalizer rs1 ≠ winning_finalizer rs2.
Proof.
  split.
  - intros h1 h2 tx_id r c sig_map Hreg He Hp Ht. apply eq_true_iff_eq.
    by rewrite (@reconcile_ok_iff h1 tx_id r c sig_map), (@reconcile_ok_iff h2 tx_id r c sig_map).
  - exists "tx", ConcreteVotes.responsible, (ConcreteVotes.collector ConcreteVotes.f32_50).
    eexists _, _. split_and!; [by vm_compute|by vm_compute|done].
Qed.
