(* ===== verification/Epoch.v ===== *)
(** * Epochs: conflicts, candidates, boundaries (src/src/epoch/types.rs, candidates.rs, boundary.rs,
    snapshot_cache.rs, proposer.rs)

    The epoch record and its advance, the bounded registry of competing blocks,
    the resolution of two blocks at one height, the tiered snapshot cache and
    the leader's batch proposal. *)

From S2P Require Import Prelude Types StakeSets Pool Registry.

Record Epoch := mkEpoch {
  start_timestamp : Z;
  end_timestamp : Z;
  epoch_number : N;
  leader_public_key : bytes;
}.

Inductive StakingOp :=
| AddStaker (key : bytes) (stake : N)
| RemoveStaker (key : bytes)
| Slash (key : bytes) (amount : N)
| Reward (key : bytes) (amount : N).

Record Conflict := mkConflict {
  block_a : bytes;
  block_b : bytes;
  stake_a : N;
  stake_b : N;
}.

Record EpochReconciliation := mkReconciliation {
  misshapen_tokens : list bytes;
  finalization_conflicts : list Conflict;
  slashing_ops : list StakingOp;
  reward_ops : list StakingOp;
}.

(** ** Block conflicts *)

Inductive ConflictResolution :=
| DiscardLoser (winner_hash : bytes)
| SameProposerSlash (winner_hash proposer_key : bytes)
| TieFlagBoth (hash : bytes).

Definition resolve_block_conflict (block_a_hash block_b_hash proposer_a proposer_b : bytes)
    (stake_set : StakeSet) : result PneumaticError ConflictResolution :=
  let stake_a := StakeSet_get_stake stake_set proposer_a in
  let stake_b := StakeSet_get_stake stake_set proposer_b in
  if bool_decide (stake_b < stake_a)%N then Ok (DiscardLoser block_a_hash)
  else if bool_decide (stake_a < stake_b)%N then Ok (DiscardLoser block_b_hash)
  else if bool_decide (proposer_a = proposer_b) then Ok (SameProposerSlash block_a_hash proposer_a)
  else Ok (TieFlagBoth block_a_hash).

(** ** Competing candidates *)

Record CandidateRegistry := mkCandidates {
  position_candidates : gmap (bytes * bytes) (list (Block * bytes));
  max_candidates : nat;
}.

Definition DEFAULT_MAX_CANDIDATES : nat := 1024.

Definition CandidateRegistry_new : CandidateRegistry := mkCandidates ∅ DEFAULT_MAX_CANDIDATES.
Definition with_max_candidates (n : nat) : CandidateRegistry := mkCandidates ∅ (n `max` 1).

(** [while entry.len() > max { entry.remove(0) }], with the length as fuel. *)
Fixpoint evict_oldest {A} (fuel max : nat) (l : list A) : list A :=
  match fuel with
  | O => l
  | S fuel' => if bool_decide (max < length l) then evict_oldest fuel' max (tail l) else l
  end.

Definition insert_candidate (token_id previous_hash : bytes) (block : Block) (proposer_key : bytes)
    (r : CandidateRegistry) : CandidateRegistry :=
  let key := (token_id, previous_hash) in
  let entry := default [] (position_candidates r !! key) ++ [(block, proposer_key)] in
  mkCandidates (<[key := evict_oldest (length entry) (max_candidates r) entry]> (position_candidates r))
    (max_candidates r).

Definition get_candidates (token_id previous_hash : bytes) (r : CandidateRegistry) : list (Block * bytes) :=
  default [] (position_candidates r !! (token_id, previous_hash)).

Definition has_conflict (token_id previous_hash : bytes) (r : CandidateRegistry) : bool :=
  match position_candidates r !! (token_id, previous_hash) with
  | Some l => bool_decide (2 ≤ length l)
  | None => false
  end.

Definition candidate_count (token_id previous_hash : bytes) (r : CandidateRegistry) : nat :=
  match position_candidates r !! (token_id, previous_hash) with Some l => length l | None => 0 end.

Definition remove_conflicted (token_id previous_hash : bytes) (r : CandidateRegistry)
    : CandidateRegistry * nat :=
  match position_candidates r !! (token_id, previous_hash) with
  | Some l => (mkCandidates (delete (token_id, previous_hash) (position_candidates r)) (max_candidates r), length l)
  | None => (r, 0)
  end.

Definition candidates_len (r : CandidateRegistry) : nat := size (position_candidates r).
Definition candidates_is_empty (r : CandidateRegistry) : bool := bool_decide (position_candidates r = ∅).

(** ** Epoch boundaries *)

(** [i64] addition wraps. *)
Definition i64_wrap (z : Z) : Z := ((z + 2 ^ 63) mod 2 ^ 64 - 2 ^ 63)%Z.

Section boundary.
(** [IEpochLeaderSelector::select]. *)
Context (select : StakeSet → N → bytes → bytes).

Definition new_with_leader (number : N) (start stop : Z) (stake_set : StakeSet) (prev_block_hash : bytes)
    : Epoch := mkEpoch start stop number (select stake_set number prev_block_hash).

Record EpochBoundaryDetector := mkDetector {
  current_epoch : Epoch;
  previous_leader : option bytes;
}.

Definition EpochBoundaryDetector_new (e : Epoch) : EpochBoundaryDetector := mkDetector e None.

Definition is_epoch_expired (now : Z) (d : EpochBoundaryDetector) : bool :=
  bool_decide (end_timestamp (current_epoch d) ≤ now)%Z.

Definition current_leader (d : EpochBoundaryDetector) : option bytes :=
  match leader_public_key (current_epoch d) with [] => None | k => Some k end.

Definition advance_to_new_epoch (stake_set : StakeSet) (epoch_duration : Z) (prev_block_hash : bytes)
    (d : EpochBoundaryDetector) : EpochBoundaryDetector :=
  let e := current_epoch d in
  let now := end_timestamp e in
  mkDetector
    (new_with_leader (wrap_add (epoch_number e) 1) now (i64_wrap (now + epoch_duration)) stake_set prev_block_hash)
    (match leader_public_key e with [] => previous_leader d | k => Some k end).

Definition is_stale_block (proposer_key : bytes) (d : EpochBoundaryDetector) : bool :=
  match previous_leader d with Some prev => bool_decide (prev = proposer_key) | None => false end.
End boundary.

(** ** The snapshot cache *)

Section snapshot_cache.
Context {T : Type}.
(** The fetch hook, as the store answers at the time of the call. *)
Context (fetch : N → string → result DataError T).

Record EpochSnapshotCache := mkCache { local : gmap N T; cache_partition : string }.

Definition cache_new (partition_id : string) : EpochSnapshotCache := mkCache ∅ partition_id.

Definition cache_get (epoch : N) (c : EpochSnapshotCache) : EpochSnapshotCache * option T :=
  match local c !! epoch with
  | Some snapshot => (c, Some snapshot)
  | None =>
      match fetch epoch (cache_partition c) with
      | Ok snapshot => (mkCache (<[epoch := snapshot]> (local c)) (cache_partition c), Some snapshot)
      | Err _ => (c, None)
      end
  end.

Definition cache_put (epoch : N) (snapshot : T) (c : EpochSnapshotCache) : EpochSnapshotCache :=
  mkCache (<[epoch := snapshot]> (local c)) (cache_partition c).
Definition cached_count (c : EpochSnapshotCache) : nat := size (local c).
Definition invalidate_all (c : EpochSnapshotCache) : EpochSnapshotCache := mkCache ∅ (cache_partition c).
End snapshot_cache.

(** ** The leader's proposal *)

Record BlockProposer := mkProposer {
  leader_address : bytes;
  leader_stake : N;
  leader_hash : bytes;
}.

Definition BlockProposer_new (address : bytes) (stake : N) (hash : bytes) : BlockProposer :=
  mkProposer address stake hash.

Definition proposed (p : BlockProposer) (tx : Transaction) : SignedTransaction :=
  mkSigned (tx_id tx) tx 0 0 (leader_address p) (leader_stake p) (leader_hash p) []
    (mkSignature [] [] [] [] 0) ∅ (leader_address p) None.

Fixpoint propose_all (p : BlockProposer) (ids : list string) (r : PendingTransactionRegistry)
    : result PneumaticError (list (Transaction * SignedTransaction)) :=
  match ids with
  | [] => Ok []
  | id :: ids' =>
      tx ← get_transaction id r;
      rest ← propose_all p ids' r;
      Ok ((tx, proposed p tx) :: rest)
  end.

Definition propose_batch (p : BlockProposer) (token_id : bytes) (limit : nat) (r : PendingTransactionRegistry)
    : PendingTransactionRegistry * result PneumaticError (list (Transaction * SignedTransaction)) :=
  let (r', tx_ids) := dequeue_for_leader token_id limit r in (r', propose_all p tx_ids r').

(** ** Properties *)

Lemma evict_oldest_spec {A} fuel max (l : list A) :
  length l ≤ fuel → evict_oldest fuel max l = drop (length l - max) l.
Proof.
  revert l. induction fuel as [|fuel IH]; intros l Hl; simpl.
  { destruct l; [by rewrite drop_nil|simpl in *; lia]. }
  case_bool_decide as Hm; [|by replace (length l - max) with 0 by lia].
  destruct l as [|x l]; simpl in *; [lia|]. rewrite IH by lia.
  by replace (S (length l) - max) with (S (length l - max)) by lia.
Qed.

(** What a position holds after an insert: the newest [max_candidates]. *)
Lemma get_insert_candidate tok prev b k r :
  let l := get_candidates tok prev r ++ [(b, k)] in
  get_candidates tok prev (insert_candidate tok prev b k r) = drop (length l - max_candidates r) l.
Proof.
  intros l. unfold get_candidates, insert_candidate. simpl. rewrite lookup_insert_eq. simpl.
  by apply evict_oldest_spec.
Qed.

Lemma get_remove_conflicted tok prev r : get_candidates tok prev (remove_conflicted tok prev r).1 = [].
Proof.
  unfold get_candidates, remove_conflicted.
  destruct (position_candidates r !! (tok, prev)) eqn:E; simpl; [by rewrite lookup_delete_eq|by rewrite E].
Qed.

(** What conflict resolution settles, and what depends on who saw which
    block first. Exchanging the two blocks never changes the winner between
    proposers of different stake, never turns one kind of outcome into another
    and never changes who is slashed. The winner of a double-signed pair is
    always the block given first, so there, and in the block a tie is reported
    under, the order of arrival shows. *)
Theorem conflict_resolution_symmetry a b pa pb ss :
  match resolve_block_conflict a b pa pb ss, resolve_block_conflict b a pb pa ss with
  | Ok (DiscardLoser w), Ok (DiscardLoser w') =>
      w = w' ∧ StakeSet_get_stake ss pa ≠ StakeSet_get_stake ss pb ∧
      w = if bool_decide (StakeSet_get_stake ss pb < StakeSet_get_stake ss pa)%N then a else b
  | Ok (SameProposerSlash w k), Ok (SameProposerSlash w' k') => w = a ∧ w' = b ∧ k = k' ∧ k = pa ∧ pa = pb
  | Ok (TieFlagBoth w), Ok (TieFlagBoth w') =>
      w = a ∧ w' = b ∧ pa ≠ pb ∧ StakeSet_get_stake ss pa = StakeSet_get_stake ss pb
  | _, _ => False
  end.
Proof.
  unfold resolve_block_conflict.
  destruct (N.lt_trichotomy (StakeSet_get_stake ss pa) (StakeSet_get_stake ss pb)) as [Hlt|[Heq|Hlt]].
  - rewrite (bool_decide_false (StakeSet_get_stake ss pb < _)%N), (bool_decide_true (_ < _)%N) by lia.
    split_and!; [done|lia|done].
  - rewrite Heq, !(bool_decide_false (_ < _)%N) by lia.
    case_bool_decide as Hp; [subst; rewrite bool_decide_true by done; done|].
    rewrite bool_decide_false by congruence. done.
  - rewrite (bool_decide_true (StakeSet_get_stake ss pb < _)%N), (bool_decide_false (_ < _)%N) by lia.
    split_and!; [done|lia|done].
Qed.
