(* ===== verification/EpochManager.v ===== *)
(** * Stakes at the committer (committer/src/epoch_manager.rs)

    The stake store, the staking operations an epoch applies to it, the
    reconciler that derives slashes from broken chains and double proposals, and
    the committer's own leader selector. *)

From S2P Require Import Prelude Interfaces Types Float StakeSets Selection Chain DataProvider Epoch.
From Stdlib Require Import SpecFloat.

(** ** The stake store *)

Abbreviation StakeStore := (gmap bytes N) (only parsing).

Definition StakeStore_new : StakeStore := ∅.
Definition add_staker (key : bytes) (stake : N) (s : StakeStore) : StakeStore := <[key := stake]> s.
Definition remove_staker (key : bytes) (s : StakeStore) : StakeStore := delete key s.

Definition slash (key : bytes) (amount : N) (s : StakeStore) : StakeStore :=
  match s !! key with
  | Some entry =>
      let new_stake := sat_sub entry amount in
      if bool_decide (new_stake = 0%N) then delete key s else <[key := new_stake]> s
  | None => s
  end.

Definition reward (key : bytes) (amount : N) (s : StakeStore) : StakeStore :=
  match s !! key with
  | Some entry => <[key := sat_add entry amount]> s
  | None => s
  end.

Definition get_stake (key : bytes) (s : StakeStore) : N := default 0%N (s !! key).

(** [StakeStore::to_stake_set]. *)
Definition store_stake_set (s : StakeStore) : StakeSet :=
  mkStakeSet (filter (λ kv, 0 < kv.2)%N s).

(** The stake set the conflict handlers collect from [iter()]. *)
Definition iter_stake_set (s : StakeStore) : StakeSet := mkStakeSet s.

(** ** Staking operations *)

Definition apply_op (s : StakeStore) (op : StakingOp) : StakeStore :=
  match op with
  | Slash key amount => slash key amount s
  | Reward key amount => reward key amount s
  | AddStaker key stake => add_staker key stake s
  | RemoveStaker key => remove_staker key s
  end.

(** [StakingManager::apply_ops]. *)
Definition apply_ops (ops : EpochReconciliation) (s : StakeStore) : StakeStore * result PneumaticError () :=
  (foldl apply_op s (slashing_ops ops ++ reward_ops ops), Ok ()).

(** [(stake as f64 * fraction).round().min(u64::MAX as f64) as u64]. [f64::min]
    of a NaN is its other argument, [2^64], which the cast saturates. *)
Definition slash_amount (stake : N) (fraction : f64) : N :=
  match f64_mul (f64_of_N stake) fraction with
  | S754_nan => u64_max
  | x => round_as_u64 x
  end.

(** ** Reconciliation at an epoch boundary *)

Section reconciler.
Context `{HashIter} `{Rmp} `{Sha256} `{DataProvider}.

Definition push_slash (op : StakingOp) (r : EpochReconciliation) : EpochReconciliation :=
  mkReconciliation (misshapen_tokens r) (finalization_conflicts r) (slashing_ops r ++ [op]) (reward_ops r).

Definition slash_if_positive (key : bytes) (amount : N) (r : EpochReconciliation) : EpochReconciliation :=
  if bool_decide (0 < amount)%N then push_slash (Slash key amount) r else r.

(** One window of two candidates. The stake set is carried along as the loop does. *)
Definition reconcile_pair (stakes : StakeStore) (fraction : f64) (acc : StakeSet * EpochReconciliation)
    (a b : Block * bytes) : StakeSet * EpochReconciliation :=
  let '(ss, r) := acc in
  let sa := get_stake a.2 stakes in
  let sb := get_stake b.2 stakes in
  let ss' := mkStakeSet (<[b.2 := sb]> (<[a.2 := sa]> (stakers ss))) in
  let r' := mkReconciliation (misshapen_tokens r)
              (finalization_conflicts r ++ [mkConflict (current_hash a.1) (current_hash b.1) sa sb])
              (slashing_ops r) (reward_ops r) in
  match resolve_block_conflict (current_hash a.1) (current_hash b.1) a.2 b.2 ss' with
  | Ok (SameProposerSlash _ key) => (ss', slash_if_positive key (slash_amount (get_stake key stakes) fraction) r')
  | _ => (ss', r')
  end.

(** [windows(2)]. *)
Fixpoint reconcile_windows (stakes : StakeStore) (fraction : f64) (acc : StakeSet * EpochReconciliation)
    (l : list (Block * bytes)) : StakeSet * EpochReconciliation :=
  match l with
  | a :: ((b :: _) as l') => reconcile_windows stakes fraction (reconcile_pair stakes fraction acc a b) l'
  | _ => acc
  end.

Definition reconcile_token (stakes : StakeStore) (cands : CandidateRegistry) (db : store) (env_id : string)
    (fraction : f64) (acc : StakeSet * EpochReconciliation) (token_id : bytes)
    : StakeSet * EpochReconciliation :=
  match get_token db token_id env_id with
  | Err _ => acc
  | Ok token =>
      let '(ss, r) := acc in
      let chain_state := get_current_chain_state (blockchain token) in
      if cs_is_valid chain_state then
        let tip_hash := last_hash_in chain_state in
        if bool_decide (2 ≤ candidate_count token_id tip_hash cands) then
          reconcile_windows stakes fraction acc (get_candidates token_id tip_hash cands)
        else acc
      else
        let r1 := mkReconciliation (misshapen_tokens r ++ [token_id]) (finalization_conflicts r)
                    (slashing_ops r) (reward_ops r) in
        match last_block (blockchain token) with
        | Some tip =>
            (ss, slash_if_positive (blk_proposer_key tip)
                   (slash_amount (get_stake (blk_proposer_key tip) stakes) fraction) r1)
        | None => (ss, r1)
        end
  end.

Definition reconcile_internal (stakes : StakeStore) (cands : CandidateRegistry) (db : store) (env_id : string)
    (token_ids : list bytes) (fraction : f64) : EpochReconciliation :=
  (foldl (reconcile_token stakes cands db env_id fraction)
     (iter_stake_set stakes, mkReconciliation [] [] [] []) token_ids).2.
End reconciler.

(** ** The committer's leader selector *)

Section selector.
Context `{HashIter} `{StdRng}.
(** The hash provider the selector holds. *)
Context (hash : bytes → bytes).

Definition select_internal (st : StakeSet) (epoch_number : N) (prev_block_hash : bytes)
    : may_panic (result PneumaticError bytes) :=
  let total := StakeSet_total_stake st in
  if bool_decide (total = 0%N) then Some (Ok [])
  else
    let seed := hash ([LEADER_DOMAIN] ++ u64_be epoch_number ++ prev_block_hash) in
    if bool_decide (length seed = 32) then
      '(target, _) ← gen_range_u64 (from_seed seed) total;
      let keys := positive_keys (stakers st) in
      k ← select_walk (stakers st) target 0 (Some (default [] (head keys))) keys;
      Some (Ok (default [] k))
    else Some (Err (EpochError ("hash provider produced " +:+ pretty (length seed) +:+ " bytes, expected 32"))).

(** [IEpochLeaderSelector::select]. *)
Definition committer_select (st : StakeSet) (epoch_number : N) (prev_block_hash : bytes) : may_panic bytes :=
  r ← select_internal st epoch_number prev_block_hash;
  Some (match r with Ok k => k | Err _ => [] end).
End selector.

(** ** Properties *)

Lemma select_walk_first m t a f f' ks :
  default [] f = default [] f' →
  default [] <$> select_walk m t a f ks = default [] <$> select_walk m t a f' ks.
Proof.
  intros Hf. revert a. induction ks as [|k ks IH]; intros a; simpl; [by rewrite Hf|].
  destruct (m !! k); simpl; [|done]. destruct (_ <=? _)%N; [done|]. apply IH.
Qed.

(** The committer elects the leader every other role elects. With SHA-256 as
    its hash provider, the committer's own selector returns the key the core
    selector returns, on every stake set, epoch and chain tip, whatever the
    iteration orders of the two nodes' hash maps; with a provider whose digests
    are not 32 bytes it elects nobody and does not panic. *)
Theorem committer_leader_agrees `{Sha256} `{StdRng} (h1 h2 : HashIter) st epoch tip :
  @committer_select h1 _ sha256 st epoch tip = @LeaderSelector_select h2 _ _ st epoch tip ∧
  ∀ hash, (∀ x, length (hash x) ≠ 32) → @committer_select h1 _ hash st epoch tip = Some [].
Proof.
  split.
  - unfold committer_select, select_internal, LeaderSelector_select, deterministic_select, derive_selection_seed.
    rewrite (total_stake_swap h1 h2), app_nil_r.
    rewrite (positive_keys_swap h1 h2). case_bool_decide; [by rewrite decide_True|].
    rewrite decide_False by done. rewrite bool_decide_true by apply sha256_length.
    destruct (gen_range_u64 _ _) as [[target r]|]; simpl; [|done].
    set (keys := positive_keys _). pose proof (select_walk_first (stakers st) target 0
      (Some (default [] (head keys))) (head keys) keys eq_refl) as Hw.
    destruct (select_walk _ _ _ (Some (default [] (head keys))) keys) as [k|],
      (select_walk _ _ _ (head keys) keys) as [k'|]; by simpl in *.
  - intros hash Hlen. unfold committer_select, select_internal. case_bool_decide; [done|].
    by rewrite bool_decide_false by apply Hlen.
Qed.

(** A full slash takes the whole stake up to [2^53], not beyond. With the
    default fraction 1.0 the slash amount of a stake below [2^53] is that stake,
    so the staker leaves the store and every other staker keeps its stake. The
    amount goes through [f64]: at [2^53 + 1] it is one short, and the slashed
    key stays in the store and in the leader's stake set with stake 1. *)
Theorem full_slash_removes_below_2_53 key stake s :
  (s !! key = Some stake → (stake < 2 ^ 53)%N →
     slash_amount stake f64_one = stake ∧
     slash key (slash_amount stake f64_one) s = delete key s) ∧
  (let big := (2 ^ 53 + 1)%N in
   s !! key = Some big →
     slash_amount big f64_one = (2 ^ 53)%N ∧
     stakers (store_stake_set (slash key (slash_amount big f64_one) s)) !! key = Some 1%N).
Proof.
  split.
  - intros Hs Hlt. assert (slash_amount stake f64_one = stake) as ->.
    { unfold slash_amount. destruct stake as [|p]; [done|].
      destruct (f64_of_pos p) as (m & e & Hf & Hd & He & _); [by apply digits2_le|].
      pose proof (f64_one_exact (Npos p) Hlt) as Hex. rewrite Hf, f64_mul_one in * by lia. done. }
    split; [done|]. unfold slash, sat_sub. rewrite Hs, N.sub_diag. done.
  - intros big Hs. assert (slash_amount big f64_one = 2 ^ 53)%N as -> by (by vm_compute).
    split; [done|]. unfold slash. rewrite Hs. change (bool_decide (sat_sub big (2 ^ 53) = 0)%N) with false.
    simpl. apply map_lookup_filter_Some. rewrite lookup_insert_eq. done.
Qed.
