(* ===== verification/Committer.v ===== *)
(** * The committer's conflict gate and append (committer/src/committer/committing.rs, block_services.rs)

    What the committer does with a block that is ready to commit: resolving it
    against the candidates already seen at its position, and appending it to the
    cached token with its persistence. Errors carry the values their texts are
    formatted from. *)

From S2P Require Import Prelude Interfaces Types Float StakeSets Environment Crypto Chain Validation DataProvider Tokens.
From S2P Require Import Epoch EpochManager.

Inductive CommitterError :=
| CErrEncoding (msg : string)
| CErrDeserialization (msg : string)
| CErrTokenNotFound (token_id : bytes) (cause : option DataError)
| CErrTransactionNotFound (id : string)
| CErrTransactionNotInFinalizing (id : string)
| CErrTransactionPayloadMismatch (id : string)
| CErrEnvironmentMismatch (expected got : string)
| CErrInvalidBlockHash
| CErrInvalidFinalizerSignature
| CErrSignaturePayloadMismatch (what : string)
| CErrTransactionAlreadyCommitted (id : string) (booked : bytes)
| CErrBlockCommit (e : BlockCommitError)
| CErrUnknownAction (action : string)
| CErrUnauthenticatedSender (key : bytes)
| CErrUnauthorizedRole (what : string)
| CErrCore (e : PneumaticError)
| CErrInternalSerialization
| CErrGasDeduction (sender : bytes) (tx_id : string) (gas_used : N) (cause : DataError)
| CErrLoserDiscarded
| CErrSnapshotPersist (epoch : N) (kind : string) (cause : DataError)
| CErrTokenConflict (token_id : bytes)
| CErrShieldedProofInvalid (tx_id : string) (cause : PneumaticError)
| CErrPoolState (kind : string) (cause : string)
| CErrPoolPersist (cause : string)
| CErrPoolRollback (block : bytes)
| CErrTokenPersist (token_id : bytes) (cause : DataError)
| CErrRouting (msg : string).

Inductive CommitConflictOutcome :=
| CommitOutcome
| CommitWinnerAfterRollback (loser_hash : bytes).

(** ** The conflict gate *)

(** What the gate reads and writes: the candidate registry and the stake store. *)
Record ConflictState := mkConflictState {
  candidate_registry : CandidateRegistry;
  stake_store : gmap bytes N;
}.

Section gate.
Context (slash_fraction : f64).

(** The fold over the candidates of the position. [Some] ends the handler early
    with a rejection, [None] continues with the rollback target. *)
Definition clear_position (token_id previous_hash : bytes) (s : ConflictState) : ConflictState :=
  mkConflictState (remove_conflicted token_id previous_hash (candidate_registry s)).1 (stake_store s).

Fixpoint fold_candidates (token_id previous_hash incoming_hash proposer : bytes) (stake_set : StakeSet)
    (cands : list (Block * bytes)) (rollback_target : bytes) (s : ConflictState)
    : ConflictState * result CommitterError bytes :=
  match cands with
  | [] => (s, Ok rollback_target)
  | (candidate, candidate_proposer) :: cands' =>
      let candidate_hash := current_hash candidate in
      match resolve_block_conflict incoming_hash candidate_hash proposer candidate_proposer stake_set with
      | Err e => (s, Err (CErrCore e))
      | Ok (DiscardLoser winner_hash) =>
          if bool_decide (winner_hash ≠ incoming_hash) then
            (clear_position token_id previous_hash s, Err CErrLoserDiscarded)
          else fold_candidates token_id previous_hash incoming_hash proposer stake_set cands' candidate_hash s
      | Ok (SameProposerSlash _ slashed_key) =>
          let amount := slash_amount (get_stake slashed_key (stake_store s)) slash_fraction in
          let '(stakes, res) :=
            apply_ops (mkReconciliation [] [] [Slash slashed_key amount] []) (stake_store s) in
          let s1 := mkConflictState (candidate_registry s) stakes in
          match res with
          | Err e => (s1, Err (CErrCore e))
          | Ok _ => (clear_position token_id previous_hash s1, Err CErrLoserDiscarded)
          end
      | Ok (TieFlagBoth _) =>
          (clear_position token_id previous_hash s, Err CErrLoserDiscarded)
      end
  end.

Definition handle_conflict_at_commit (commit : TransactionCommit) (verified_proposer : bytes)
    (s : ConflictState) : ConflictState * result CommitterError CommitConflictOutcome :=
  let token_id := tc_token_id commit in
  let previous_hash := previous_hash (proposed_block commit) in
  let incoming_hash := current_hash (proposed_block commit) in
  match get_candidates token_id previous_hash (candidate_registry s) with
  | [] =>
      (mkConflictState (insert_candidate token_id previous_hash (proposed_block commit) verified_proposer
         (candidate_registry s)) (stake_store s), Ok CommitOutcome)
  | cands =>
      let '(s1, res) := fold_candidates token_id previous_hash incoming_hash verified_proposer
                          (iter_stake_set (stake_store s)) cands incoming_hash s in
      match res with
      | Err e => (s1, Err e)
      | Ok target => (clear_position token_id previous_hash s1, Ok (CommitWinnerAfterRollback target))
      end
  end.
End gate.

(** ** Appending and persisting *)

Definition validate_transaction_message (env : EnvironmentMetadata) (commit : TransactionCommit)
    : result CommitterError () :=
  if bool_decide (tc_env_id commit ≠ environment_id env) then
    Err (CErrEnvironmentMismatch (environment_id env) (tc_env_id commit))
  else if bool_decide (current_hash (proposed_block commit) = []) then Err CErrInvalidBlockHash
  else Ok ().

Section services.
Context `{HashIter} `{Rmp} `{Sha256} `{DataProvider}.

(** The committer's token cache and the store behind it. *)
Record BlockServices := mkServices {
  tokens : gmap bytes Token;
  db : store;
}.

(** [BlockServices::commit_block]. *)
Definition services_commit_block (env : EnvironmentMetadata) (commit : TransactionCommit)
    (rollback_tip_hash : option bytes) (s : BlockServices)
    : BlockServices * result CommitterError TokenCommitResult :=
  if bool_decide (tc_env_id commit ≠ environment_id env) then
    (s, Err (CErrEnvironmentMismatch (environment_id env) (tc_env_id commit)))
  else
    let token_key := tc_token_id commit in
    let warmed :=
      match tokens s !! token_key with
      | Some _ => Ok s
      | None =>
          match get_token (db s) token_key (token_partition_id env) with
          | Ok loaded => Ok (mkServices (<[token_key := loaded]> (tokens s)) (db s))
          | Err e => Err (CErrTokenNotFound token_key (Some e))
          end
      end in
    match warmed with
    | Err e => (s, Err e)
    | Ok s1 =>
        match tokens s1 !! token_key with
        | None => (s1, Err (CErrTokenNotFound token_key None))
        | Some token =>
            let '(token', res) := commit_block token (proposed_block commit) false env rollback_tip_hash in
            let s2 := mkServices (<[token_key := token']> (tokens s1)) (db s1) in
            match res with
            | Err e => (s2, Err (CErrBlockCommit e))
            | Ok r =>
                let '(db', saved) := save_token (db s2) token_key token' (token_partition_id env) in
                let s3 := mkServices (tokens s2) db' in
                match saved with
                | Err e => (s3, Err (CErrTokenPersist token_key e))
                | Ok _ => (s3, Ok r)
                end
            end
        end
    end.
End services.

(** ** Properties of the gate *)

Section gate_properties.
Context (slash_fraction : f64).

(** The candidates an incoming block gets past: those of proposers with strictly
    less stake, and blocks of the very same hash from a proposer with more. *)
Definition passes (stakes : gmap bytes N) (incoming_hash proposer : bytes) (c : Block * bytes) : Prop :=
  (get_stake c.2 stakes < get_stake proposer stakes)%N ∨
  ((get_stake proposer stakes < get_stake c.2 stakes)%N ∧ current_hash c.1 = incoming_hash).

#[global] Instance passes_dec stakes h p c : Decision (passes stakes h p c).
Proof. unfold passes. apply _. Defined.

Lemma resolve_passed stakes a p c :
  passes stakes a p c →
  resolve_block_conflict a (current_hash c.1) p c.2 (iter_stake_set stakes) = Ok (DiscardLoser a).
Proof.
  unfold passes, resolve_block_conflict, StakeSet_get_stake, get_stake. simpl. intros [Hb|[Hb ->]].
  - by rewrite bool_decide_true.
  - by rewrite bool_decide_false, bool_decide_true by lia.
Qed.

(** What the gate leaves at the first candidate the incoming block does not get past. *)
Definition rejected (token_id previous_hash proposer : bytes) (c : Block * bytes) (s : ConflictState) : ConflictState :=
  clear_position token_id previous_hash
    (if bool_decide (c.2 = proposer) then
       mkConflictState (candidate_registry s)
         (slash proposer (slash_amount (get_stake proposer (stake_store s)) slash_fraction) (stake_store s))
     else s).

Lemma fold_candidates_passed tok prev inc p s pre rest target :
  Forall (passes (stake_store s) inc p) pre →
  fold_candidates slash_fraction tok prev inc p (iter_stake_set (stake_store s)) (pre ++ rest) target s =
  fold_candidates slash_fraction tok prev inc p (iter_stake_set (stake_store s)) rest
    (default target (current_hash ∘ fst <$> last pre)) s.
Proof.
  revert target. induction pre as [|[b k] pre IH]; intros target Hpre; [done|].
  apply Forall_cons in Hpre as [Hb Hpre]. apply resolve_passed in Hb. simpl in *.
  rewrite Hb, bool_decide_false by tauto. rewrite IH by done.
  f_equal. destruct pre as [|x pre]; [done|]. rewrite last_cons_cons.
  by destruct (last (x :: pre)) eqn:E; [|by apply last_None in E].
Qed.

Lemma fold_candidates_stops tok prev inc p s c rest target :
  ¬ passes (stake_store s) inc p c →
  fold_candidates slash_fraction tok prev inc p (iter_stake_set (stake_store s)) (c :: rest) target s =
    (rejected tok prev p c s, Err CErrLoserDiscarded).
Proof.
  destruct c as [b k]. unfold passes, get_stake. simpl. intros Hnb.
  unfold resolve_block_conflict, StakeSet_get_stake, rejected, get_stake. simpl.
  rewrite (bool_decide_false (_ < default _ (_ !! p))%N) by tauto.
  case_bool_decide as Hlt.
  - rewrite (bool_decide_false (k = p)) by (intros ->; lia).
    rewrite bool_decide_true; [done|]. intros Hh. apply Hnb. by right.
  - rewrite (bool_decide_ext (p = k) (k = p)) by done. case_bool_decide; [by subst|done].
Qed.

Lemma clear_position_frame tok prev s :
  get_candidates tok prev (candidate_registry (clear_position tok prev s)) = [] ∧
  ∀ tok' prev', (tok', prev') ≠ (tok, prev) →
    get_candidates tok' prev' (candidate_registry (clear_position tok prev s)) =
    get_candidates tok' prev' (candidate_registry s).
Proof.
  split; [apply get_remove_conflicted|]. intros tok' prev' Hne.
  unfold clear_position, get_candidates, remove_conflicted. simpl. case_match; [|done]. simpl.
  by rewrite lookup_delete_ne.
Qed.

Lemma first_failing {A} (P : A → Prop) `{∀ x, Decision (P x)} l :
  ¬ Forall P l → ∃ pre x post, l = pre ++ x :: post ∧ Forall P pre ∧ ¬ P x.
Proof.
  induction l as [|x l IH]; intros Hn; [exfalso; apply Hn; constructor|].
  destruct (decide (P x)) as [Hx|Hx]; [|by exists [], x, l].
  destruct IH as (pre & y & post & -> & Hpre & Hy); [by intros Hl; apply Hn; constructor|].
  exists (x :: pre), y, post. split_and!; [done|by constructor|done].
Qed.

(** C30: the conflict gate, on every branch. A block at a position nobody proposed
    for is admitted and recorded under its verified proposer. Otherwise the
    position's candidates are cleared, no other position is touched, and: if the
    block gets past every candidate it is admitted with the last candidate as
    rollback target, stakes unchanged; if not, it is discarded, and the proposer
    is slashed exactly when the first candidate it does not get past is its own. *)
Theorem conflict_gate_outcome commit p s :
  let tok := tc_token_id commit in
  let prev := previous_hash (proposed_block commit) in
  let inc := current_hash (proposed_block commit) in
  let cands := get_candidates tok prev (candidate_registry s) in
  let '(s', res) := handle_conflict_at_commit slash_fraction commit p s in
  (∀ tok' prev', (tok', prev') ≠ (tok, prev) →
     get_candidates tok' prev' (candidate_registry s') = get_candidates tok' prev' (candidate_registry s)) ∧
  (cands = [] →
     res = Ok CommitOutcome ∧ stake_store s' = stake_store s ∧
     (1 ≤ max_candidates (candidate_registry s) →
        get_candidates tok prev (candidate_registry s') = [(proposed_block commit, p)])) ∧
  (cands ≠ [] → get_candidates tok prev (candidate_registry s') = []) ∧
  (cands ≠ [] → Forall (passes (stake_store s) inc p) cands →
     stake_store s' = stake_store s ∧
     ∃ c, last cands = Some c ∧ res = Ok (CommitWinnerAfterRollback (current_hash c.1))) ∧
  (¬ Forall (passes (stake_store s) inc p) cands →
     res = Err CErrLoserDiscarded ∧
     ∃ pre c post, cands = pre ++ c :: post ∧ Forall (passes (stake_store s) inc p) pre ∧
       ¬ passes (stake_store s) inc p c ∧
       stake_store s' =
         if bool_decide (c.2 = p)
         then slash p (slash_amount (get_stake p (stake_store s)) slash_fraction) (stake_store s)
         else stake_store s).
Proof.
  cbn zeta. unfold handle_conflict_at_commit.
  destruct (get_candidates _ _ (candidate_registry s)) as [|c0 cs] eqn:Hc.
  - split_and!; [|intros _|done|done|by intros []].
    + intros tok' prev' Hne. unfold get_candidates, insert_candidate. simpl. by rewrite lookup_insert_ne.
    + split_and!; [done..|]. intros Hmax. cbn [candidate_registry].
      rewrite get_insert_candidate, Hc. simpl. by replace (1 - _) with 0 by lia.
  - set (cands := c0 :: cs). destruct (decide (Forall (passes (stake_store s) (current_hash (proposed_block commit)) p) cands)) as [Hall|Hn].
    + pose proof (fold_candidates_passed (tc_token_id commit) (previous_hash (proposed_block commit)) _ p s cands []
        (current_hash (proposed_block commit)) Hall) as Hf. rewrite app_nil_r in Hf. rewrite Hf. cbn [fold_candidates].
      destruct (clear_position_frame (tc_token_id commit) (previous_hash (proposed_block commit)) s) as [H1 H2].
      split_and!; [done|done|by intros _| |done]. intros _ _. split; [done|].
      destruct (last cands) as [c|] eqn:E; [by exists c|by apply last_None in E].
    + destruct (first_failing _ _ Hn) as (pre & c & post & Hcands & Hpre & Hc').
      rewrite Hcands, fold_candidates_passed, fold_candidates_stops by done. cbn zeta iota.
      unfold rejected. set (s1 := if bool_decide _ then _ else _).
      destruct (clear_position_frame (tc_token_id commit) (previous_hash (proposed_block commit)) s1) as [H1 H2].
      split_and!; [| |by intros _|by rewrite <-Hcands|intros _; split; [done|]].
      * intros tok' prev' Hne. rewrite H2 by done. unfold s1. by destruct (bool_decide _).
      * by rewrite <-Hcands.
      * exists pre, c, post. split_and!; [done..|]. unfold s1. by destruct (bool_decide _).
Qed.

(** Sending the same block twice slashes its proposer. When a block was
    admitted as the first of its position and the same commit reaches the gate
    again (a retry after any later step of the commit failed), the gate takes
    the recorded candidate for a rival by the same proposer: the retry is
    discarded, the proposer pays the slash for a double proposal, and the
    position is forgotten. *)
Theorem resubmission_slashes_proposer commit p s :
  let tok := tc_token_id commit in
  let prev := previous_hash (proposed_block commit) in
  get_candidates tok prev (candidate_registry s) = [] →
  1 ≤ max_candidates (candidate_registry s) →
  let '(s1, first) := handle_conflict_at_commit slash_fraction commit p s in
  let '(s2, second) := handle_conflict_at_commit slash_fraction commit p s1 in
  first = Ok CommitOutcome ∧ second = Err CErrLoserDiscarded ∧
  stake_store s2 = slash p (slash_amount (get_stake p (stake_store s)) slash_fraction) (stake_store s) ∧
  get_candidates tok prev (candidate_registry s2) = [].
Proof.
  cbn zeta. intros Hc Hmax. unfold handle_conflict_at_commit at 1. rewrite Hc.
  unfold handle_conflict_at_commit. cbn [candidate_registry]. rewrite get_insert_candidate, Hc.
  cbn [app length]. replace (1 - _) with 0 by lia. cbn [drop].
  change (stake_store (mkConflictState ?r ?st)) with st.
  rewrite (fold_candidates_stops _ _ _ p (mkConflictState _ (stake_store s)) (proposed_block commit, p) []).
  - split_and!; [done|done| |].
    + unfold rejected. simpl. by rewrite bool_decide_true.
    + apply clear_position_frame.
  - unfold passes. simpl. lia.
Qed.
End gate_properties.

(** ** A concrete retry *)

Module ConcreteGate.
Import ConcreteChain.

Definition commit : TransactionCommit := mkCommit [1%N] [2%N] "env" genesis.
Definition state : ConflictState := mkConflictState CandidateRegistry_new {[ [7%N] := 100%N ]}.

Lemma resubmission_witness :
  let '(s1, first) := handle_conflict_at_commit f64_one commit [7%N] state in
  let '(s2, second) := handle_conflict_at_commit f64_one commit [7%N] s1 in
  first = Ok CommitOutcome ∧ second = Err CErrLoserDiscarded ∧
  stake_store s2 = slash [7%N] (slash_amount (get_stake [7%N] (stake_store state)) f64_one) (stake_store state) ∧
  get_candidates [2%N] (previous_hash genesis) (candidate_registry s2) = [].
Proof.
  apply (resubmission_slashes_proposer f64_one commit [7%N] state); [done|].
  apply (bool_decide_eq_true_1 (1 ≤ max_candidates (candidate_registry state))). by vm_compute.
Defined.
End ConcreteGate.
