(* ===== verification/Merkle.v ===== *)
(** * The note-commitment tree (src/src/shielded/tree.rs)

    The append-only Merkle tree over field elements: appending a leaf along its
    path, deriving and verifying membership proofs. The Pallas field and the
    Poseidon hash are interfaces. Leaf indices are list positions, so a [u64]
    index is a [nat]; an index out of range panics. A shift takes its amount
    modulo the width of [u64], as a release build does. *)

From S2P Require Import Prelude.

(** ** The field and the hash: [pasta_curves] and [poseidon] *)

Class Field := {
  Fp : Type;
  #[global] Fp_eq_dec :: EqDecision Fp;
  fp_zero : Fp;
  (** [to_repr] and [from_repr]: the canonical 32-byte encoding *)
  to_repr : Fp → bytes;
  from_repr : bytes → option Fp;
  from_to_repr x : from_repr (to_repr x) = Some x;
  to_from_repr b x : from_repr b = Some x → to_repr x = b;
}.

Class Poseidon `{Field} := { poseidon_hash : Fp → Fp → Fp }.

Definition DEFAULT_DEPTH : nat := 32.

Record MembershipProof `{Field} := mkProof {
  mp_index : nat;
  siblings : list Fp;
}.

Record TreeState `{Field} := mkTreeState {
  tst_root : Fp;
  tst_leaf_count : nat;
  recent_leaves : list Fp;
}.

Record IncrementalMerkleTree `{Field} := mkTree {
  depth : nat;
  levels : list (list Fp);
  leaf_count : nat;
}.

Arguments mkProof {_} _ _.
Arguments mp_index {_} _.
Arguments siblings {_} _.
Arguments mkTreeState {_} _ _ _.
Arguments mkTree {_} _ _ _.
Arguments depth {_} _.
Arguments levels {_} _.
Arguments leaf_count {_} _.

Section tree.
Context `{Poseidon}.

Definition Tree_new (d : nat) : IncrementalMerkleTree := mkTree d (replicate (S d) []) 0.
Definition default_depth : IncrementalMerkleTree := Tree_new DEFAULT_DEPTH.

Definition tree_root (t : IncrementalMerkleTree) : may_panic Fp :=
  if bool_decide (leaf_count t = 0) then Some fp_zero
  else level ← levels t !! depth t; level !! 0.

(** [x >> l] on [u64]. *)
Definition shr (x l : nat) : nat := Nat.shiftr x (l `mod` 64).

(** [next_level.push(x)] at the end, [next_level[i] = x] before it. *)
Definition set_or_push (i : nat) (x : Fp) (level : list Fp) : may_panic (list Fp) :=
  if bool_decide (i = length level) then Some (level ++ [x])
  else if bool_decide (i < length level) then Some (<[i := x]> level)
  else None.

(** The loop [for l in 0..depth] of [append_leaf], from level [l] for [k] levels. *)
Fixpoint append_path (k l index : nat) (lv : list (list Fp)) (sibs : list Fp) (current : Fp)
    : may_panic (list (list Fp) * list Fp * Fp) :=
  match k with
  | O => Some (lv, sibs, current)
  | S k' =>
      let pos := shr index l in
      let sib_pos := Nat.lxor pos 1 in
      level ← lv !! l;
      let sib := default fp_zero (level !! sib_pos) in
      let current := if bool_decide (pos `mod` 2 = 0) then poseidon_hash current sib else poseidon_hash sib current in
      let next_pos := shr pos 1 in
      next_level ← lv !! S l;
      next_level' ← set_or_push next_pos current next_level;
      append_path k' (S l) index (<[S l := next_level']> lv) (sibs ++ [sib]) current
  end.

Definition append_leaf (leaf : Fp) (t : IncrementalMerkleTree)
    : may_panic (IncrementalMerkleTree * (Fp * MembershipProof)) :=
  let index := leaf_count t in
  level0 ← levels t !! 0;
  '(lv, sibs, root) ← append_path (depth t) 0 index (<[0 := level0 ++ [leaf]]> (levels t)) [] leaf;
  Some (mkTree (depth t) lv (S (leaf_count t)), (root, mkProof index sibs)).

Fixpoint append_all (leaves : list Fp) (t : IncrementalMerkleTree) : may_panic IncrementalMerkleTree :=
  match leaves with
  | [] => Some t
  | leaf :: leaves' => '(t', _) ← append_leaf leaf t; append_all leaves' t'
  end.

Definition from_leaves (d : nat) (leaves : list Fp) : may_panic IncrementalMerkleTree :=
  append_all leaves (Tree_new d).

Fixpoint sibling_path (k l index : nat) (lv : list (list Fp)) : may_panic (list Fp) :=
  match k with
  | O => Some []
  | S k' =>
      level ← lv !! l;
      rest ← sibling_path k' (S l) index lv;
      Some (default fp_zero (level !! Nat.lxor (shr index l) 1) :: rest)
  end.

Definition membership_proof (index : nat) (t : IncrementalMerkleTree) : may_panic MembershipProof :=
  sibs ← sibling_path (depth t) 0 index (levels t); Some (mkProof index sibs).

(** One step of the verification chain. *)
Definition fold_step (index l : nat) (h sib : Fp) : Fp :=
  if bool_decide (Nat.land (shr index l) 1 = 0) then poseidon_hash h sib else poseidon_hash sib h.

Fixpoint fold_proof (index l : nat) (h : Fp) (sibs : list Fp) : Fp :=
  match sibs with
  | [] => h
  | sib :: sibs' => fold_proof index (S l) (fold_step index l h sib) sibs'
  end.

Definition verify_proof (leaf : Fp) (proof : MembershipProof) (root : Fp) (d : nat) : bool :=
  if bool_decide (length (siblings proof) ≠ d) then false
  else if bool_decide (d < 64 ∧ 2 ^ d ≤ mp_index proof) then false
  else bool_decide (fold_proof (mp_index proof) 0 leaf (siblings proof) = root).

(** [&self.levels[0][start..]]. *)
Definition snapshot (since : nat) (t : IncrementalMerkleTree) : may_panic TreeState :=
  let start := since `min` leaf_count t in
  root ← tree_root t;
  level0 ← levels t !! 0;
  if bool_decide (start ≤ length level0) then Some (mkTreeState root (leaf_count t) (drop start level0)) else None.

Definition root_to_bytes (root : Fp) : bytes := to_repr root.
Definition bytes_to_root (b : bytes) : option Fp := from_repr b.
End tree.

(** ** The tree the levels stand for

    The node of height [l] and position [i] over a leaf sequence: zero when no
    leaf is below it, else the hash of its children. *)

Section spec.
Context `{Poseidon}.

Fixpoint node (leaves : list Fp) (l i : nat) : Fp :=
  match l with
  | O => default fp_zero (leaves !! i)
  | S l' =>
      if bool_decide (i * 2 ^ l < length leaves)
      then poseidon_hash (node leaves l' (2 * i)) (node leaves l' (2 * i + 1))
      else fp_zero
  end.

(** How many nodes of height [l] have a leaf below them. *)
Definition node_count (n l : nat) : nat := (n + 2 ^ l - 1) / 2 ^ l.

Definition level_of (leaves : list Fp) (l : nat) : list Fp :=
  node leaves l <$> seq 0 (node_count (length leaves) l).

Definition tree_ok (leaves : list Fp) (t : IncrementalMerkleTree) : Prop :=
  depth t ≤ 64 ∧ leaf_count t = length leaves ∧ length (levels t) = S (depth t) ∧
  ∀ l, l ≤ depth t → levels t !! l = Some (level_of leaves l).

(** ** Positions *)

Lemma pow2_pos l : 0 < 2 ^ l.
Proof. apply Nat.neq_0_lt_0, Nat.pow_nonzero. lia. Qed.

Lemma node_count_spec n l i : i < node_count n l ↔ i * 2 ^ l < n.
Proof.
  unfold node_count. pose proof (pow2_pos l). split; intros Hi.
  - assert (2 ^ l * ((n + 2 ^ l - 1) / 2 ^ l) ≤ n + 2 ^ l - 1) by (apply Nat.Div0.mul_div_le). nia.
  - apply Nat.div_le_lower_bound; nia.
Qed.

Lemma node_count_succ n l : node_count (S n) l = S (n / 2 ^ l).
Proof.
  unfold node_count. pose proof (pow2_pos l).
  replace (S n + 2 ^ l - 1) with (n + 1 * 2 ^ l) by lia. rewrite Nat.div_add by lia. lia.
Qed.

Lemma div_pow2_succ n l : n / 2 ^ S l = n / 2 ^ l / 2.
Proof. rewrite Nat.pow_succ_r', Nat.mul_comm. by rewrite Nat.Div0.div_div. Qed.

Lemma div_pow2_bounds n l : n / 2 ^ l * 2 ^ l ≤ n < S (n / 2 ^ l) * 2 ^ l.
Proof. pose proof (pow2_pos l). pose proof (Nat.div_mod n (2 ^ l)). pose proof (Nat.mod_upper_bound n (2 ^ l)). nia. Qed.

Lemma lxor_1 p : Nat.lxor p 1 = if bool_decide (p `mod` 2 = 0) then p + 1 else p - 1.
Proof.
  pose proof (Nat.div_mod_eq p 2) as Hd. pose proof (Nat.mod_upper_bound p 2 ltac:(lia)).
  assert (∀ q, Nat.lxor (2 * q) 1 = 2 * q + 1 ∧ Nat.lxor (2 * q + 1) 1 = 2 * q) as Hx.
  { intros q. assert (Nat.lxor (2 * q) 1 = 2 * q + 1) as Hx1.
    - apply Nat.bits_inj. intros [|i]; rewrite Nat.lxor_spec.
      + by rewrite Nat.testbit_even_0, Nat.testbit_odd_0.
      + rewrite Nat.testbit_even_succ, Nat.testbit_odd_succ by lia.
        change 1 with (2 * 0 + 1) at 1. rewrite Nat.testbit_odd_succ, Nat.bits_0 by lia. apply xorb_false_r.
    - split; [done|]. by rewrite <-Hx1, Nat.lxor_assoc, Nat.lxor_nilpotent, Nat.lxor_0_r. }
  destruct (Hx (p / 2)) as [Hx1 Hx2]. case_bool_decide as Hp.
  - replace (2 * (p / 2)) with p in Hx1 by lia. done.
  - replace (2 * (p / 2) + 1) with p in Hx2 by lia. lia.
Qed.

Lemma shr_div x l : l < 64 → shr x l = x / 2 ^ l.
Proof. intros Hl. unfold shr. rewrite (Nat.mod_small l 64), Nat.shiftr_div_pow2 by done. done. Qed.

Lemma land_1 p : Nat.land p 1 = p `mod` 2.
Proof. apply (Nat.land_ones p 1). Qed.

(** The pair of children a position and its sibling make. *)
Lemma sibling_pair {A} (f : nat → A) p :
  (if bool_decide (p `mod` 2 = 0) then (f p, f (Nat.lxor p 1)) else (f (Nat.lxor p 1), f p)) =
    (f (2 * (p / 2)), f (2 * (p / 2) + 1)).
Proof.
  rewrite lxor_1. pose proof (Nat.div_mod_eq p 2). pose proof (Nat.mod_upper_bound p 2 ltac:(lia)).
  case_bool_decide as Hp; f_equal; f_equal; lia.
Qed.

(** ** Nodes *)

Lemma node_empty leaves l i : length leaves ≤ i * 2 ^ l → node leaves l i = fp_zero.
Proof.
  destruct l as [|l]; cbn [node]; intros Hi.
  - rewrite lookup_ge_None_2 by (simpl in Hi; lia). done.
  - by rewrite bool_decide_false by lia.
Qed.

Lemma level_of_lookup leaves l i : default fp_zero (level_of leaves l !! i) = node leaves l i.
Proof.
  unfold level_of. rewrite list_lookup_fmap. destruct (decide (i < node_count (length leaves) l)) as [Hi|Hi].
  - by rewrite lookup_seq_lt.
  - rewrite lookup_seq_ge by lia. simpl. rewrite node_empty; [done|].
    rewrite node_count_spec in Hi. lia.
Qed.

Lemma level_of_length leaves l : length (level_of leaves l) = node_count (length leaves) l.
Proof. unfold level_of. by rewrite length_fmap, length_seq. Qed.

(** Appending a leaf changes one node per level. *)
Lemma node_other leaves x l i :
  i ≠ length leaves / 2 ^ l → node (leaves ++ [x]) l i = node leaves l i.
Proof.
  revert i. induction l as [|l IH]; intros i Hi; cbn [node].
  - rewrite Nat.pow_0_r, Nat.div_1_r in Hi. destruct (decide (i < length leaves)).
    + by rewrite lookup_app_l.
    + rewrite !lookup_ge_None_2; [done|lia|rewrite length_app; simpl; lia].
  - pose proof (div_pow2_bounds (length leaves) (S l)) as Hb.
    rewrite length_app. simpl length. rewrite div_pow2_succ in Hi.
    rewrite !IH; [|intros He; apply Hi; pose proof (Nat.div_mod_eq (length leaves / 2 ^ l) 2);
      pose proof (Nat.mod_upper_bound (length leaves / 2 ^ l) 2 ltac:(lia)); lia..].
    rewrite (bool_decide_ext _ (i * 2 ^ S l < length leaves)); [done|]. split; [|lia]. intros Hlt.
    destruct (decide (i * 2 ^ S l = length leaves)) as [He|]; [|lia].
    exfalso. apply Hi. rewrite <-div_pow2_succ, <-He. symmetry. apply Nat.div_mul. pose proof (pow2_pos (S l)). lia.
Qed.

(** The parent of a filled position hashes it with its sibling. *)
Lemma node_parent leaves l p :
  p * 2 ^ l < length leaves →
  node leaves (S l) (p / 2) =
    if bool_decide (p `mod` 2 = 0) then poseidon_hash (node leaves l p) (node leaves l (Nat.lxor p 1))
    else poseidon_hash (node leaves l (Nat.lxor p 1)) (node leaves l p).
Proof.
  intros Hp. pose proof (sibling_pair (node leaves l) p) as Hs. cbn [node].
  rewrite bool_decide_true.
  - destruct (bool_decide (p `mod` 2 = 0)); injection Hs as Ha Hb; by rewrite Ha, Hb.
  - rewrite Nat.pow_succ_r'. pose proof (Nat.div_mod_eq p 2). nia.
Qed.
End spec.

(** ** The operations keep the levels the nodes of the leaves *)

Section append.
Context `{Poseidon}.

Definition path_of (leaves : list Fp) (index l k : nat) : list Fp :=
  (λ j, node leaves j (Nat.lxor (index / 2 ^ j) 1)) <$> seq l k.

(** The new node of a level goes where the level of the longer sequence has it. *)
Lemma set_or_push_level leaves x l :
  let p := length leaves / 2 ^ l in
  set_or_push p (node (leaves ++ [x]) l p) (level_of leaves l) = Some (level_of (leaves ++ [x]) l).
Proof.
  intros p. unfold set_or_push. rewrite level_of_length.
  assert (node_count (length (leaves ++ [x])) l = S p) as Hc.
  { rewrite length_app, Nat.add_1_r. apply node_count_succ. }
  assert (level_of (leaves ++ [x]) l = (node leaves l <$> seq 0 p) ++ [node (leaves ++ [x]) l p]) as ->.
  { unfold level_of. rewrite Hc, seq_S, fmap_app. simpl. f_equal. apply list_fmap_ext.
    intros i j Hj. apply node_other. apply lookup_seq in Hj. fold p. lia. }
  assert (p ≤ node_count (length leaves) l ≤ S p) as Hle.
  { pose proof (div_pow2_bounds (length leaves) l) as Hb. fold p in Hb.
    pose proof (node_count_spec (length leaves) l (p - 1)). pose proof (node_count_spec (length leaves) l (S p)).
    pose proof (pow2_pos l). nia. }
  case_bool_decide as Hp.
  - unfold level_of. by rewrite <-Hp.
  - rewrite bool_decide_true by lia. f_equal. unfold level_of.
    replace (node_count (length leaves) l) with (S p) by lia. rewrite seq_S, fmap_app. simpl.
    rewrite insert_app_r_alt by (rewrite length_fmap, length_seq; lia).
    by rewrite length_fmap, length_seq, Nat.sub_diag.
Qed.

Lemma append_path_spec leaves x d k l lv sibs :
  d ≤ 64 → l + k = d → length lv = S d →
  (∀ j, j ≤ l → lv !! j = Some (level_of (leaves ++ [x]) j)) →
  (∀ j, l < j ≤ d → lv !! j = Some (level_of leaves j)) →
  ∃ lv', append_path k l (length leaves) lv sibs (node (leaves ++ [x]) l (length leaves / 2 ^ l)) =
      Some (lv', sibs ++ path_of (leaves ++ [x]) (length leaves) l k,
            node (leaves ++ [x]) d (length leaves / 2 ^ d)) ∧
    length lv' = S d ∧ ∀ j, j ≤ d → lv' !! j = Some (level_of (leaves ++ [x]) j).
Proof.
  revert l lv sibs. induction k as [|k IH]; intros l lv sibs Hd64 Hd Hlen Hlo Hhi.
  { simpl. exists lv. replace d with l by lia. rewrite app_nil_r. split_and!; [done|by rewrite Hlen, <-Hd; f_equal; lia|].
    intros j Hj. apply Hlo. lia. }
  cbn [append_path]. rewrite shr_div, (Hlo l), (Hhi (S l)) by lia. cbn [mbind option_bind].
  rewrite level_of_lookup. set (p := length leaves / 2 ^ l).
  assert (p * 2 ^ l < length (leaves ++ [x])) as Hp.
  { rewrite length_app. pose proof (div_pow2_bounds (length leaves) l) as Hb. fold p in Hb. simpl. lia. }
  rewrite <-(node_parent _ _ _ Hp).
  rewrite (shr_div p 1), Nat.pow_1_r by lia.
  assert (p / 2 = length leaves / 2 ^ S l) as Hp2 by (unfold p; by rewrite div_pow2_succ).
  rewrite Hp2, set_or_push_level. cbn [mbind option_bind].
  destruct (IH (S l) (<[S l := level_of (leaves ++ [x]) (S l)]> lv)
    (sibs ++ [node (leaves ++ [x]) l (Nat.lxor p 1)])) as (lv' & Hap & Hlen' & Hlv').
  - done.
  - lia.
  - by rewrite length_insert.
  - intros j Hj. destruct (decide (j = S l)) as [->|]; [apply list_lookup_insert_eq; lia|].
    rewrite list_lookup_insert_ne by done. apply Hlo. lia.
  - intros j Hj. rewrite list_lookup_insert_ne by lia. apply Hhi. lia.
  - exists lv'. rewrite Hap. split_and!; [|done|done]. by rewrite <-app_assoc.
Qed.

Lemma append_leaf_ok leaves x t :
  tree_ok leaves t →
  ∃ t', append_leaf x t =
      Some (t', (node (leaves ++ [x]) (depth t) (length leaves / 2 ^ depth t),
                 mkProof (length leaves) (path_of (leaves ++ [x]) (length leaves) 0 (depth t)))) ∧
    depth t' = depth t ∧ tree_ok (leaves ++ [x]) t'.
Proof.
  intros (H64 & Hc & Hlen & Hlv). unfold append_leaf. rewrite (Hlv 0) by lia. cbn [mbind option_bind].
  assert (∀ l : list Fp, level_of l 0 = l) as Hl0.
  { intros l. apply list_eq. intros i. unfold level_of. rewrite list_lookup_fmap. simpl.
    assert (node_count (length l) 0 = length l) as -> by (unfold node_count; rewrite Nat.pow_0_r, Nat.div_1_r; lia).
    destruct (decide (i < length l)) as [Hi|Hi].
    - rewrite lookup_seq_lt by done. simpl. destruct (l !! i) eqn:E; [done|]. apply lookup_ge_None in E. lia.
    - rewrite lookup_seq_ge, lookup_ge_None_2 by lia. done. }
  destruct (append_path_spec leaves x (depth t) (depth t) 0 (<[0 := level_of leaves 0 ++ [x]]> (levels t)) [])
    as (lv' & Hap & Hlen' & Hlv').
  - done.
  - done.
  - by rewrite length_insert.
  - intros j Hj. replace j with 0 by lia. rewrite list_lookup_insert_eq by lia. by rewrite !Hl0.
  - intros j Hj. rewrite list_lookup_insert_ne by lia. apply Hlv. lia.
  - assert (node (leaves ++ [x]) 0 (length leaves / 2 ^ 0) = x) as Hx.
    { rewrite Nat.pow_0_r, Nat.div_1_r. simpl. by rewrite list_lookup_middle. }
    rewrite Hx in Hap. rewrite Hc, Hap. cbn [mbind option_bind].
    eexists. split; [done|]. split; [done|]. split_and!; [done| |done|done]. simpl. rewrite length_app. simpl. lia.
Qed.

Lemma Tree_new_ok d : d ≤ 64 → tree_ok [] (Tree_new d).
Proof.
  intros Hd. split_and!; [done|done|simpl; by rewrite length_replicate|]. intros l Hl. simpl in *.
  change ([] :: replicate d []) with (replicate (S d) (@nil Fp)).
  rewrite lookup_replicate_2 by lia. f_equal. symmetry. unfold level_of. simpl.
  assert (node_count 0 l = 0) as ->; [|done]. pose proof (node_count_spec 0 l 0). lia.
Qed.

Lemma append_all_ok leaves ls t :
  tree_ok leaves t → ∃ t', append_all ls t = Some t' ∧ depth t' = depth t ∧ tree_ok (leaves ++ ls) t'.
Proof.
  revert leaves t. induction ls as [|x ls IH]; intros leaves t Ht.
  { exists t. by rewrite app_nil_r. }
  destruct (append_leaf_ok leaves x t Ht) as (t1 & Ha & Hd1 & Ht1). simpl. rewrite Ha. simpl.
  destruct (IH _ _ Ht1) as (t2 & -> & Hd2 & Ht2). exists t2. split_and!; [done|congruence|].
  by rewrite <-app_assoc in Ht2.
Qed.

Lemma tree_root_ok leaves t : tree_ok leaves t → tree_root t = Some (node leaves (depth t) 0).
Proof.
  intros (_ & Hc & Hlen & Hlv). unfold tree_root. rewrite Hc. case_bool_decide as Hn.
  - by rewrite node_empty by lia.
  - rewrite Hlv by done. simpl. unfold level_of. rewrite list_lookup_fmap, lookup_seq_lt; [done|].
    apply node_count_spec. lia.
Qed.

Lemma sibling_path_ok leaves t index k l :
  tree_ok leaves t → l + k ≤ depth t → sibling_path k l index (levels t) = Some (path_of leaves index l k).
Proof.
  intros (H64 & Hc & Hlen & Hlv). revert l. induction k as [|k IH]; intros l Hl; [done|].
  cbn [sibling_path]. rewrite Hlv by lia. cbn [mbind option_bind]. rewrite IH by lia. cbn [mbind option_bind].
  rewrite level_of_lookup, shr_div by lia. done.
Qed.

(** Folding a path hashes its way up the nodes. *)
Lemma fold_path leaves index l k :
  index < length leaves → l + k ≤ 64 →
  fold_proof index l (node leaves l (index / 2 ^ l)) (path_of leaves index l k) =
    node leaves (l + k) (index / 2 ^ (l + k)).
Proof.
  intros Hi. revert l. induction k as [|k IH]; intros l Hl.
  { simpl. by rewrite Nat.add_0_r. }
  unfold path_of. cbn [seq fmap list_fmap fold_proof]. fold (path_of leaves index (S l) k).
  unfold fold_step. rewrite shr_div, land_1 by lia.
  assert (index / 2 ^ l * 2 ^ l < length leaves) as Hp by (pose proof (div_pow2_bounds index l); lia).
  rewrite <-(node_parent _ _ _ Hp), <-div_pow2_succ, IH by lia. by rewrite <-plus_n_Sm.
Qed.
End append.

(** ** Properties *)

Section properties.
Context `{Poseidon}.

Lemma append_all_app ls ls' t : append_all (ls ++ ls') t = append_all ls t ≫= append_all ls'.
Proof.
  revert t. induction ls as [|x ls IH]; intros t; [done|]. simpl.
  destruct (append_leaf x t) as [[t' ?]|]; simpl; [apply IH|done].
Qed.

Lemma verify_path leaves index leaf d :
  d ≤ 64 → leaves !! index = Some leaf → length leaves ≤ 2 ^ d →
  verify_proof leaf (mkProof index (path_of leaves index 0 d)) (node leaves d 0) d = true.
Proof.
  intros H64 Hl Hcap. pose proof (lookup_lt_Some _ _ _ Hl). unfold verify_proof. cbn [siblings mp_index].
  rewrite bool_decide_false by (unfold path_of; rewrite length_fmap, length_seq; lia).
  rewrite bool_decide_false by lia. apply bool_decide_eq_true.
  pose proof (fold_path leaves index 0 d) as Hf. rewrite Nat.pow_0_r, Nat.div_1_r in Hf.
  simpl in Hf. rewrite Hl in Hf. simpl in Hf. rewrite Hf by (done || lia). by rewrite Nat.div_small by lia.
Qed.

(** C21: the incremental tree, up to the depth of 64 from which on the code's shifts
    run over, is the Merkle tree of its leaves. Building or
    extending the tree never panics. Its root is the reference root of the whole
    leaf sequence; rebuilding from the longer sequence gives the very tree an
    append gives. Within the capacity [2^depth], the membership proof of every
    leaf verifies against the current root, and an append returns the new root
    with a proof of the new leaf that verifies against it. Past the capacity an
    append is still accepted but no longer moves the root. *)
Theorem merkle_tree_correct d leaves :
  d ≤ 64 →
  ∃ t, from_leaves d leaves = Some t ∧ tree_root t = Some (node leaves d 0) ∧
    (length leaves ≤ 2 ^ d → ∀ i leaf, leaves !! i = Some leaf →
       ∃ p, membership_proof i t = Some p ∧ verify_proof leaf p (node leaves d 0) d = true) ∧
    ∀ x, ∃ t' root p, append_leaf x t = Some (t', (root, p)) ∧ from_leaves d (leaves ++ [x]) = Some t' ∧
      (length leaves < 2 ^ d → tree_root t' = Some root ∧ verify_proof x p root d = true) ∧
      (2 ^ d ≤ length leaves → tree_root t' = tree_root t).
Proof.
  intros H64. destruct (append_all_ok [] leaves (Tree_new d) (Tree_new_ok d H64)) as (t & Ht & Hd & Hok). simpl in Hd, Hok.
  exists t. split_and!; [done|by rewrite (tree_root_ok leaves), Hd| |].
  - intros Hcap i leaf Hi. exists (mkProof i (path_of leaves i 0 d)). split; [|by apply verify_path].
    unfold membership_proof. by rewrite (sibling_path_ok leaves), Hd by (done || lia).
  - intros x. destruct (append_leaf_ok leaves x t Hok) as (t' & Ha & Hd' & Hok'). rewrite Hd in *.
    exists t', (node (leaves ++ [x]) d (length leaves / 2 ^ d)),
      (mkProof (length leaves) (path_of (leaves ++ [x]) (length leaves) 0 d)).
    assert (tree_root t' = Some (node (leaves ++ [x]) d 0)) as Hr by (by rewrite (tree_root_ok _ t' Hok'), Hd').
    split_and!; [done| | |].
    + unfold from_leaves in *. rewrite append_all_app, Ht. simpl. by rewrite Ha.
    + intros Hcap. rewrite Nat.div_small by done. split; [done|]. apply verify_path; [done|..].
      * by rewrite list_lookup_middle.
      * rewrite length_app. simpl. lia.
    + intros Hcap. rewrite Hr, (tree_root_ok leaves), Hd by done. f_equal. apply node_other.
      pose proof (div_pow2_bounds (length leaves) d). pose proof (pow2_pos d). nia.
Qed.

(** The two children hashed at level [l] along a proof, and those of the tree. *)
Definition proof_children (index l : nat) (leaf : Fp) (sibs : list Fp) : Fp * Fp :=
  let h := fold_proof index 0 leaf (take l sibs) in
  let sib := default fp_zero (sibs !! l) in
  if bool_decide (Nat.land (shr index l) 1 = 0) then (h, sib) else (sib, h).

Definition tree_children (leaves : list Fp) (index l : nat) : Fp * Fp :=
  let q := index / 2 ^ S l in (node leaves l (2 * q), node leaves l (2 * q + 1)).

Lemma fold_proof_snoc index leaf sibs l sib :
  sibs !! l = Some sib →
  fold_proof index 0 leaf (take (S l) sibs) =
    uncurry poseidon_hash (proof_children index l leaf sibs).
Proof.
  intros Hs. unfold proof_children. rewrite Hs. simpl default.
  assert (∀ k h (ss : list Fp), fold_proof index k h (ss ++ [sib]) =
    fold_step index (k + length ss) (fold_proof index k h ss) sib) as Happ.
  { intros k h ss. revert k h. induction ss as [|s ss IH]; intros k h; simpl; [by rewrite Nat.add_0_r|].
    rewrite IH. by rewrite <-plus_n_Sm. }
  rewrite (take_S_r _ _ sib), Happ by done. simpl.
  rewrite length_take, Nat.min_l by (apply lookup_lt_Some in Hs; lia).
  unfold fold_step. by destruct (bool_decide _).
Qed.

(** A membership proof binds its leaf. If a proof for a filled position
    verifies against the tree's root, then the proved leaf is the one at that
    position, or the proof exhibits a Poseidon collision: at some level it
    hashes another pair of children than the tree does to the same value. *)
Theorem membership_proof_binds d leaves leaf p :
  d ≤ 64 → length leaves ≤ 2 ^ d → mp_index p < length leaves →
  verify_proof leaf p (node leaves d 0) d = true →
  leaves !! mp_index p = Some leaf ∨
  ∃ l, l < d ∧
    let mine := proof_children (mp_index p) l leaf (siblings p) in
    let its := tree_children leaves (mp_index p) l in
    mine ≠ its ∧ uncurry poseidon_hash mine = uncurry poseidon_hash its.
Proof.
  intros H64 Hcap Hi Hv. destruct p as [index sibs]. cbn [mp_index siblings] in *. unfold verify_proof in Hv.
  cbn [mp_index siblings] in Hv. case_bool_decide as Hlen; [done|]. case_bool_decide; [done|].
  apply bool_decide_eq_true in Hv. assert (length sibs = d) as Hd by lia. clear Hlen.
  assert (∀ l, l ≤ d → fold_proof index 0 leaf (take l sibs) = node leaves l (index / 2 ^ l) →
    leaves !! index = Some leaf ∨ ∃ l', l' < d ∧ proof_children index l' leaf sibs ≠ tree_children leaves index l' ∧
      uncurry poseidon_hash (proof_children index l' leaf sibs) = uncurry poseidon_hash (tree_children leaves index l'))
    as Hdown.
  { intros l. induction l as [|l IH]; intros Hl Heq.
    - left. rewrite Nat.pow_0_r, Nat.div_1_r in Heq. simpl in Heq. rewrite Heq.
      destruct (lookup_lt_is_Some_2 leaves index Hi) as [y Hy]. by rewrite Hy.
    - destruct (lookup_lt_is_Some_2 sibs l ltac:(lia)) as [sib Hs].
      rewrite (fold_proof_snoc _ _ _ _ sib) in Heq by done.
      assert (index / 2 ^ l * 2 ^ l < length leaves) as Hp by (pose proof (div_pow2_bounds index l); lia).
      assert (node leaves (S l) (index / 2 ^ S l) = uncurry poseidon_hash (tree_children leaves index l)) as Hn.
      { unfold tree_children. cbn [node uncurry]. rewrite bool_decide_true; [done|].
        pose proof (div_pow2_bounds index (S l)). lia. }
      destruct (decide (proof_children index l leaf sibs = tree_children leaves index l)) as [He|He];
        [|right; exists l; split_and!; [lia|done|congruence]].
      apply IH; [lia|]. pose proof (sibling_pair (node leaves l) (index / 2 ^ l)) as Hsp.
      unfold proof_children, tree_children in He. rewrite div_pow2_succ in He. rewrite <-Hsp in He.
      rewrite shr_div, land_1 in He by lia. by destruct (bool_decide _); injection He. }
  apply (Hdown d); [done|]. rewrite take_ge by lia. rewrite Hv. by rewrite Nat.div_small by lia.
Qed.
End properties.

(** ** A concrete field: naturals, with a small compression function *)

Module ConcreteField.
#[export, refine] Instance nat_field : Field := {|
  Fp := nat; fp_zero := 0;
  to_repr n := if N.ltb (N.of_nat n) 256 then N.of_nat n :: replicate 31 0%N else [N.of_nat n];
  from_repr b :=
    match b with
    | [x] => if N.ltb x 256 then None else Some (N.to_nat x)
    | x :: b' => if N.ltb x 256 && bool_decide (b' = replicate 31 0%N) then Some (N.to_nat x) else None
    | [] => None
    end;
|}.
Proof.
  - intros n. destruct (N.ltb (N.of_nat n) 256) eqn:Hn; simpl; by rewrite Hn, Nat2N.id.
  - intros [|x b] n; [done|]. destruct b as [|y b].
    + destruct (N.ltb x 256) eqn:Hx; [done|]. intros [= <-]. by rewrite N2Nat.id, Hx.
    + destruct (N.ltb x 256) eqn:Hx; [|done]. simpl andb. case_bool_decide as Hb; [|done].
      intros [= <-]. by rewrite N2Nat.id, Hx, Hb.
Defined.
#[export] Instance nat_poseidon : Poseidon := {| poseidon_hash a b := S ((a + 2 * b) mod 97) |}.

Definition leaves : list (@Fp nat_field) := [5; 7; 9].
Definition proof : @MembershipProof nat_field := mkProof 1 [5 : @Fp nat_field; node leaves 1 1].

Lemma merkle_witness :
  ∃ t p, from_leaves 2 leaves = Some t ∧ membership_proof 1 t = Some p ∧ verify_proof (7 : @Fp nat_field) p (node leaves 2 0) 2 = true.
Proof.
  destruct (merkle_tree_correct 2 leaves) as (t & Ht & _ & Hp & _); [lia|].
  destruct (Hp ltac:(simpl; lia) 1 (7 : @Fp nat_field) eq_refl) as (p & Hm & Hv). exists t, p. exact (conj Ht (conj Hm Hv)).
Defined.

Lemma membership_witness :
  leaves !! 1 = Some (7 : @Fp nat_field) ∨ ∃ l, l < 2 ∧
    let mine := proof_children 1 l (7 : @Fp nat_field) (siblings proof) in
    let its := tree_children leaves 1 l in
    mine ≠ its ∧ uncurry poseidon_hash mine = uncurry poseidon_hash its.
Proof.
  apply (membership_proof_binds 2 leaves (7 : @Fp nat_field) proof).
  - lia.
  - simpl. lia.
  - simpl. lia.
  - by vm_compute.
Defined.
End ConcreteField.
