(* ===== verification/Roots.v ===== *)
(** * Root history and shielded validation (src/src/shielded/roots.rs, src/src/validation/shielded.rs,
    src/src/shielded/verify.rs)

    The bounded history of committed pool roots with its freshness check, the
    reconstruction of the circuit's public inputs from a wire transfer, and the
    fail-closed validation of a shielded transfer. The curve and the proof
    system are interfaces. *)

From S2P Require Import Prelude Interfaces Types Float Environment Validation Nullifiers Merkle.

(** ** The curve and the proof system: [pasta_curves], [halo2_proofs] *)

(** The modulus of the Pallas base field. *)
Definition pallas_modulus : N := 0x40000000000000000000000000000000224698fc094cf91b992d30ed00000001.

Class Pallas `{Field} := {
  (** [Fp::from_uniform_bytes] of the little-endian value, [Fp::from(u64)] *)
  fp_of_N : N → Fp;
  (** the reduction is modulo the field's characteristic *)
  fp_of_N_reduces n : fp_of_N (n + pallas_modulus) = fp_of_N n;
  (** [EpAffine::from_bytes] and [coordinates()]: the affine coordinates of a
      compressed point, when it is one and is not the point at infinity *)
  affine_coords : bytes → option (Fp * Fp);
}.

Record PublicInputs `{Field} := mkInputs {
  pi_nullifier : Fp;
  commit_x : Fp;
  commit_y : Fp;
  pi_merkle_root : Fp;
  output_commit_x : Fp;
  output_commit_y : Fp;
  pi_fee : Fp;
}.

Arguments mkInputs {_} _ _ _ _ _ _ _.
Arguments pi_merkle_root {_} _.

(** [ShieldedVerifier::verify] over the cached key: does the proof verify? *)
Class Halo2 `{Field} := { halo2_verify : bytes → PublicInputs → bool }.

(** ** The root history *)

Record RootSnapshot := mkSnapshot { rs_root : bytes; rs_height : N }.

Record MerkleRootState := mkRoots {
  window : nat;
  next_height : N;
  roots : list RootSnapshot;
}.

Section roots.
Context `{Poseidon}.

Definition MerkleRootState_new (recency_window : nat) : MerkleRootState :=
  mkRoots recency_window 1 [mkSnapshot (root_to_bytes fp_zero) 0].

Definition push (root : bytes) (s : MerkleRootState) : MerkleRootState * N :=
  let height := next_height s in
  let l := roots s ++ [mkSnapshot root height] in
  let keep := window s + 1 in
  let l' := if bool_decide (keep < length l) then drop (length l - keep) l else l in
  (mkRoots (window s) (wrap_add (next_height s) 1) l', height).

(** [expect] on the last entry. *)
Definition current_root (s : MerkleRootState) : may_panic bytes := rs_root <$> last (roots s).
Definition roots_recency_window (s : MerkleRootState) : nat := window s.
Definition roots_len (s : MerkleRootState) : nat := length (roots s).
Definition roots_is_empty (s : MerkleRootState) : bool := is_nil (roots s).
Definition root_history (s : MerkleRootState) : list RootSnapshot := roots s.
End roots.

(** ** Validation *)

Definition CIRCUIT_MAX_INPUTS : nat := 1.

Record ShieldedValidationDeps := mkDeps {
  spent : gset bytes;
  dep_roots : list RootSnapshot;
  recency_window : nat;
}.

Definition shielded_structure_err : PneumaticError := Validation [InvalidCommitment].
Definition decode_failure : PneumaticError := Validation [InvalidCommitment].

Definition shielded_neutral_risk : TransactionRiskFactor := mkRisk 2 0 false false.

(** [i < j] with equal nullifiers. *)
Fixpoint has_repeat (l : list bytes) : bool :=
  match l with [] => false | x :: l' => existsb (λ y, bool_decide (x = y)) l' || has_repeat l' end.

Definition check_structural (tx : ShieldedTransaction) : result PneumaticError () :=
  if is_nil (sh_nullifiers tx) || bool_decide (CIRCUIT_MAX_INPUTS < length (sh_nullifiers tx)) then
    Err shielded_structure_err
  else if is_nil (sh_spent_commitments tx) || bool_decide (CIRCUIT_MAX_INPUTS < length (sh_spent_commitments tx)) then
    Err shielded_structure_err
  else if is_nil (sh_commitments tx) || bool_decide (CIRCUIT_MAX_INPUTS < length (sh_commitments tx)) then
    Err shielded_structure_err
  else if has_repeat (sh_nullifiers tx) then Err shielded_structure_err
  else Ok ().

(** The value of little-endian bytes. *)
Definition le_value (b : bytes) : N := foldr (λ x acc, x + 256 * acc)%N 0%N b.

Section validation.
Context `{Poseidon} `{!Pallas} `{!Halo2}.

(** The 64-byte buffer is the 32 bytes followed by zeros: same value. *)
Definition bytes32_to_fp (b : bytes) : Fp := fp_of_N (le_value b).

Definition point_coords (b : bytes) : result PneumaticError (Fp * Fp) := ok_or decode_failure (affine_coords b).

Definition public_inputs_from_shielded_tx (tx : ShieldedTransaction) : result PneumaticError PublicInputs :=
  n ← ok_or decode_failure (head (sh_nullifiers tx));
  sc ← ok_or decode_failure (head (sh_spent_commitments tx));
  '(cx, cy) ← point_coords sc;
  root ← ok_or decode_failure (bytes_to_root (sh_merkle_root tx));
  oc ← ok_or decode_failure (head (sh_commitments tx));
  '(ox, oy) ← point_coords oc;
  Ok (mkInputs (bytes32_to_fp n) cx cy root ox oy (fp_of_N (sh_fee tx))).

Definition commitment_leaf (b : bytes) : result PneumaticError Fp :=
  '(x, y) ← point_coords b; Ok (poseidon_hash x y).

Definition is_root_fresh (merkle_root : Fp) (deps : ShieldedValidationDeps) : bool :=
  match last (dep_roots deps) with
  | None => false
  | Some newest =>
      match list_find (λ s, rs_root s = to_repr merkle_root) (dep_roots deps) with
      | Some (_, snap) => bool_decide (sat_sub (rs_height newest) (rs_height snap) ≤ N.of_nat (recency_window deps))%N
      | None => false
      end
  end.

Definition validate_shielded (tx : ShieldedTransaction) (env : EnvironmentMetadata) (deps : ShieldedValidationDeps)
    : result PneumaticError TransactionValidationResult :=
  _ ← check_structural tx;
  public_inputs ← public_inputs_from_shielded_tx tx;
  if existsb (λ n, contains_nullifier n (spent deps)) (sh_nullifiers tx) then Err (Validation [StaleNullifier])
  else if negb (is_root_fresh (pi_merkle_root public_inputs) deps) then Err (Validation [StaleMerkleRoot])
  else if f_gt (score shielded_neutral_risk) (max_risk env) then Err (Validation [RiskExceedsThreshold])
  else if negb (halo2_verify (sh_proof tx) public_inputs) then Err (Validation [InvalidShieldedProof])
  else Ok (validation_valid [] shielded_neutral_risk).

(** The [Shielded] spec by its name, as the Sentinel and the Finalizer look it
    up; every other spec has the trait's default, which refuses. *)
Definition validate_shielded_advisory (tx : ShieldedTransaction) (env : EnvironmentMetadata) (deps : ShieldedValidationDeps)
    : result PneumaticError TransactionValidationResult :=
  match transaction_validation_specs env !! "Shielded" with
  | Some ShieldedTx => validate_shielded tx env deps
  | _ => Err (Validation [UnsupportedAction])
  end.
End validation.

(** ** Properties *)

Section freshness.
Context `{Poseidon} `{!Pallas} `{!Halo2}.

(** The history after pushing [rs] on a new one. *)
Definition pushed (w : nat) (rs : list bytes) : MerkleRootState :=
  foldl (λ s r, (push r s).1) (MerkleRootState_new w) rs.

(** Every root ever committed, the genesis root first, with its height. *)
Definition all_snapshots (rs : list bytes) : list RootSnapshot :=
  imap (λ i r, mkSnapshot r (N.of_nat i)) (root_to_bytes fp_zero :: rs).

Lemma all_snapshots_snoc rs r : all_snapshots (rs ++ [r]) = all_snapshots rs ++ [mkSnapshot r (N.of_nat (S (length rs)))].
Proof. unfold all_snapshots. rewrite app_comm_cons, imap_app. simpl. by rewrite Nat.add_0_r. Qed.

Lemma all_snapshots_length rs : length (all_snapshots rs) = S (length rs).
Proof. unfold all_snapshots. by rewrite length_imap. Qed.

(** The history keeps the newest [w + 1] roots. *)
Lemma pushed_history w rs :
  (N.of_nat (length rs) < u64_max)%N →
  pushed w rs = mkRoots w (N.of_nat (S (length rs))) (drop (length rs - w) (all_snapshots rs)).
Proof.
  induction rs as [|r rs IH] using rev_ind; intros Hn; [done|].
  rewrite length_app in *. simpl length in *. unfold pushed. rewrite foldl_snoc. fold (pushed w rs).
  rewrite IH by lia. unfold push. cbn [next_height window roots fst].
  rewrite all_snapshots_snoc. set (l := all_snapshots rs) in *.
  pose proof (all_snapshots_length rs) as Hl. fold l in Hl.
  assert (wrap_add (N.of_nat (S (length rs))) 1 = N.of_nat (S (length rs + 1))) as ->.
  { unfold wrap_add. rewrite N.mod_small; [lia|]. u64. }
  f_equal. rewrite length_app, length_drop, Hl. simpl length. rewrite <-drop_app_le by lia.
  case_bool_decide as Hk.
  - rewrite drop_drop. f_equal. lia.
  - replace (length rs - w) with 0 by lia. by replace (length rs + 1 - w) with 0 by lia.
Qed.

Lemma pushed_heights rs k i x :
  k ≤ length rs → drop k (all_snapshots rs) !! i = Some x → rs_height x = N.of_nat (k + i).
Proof.
  intros Hk. rewrite lookup_drop. unfold all_snapshots. rewrite list_lookup_imap.
  destruct (_ !! (k + i)); simpl; [by intros [= <-]|done].
Qed.

(** Which roots are fresh. After any run of commits, [is_root_fresh] accepts
    exactly the roots among the newest [w + 1] of the history, the genesis root
    included: the window an honest prover has to get a proof committed. *)
Theorem is_root_fresh_iff w rs sp r :
  (N.of_nat (length rs) < u64_max)%N →
  is_root_fresh r (mkDeps sp (root_history (pushed w rs)) w) = true ↔
    to_repr r ∈ drop (length rs - w) (root_to_bytes fp_zero :: rs).
Proof.
  intros Hn. rewrite pushed_history by done. unfold is_root_fresh, root_history. cbn [dep_roots recency_window roots].
  set (k := length rs - w). set (l := drop k (all_snapshots rs)).
  assert (rs_root <$> l = drop k (root_to_bytes fp_zero :: rs)) as Hroots.
  { unfold l. rewrite fmap_drop. f_equal. unfold all_snapshots. rewrite fmap_imap. apply list_eq. intros i.
    rewrite list_lookup_imap. by destruct (_ !! i). }
  assert (length l = S (length rs - k)) as Hlen.
  { unfold l. rewrite length_drop, all_snapshots_length. unfold k. lia. }
  destruct (last l) as [newest|] eqn:Hlast; [|apply last_None in Hlast; by rewrite Hlast in Hlen].
  rewrite last_lookup, Hlen in Hlast. apply pushed_heights in Hlast as Hh; [|lia]. simpl in Hh.
  rewrite <-Hroots, list_elem_of_fmap. destruct (list_find _ l) as [[i snap]|] eqn:Hf.
  - apply list_find_Some in Hf as (Hi & Hr & _). split; [intros _; exists snap; split; [done|by eapply list_elem_of_lookup_2]|].
    intros _. apply bool_decide_eq_true. apply pushed_heights in Hi as Hs; [|lia].
    rewrite Hh, Hs. unfold sat_sub. lia.
  - apply list_find_None in Hf. rewrite Forall_forall in Hf. split; [done|]. intros (x & Hx & Hin). by destruct (Hf x Hin).
Qed.
End freshness.

(** ** A concrete curve and proof system *)

Module ConcreteCurve.
Export ConcreteField.

#[export, refine] Instance nat_pallas : Pallas := {|
  fp_of_N n := N.to_nat (n mod pallas_modulus mod 97) : @Fp nat_field;
  affine_coords b := match b with [] => None | x :: _ => Some (N.to_nat (x mod 97) : @Fp nat_field, 1 : @Fp nat_field) end;
|}.
Proof. intros n. simpl. rewrite <-(N.mul_1_l pallas_modulus) at 1. by rewrite N.Div0.mod_add. Defined.

(** Proofs are checked to be the byte 1. *)
#[export] Instance nat_halo2 : Halo2 := {| halo2_verify proof _ := bool_decide (proof = [1%N]) |}.

Lemma is_root_fresh_witness :
  is_root_fresh (2 : @Fp nat_field)
    (mkDeps ∅ (root_history (pushed 1 [to_repr (5 : @Fp nat_field); to_repr (2 : @Fp nat_field)])) 1) = true ↔
  to_repr (2 : @Fp nat_field) ∈
    drop 1 [to_repr (0 : @Fp nat_field); to_repr (5 : @Fp nat_field); to_repr (2 : @Fp nat_field)].
Proof.
  apply (is_root_fresh_iff 1 [to_repr (5 : @Fp nat_field); to_repr (2 : @Fp nat_field)] ∅ (2 : @Fp nat_field)).
  reflexivity.
Defined.
End ConcreteCurve.
