(* ===== verification/Sponge.v ===== *)
(** * The Poseidon hash (src/src/shielded/poseidon.rs)

    The field behind the shielded pool with its arithmetic, the Grain generator of
    the round constants and the matrix, the permutation and the sponge. The
    generator's loops run on fuel; the sponge takes the parameters they give. *)

From S2P Require Import Prelude Interfaces Types Merkle Roots.
From Stdlib Require Import Ring_theory.
From Stdlib Require ZmodDef ZmodBase.

(** ** Arithmetic: [ff::Field] *)

Class FieldOps `{Field} := {
  fp_one : Fp;
  fp_add : Fp → Fp → Fp;
  fp_mul : Fp → Fp → Fp;
  fp_sub : Fp → Fp → Fp;
  fp_opp : Fp → Fp;
  (** [invert().map(..)] into a variable that starts at zero *)
  fp_inv : Fp → Fp;
  fp_ring : ring_theory fp_zero fp_one fp_add fp_mul fp_sub fp_opp (=);
  fp_one_zero : fp_one ≠ fp_zero;
}.

Definition T : nat := 5.
Definition ALPHA_EXP : N := 7.
Definition R_F : nat := 8.
Definition R_P : nat := 46.
Definition RATE : nat := T - 1.
Definition N_BITS : nat := 255.

(** ** The Grain generator *)

Record Grain := mkGrain { g_s : list bool; g_p : nat }.

Definition bits (val : N) (w : nat) : list bool := (λ i, N.testbit val (N.of_nat i)) <$> rev (seq 0 w).

Definition grain_seed : list bool :=
  bits 1 2 ++ bits 0 4 ++ bits (N.of_nat N_BITS) 12 ++ bits (N.of_nat T) 12 ++ bits (N.of_nat R_F) 10 ++ bits (N.of_nat R_P) 10 ++
  replicate 30 true.

Definition tap (g : Grain) (k : nat) : bool := default false (g_s g !! ((g_p g + k) mod 80)).

Definition mix (g : Grain) : bool :=
  xorb (xorb (xorb (xorb (xorb (tap g 0) (tap g 13)) (tap g 23)) (tap g 38)) (tap g 51)) (tap g 62).

Definition tick (g : Grain) : Grain * bool :=
  let nb := mix g in (mkGrain (<[g_p g := nb]> (g_s g)) ((g_p g + 1) mod 80), nb).

Definition Grain_new : Grain := Nat.iter 160 (λ g, (tick g).1) (mkGrain grain_seed 0).

Fixpoint next_bit (fuel : nat) (g : Grain) : option (Grain * bool) :=
  match fuel with
  | O => None
  | S fuel =>
      let '(g, a) := tick g in
      let '(g, b) := tick g in
      if (a : bool) then Some (g, b) else next_bit fuel g
  end.

(** The bit at an absolute position of the little-endian bytes. *)
Definition place (ap : nat) (b : bool) (repr : bytes) : bytes :=
  alter (λ x, N.lor x (N.shiftl (N.b2n b) (N.of_nat (ap mod 8)))) (ap / 8) repr.

Fixpoint draw_bits (fuel : nat) (positions : list nat) (repr : bytes) (g : Grain) : option (Grain * bytes) :=
  match positions with
  | [] => Some (g, repr)
  | ap :: rest => '(g, b) ← next_bit fuel g; draw_bits fuel rest (place ap b repr) g
  end.

Section sponge.
Context `{FieldOps}.

Fixpoint field_element (fuel : nat) (g : Grain) : option (Grain * Fp) :=
  match fuel with
  | O => None
  | S fuel' =>
      '(g, repr) ← draw_bits fuel (rev (seq 0 N_BITS)) (replicate 32 0%N) g;
      match from_repr repr with
      | Some v => Some (g, v)
      | None => field_element fuel' g
      end
  end.

Fixpoint field_elements (fuel n : nat) (g : Grain) : option (Grain * list Fp) :=
  match n with
  | O => Some (g, [])
  | S n => '(g, v) ← field_element fuel g; '(g, vs) ← field_elements fuel n g; Some (g, v :: vs)
  end.

(** [chunks]. *)
Fixpoint chunks {A} (fuel k : nat) (l : list A) : list (list A) :=
  match fuel, l with
  | S fuel, _ :: _ => take k l :: chunks fuel k (drop k l)
  | _, _ => []
  end.

Definition round_constants (fuel : nat) (g : Grain) : option (Grain * list (list Fp)) :=
  '(g, raw) ← field_elements fuel ((R_F + R_P) * T) g; Some (g, chunks (length raw) T raw).

(** [2t] distinct elements. *)
Fixpoint distinct_elements (fuel : nat) (rand : list Fp) (g : Grain) : option (Grain * list Fp) :=
  match fuel with
  | O => None
  | S fuel' =>
      if bool_decide (2 * T ≤ length rand) then Some (g, rand)
      else '(g, v) ← field_element fuel g;
           distinct_elements fuel' (if bool_decide (v ∈ rand) then rand else rand ++ [v]) g
  end.

Fixpoint cauchy_mds (fuel : nat) (g : Grain) : option (Grain * list (list Fp)) :=
  match fuel with
  | O => None
  | S fuel' =>
      '(g, rand) ← distinct_elements fuel [] g;
      let xs := take T rand in
      let ys := drop T rand in
      if existsb (λ x, existsb (λ y, bool_decide (fp_add x y = fp_zero)) ys) xs then cauchy_mds fuel' g
      else Some (g, (λ x, (λ y, fp_inv (fp_add x y)) <$> ys) <$> xs)
  end.

Record Params := mkParams { rc : list (list Fp); mds : list (list Fp) }.

Definition grain_params (fuel : nat) : option Params :=
  '(g, rc) ← round_constants fuel Grain_new; '(_, mds) ← cauchy_mds fuel g; Some (mkParams rc mds).

(** ** The permutation *)

Definition sbox (x : Fp) : Fp :=
  let x2 := fp_mul x x in
  let x4 := fp_mul x2 x2 in
  fp_mul (fp_mul x4 x2) x.

Definition matvec (m : list (list Fp)) (state : list Fp) : list Fp :=
  (λ row, foldl (λ acc ms, fp_add acc (fp_mul ms.1 ms.2)) fp_zero (zip row state)) <$> m.

Definition add_constants (p : Params) (idx : nat) (state : list Fp) : list Fp := zip_with fp_add state (default [] (rc p !! idx)).

Definition full_round (p : Params) (state : list Fp) (idx : nat) : list Fp := matvec (mds p) (sbox <$> add_constants p idx state).
Definition partial_round (p : Params) (state : list Fp) (idx : nat) : list Fp :=
  matvec (mds p) (alter sbox 0 (add_constants p idx state)).

Definition permute (p : Params) (state : list Fp) : list Fp :=
  let half := R_F / 2 in
  let state := foldl (full_round p) state (seq 0 half) in
  let state := foldl (partial_round p) state (seq half R_P) in
  foldl (full_round p) state (seq (half + R_P) half).

(** ** The sponge *)

(** A one, then zeros up to a multiple of the rate. *)
Definition pad (inputs : list Fp) : list Fp :=
  inputs ++ fp_one :: replicate ((RATE - (length inputs + 1) mod RATE) mod RATE) fp_zero.

Definition absorb (p : Params) (state chunk : list Fp) : list Fp :=
  permute p (zip_with fp_add (take (length chunk) state) chunk ++ drop (length chunk) state).

Definition sponge_perm_state (p : Params) (inputs : list Fp) : list Fp :=
  foldl (absorb p) (replicate T fp_zero) (chunks (length (pad inputs)) RATE (pad inputs)).

Definition sponge_hash (p : Params) (inputs : list Fp) : Fp := default fp_zero (sponge_perm_state p inputs !! (T - 1)).

(** The interface of the tree and the commitments: the hash of two elements. *)
#[export] Instance sponge_poseidon (p : Params) : Poseidon := {| poseidon_hash x y := sponge_hash p [x; y] |}.
End sponge.

(** ** What they compute *)

(** The register read from its head on. *)
Definition window (g : Grain) : list bool := tap g <$> seq 0 80.
Definition grain_ok (g : Grain) : Prop := length (g_s g) = 80 ∧ g_p g < 80.

(** The textbook generator: shift, and append the sum of the taps. *)
Definition lfsr_step (w : list bool) : list bool * bool :=
  let at_ k := default false (w !! k) in
  let nb := xorb (xorb (xorb (xorb (xorb (at_ 0) (at_ 13)) (at_ 23)) (at_ 38)) (at_ 51)) (at_ 62) in
  (drop 1 w ++ [nb], nb).

Lemma window_lookup g k : k < 80 → window g !! k = Some (tap g k).
Proof. intros Hk. unfold window. rewrite list_lookup_fmap, lookup_seq_lt by done. done. Qed.

Lemma tick_ok g : grain_ok g → grain_ok (tick g).1.
Proof. intros [Hl Hp]. split; cbn [tick fst g_s g_p]; [by rewrite length_insert|]. by apply Nat.mod_upper_bound. Qed.

Lemma tick_tap g k : grain_ok g → k < 79 → tap (tick g).1 k = tap g (S k).
Proof.
  intros [Hl Hp] Hk. unfold tap. cbn [tick fst g_s g_p].
  assert (((g_p g + 1) mod 80 + k) mod 80 = (g_p g + S k) mod 80) as ->.
  { rewrite Nat.Div0.add_mod_idemp_l. f_equal. lia. }
  rewrite list_lookup_insert_ne; [done|]. intros He.
  destruct (decide (g_p g + S k < 80)); [rewrite Nat.mod_small in He by lia; lia|].
  assert ((g_p g + S k) mod 80 = g_p g + S k - 80) as Hm; [|lia].
  replace (g_p g + S k) with (g_p g + S k - 80 + 1 * 80) at 1 by lia. rewrite Nat.Div0.mod_add. apply Nat.mod_small. lia.
Qed.

Lemma tick_head g : grain_ok g → tap (tick g).1 79 = mix g.
Proof.
  intros [Hl Hp]. unfold tap. cbn [tick fst g_s g_p].
  rewrite Nat.Div0.add_mod_idemp_l. replace (g_p g + 1 + 79) with (g_p g + 1 * 80) by lia.
  rewrite Nat.Div0.mod_add, Nat.mod_small, list_lookup_insert_eq by lia. done.
Qed.

(** The pointer into a fixed array is the shift register: the array read from the
    pointer on is the register, and each tick is a shift. *)
Lemma tick_is_shift g : grain_ok g → (window (tick g).1, (tick g).2) = lfsr_step (window g).
Proof.
  intros Hg. unfold lfsr_step. rewrite !window_lookup by lia. cbn [default from_option]. f_equal.
  apply list_eq. intros i. destruct (decide (i < 79)) as [Hi|Hi].
  - rewrite window_lookup by lia. rewrite lookup_app_l by (rewrite length_drop; unfold window; rewrite length_fmap, length_seq; lia).
    rewrite lookup_drop, window_lookup by lia. by rewrite tick_tap.
  - rewrite lookup_app_r by (rewrite length_drop; unfold window; rewrite length_fmap, length_seq; lia).
    rewrite length_drop. unfold window at 2. rewrite length_fmap, length_seq.
    destruct (decide (i = 79)) as [->|Hi'].
    + rewrite window_lookup by lia. by rewrite tick_head.
    + rewrite lookup_ge_None_2 by (unfold window; rewrite length_fmap, length_seq; lia).
      rewrite lookup_ge_None_2 by (cbn; lia). done.
Qed.

Fixpoint ticks_out (n : nat) (g : Grain) : list bool :=
  match n with O => [] | S n => let '(g, b) := tick g in b :: ticks_out n g end.
Fixpoint lfsr_out (n : nat) (w : list bool) : list bool :=
  match n with O => [] | S n => let '(w, b) := lfsr_step w in b :: lfsr_out n w end.

(** The generator's array with a moving pointer produces, from its seed on, the
    stream of the eighty-bit shift register with taps 0, 13, 23, 38, 51 and 62. *)
Theorem grain_is_a_shift_register n : ticks_out n (mkGrain grain_seed 0) = lfsr_out n grain_seed.
Proof.
  assert (∀ g, grain_ok g → ticks_out n g = lfsr_out n (window g)) as Hall.
  { induction n as [|n IH]; intros g Hg; [done|]. cbn [ticks_out lfsr_out].
    pose proof (tick_is_shift g Hg) as Hs. pose proof (tick_ok g Hg) as Hok. destruct (tick g) as [g' b], (lfsr_step (window g)) as [w b'].
    cbn [fst snd] in *. injection Hs as <- <-. by rewrite IH. }
  rewrite Hall by (split; [done|cbn; lia]). by f_equal.
Qed.

Section sponge_facts.
Context `{FieldOps}.
Add Ring fp_ring : (fp_ring (FieldOps:=_)).

Lemma sbox_is_seventh_power x : sbox x = Nat.iter 7 (fp_mul x) fp_one.
Proof. cbv [sbox Nat.iter nat_rect]. ring. Qed.

Lemma pad_length inputs : length (pad inputs) mod RATE = 0.
Proof.
  unfold pad. rewrite length_app. cbn [length]. rewrite length_replicate, <-Nat.add_succ_comm, <-Nat.add_1_r. change RATE with 4.
  pose proof (Nat.mod_upper_bound (length inputs + 1) 4). pose proof (Nat.div_mod_eq (length inputs + 1) 4).
  destruct (decide ((length inputs + 1) mod 4 = 0)) as [Hz|Hz].
  - rewrite Hz. change ((4 - 0) mod 4) with 0. by rewrite Nat.add_0_r.
  - rewrite (Nat.mod_small (4 - _)) by lia. apply Nat.Div0.mod_divides. exists (S ((length inputs + 1) / 4)). lia.
Qed.

Lemma zeros_one_inj k k' (a b : list Fp) : replicate k fp_zero ++ fp_one :: a = replicate k' fp_zero ++ fp_one :: b → a = b.
Proof.
  pose proof fp_one_zero. revert k'. induction k as [|k IH]; intros [|k']; cbn; intros He; try congruence.
  injection He as He. by eapply IH.
Qed.

(** Padding does not confuse two inputs, of the same length or not. *)
Lemma pad_inj a b : pad a = pad b → a = b.
Proof.
  unfold pad. intros He%(f_equal reverse). rewrite !reverse_app, !reverse_cons, !reverse_replicate, <-!app_assoc in He.
  by apply zeros_one_inj, (inj reverse) in He.
Qed.

(** Up to three elements take one permutation, the padding in the rate. *)
Lemma one_block p (l : list Fp) :
  length l ≤ 3 → sponge_perm_state p l = permute p (zip_with fp_add (replicate RATE fp_zero) (pad l) ++ [fp_zero]).
Proof. by destruct l as [|a [|b [|c [|d l]]]]; cbn [length]; intros; [..|lia]. Qed.
End sponge_facts.

(** ** The Pallas base field *)

Fixpoint le_bytes (k : nat) (n : N) : bytes := match k with O => [] | S k => (n mod 256)%N :: le_bytes k (n / 256)%N end.

Lemma le_bytes_length k n : length (le_bytes k n) = k.
Proof. revert n. induction k as [|k IH]; intros n; cbn; [done|]. by rewrite IH. Qed.
Lemma le_bytes_bound k n : Forall (λ x, x < 256)%N (le_bytes k n).
Proof. revert n. induction k as [|k IH]; intros n; constructor; [by apply N.mod_lt|apply IH]. Qed.
Lemma le_value_bytes k n : (n < 256 ^ N.of_nat k)%N → le_value (le_bytes k n) = n.
Proof.
  revert n. induction k as [|k IH]; intros n Hn; [change (256 ^ N.of_nat 0)%N with 1%N in Hn; unfold le_value; cbn; lia|].
  cbn [le_bytes]. unfold le_value in *. cbn [foldr]. rewrite IH.
  - rewrite N.add_comm. symmetry. apply N.div_mod. done.
  - apply N.Div0.div_lt_upper_bound. rewrite <-N.pow_succ_r'. by rewrite <-Nat2N.inj_succ.
Qed.
Lemma le_bytes_value b : Forall (λ x, x < 256)%N b → le_bytes (length b) (le_value b) = b.
Proof.
  induction 1 as [|x b Hx _ IH]; [done|]. cbn [length le_bytes]. unfold le_value in *. cbn [foldr].
  rewrite (N.mul_comm 256), N.Div0.mod_add, N.mod_small, N.div_add by done. by rewrite N.div_small, N.add_0_l, IH.
Qed.

Module PallasBase.
Import ZmodDef.Zmod ZmodBase.Zmod.

Definition p : Z := Z.of_N pallas_modulus.

#[export] Instance Zmod_eq_dec : EqDecision (Zmod p).
Proof. intros x y. destruct (decide (unsigned x = unsigned y)) as [Hx|Hx]; [left; by apply unsigned_inj|right; congruence]. Defined.

#[export, refine] Instance pallas_field : Field := {|
  Fp := Zmod p; fp_zero := zero;
  to_repr x := le_bytes 32 (Z.to_N (unsigned x));
  from_repr b :=
    if bool_decide (length b = 32 ∧ Forall (λ x, x < 256)%N b ∧ (le_value b < pallas_modulus)%N) then Some (of_Z p (Z.of_N (le_value b)))
    else None;
|}.
Proof.
  - intros x. pose proof (unsigned_pos_bound x ltac:(done)) as Hx. unfold p in Hx.
    assert (Z.to_N (unsigned x) < pallas_modulus)%N as Hlt. { apply N2Z.inj_lt. rewrite Z2N.id; [apply Hx|apply Hx]. }
    rewrite le_value_bytes by (eapply N.lt_trans; [exact Hlt|done]).
    rewrite bool_decide_true by (split_and!; [apply le_bytes_length|apply le_bytes_bound|done]).
    f_equal. rewrite Z2N.id by apply Hx. apply of_Z_unsigned.
  - intros b x. case_bool_decide as Hb; [|done]. destruct Hb as (Hl & Hf & Hlt). intros [= <-].
    rewrite unsigned_of_Z_small by (unfold p; lia). rewrite N2Z.id, <-Hl. by apply le_bytes_value.
Defined.

#[export, refine] Instance pallas_ops : FieldOps := {|
  fp_one := one : @Fp pallas_field; fp_add := add; fp_mul := mul; fp_sub := sub; fp_opp := opp; fp_inv := inv; fp_ring := ring_theory p;
|}.
Proof. intros He. apply (f_equal unsigned) in He. discriminate He. Defined.

(** [Fp::from], [Fp::from_uniform_bytes]. *)
Definition from_u64 (n : N) : @Fp pallas_field := of_Z p (Z.of_N n).
Lemma from_u64_reduces n : from_u64 (n + pallas_modulus) = from_u64 n.
Proof. apply unsigned_inj. unfold from_u64. rewrite !unsigned_of_Z, N2Z.inj_add. unfold p. rewrite <-(Z.mul_1_l (Z.of_N pallas_modulus)) at 1. apply Z_mod_plus_full. Qed.
End PallasBase.
