(* ===== verification/Notes.v ===== *)
(** * Notes and their keys (src/src/shielded/note.rs, prover/src/{key,note_builder,scan}.rs)

    The note commitment over the curve, the nullifier, the encryption of a note to
    its recipient, and the wallet's keys. The curve is an interface; randomness is an
    argument. *)

From S2P Require Import Prelude Interfaces Types Serialize Deserialize Crypto Merkle Roots Sponge.

(** ** The curve: [pasta_curves::pallas] *)

Class Curve `{Field} := {
  Fq : Type;
  (** [Fq::from] and [Fq::from_uniform_bytes] of the little-endian value *)
  fq_of_N : N → Fq;
  fq_repr : Fq → bytes;
  fq_add : Fq → Fq → Fq;
  fq_of_N_add a b : fq_of_N (a + b) = fq_add (fq_of_N a) (fq_of_N b);
  Ep : Type;
  ep_add : Ep → Ep → Ep;
  ep_mul : Ep → Fq → Ep;
  hash_to_curve : string → bytes → Ep;
  ep_add_assoc x y z : ep_add x (ep_add y z) = ep_add (ep_add x y) z;
  ep_add_comm x y : ep_add x y = ep_add y x;
  ep_mul_add P a b : ep_mul P (fq_add a b) = ep_add (ep_mul P a) (ep_mul P b);
  (** [to_affine().to_bytes()] and [to_affine().coordinates()] *)
  ep_bytes : Ep → bytes;
  ep_coords : Ep → option (Fp * Fp);
}.

(** The encodings agree: the bytes of a point decode to its coordinates, those of an
    element to the element; [Fp::from] adds. *)
Class PallasLaws `{Field} `{!FieldOps} `{!Pallas} `{!Curve} := {
  affine_coords_ep_bytes P : affine_coords (ep_bytes P) = ep_coords P;
  fp_of_repr x : fp_of_N (le_value (to_repr x)) = x;
  fp_of_N_add a b : fp_of_N (a + b) = fp_add (fp_of_N a) (fp_of_N b);
}.

(** ** Notes *)

Section notes.
Context `{FieldOps} `{!Pallas} `{!Curve}.

Record ShieldedNote := mkNote { nt_value : N; nt_owner_pk : bytes; nt_rho : Fq; nt_rcm : Fq }.

Definition G_V : Ep := hash_to_curve "pneumatic_note_commitment" (string_bytes "Gv").
Definition G_O : Ep := hash_to_curve "pneumatic_note_commitment" (string_bytes "Go").
Definition G_R : Ep := hash_to_curve "pneumatic_note_commitment" (string_bytes "Gr").
Definition G_RHO : Ep := hash_to_curve "pneumatic_note_commitment" (string_bytes "Grho").

Definition owner_pk_to_scalar (pk : bytes) : Fq := fq_of_N (le_value pk).

(** The point before it is made affine. *)
Definition commit (n : ShieldedNote) : Ep :=
  ep_add (ep_add (ep_add (ep_mul G_V (fq_of_N (nt_value n))) (ep_mul G_O (owner_pk_to_scalar (nt_owner_pk n))))
    (ep_mul G_R (nt_rcm n))) (ep_mul G_RHO (nt_rho n)).

Definition NULLIFIER_DOMAIN : Fp := fp_of_N 1.

Definition nullifier (prm : Params) (n : ShieldedNote) (spend_key : bytes) : bytes :=
  to_repr (sponge_hash prm [NULLIFIER_DOMAIN; bytes32_to_fp spend_key; bytes32_to_fp (fq_repr (nt_rho n))]).
End notes.

(** ** Note encryption *)

Record NotePlaintext := mkPlaintext { np_value : N; np_memo : bytes; np_sender_pk_hint : option bytes }.

Definition ser_NotePlaintext (p : NotePlaintext) : serde :=
  ser_struct [fld "value" (ser_N (np_value p)); fld "memo" (ser_bytes (np_memo p));
              fld "sender_pk_hint" (ser_option ser_bytes (np_sender_pk_hint p))].

Definition of_NotePlaintext (v : serde) : result string NotePlaintext :=
  fs ← get_struct_default [("value", None); ("memo", None); ("sender_pk_hint", Some SNil)] v;
  match fs with
  | [a; b; c] => x ← of_u64 a; m ← of_bytes b; h ← of_option of_array32 c; Ok (mkPlaintext x m h)
  | _ => Err "invalid length"
  end.

#[export, refine] Instance NotePlaintext_serde : Serde NotePlaintext := {|
  to_serde := ser_NotePlaintext; of_serde := of_NotePlaintext;
  wf p := wf_u64 (np_value p) ∧ wf_bytes (np_memo p) ∧ match np_sender_pk_hint p with Some h => wf_array32 h | None => True end |}.
Proof.
  intros [x m h] (Hx & Hm & Hh). unfold of_NotePlaintext. cbn in *. rewrite of_u64_ser by done. cbn. rewrite of_bytes_ser by done. cbn.
  destruct h as [h|]; [|done]. unfold of_option, ser_option. cbn. by rewrite of_array32_ser.
Defined.

(** The ephemeral key, the encapsulation's randomness and the nonce. *)
Record Entropy := mkEntropy { eph_key : bytes; kem_r : N; aes_nonce : bytes }.

Section encryption.
Context `{Rmp} `{SignaturePrims} `{KemPrims}.

Definition note_plaintext_to_bytes (p : NotePlaintext) : result PneumaticError bytes :=
  map_err (λ e, CryptoError ("NotePlaintext serialization failed: " +:+ e)) (serialize_to_bytes_rmp p).
Definition bytes_to_note_plaintext (b : bytes) : result PneumaticError NotePlaintext :=
  map_err (λ e, CryptoError ("NotePlaintext deserialization failed: " +:+ e)) (deserialize_rmp_to NotePlaintext b).

Definition encrypt_note (r : Entropy) (p : NotePlaintext) (recipient : Ed25519Provider) : result PneumaticError bytes :=
  b ← note_plaintext_to_bytes p;
  encrypt_to (eph_key r) (kem_r r) (aes_nonce r) (x25519_public (x25519_static_key recipient)) (fst (mlkem_keypair recipient)) b.

Definition decrypt_note (ciphertext : bytes) (recipient : Ed25519Provider) : result PneumaticError NotePlaintext :=
  b ← decrypt_from recipient ciphertext; bytes_to_note_plaintext b.

Definition encrypt_note_to_two (r1 r2 : Entropy) (p : NotePlaintext) (spend_recipient viewing_recipient : Ed25519Provider)
    : result PneumaticError (bytes * bytes) :=
  spend_ct ← encrypt_note r1 p spend_recipient;
  viewing_ct ← encrypt_note r2 p viewing_recipient;
  Ok (spend_ct, viewing_ct).

Definition scan_for_notes (ciphertexts : list bytes) (viewing_provider : Ed25519Provider) : result PneumaticError (list NotePlaintext) :=
  mapM (λ ct, decrypt_note ct viewing_provider) ciphertexts.
End encryption.

(** ** The wallet *)

Section wallet.
Context `{Sha256}.

Record SpendKey := mkSpendKey { seed : bytes }.
Definition derive (hash_input : string) (input : bytes) : bytes := sha256 (string_bytes hash_input ++ input).
Definition spend_secret (k : SpendKey) : bytes := derive "pneumatic-shielded/v1/spend-secret" (seed k).
Definition owner_pk (k : SpendKey) : bytes := derive "pneumatic-shielded/v1/owner-pk" (spend_secret k).
Definition viewing_key (k : SpendKey) : bytes := derive "pneumatic-shielded/v1/viewing-key" (seed k).

Record ShieldedIdentity := mkIdentity { spend : SpendKey; identity : Ed25519Provider }.
Record NoteOutput := mkOutput { out_value : N; recipient : ShieldedIdentity }.

Context `{Rmp} `{SignaturePrims} `{KemPrims} `{Field} `{!Curve}.

(** [create_note]: the draws for the two scalars and the two encryptions; [expect]
    on the encryption. *)
Definition create_note (rho rcm : Fq) (r1 r2 : Entropy) (to : ShieldedIdentity) (value : N) : may_panic (ShieldedNote * bytes * bytes) :=
  match encrypt_note_to_two r1 r2 (mkPlaintext value [] None) (identity to) (identity to) with
  | Ok (spend_ct, viewing_ct) => Some (mkNote value (owner_pk (spend to)) rho rcm, spend_ct, viewing_ct)
  | Err _ => None
  end.
End wallet.

(** ** Properties *)

Section properties.
Context `{FieldOps} `{!Pallas} `{!Curve}.

(** The commitment of an opening in the scalar field. *)
Definition open (v o r rho : Fq) : Ep := ep_add (ep_add (ep_add (ep_mul G_V v) (ep_mul G_O o)) (ep_mul G_R r)) (ep_mul G_RHO rho).

Lemma ep_interchange a b c d : ep_add (ep_add a b) (ep_add c d) = ep_add (ep_add a c) (ep_add b d).
Proof.
  rewrite <-!ep_add_assoc. f_equal. rewrite !ep_add_assoc. f_equal. apply ep_add_comm.
Qed.

(** Commitments add up as their openings do. *)
Lemma commit_adds m n :
  ep_add (commit m) (commit n) =
    open (fq_of_N (nt_value m + nt_value n)) (fq_add (owner_pk_to_scalar (nt_owner_pk m)) (owner_pk_to_scalar (nt_owner_pk n)))
      (fq_add (nt_rcm m) (nt_rcm n)) (fq_add (nt_rho m) (nt_rho n)).
Proof. unfold commit, open. rewrite fq_of_N_add, !ep_mul_add. do 3 (rewrite ep_interchange; f_equal). Qed.

(** Two randomizers that differ by the base field's modulus, which fits below the
    scalar field's, have the same nullifier: only one of the notes can be spent. *)
Lemma colliding_randomizers prm sk m n :
  le_value (fq_repr (nt_rho n)) = (le_value (fq_repr (nt_rho m)) + pallas_modulus)%N → nullifier prm n sk = nullifier prm m sk.
Proof. intros He. unfold nullifier, bytes32_to_fp. by rewrite He, fp_of_N_reduces. Qed.
End properties.

Section travels.
Context `{Rmp} `{Sha256} `{SignaturePrims} `{KemPrims} `{Field} `{!Curve}.

Lemma decrypt_encrypted r p who c :
  wf p → provider_wf who → length (aes_nonce r) = NONCE_LEN → encrypt_note r p who = Ok c → decrypt_note c who = Ok p.
Proof.
  intros Hp Hw Hn. unfold encrypt_note, decrypt_note, note_plaintext_to_bytes, serialize_to_bytes_rmp.
  destruct (rmp_enc (to_serde p)) as [b|] eqn:Hb; [|done]. cbn. intros He.
  rewrite (encrypt_to_then_decrypt _ _ _ _ _ _ Hw Hn He). cbn. unfold bytes_to_note_plaintext, deserialize_rmp_to.
  apply (rmp_round _ _ []) in Hb. rewrite app_nil_r in Hb. rewrite Hb. cbn [mbind result_bind]. by rewrite of_to_serde.
Qed.

Lemma minted_wf value : wf_u64 value → wf (mkPlaintext value [] None).
Proof. intros Hv. split; [done|]. split; [constructor|done]. Qed.

(** A scan gives every plaintext, or fails. *)
Lemma scan_all who cts ps : Forall2 (λ ct p, decrypt_note ct who = Ok p) cts ps → scan_for_notes cts who = Ok ps.
Proof. unfold scan_for_notes. induction 1 as [|ct p cts ps Hp _ IH]; [done|]. cbn. rewrite Hp. cbn. by rewrite IH. Qed.

(** A note with its two ciphertexts, as some draws mint it. *)
Definition mint_of (to : ShieldedIdentity) (value : N) (m : ShieldedNote * bytes * bytes) : Prop :=
  ∃ r1 r2, length (aes_nonce r1) = NONCE_LEN ∧ length (aes_nonce r2) = NONCE_LEN ∧
    create_note (nt_rho m.1.1) (nt_rcm m.1.1) r1 r2 to value = Some m.

Lemma created_mint rho rcm r1 r2 to value m :
  length (aes_nonce r1) = NONCE_LEN → length (aes_nonce r2) = NONCE_LEN → create_note rho rcm r1 r2 to value = Some m → mint_of to value m.
Proof.
  intros Hn1 Hn2 Hm. exists r1, r2. split_and!; [done..|]. rewrite <-Hm. revert Hm. unfold create_note.
  destruct (encrypt_note_to_two _ _ _ _ _) as [[d1 d2]|]; [|done]. by intros [= <-].
Qed.

Lemma minted_opens to value m : wf_u64 value → provider_wf (identity to) → mint_of to value m →
  let p := mkPlaintext value [] None in
  decrypt_note m.1.2 (identity to) = Ok p ∧ decrypt_note m.2 (identity to) = Ok p ∧ nt_value m.1.1 = value ∧
  nt_owner_pk m.1.1 = owner_pk (spend to).
Proof.
  destruct m as [[n c1] c2]. cbn. intros Hv Hw (r1 & r2 & Hn1 & Hn2 & Hm). unfold create_note, encrypt_note_to_two in Hm.
  destruct (encrypt_note r1 _ _) as [d1|] eqn:E1; [|done]. cbn in Hm. destruct (encrypt_note r2 _ _) as [d2|] eqn:E2; [|done]. cbn in Hm.
  injection Hm as <- <- <-. split; [by eapply decrypt_encrypted; [apply minted_wf| | |exact E1]|].
  split; [by eapply decrypt_encrypted; [apply minted_wf| | |exact E2]|done].
Qed.

(** The ciphertexts are made before the randomness is looked at. *)
Lemma mint_blinded to value m rho rcm :
  mint_of to value m → mint_of to value (mkNote value (owner_pk (spend to)) rho rcm, m.1.2, m.2).
Proof.
  destruct m as [[n c1] c2]. intros (r1 & r2 & Hn1 & Hn2 & Hm). exists r1, r2. split_and!; [done..|]. revert Hm. unfold create_note. cbn.
  destruct (encrypt_note_to_two _ _ _ _ _) as [[d1 d2]|]; [|done]. by intros [= _ <- <-].
Qed.

(** C28: the audit path. Whatever notes are minted for a holder, a scan of their
    wire ciphertexts and one of their viewing ciphertexts each give the notes'
    values, in order; and they give nothing else of a note, since the same two
    ciphertexts are a mint of every note of that value and owner, whatever its
    randomness. *)
Theorem minted_notes_are_scanned to values mints :
  provider_wf (identity to) → Forall wf_u64 values → Forall2 (mint_of to) values mints →
  let found := Ok ((λ v, mkPlaintext v [] None) <$> values) in
  scan_for_notes ((λ m, m.1.2) <$> mints) (identity to) = found ∧ scan_for_notes (snd <$> mints) (identity to) = found ∧
  Forall2 (λ v m, nt_value m.1.1 = v ∧ nt_owner_pk m.1.1 = owner_pk (spend to) ∧
                  ∀ rho rcm, mint_of to v (mkNote v (owner_pk (spend to)) rho rcm, m.1.2, m.2)) values mints.
Proof.
  intros Hw Hv Hm. assert (Forall2 (λ v m, wf_u64 v ∧ mint_of to v m) values mints) as Hmint.
  { clear Hw. induction Hm as [|v m vs ms Hvm _ IH]; [done|]. apply Forall_cons in Hv as [??]. constructor; auto. }
  split_and!.
  - apply scan_all. clear Hm Hv. induction Hmint as [|v m vs ms [Hv Hm] _ IH]; [constructor|]. constructor; [|exact IH]. by apply minted_opens.
  - apply scan_all. clear Hm Hv. induction Hmint as [|v m vs ms [Hv Hm] _ IH]; [constructor|]. constructor; [|exact IH]. by apply minted_opens.
  - eapply Forall2_impl; [exact Hmint|]. intros v m [Hv' Hm']. destruct (minted_opens to v m Hv' Hw Hm') as (_ & _ & ? & ?).
    split_and!; [done..|]. intros rho rcm. by apply mint_blinded.
Qed.
End travels.
