(* ===== verification/Circuit.v ===== *)
(** * The Action circuit (src/src/shielded/circuit.rs)

    The columns, gates and copy constraints that [configure] and [synthesize] set up,
    what an assignment has to satisfy, and what the honest assignment is. The proof
    system over them is an interface. *)

From S2P Require Import Prelude Interfaces Types Float Environment Validation Nullifiers Deserialize Crypto Merkle Roots Sponge Notes.
From Stdlib Require Import Ring_theory.

Definition POSEIDON_T : nat := 5.
Definition POSEIDON_R_F : nat := 8.
Definition POSEIDON_R_P : nat := 46.
Definition POSEIDON_TOTAL_ROUNDS : nat := POSEIDON_R_F + POSEIDON_R_P.

(** ** Columns *)

Inductive advice :=
| note_value | note_owner_pk | note_rho | note_rcm | note_commit_x | note_commit_y
| merkle_siblings (level : nat) | merkle_index_bits (level : nat)
| spend_key_fp | rho_fp | computed_nullifier
| output_value | output_owner_pk | output_rho | output_rcm | output_x | output_y
| poseidon_state (round lane : nat) | sbox_x2 (round : nat) | sbox_x4 (round : nat) | mds_products (round idx : nat).

Inductive instance_column :=
| public_nullifier | public_commit_x | public_commit_y | public_merkle_root | public_output_commit_x | public_output_commit_y
| public_fee.

Inductive selector := s_poseidon | s_merkle | s_nullifier | s_pedersen | s_output | s_value_balance | s_spend_auth.

(** ** Gates *)

Section circuit.
Context `{FieldOps}.

(** [Expression] at the current row. *)
Inductive expr :=
| Const (x : Fp)
| Sel (s : selector)
| Adv (c : advice)
| Inst (c : instance_column)
| Sub (a b : expr)
| Mul (a b : expr).

(** [configure]: the polynomials that vanish on every row. *)
Definition configure : list (string * expr) :=
  [("poseidon_sponge", Mul (Sel s_poseidon) (Const fp_zero));
   ("merkle_path", Mul (Sel s_merkle)
      (Sub (Adv (poseidon_state (POSEIDON_TOTAL_ROUNDS - 1) (POSEIDON_T - 1))) (Inst public_merkle_root)));
   ("nullifier_derivation", Mul (Sel s_nullifier) (Sub (Adv computed_nullifier) (Inst public_nullifier)));
   ("pedersen_commitment", Mul (Sel s_pedersen) (Const fp_zero));
   ("output_well_formed", Mul (Sel s_output) (Const fp_zero));
   ("value_balance", Mul (Sel s_value_balance) (Sub (Sub (Adv note_value) (Adv output_value)) (Inst public_fee)));
   ("spend_auth_binding", Mul (Sel s_spend_auth) (Const fp_zero))].

(** [instances_for]: one row each; the rest of a column is zero. *)
Definition instance_at (pi : PublicInputs) (c : instance_column) (row : nat) : Fp :=
  match row with
  | O => match c with
         | public_nullifier => pi_nullifier pi
         | public_commit_x => commit_x pi
         | public_commit_y => commit_y pi
         | public_merkle_root => pi_merkle_root pi
         | public_output_commit_x => output_commit_x pi
         | public_output_commit_y => output_commit_y pi
         | public_fee => pi_fee pi
         end
  | S _ => fp_zero
  end.

(** Every selector is enabled in the first row of the first region only. *)
Definition selector_at (s : selector) (row : nat) : Fp := match row with O => fp_one | S _ => fp_zero end.

Definition assignment := advice → nat → Fp.

Fixpoint eval (pi : PublicInputs) (a : assignment) (row : nat) (e : expr) : Fp :=
  match e with
  | Const x => x
  | Sel s => selector_at s row
  | Adv c => a c row
  | Inst c => instance_at pi c row
  | Sub x y => fp_sub (eval pi a row x) (eval pi a row y)
  | Mul x y => fp_mul (eval pi a row x) (eval pi a row y)
  end.

(** The second region's cell: the column of the nullifier is taken in the first
    row, so the region starts at the second. *)
Definition nullifier_cell : advice * nat := (computed_nullifier, 1).

(** The gates vanish, and the cell is copied from the instance. *)
Definition satisfied (pi : PublicInputs) (a : assignment) : Prop :=
  (∀ g row, g ∈ configure → eval pi a row g.2 = fp_zero) ∧
  a nullifier_cell.1 nullifier_cell.2 = instance_at pi public_nullifier 0.

(** ** The circuit's witness *)

Context `{!Pallas} `{!Curve} (prm : Params).

Record ActionCircuit := mkAction {
  ac_note : ShieldedNote;
  ac_spend_key : bytes;
  ac_merkle_proof : MembershipProof;
  ac_merkle_root : Fp;
  ac_output_note : ShieldedNote;
  ac_fee : N;
  ac_tree_depth : nat;
}.

(** The chain of hashes from the note's leaf. *)
Definition path_root (c : ActionCircuit) : may_panic Fp :=
  '(x, y) ← ep_coords (commit (ac_note c));
  Some (@fold_proof _ (sponge_poseidon prm) (mp_index (ac_merkle_proof c)) 0 (sponge_hash prm [x; y]) (siblings (ac_merkle_proof c))).

Definition verify_merkle_path_off_circuit (c : ActionCircuit) : may_panic bool :=
  root ← path_root c; Some (bool_decide (root = ac_merkle_root c)).

(** [expect] on both commitments. *)
Definition public_inputs (c : ActionCircuit) : may_panic PublicInputs :=
  '(x, y) ← ep_coords (commit (ac_note c));
  '(ox, oy) ← ep_coords (commit (ac_output_note c));
  Some (mkInputs (bytes32_to_fp (nullifier prm (ac_note c) (ac_spend_key c))) x y (ac_merkle_root c) ox oy (fp_of_N (ac_fee c))).

Definition fq_as_fp (x : Fq) : Fp := default fp_zero (from_repr (fq_repr x)).

(** The two regions of [synthesize]; a cell that is not assigned is zero. *)
Definition assigned (c : ActionCircuit) (note_xy output_xy : Fp * Fp) (root null : Fp) : assignment := λ col row,
  match row with
  | O =>
      match col with
      | note_value => fp_of_N (nt_value (ac_note c))
      | note_owner_pk => fq_as_fp (owner_pk_to_scalar (nt_owner_pk (ac_note c)))
      | note_rho => fq_as_fp (nt_rho (ac_note c))
      | note_rcm => fq_as_fp (nt_rcm (ac_note c))
      | note_commit_x => note_xy.1
      | note_commit_y => note_xy.2
      | merkle_siblings i => default fp_zero (siblings (ac_merkle_proof c) !! i)
      | merkle_index_bits i =>
          if bool_decide (i < DEFAULT_DEPTH) && Nat.testbit (mp_index (ac_merkle_proof c)) i then fp_one else fp_zero
      | spend_key_fp => bytes32_to_fp (ac_spend_key c)
      | rho_fp => fq_as_fp (nt_rho (ac_note c))
      | computed_nullifier => null
      | output_value => fp_of_N (nt_value (ac_output_note c))
      | output_owner_pk => fq_as_fp (owner_pk_to_scalar (nt_owner_pk (ac_output_note c)))
      | output_rho => fq_as_fp (nt_rho (ac_output_note c))
      | output_rcm => fq_as_fp (nt_rcm (ac_output_note c))
      | output_x => output_xy.1
      | output_y => output_xy.2
      | poseidon_state r l =>
          if bool_decide (r = POSEIDON_TOTAL_ROUNDS - 1 ∧ l = POSEIDON_T - 1) then root else fp_zero
      | sbox_x2 _ | sbox_x4 _ | mds_products _ _ => fp_zero
      end
  | 1 => match col with computed_nullifier => null | _ => fp_zero end
  | _ => fp_zero
  end.

Definition synthesize (c : ActionCircuit) : may_panic (result string assignment) :=
  if negb (bool_decide (ac_tree_depth c = DEFAULT_DEPTH)) then Some (Err "Synthesis")
  else if negb (bool_decide (length (siblings (ac_merkle_proof c)) = DEFAULT_DEPTH)) then Some (Err "Synthesis")
  else
    pi ← public_inputs c;
    note_xy ← ep_coords (commit (ac_note c));
    output_xy ← ep_coords (commit (ac_output_note c));
    root ← path_root c;
    Some (Ok (assigned c note_xy output_xy root (pi_nullifier pi))).

(** ** What the gates enforce *)

Add Ring circuit_ring : fp_ring.

Lemma fp_sub_eq x y : fp_sub x y = fp_zero ↔ x = y.
Proof.
  split; [|intros ->; ring]. intros He. replace x with (fp_add (fp_sub x y) y) by ring. rewrite He. ring.
Qed.

Lemma gate_off pi a row g : g ∈ configure → eval pi a (S row) g.2 = fp_zero.
Proof.
  unfold configure. rewrite !elem_of_cons, elem_of_nil.
  intros [->|[->|[->|[->|[->|[->|[->|[]]]]]]]]; cbn [snd eval selector_at]; ring.
Qed.

(** What the circuit enforces is four equations: one advice cell is the root, two
    are the nullifier, and two differ by the fee. No constraint relates any of them
    to the note, the path, the key or the output. *)
Lemma circuit_iff pi a :
  satisfied pi a ↔
    a (poseidon_state (POSEIDON_TOTAL_ROUNDS - 1) (POSEIDON_T - 1)) 0 = pi_merkle_root pi ∧
    a computed_nullifier 0 = pi_nullifier pi ∧ a computed_nullifier 1 = pi_nullifier pi ∧
    fp_sub (a note_value 0) (a output_value 0) = pi_fee pi.
Proof.
  unfold satisfied. split.
  - intros [Hg Hc]. assert (∀ k g, configure !! k = Some g → eval pi a 0 g.2 = fp_zero) as Hk
      by (intros k g Hk; by eapply Hg, list_elem_of_lookup_2).
    pose proof (Hk 1 _ eq_refl) as Hr. pose proof (Hk 2 _ eq_refl) as Hn. pose proof (Hk 5 _ eq_refl) as Hv.
    cbn [snd eval selector_at instance_at] in Hr, Hn, Hv.
    split_and!; [..|done|]; apply fp_sub_eq; [rewrite <-Hr|rewrite <-Hn|rewrite <-Hv]; ring.
  - intros (Hr & Hn & Hn1 & Hv). split; [|done]. intros g [|row]; [|apply gate_off].
    unfold configure. rewrite !elem_of_cons, elem_of_nil.
    intros [->|[->|[->|[->|[->|[->|[->|[]]]]]]]]; cbn [snd eval selector_at instance_at]; rewrite ?Hr, ?Hn, ?Hv; ring.
Qed.

(** Any public inputs at all can be satisfied. *)
Definition forged (pi : PublicInputs) : assignment := λ col row,
  match col with
  | poseidon_state _ _ => pi_merkle_root pi
  | computed_nullifier => pi_nullifier pi
  | note_value => pi_fee pi
  | _ => fp_zero
  end.

Lemma forged_satisfied pi : satisfied pi (forged pi).
Proof. apply circuit_iff. cbn. split_and!; [done..|]. ring. Qed.

(** ** The honest witness *)

Lemma honest_inv c pi a :
  public_inputs c = Some pi → synthesize c = Some (Ok a) →
  ∃ nxy oxy root, ep_coords (commit (ac_note c)) = Some nxy ∧ ep_coords (commit (ac_output_note c)) = Some oxy ∧
    path_root c = Some root ∧ a = assigned c nxy oxy root (pi_nullifier pi) ∧
    pi_merkle_root pi = ac_merkle_root c ∧ pi_fee pi = fp_of_N (ac_fee c).
Proof.
  intros Hpi. unfold synthesize. repeat case_bool_decide; try done. cbn [negb]. rewrite Hpi. cbn [mbind option_bind].
  destruct (ep_coords (commit (ac_note c))) as [[x y]|] eqn:Hn; [|done]. cbn [mbind option_bind].
  destruct (ep_coords (commit (ac_output_note c))) as [[ox oy]|] eqn:Ho; [|done]. cbn [mbind option_bind].
  destruct (path_root c) as [root|] eqn:Hr; [|done]. cbn [mbind option_bind]. intros [= <-].
  unfold public_inputs in Hpi. rewrite Hn, Ho in Hpi. cbn in Hpi. injection Hpi as <-. by eexists _, _, _.
Qed.

Lemma honest_iff c pi a :
  public_inputs c = Some pi → synthesize c = Some (Ok a) →
  (satisfied pi a ↔
    verify_merkle_path_off_circuit c = Some true ∧
    fp_sub (fp_of_N (nt_value (ac_note c))) (fp_of_N (nt_value (ac_output_note c))) = fp_of_N (ac_fee c)).
Proof.
  intros Hpi Hs. destruct (honest_inv c pi a Hpi Hs) as (nxy & oxy & root & Hn & Ho & Hr & -> & Hmr & Hfee).
  rewrite circuit_iff. cbn [assigned]. rewrite bool_decide_true by done. unfold verify_merkle_path_off_circuit.
  rewrite Hr, Hmr, Hfee. cbn [mbind option_bind]. split.
  - intros (-> & _ & _ & ->). by rewrite bool_decide_true.
  - intros [Hb ->]. injection Hb as Hb%bool_decide_eq_true. by rewrite Hb.
Qed.

(** The witness the prover computes satisfies the circuit exactly when the note's
    path leads to the referenced root and the values balance in the field. *)
Theorem honest_witness_satisfies c pi a :
  public_inputs c = Some pi → synthesize c = Some (Ok a) →
  (satisfied pi a ↔
    verify_merkle_path_off_circuit c = Some true ∧
    fp_sub (fp_of_N (nt_value (ac_note c))) (fp_of_N (nt_value (ac_output_note c))) = fp_of_N (ac_fee c)).
Proof. apply honest_iff. Qed.
End circuit.

(** ** The proof system: [create_proof] against [verify_proof] *)

Class Prover `{FieldOps} `{!Halo2} := {
  halo2_prove : N → assignment → PublicInputs → result string bytes;
  (** completeness *)
  halo2_complete r a pi : satisfied pi a → ∃ proof, halo2_prove r a pi = Ok proof ∧ halo2_verify proof pi = true;
}.

Section forging.
Context `{FieldOps} `{!Pallas} `{!Halo2} `{!Prover}.

Definition with_proof (proof : bytes) (t : ShieldedTransaction) : ShieldedTransaction :=
  mkShielded (sh_id t) (sh_action t) (sh_token_id t) (sh_spent_commitments t) (sh_nullifiers t) (sh_commitments t)
    (sh_merkle_root t) proof (sh_note_ciphertexts t) (sh_fee t).

(** Everything validation asks of a transfer besides its proof. *)
Definition passes_without_proof (tx : ShieldedTransaction) (env : EnvironmentMetadata) (deps : ShieldedValidationDeps) : Prop :=
  check_structural tx = Ok () ∧
  existsb (λ n, contains_nullifier n (spent deps)) (sh_nullifiers tx) = false ∧
  f_gt (score shielded_neutral_risk) (max_risk env) = false ∧
  ∃ pi, public_inputs_from_shielded_tx tx = Ok pi ∧ is_root_fresh (pi_merkle_root pi) deps = true.

Lemma validates_with_proof tx env deps pi proof :
  passes_without_proof tx env deps → public_inputs_from_shielded_tx tx = Ok pi → halo2_verify proof pi = true →
  validate_shielded (with_proof proof tx) env deps = Ok (validation_valid [] shielded_neutral_risk).
Proof.
  intros (Hs & Hn & Hrisk & pi' & Hpi' & Hf) Hpi Hv. rewrite Hpi in Hpi'. injection Hpi' as <-. unfold validate_shielded.
  change (check_structural (with_proof proof tx)) with (check_structural tx).
  change (public_inputs_from_shielded_tx (with_proof proof tx)) with (public_inputs_from_shielded_tx tx).
  rewrite Hs. cbn [mbind result_bind]. rewrite Hpi. cbn [mbind result_bind sh_nullifiers with_proof sh_proof].
  by rewrite Hn, Hf, Hrisk, Hv.
Qed.

(** C15: the proof of a transfer proves nothing about it. Whatever the transfer says,
    if it passes the other checks there is a proof with which it validates: nobody
    has to know a note, a path or a key, and the new commitment may hold any value. *)
Theorem any_transfer_can_be_proved tx env deps :
  passes_without_proof tx env deps →
  ∃ proof, validate_shielded (with_proof proof tx) env deps = Ok (validation_valid [] shielded_neutral_risk).
Proof.
  intros Hp. pose proof Hp as (_ & _ & _ & pi & Hpi & _).
  destruct (halo2_complete 0 (forged pi) pi (forged_satisfied pi)) as (proof & _ & Hv). exists proof. by eapply validates_with_proof.
Qed.
End forging.
