(* ===== verification/Prover.v ===== *)
(** * The wallet's prover (prover/src/build.rs)

    From an owned note, its key, its path and an output to the transfer that goes on
    the wire, and that the network's validation accepts it. Randomness is an
    argument. *)

From S2P Require Import Prelude Interfaces Types Float Environment Validation Nullifiers Deserialize Crypto Tokens Merkle Roots Sponge Notes Circuit.
From Stdlib Require Import Ring_theory.

(** The draws of one transfer: the output's scalars, its two encryptions, the
    prover's randomness and the id. *)
Record Draws `{Field} `{!Curve} := mkDraws {
  d_rho : Fq;
  d_rcm : Fq;
  d_spend : Entropy;
  d_view : Entropy;
  d_prover : N;
  d_id : bytes;
}.

(** Two upper-case hexadecimal digits. *)
Definition hex_upper (n : N) : string :=
  let digit d := String (Ascii.ascii_of_N (if N.ltb d 10 then 48 + d else 55 + d)) "" in digit (n / 16)%N +:+ digit (n mod 16)%N.
Definition random_id (b : bytes) : string := foldr (λ x s, hex_upper x +:+ s) "" b.

Definition assemble_tx (id : bytes) (token_id : bytes) (spent_commitments nullifiers commitments : list bytes) (merkle_root proof : bytes)
    (note_ciphertexts : list bytes) (fee : N) : ShieldedTransaction :=
  mkShielded (random_id id) "ShieldedTransfer" token_id spent_commitments nullifiers commitments merkle_root proof note_ciphertexts fee.


Section prover.
Context `{Rmp} `{Sha256} `{SignaturePrims} `{KemPrims} `{FieldOps} `{!Pallas} `{!Curve} `{!Halo2} `{!Prover} (prm : Params).

Definition shielded_err (m : string) : PneumaticError := Shielded m.

(** From the minted note on. *)
Definition prove_transfer (d : Draws) (token_id : bytes) (note : ShieldedNote) (spend_key : bytes) (proof : MembershipProof) (root : bytes)
    (output_note : ShieldedNote) (spend_ciphertext : bytes) (fee : N)
    : may_panic (result PneumaticError (ShieldedTransaction * list ShieldedNote)) :=
  if negb (bool_decide (checked_add (nt_value output_note) fee = Some (nt_value note))) then
    Some (Err (shielded_err "value balance mismatch"))
  else match bytes_to_root root with
  | None => Some (Err (shielded_err "referenced root is not a valid Fp"))
  | Some merkle_root =>
      let circuit := mkAction note spend_key proof merkle_root output_note fee DEFAULT_DEPTH in
      member ← verify_merkle_path_off_circuit prm circuit;
      if negb member then Some (Err (shielded_err "input note is not a member of the referenced pool root"))
      else
        pi ← public_inputs prm circuit;
        witness ← synthesize prm circuit;
        Some match (a ← witness; halo2_prove (d_prover d) a pi) with
             | Err e => Err (shielded_err ("halo2 proof construction failed: " +:+ e))
             | Ok p =>
                 Ok (assemble_tx (d_id d) token_id [ep_bytes (commit note)] [nullifier prm note spend_key] [ep_bytes (commit output_note)]
                       root p [spend_ciphertext] fee, [output_note])
             end
  end.

(** [build_shielded_tx]: one spend and one output. *)
Definition build_shielded_tx (d : Draws) (token_id : bytes) (inputs : list ShieldedNote) (spend_keys : list bytes)
    (proofs : list MembershipProof) (root : bytes) (outputs : list NoteOutput) (fee : N)
    : may_panic (result PneumaticError (ShieldedTransaction * list ShieldedNote)) :=
  let n := length inputs in
  if negb (bool_decide (n = length outputs) && bool_decide (n = length spend_keys) && bool_decide (n = length proofs)) then
    Some (Err (shielded_err "input/spend/proof/output counts must match"))
  else match inputs, spend_keys, proofs, outputs with
  | [note], [spend_key], [proof], [output] =>
      '(output_note, spend_ct, _) ← create_note (d_rho d) (d_rcm d) (d_spend d) (d_view d) (recipient output) (out_value output);
      prove_transfer d token_id note spend_key proof root output_note spend_ct fee
  | _, _, _, _ => Some (Err (shielded_err "v1 proves a single spend per tx"))
  end.

(** ** What the network accepts *)

Context `{!PallasLaws}.
Add Ring prover_ring : fp_ring.

Lemma checked_add_balances a b v : checked_add a b = Some v → fp_sub (fp_of_N v) (fp_of_N a) = fp_of_N b.
Proof. unfold checked_add. case_match; [|done]. intros [= <-]. rewrite fp_of_N_add. ring. Qed.

(** The wire carries the circuit's public inputs. *)
Lemma wire_inputs d token_id note key mp r root out ct fee p pi :
  bytes_to_root root = Some r → public_inputs prm (mkAction note key mp r out fee DEFAULT_DEPTH) = Some pi →
  public_inputs_from_shielded_tx
    (assemble_tx d token_id [ep_bytes (commit note)] [nullifier prm note key] [ep_bytes (commit out)] root p [ct] fee) = Ok pi.
Proof.
  intros Hr Hpi. unfold public_inputs in Hpi. cbn in Hpi. unfold public_inputs_from_shielded_tx, point_coords. cbn -[affine_coords bytes_to_root].
  rewrite !affine_coords_ep_bytes. destruct (ep_coords (commit note)) as [[x y]|]; [|done]. cbn -[bytes_to_root] in *. rewrite Hr. cbn in *.
  destruct (ep_coords (commit out)) as [[ox oy]|]; [|done]. cbn in *. congruence.
Qed.

(** C2: a wallet that owns a note of the referenced tree and balances its values gets
    a transfer. It names the spent note's nullifier and the output's commitment,
    every node for which the root is fresh and the nullifier unspent accepts it,
    and from the transfer alone the payee's scan gets the value that was paid. *)
Theorem honest_transfer_goes_through d token_id note key mp root r output out ct vct fee :
  create_note (d_rho d) (d_rcm d) (d_spend d) (d_view d) (recipient output) (out_value output) = Some (out, ct, vct) →
  checked_add (nt_value out) fee = Some (nt_value note) → bytes_to_root root = Some r → length (siblings mp) = DEFAULT_DEPTH →
  verify_merkle_path_off_circuit prm (mkAction note key mp r out fee DEFAULT_DEPTH) = Some true →
  is_Some (ep_coords (commit out)) →
  ∃ tx, build_shielded_tx d token_id [note] [key] [mp] root [output] fee = Some (Ok (tx, [out])) ∧
    sh_nullifiers tx = [nullifier prm note key] ∧ sh_commitments tx = [ep_bytes (commit out)] ∧
    (∀ env deps, is_root_fresh r deps = true → contains_nullifier (nullifier prm note key) (spent deps) = false →
      f_gt (score shielded_neutral_risk) (max_risk env) = false →
      validate_shielded tx env deps = Ok (validation_valid [] shielded_neutral_risk)) ∧
    (wf_u64 (out_value output) → provider_wf (identity (recipient output)) → length (aes_nonce (d_spend d)) = NONCE_LEN →
      length (aes_nonce (d_view d)) = NONCE_LEN →
      scan_for_notes (sh_note_ciphertexts tx) (identity (recipient output)) = Ok [mkPlaintext (nt_value out) [] None]).
Proof.
  intros Hc Hbal Hr Hl Hpath [[ox oy] Ho]. set (c := mkAction note key mp r out fee DEFAULT_DEPTH) in *.
  assert (∃ xy root', ep_coords (commit note) = Some xy ∧ path_root prm c = Some root') as ([x y] & root' & Hn & Hpr).
  { unfold verify_merkle_path_off_circuit in Hpath. destruct (path_root prm c) as [root'|] eqn:Hp; [|done].
    unfold path_root in Hp. cbn in Hp. destruct (ep_coords (commit note)) as [xy|]; [|done]. by exists xy, root'. }
  assert (∃ pi, public_inputs prm c = Some pi) as [pi Hpi].
  { unfold public_inputs. cbn. rewrite Hn. cbn. rewrite Ho. by eexists. }
  assert (∃ a, synthesize prm c = Some (Ok a)) as [a Ha].
  { unfold synthesize. rewrite Hpi. cbn [c ac_tree_depth ac_merkle_proof ac_note ac_output_note]. rewrite !bool_decide_true by done.
    cbn [negb mbind option_bind]. rewrite Hn. cbn [mbind option_bind]. rewrite Ho. cbn [mbind option_bind]. rewrite Hpr. by eexists. }
  assert (satisfied pi a) as Hsat by (apply (honest_iff prm c pi a Hpi Ha); split; [done|by apply checked_add_balances]).
  destruct (halo2_complete (d_prover d) a pi Hsat) as (p & Hp & Hv).
  eexists. split.
  { unfold build_shielded_tx. cbn [length]. rewrite !bool_decide_true by done. cbn [andb negb]. rewrite Hc. cbn [mbind option_bind].
    unfold prove_transfer. rewrite bool_decide_true by done. cbn [negb]. rewrite Hr. fold c. rewrite Hpath. cbn [mbind option_bind negb].
    rewrite Hpi. cbn [mbind option_bind]. rewrite Ha. cbn [mbind option_bind result_bind]. rewrite Hp. reflexivity. }
  split_and!; [reflexivity|reflexivity|..].
  - intros env deps Hf Hu Hrisk. unfold validate_shielded. rewrite (wire_inputs _ _ _ _ _ _ _ _ _ _ _ pi Hr Hpi).
    replace (check_structural _) with (Ok () : result PneumaticError ()) by done.
    cbn [mbind result_bind sh_nullifiers assemble_tx existsb]. rewrite Hu. cbn [orb].
    assert (pi_merkle_root pi = r) as ->.
    { revert Hpi. unfold public_inputs. cbn. rewrite Hn. cbn. rewrite Ho. cbn. by intros [= <-]. }
    rewrite Hf, Hrisk. cbn [negb sh_proof assemble_tx]. by rewrite Hv.
  - intros Hv64 Hw Hn1 Hn2. destruct (minted_opens (recipient output) (out_value output) (out, ct, vct)) as (Hct & _ & Hval & _); [done..| |].
    + exact (created_mint _ _ _ _ _ _ _ Hn1 Hn2 Hc).
    + cbn in Hct, Hval. rewrite Hval. apply scan_all. by repeat constructor.
Qed.
End prover.

(** ** A wallet *)

Module ConcreteWallet.
Import PallasBase ZmodDef.Zmod ZmodBase.Zmod.

(** The scalar field of Pallas, and its additive group as the curve. *)
Definition q : Z := 0x40000000000000000000000000000000224698fc0994a8dd8c46eb2100000001.

Definition coords (P : Zmod q) : option (@Fp pallas_field * @Fp pallas_field) :=
  if bool_decide (unsigned P = 0%Z) then None else Some (of_Z p (unsigned P), one : @Fp pallas_field).
Definition decode_point (b : bytes) : option (@Fp pallas_field * @Fp pallas_field) :=
  if bool_decide (length b = 32 ∧ (le_value b < Z.to_N q)%N) then coords (of_Z q (Z.of_N (le_value b))) else None.

#[export] Instance pallas : Pallas := {| fp_of_N := from_u64; fp_of_N_reduces := from_u64_reduces; affine_coords := decode_point |}.

#[export, refine] Instance curve : Curve := {|
  Fq := Zmod q; fq_of_N n := of_Z q (Z.of_N n); fq_repr x := le_bytes 32 (Z.to_N (unsigned x)); fq_add := add;
  Ep := Zmod q; ep_add := add; ep_mul := mul; hash_to_curve _ m := of_Z q (Z.of_N (le_value m));
  ep_bytes P := le_bytes 32 (Z.to_N (unsigned P)); ep_coords := coords;
|}.
Proof.
  - intros a b. by rewrite N2Z.inj_add, of_Z_add.
  - apply add_assoc.
  - apply add_comm.
  - intros P a b. apply mul_add_r.
Defined.

#[export] Instance pallas_laws : PallasLaws.
Proof.
  split.
  - intros P. pose proof (unsigned_pos_bound P ltac:(done)) as HP. cbn [affine_coords pallas ep_bytes curve ep_coords]. unfold decode_point.
    assert (Z.to_N (unsigned P) < Z.to_N q)%N as Hlt by (apply Z2N.inj_lt; [apply HP|done|apply HP]).
    rewrite le_value_bytes by (eapply N.lt_trans; [exact Hlt|done]).
    rewrite bool_decide_true by (split; [apply le_bytes_length|exact Hlt]). rewrite Z2N.id by apply HP. by rewrite of_Z_unsigned.
  - intros x. pose proof (unsigned_pos_bound x ltac:(done)) as Hx. cbn [fp_of_N pallas to_repr pallas_field]. unfold from_u64.
    assert (Z.to_N (unsigned x) < pallas_modulus)%N as Hlt by (apply N2Z.inj_lt; rewrite Z2N.id; apply Hx).
    rewrite le_value_bytes by (eapply N.lt_trans; [exact Hlt|done]). rewrite Z2N.id by apply Hx. apply of_Z_unsigned.
  - intros a b. cbn [fp_of_N pallas]. unfold from_u64. by rewrite N2Z.inj_add, of_Z_add.
Defined.

(** A proof system that accepts one proof, and makes it. *)
#[export] Instance halo2 : Halo2 := {| halo2_verify proof _ := bool_decide (proof = [1%N]) |}.
#[export, refine] Instance prover : Prover := {| halo2_prove _ _ _ := Ok [1%N] |}.
Proof. intros r a pi _. by exists [1%N]. Defined.

Import Concrete ConcreteCrypto.
Definition prm : Params := mkParams [] [].
Definition root : bytes := to_repr (fp_zero : @Fp pallas_field).
Definition deps : ShieldedValidationDeps := mkDeps ∅ [mkSnapshot root 0] 0.

(** Nobody's note becomes one of any value. *)
Definition conjured : ShieldedTransaction :=
  mkShielded "tx" "ShieldedTransfer" [1%N] [le_bytes 32 5] [[7%N]] [ep_bytes (commit (mkNote u64_max [] (of_Z q 3) (of_Z q 4)))] root [] [] 0.

Lemma conjured_passes : passes_without_proof conjured ConcreteToken.env deps.
Proof.
  split; [by vm_compute|]. split; [by vm_compute|]. split; [by vm_compute|].
  assert (match public_inputs_from_shielded_tx conjured with Ok pi => is_root_fresh (pi_merkle_root pi) deps | Err _ => false end = true)
    as Hv by (by vm_compute).
  destruct (public_inputs_from_shielded_tx conjured) as [pi|e]; [|done]. by exists pi.
Qed.

Lemma conjured_witness :
  ∃ proof, validate_shielded (with_proof proof conjured) ConcreteToken.env deps = Ok (validation_valid [] shielded_neutral_risk).
Proof. exact (any_transfer_can_be_proved conjured ConcreteToken.env deps conjured_passes). Defined.

(** An owned note, and a payment to the node's own keys. *)
Definition owned : ShieldedNote := mkNote 12 [9%N] (of_Z q 3) (of_Z q 4).
Definition path : MembershipProof := mkProof 0 (replicate DEFAULT_DEPTH (fp_zero : @Fp pallas_field)).
Definition payee : NoteOutput := mkOutput 10 (mkIdentity (mkSpendKey [1%N]) node_keys).
Definition entropy : Entropy := mkEntropy [1%N] 2 (replicate 12 0%N).
Definition draws : Draws := mkDraws _ _ (of_Z q 5) (of_Z q 6) entropy entropy 0 [255%N].
Abbreviation minted := (create_note (d_rho draws) (d_rcm draws) (d_spend draws) (d_view draws) (recipient payee) (out_value payee)).
Definition paid : ShieldedNote := mkNote 10 (owner_pk (mkSpendKey [1%N])) (of_Z q 5) (of_Z q 6).

Lemma minted_paid : ∃ ct vct, minted = Some (paid, ct, vct).
Proof.
  unfold create_note. assert (match encrypt_note_to_two (d_spend draws) (d_view draws) (mkPlaintext (out_value payee) [] None)
    (identity (recipient payee)) (identity (recipient payee)) with Ok _ => true | Err _ => false end = true) as Hv by (by vm_compute).
  destruct (encrypt_note_to_two _ _ _ _ _) as [[ct vct]|e]; [|discriminate Hv]. by exists ct, vct.
Qed.

Lemma paid_mint m : minted = Some m → m.1.1 = paid ∧ mint_of (recipient payee) 10 m.
Proof.
  destruct minted_paid as (ct & vct & Hm). rewrite Hm. intros [= <-]. split; [done|]. by eapply created_mint; [..|exact Hm].
Qed.

Lemma payee_keys : provider_wf (identity (recipient payee)).
Proof. split; by vm_compute. Qed.

Lemma goes_through_witness :
  ∃ tx, build_shielded_tx prm draws [1%N] [owned] [[8%N]] [path] root [payee] 2 = Some (Ok (tx, [paid])) ∧
    scan_for_notes (sh_note_ciphertexts tx) node_keys = Ok [mkPlaintext 10 [] None].
Proof.
  destruct minted_paid as (ct & vct & Hm).
  destruct (honest_transfer_goes_through prm draws [1%N] owned [8%N] path root (fp_zero : @Fp pallas_field) payee paid ct vct 2)
    as (tx & Htx & _ & _ & _ & Hs).
  - exact Hm.
  - reflexivity.
  - by vm_compute.
  - reflexivity.
  - by vm_compute.
  - exists (of_Z p (unsigned (commit paid)), one : @Fp pallas_field). by vm_compute.
  - exists tx. split; [exact Htx|]. apply Hs; [by vm_compute|exact payee_keys|reflexivity|reflexivity].
Defined.

Lemma scanned_witness : ∃ m, minted = Some m ∧ scan_for_notes [m.2] node_keys = Ok [mkPlaintext 10 [] None].
Proof.
  destruct minted_paid as (ct & vct & Hm). exists (paid, ct, vct). split; [exact Hm|].
  refine (proj1 (proj2 (minted_notes_are_scanned (recipient payee) [10%N] [(paid, ct, vct)] payee_keys _ _))).
  - by repeat constructor.
  - constructor; [exact (proj2 (paid_mint _ Hm))|constructor].
Defined.
End ConcreteWallet.
