(* ===== verification/ShieldedPool.v ===== *)
(** * The committer's shielded pool (committer/src/shielded_pool.rs)

    The single owner of committed shielded state: the spent nullifiers, the
    commitment tree with its root history, and the ordered record of applied
    deltas from which everything is rebuilt at boot and on rollback. *)

From S2P Require Import Prelude Interfaces Types Float Environment Chain DataProvider Tokens Nullifiers Merkle Roots Committer.

Inductive PoolApplyOutcome := Applied | AlreadyApplied | Plain.

(** The guarded state. *)
Record PoolState `{Field} := mkPoolState {
  pl_leaves : list Fp;
  pl_tree : IncrementalMerkleTree;
  pl_roots : MerkleRootState;
  applied : list AppliedPoolDelta;
  applied_index : gmap bytes nat;
}.

Arguments mkPoolState {_} _ _ _ _ _.
Arguments pl_leaves {_} _.
Arguments pl_tree {_} _.
Arguments pl_roots {_} _.
Arguments applied {_} _.
Arguments applied_index {_} _.

Record ShieldedPool `{Field} := mkShieldedPool {
  nullifiers : gset bytes;
  pool_window : nat;
  view_roots : MerkleRootState;
  guard : PoolState;
}.

Arguments mkShieldedPool {_} _ _ _ _.
Arguments nullifiers {_} _.
Arguments pool_window {_} _.
Arguments view_roots {_} _.
Arguments guard {_} _.

Section pool.
Context `{Poseidon} `{!Pallas} `{!Halo2} `{HashIter} `{Rmp} `{Sha256}.

Definition PoolState_new (w : nat) : PoolState :=
  mkPoolState [] (Tree_new DEFAULT_DEPTH) (MerkleRootState_new w) [] ∅.

Definition ShieldedPool_new (w : nat) : ShieldedPool :=
  mkShieldedPool ∅ w (MerkleRootState_new w) (PoolState_new w).

(** ** Rebuilding from the deltas *)

(** The leaves of one delta, decoded and appended. *)
Fixpoint rebuild_leaves (leaves : list bytes) (tree : IncrementalMerkleTree) (acc : list Fp)
    : may_panic (result CommitterError (IncrementalMerkleTree * list Fp)) :=
  match leaves with
  | [] => Some (Ok (tree, acc))
  | leaf :: leaves' =>
      match bytes_to_root leaf with
      | None => Some (Err (CErrPoolState "invalid_root" "delta carries a leaf that is not a valid Fp"))
      | Some f =>
          '(tree', _) ← append_leaf f tree;
          rebuild_leaves leaves' tree' (acc ++ [f])
      end
  end.

(** One turn of the loop over the deltas. *)
Definition rebuild_step (verify_recorded : bool) (st : PoolState) (delta : AppliedPoolDelta)
    : may_panic (result CommitterError PoolState) :=
  r ← rebuild_leaves (dl_leaves delta) (pl_tree st) (pl_leaves st);
  match r with
  | Err e => Some (Err e)
  | Ok (tree, leaves) =>
      root ← tree_root tree;
      let post_root := root_to_bytes root in
      if verify_recorded && bool_decide (post_root ≠ dl_post_root delta) then
        Some (Err (CErrPoolState "integrity" "recorded post_root is inconsistent with the leaf sequence"))
      else Some (Ok (mkPoolState leaves tree (push post_root (pl_roots st)).1
        (applied st ++ [mkDelta (dl_block_hash delta) (dl_leaves delta) (dl_nullifiers delta) post_root])
        (<[dl_block_hash delta := length (applied st)]> (applied_index st))))
  end.

Fixpoint rebuild_from (verify_recorded : bool) (st : PoolState) (deltas : list AppliedPoolDelta)
    : may_panic (result CommitterError PoolState) :=
  match deltas with
  | [] => Some (Ok st)
  | delta :: deltas' =>
      r ← rebuild_step verify_recorded st delta;
      match r with
      | Err e => Some (Err e)
      | Ok st' => rebuild_from verify_recorded st' deltas'
      end
  end.

Definition rebuild_state (deltas : list AppliedPoolDelta) (w : nat) (verify_recorded : bool)
    : may_panic (result CommitterError PoolState) :=
  rebuild_from verify_recorded (PoolState_new w) deltas.

(** ** Applying a block *)

Definition delta_key (block : Block) : bytes :=
  match current_hash block with
  | [] => match create_hash block with Ok h => h | Err _ => [] end
  | h => h
  end.

(** Step 3: the output commitments' leaves; an undecodable one ends the call
    with what was appended before it still in place. *)
Fixpoint append_outputs (commitments : list bytes) (tree : IncrementalMerkleTree) (leaves : list Fp)
    (post_leaves : list bytes)
    : may_panic (IncrementalMerkleTree * list Fp * result PneumaticError (list bytes)) :=
  match commitments with
  | [] => Some (tree, leaves, Ok post_leaves)
  | c :: commitments' =>
      match commitment_leaf c with
      | Err e => Some (tree, leaves, Err e)
      | Ok leaf =>
          '(tree', _) ← append_leaf leaf tree;
          append_outputs commitments' tree' (leaves ++ [leaf]) (post_leaves ++ [root_to_bytes leaf])
      end
  end.

Definition pool_deps (p : ShieldedPool) : ShieldedValidationDeps :=
  mkDeps (nullifiers p) (root_history (pl_roots (guard p))) (pool_window p).

Definition apply_update (block : Block) (env : EnvironmentMetadata) (p : ShieldedPool)
    : may_panic (ShieldedPool * result CommitterError PoolApplyOutcome) :=
  match st_shielded (signed_trans block) with
  | None => Some (p, Ok Plain)
  | Some stx =>
      let block_hash := delta_key block in
      let st := guard p in
      let proof_invalid e := CErrShieldedProofInvalid (sh_id stx) e in
      if bool_decide (is_Some (applied_index st !! block_hash)) then Some (p, Ok AlreadyApplied)
      else match validate_shielded stx env (pool_deps p) with
      | Err e => Some (p, Err (proof_invalid e))
      | Ok _ =>
          let '(ns, marked) := mark_many_atomic (sh_nullifiers stx) (nullifiers p) in
          let p1 := mkShieldedPool ns (pool_window p) (view_roots p) st in
          match marked with
          | Err e => Some (p1, Err (proof_invalid e))
          | Ok _ =>
              '(tree, leaves, out) ← append_outputs (sh_commitments stx) (pl_tree st) (pl_leaves st) [];
              let st1 := mkPoolState leaves tree (pl_roots st) (applied st) (applied_index st) in
              match out with
              | Err e => Some (mkShieldedPool ns (pool_window p) (view_roots p) st1, Err (proof_invalid e))
              | Ok post_leaves =>
                  root ← tree_root tree;
                  let post_root := root_to_bytes root in
                  let st2 := mkPoolState leaves tree (push post_root (pl_roots st)).1
                    (applied st ++ [mkDelta block_hash post_leaves (sh_nullifiers stx) post_root])
                    (<[block_hash := length (applied st)]> (applied_index st)) in
                  Some (mkShieldedPool ns (pool_window p) (view_roots p) st2, Ok Applied)
              end
          end
      end
  end.

(** ** Reverting *)

(** [Vec::remove] panics out of range. *)
Definition vec_remove {A} (i : nat) (l : list A) : may_panic (A * list A) :=
  x ← l !! i; Some (x, delete i l).

Definition revert_update (block_hash : bytes) (p : ShieldedPool) : may_panic (ShieldedPool * result CommitterError ()) :=
  let st := guard p in
  match applied_index st !! block_hash with
  | None => Some (p, Err (CErrPoolRollback block_hash))
  | Some idx =>
      '(removed, survivors) ← vec_remove idx (applied st);
      let ns := unmark_many (dl_nullifiers removed) (nullifiers p) in
      let p1 := mkShieldedPool ns (pool_window p) (view_roots p)
                  (mkPoolState (pl_leaves st) (pl_tree st) (pl_roots st) survivors (applied_index st)) in
      r ← rebuild_state survivors (pool_window p) false;
      match r with
      | Err e => Some (p1, Err e)
      | Ok rebuilt =>
          tip ← current_root (pl_roots rebuilt);
          root ← tree_root (pl_tree rebuilt);
          if bool_decide (tip ≠ root_to_bytes root) then
            Some (p1, Err (CErrPoolState "integrity" "post-rollback: root-history tip != tree root"))
          else Some (mkShieldedPool ns (pool_window p) (view_roots p) rebuilt, Ok ())
      end
  end.

(** ** Persistence *)

Definition state_snapshot (p : ShieldedPool) : may_panic ShieldedPoolState :=
  root ← tree_root (pl_tree (guard p));
  Some (mkPoolRecord (root_to_bytes root) (length (pl_leaves (guard p))) (root_to_bytes <$> pl_leaves (guard p))
    (concat (dl_nullifiers <$> applied (guard p))) (applied (guard p))).

Fixpoint mark_deltas (deltas : list AppliedPoolDelta) (ns : gset bytes) : result CommitterError (gset bytes) :=
  match deltas with
  | [] => Ok ns
  | delta :: deltas' =>
      let '(ns', r) := mark_many_atomic (dl_nullifiers delta) ns in
      match r with
      | Err _ => Err (CErrPoolState "integrity" "delta double-spends a nullifier")
      | Ok _ => mark_deltas deltas' ns'
      end
  end.

Definition from_state (state : ShieldedPoolState) (w : nat) : may_panic (result CommitterError ShieldedPool) :=
  if bool_decide (ps_leaf_count state ≠ length (ps_leaves state)) then
    Some (Err (CErrPoolState "integrity" "leaf_count != leaves.len()"))
  else
    r ← rebuild_state (ps_applied state) w true;
    match r with
    | Err e => Some (Err e)
    | Ok rebuilt =>
        if bool_decide (root_to_bytes <$> pl_leaves rebuilt ≠ ps_leaves state) then
          Some (Err (CErrPoolState "integrity" "rebuilt leaf sequence != stored leaves"))
        else
          tip ← current_root (pl_roots rebuilt);
          if bool_decide (tip ≠ ps_root state) then
            Some (Err (CErrPoolState "integrity" "rebuilt root-history tip != recorded root"))
          else if bool_decide (sort_bytes (concat (dl_nullifiers <$> ps_applied state)) ≠ sort_bytes (ps_nullifiers state)) then
            Some (Err (CErrPoolState "integrity" "stored nullifier set != union of the applied deltas' nullifiers"))
          else match mark_deltas (ps_applied state) ∅ with
               | Err e => Some (Err e)
               | Ok ns => Some (Ok (mkShieldedPool ns w (pl_roots rebuilt) rebuilt))
               end
    end.

Definition pool_save `{DataProvider} (db : store) (partition_id : string) (p : ShieldedPool)
    : may_panic (store * result CommitterError ()) :=
  state ← state_snapshot p;
  let '(db', r) := save_shielded_pool db state partition_id in
  Some (db', map_err (λ _, CErrPoolPersist "save_shielded_pool failed") r).

Definition pool_load `{DataProvider} (db : store) (partition_id : string) (w : nat)
    : may_panic (store * result CommitterError ShieldedPool) :=
  match get_shielded_pool db partition_id with
  | Err _ => Some (db, Err (CErrPoolState "corrupt" "get_shielded_pool failed: refusing to re-seed"))
  | Ok None =>
      let pool := ShieldedPool_new w in
      '(db', r) ← pool_save db partition_id pool;
      Some (db', match r with Ok _ => Ok pool | Err e => Err e end)
  | Ok (Some state) => r ← from_state state w; Some (db, r)
  end.

Definition pool_view_parts (p : ShieldedPool) : gset bytes * MerkleRootState := (nullifiers p, pl_roots (guard p)).
Definition pool_current_root (p : ShieldedPool) : may_panic bytes := root_to_bytes <$> tree_root (pl_tree (guard p)).
Definition pool_leaf_count (p : ShieldedPool) : nat := length (pl_leaves (guard p)).
Definition applied_count (p : ShieldedPool) : nat := length (applied (guard p)).
End pool.

(** ** The invariant: the guarded state is what its deltas rebuild to *)

Section pool_invariant.
#[local] Opaque DEFAULT_DEPTH.
Context `{Poseidon} `{!Pallas} `{!Halo2} `{HashIter} `{Rmp} `{Sha256}.

Record state_ok (w : nat) (st : PoolState) : Prop := {
  so_rebuilt : rebuild_from true (PoolState_new w) (applied st) = Some (Ok st);
  so_hashes : NoDup (dl_block_hash <$> applied st);
}.

Definition spent_list (p : ShieldedPool) : list bytes := concat (dl_nullifiers <$> applied (guard p)).

Record pool_ok (p : ShieldedPool) : Prop := {
  po_state : state_ok (pool_window p) (guard p);
  po_spent_once : NoDup (spent_list p);
  po_spent : nullifiers p = list_to_set (spent_list p);
}.

(** What every rebuilt state satisfies: its tree holds its leaves, the tip of the
    history is the tree's root, and the index finds each delta by its hash. *)
Record coherent (st : PoolState) : Prop := {
  co_depth : depth (pl_tree st) = DEFAULT_DEPTH;
  co_tree : tree_ok (pl_leaves st) (pl_tree st);
  co_tip : current_root (pl_roots st) = Some (root_to_bytes (node (pl_leaves st) DEFAULT_DEPTH 0));
  co_leaves : concat (dl_leaves <$> applied st) = root_to_bytes <$> pl_leaves st;
  co_index : ∀ i d, applied st !! i = Some d → dl_block_hash d ∉ (dl_block_hash <$> drop (S i) (applied st)) →
    applied_index st !! dl_block_hash d = Some i;
  co_index_hash : ∀ h i, applied_index st !! h = Some i → ∃ d, applied st !! i = Some d ∧ dl_block_hash d = h;
}.

Lemma current_root_push r s : current_root (push r s).1 = Some r.
Proof.
  unfold current_root, push. simpl. case_bool_decide as Hk.
  - rewrite drop_app_le, last_snoc by (rewrite length_app in *; simpl in *; lia). done.
  - by rewrite last_snoc.
Qed.

Lemma coherent_root st : coherent st → tree_root (pl_tree st) = Some (node (pl_leaves st) DEFAULT_DEPTH 0).
Proof. intros [Hd Ht _ _ _ _]. by rewrite (tree_root_ok _ _ Ht), Hd. Qed.

Lemma new_coherent w : coherent (PoolState_new w).
Proof.
  split; [done|apply Tree_new_ok, Nat.leb_le; reflexivity| |done|done|].
  - cbn [pl_leaves PoolState_new]. rewrite node_empty by (simpl; lia). done.
  - intros h i Hi. simpl in Hi. by rewrite lookup_empty in Hi.
Qed.

(** Decoding and appending leaves never panics. *)
Lemma rebuild_leaves_ok ls tree acc :
  tree_ok acc tree →
  (∃ e, rebuild_leaves ls tree acc = Some (Err e) ∧ mapM bytes_to_root ls = None) ∨
  (∃ tree' fs, rebuild_leaves ls tree acc = Some (Ok (tree', acc ++ fs)) ∧
     mapM bytes_to_root ls = Some fs ∧ ls = root_to_bytes <$> fs ∧
     tree_ok (acc ++ fs) tree' ∧ depth tree' = depth tree).
Proof.
  revert tree acc. induction ls as [|l ls IH]; intros tree acc Ht.
  { right. exists tree, []. simpl. by rewrite app_nil_r. }
  assert (∀ o, mapM bytes_to_root ls = o → mapM bytes_to_root (l :: ls) =
    (f ← bytes_to_root l; fs ← o; Some (f :: fs))) as Hmap by (by intros o <-).
  cbn [rebuild_leaves]. destruct (bytes_to_root l) as [f|] eqn:Hf; [|left; eexists; split; [done|by rewrite (Hmap _ eq_refl)]].
  destruct (append_leaf_ok acc f tree Ht) as (t1 & -> & Hd1 & Ht1). cbn [mbind option_bind].
  destruct (IH t1 (acc ++ [f]) Ht1) as [(e & He & Hm)|(t2 & fs & He & Hm & -> & Ht2 & Hd2)].
  - left. exists e. split; [done|]. by rewrite (Hmap _ Hm).
  - right. exists t2, (f :: fs). rewrite <-app_assoc in He, Ht2. split_and!; [done| | |done|congruence].
    + by rewrite (Hmap _ Hm).
    + rewrite fmap_cons. f_equal. symmetry. by apply to_from_repr.
Qed.

(** The state one delta leads to. *)
Definition next_state (st : PoolState) (d : AppliedPoolDelta) (tree : IncrementalMerkleTree) (leaves : list Fp) : PoolState :=
  let post_root := root_to_bytes (node leaves DEFAULT_DEPTH 0) in
  mkPoolState leaves tree (push post_root (pl_roots st)).1
    (applied st ++ [mkDelta (dl_block_hash d) (dl_leaves d) (dl_nullifiers d) post_root])
    (<[dl_block_hash d := length (applied st)]> (applied_index st)).

Lemma next_state_coherent st d tree fs :
  coherent st → dl_leaves d = root_to_bytes <$> fs → tree_ok (pl_leaves st ++ fs) tree → depth tree = DEFAULT_DEPTH →
  coherent (next_state st d tree (pl_leaves st ++ fs)).
Proof.
  intros [Hd Ht Htip Hl Hix Hih] Hls Ht' Hd'.
  split; simpl; [done|done|apply current_root_push| | |].
  - rewrite fmap_app, concat_app, Hl, fmap_app. simpl. by rewrite app_nil_r, <-Hls.
  - intros i x Hi Hn. destruct (decide (i < length (applied st))) as [Hlt|Hge].
    + rewrite lookup_app_l in Hi by done. rewrite drop_app_le, fmap_app in Hn by lia.
      apply not_elem_of_app in Hn as [Hn1 Hn2].
      rewrite lookup_insert_ne by (intros He; apply Hn2; simpl; set_solver). by apply Hix.
    + rewrite lookup_app_r in Hi by lia. apply list_lookup_singleton_Some in Hi as [Hi <-]. simpl.
      rewrite lookup_insert_eq. f_equal. lia.
  - intros h i. rewrite lookup_insert_Some. intros [[<- <-]|[_ Hi]].
    + eexists. split; [by apply list_lookup_middle|done].
    + destruct (Hih h i Hi) as (x & Hx & <-). exists x. split; [|done]. by apply lookup_app_l_Some.
Qed.

(** One turn of the rebuild: it fails when a leaf does not decode, or when the
    recorded root is to be verified and is wrong. *)
Lemma rebuild_step_undecoded v st d :
  coherent st → mapM bytes_to_root (dl_leaves d) = None → ∃ e, rebuild_step v st d = Some (Err e).
Proof.
  intros Hco Hm. unfold rebuild_step.
  destruct (rebuild_leaves_ok (dl_leaves d) _ _ (co_tree _ Hco)) as [(e & -> & _)|(tree & fs & _ & Hm' & _)];
    [by exists e|congruence].
Qed.

Lemma rebuild_step_decoded st d fs :
  coherent st → mapM bytes_to_root (dl_leaves d) = Some fs →
  ∃ tree, coherent (next_state st d tree (pl_leaves st ++ fs)) ∧
    ∀ v, rebuild_step v st d =
      if v && bool_decide (root_to_bytes (node (pl_leaves st ++ fs) DEFAULT_DEPTH 0) ≠ dl_post_root d)
      then Some (Err (CErrPoolState "integrity" "recorded post_root is inconsistent with the leaf sequence"))
      else Some (Ok (next_state st d tree (pl_leaves st ++ fs))).
Proof.
  intros Hco Hm. unfold rebuild_step.
  destruct (rebuild_leaves_ok (dl_leaves d) _ _ (co_tree _ Hco)) as [(e & _ & ?)|(tree & fs' & -> & Hm' & Hls & Ht' & Hd')];
    [congruence|]. assert (fs' = fs) as -> by congruence. rewrite (co_depth _ Hco) in Hd'.
  exists tree. split; [by apply next_state_coherent|]. intros v. simpl.
  rewrite (tree_root_ok _ _ Ht'), Hd'. done.
Qed.

(** ** Rebuilding a whole history *)

Definition delta_decodes (d : AppliedPoolDelta) : Prop := is_Some (mapM bytes_to_root (dl_leaves d)).

(** What a delta records besides its derived root. *)
Definition delta_data (d : AppliedPoolDelta) : bytes * list bytes * list bytes :=
  (dl_block_hash d, dl_leaves d, dl_nullifiers d).

Lemma rebuild_from_total v st ds : coherent st → ∃ r, rebuild_from v st ds = Some r.
Proof.
  revert st. induction ds as [|d ds IH]; intros st Hco; [by eexists|]. cbn [rebuild_from].
  destruct (mapM bytes_to_root (dl_leaves d)) as [fs|] eqn:Hm.
  - destruct (rebuild_step_decoded st d fs Hco Hm) as (tree & Hco' & Hst). rewrite Hst.
    destruct (v && _); simpl; [by eexists|]. by apply IH.
  - destruct (rebuild_step_undecoded v st d Hco Hm) as [e ->]. by eexists.
Qed.

(** A history whose recorded roots verify is rebuilt as it was recorded, and
    the same without verifying. *)
Lemma rebuild_verified st ds st' :
  coherent st → rebuild_from true st ds = Some (Ok st') →
  coherent st' ∧ Forall delta_decodes ds ∧ applied st' = applied st ++ ds ∧ rebuild_from false st ds = Some (Ok st').
Proof.
  revert st. induction ds as [|d ds IH]; intros st Hco; cbn [rebuild_from].
  { intros [= <-]. rewrite app_nil_r. by split_and!. }
  destruct (mapM bytes_to_root (dl_leaves d)) as [fs|] eqn:Hm.
  - destruct (rebuild_step_decoded st d fs Hco Hm) as (tree & Hco' & Hst). rewrite !Hst. simpl.
    case_bool_decide as Hr; simpl; [done|]. intros Hre.
    destruct (IH _ Hco' Hre) as (Hc & Hds & Ha & Hf). split_and!; [done| | |done].
    + constructor; [by exists fs|done].
    + rewrite Ha. simpl. rewrite <-app_assoc. simpl. do 2 f_equal. rewrite Hr. by destruct d.
  - destruct (rebuild_step_undecoded true st d Hco Hm) as [e ->]. done.
Qed.

(** Any history whose leaves decode is rebuilt without verifying, and the roots
    written back are those that verify. *)
Lemma rebuild_unverified st ds :
  coherent st → Forall delta_decodes ds →
  ∃ st' ds', rebuild_from false st ds = Some (Ok st') ∧ coherent st' ∧
    applied st' = applied st ++ ds' ∧ delta_data <$> ds' = delta_data <$> ds ∧ rebuild_from true st ds' = Some (Ok st').
Proof.
  revert st. induction ds as [|d ds IH]; intros st Hco Hds.
  { exists st, []. rewrite app_nil_r. by split_and!. }
  apply Forall_cons in Hds as [[fs Hm] Hds].
  destruct (rebuild_step_decoded st d fs Hco Hm) as (tree & Hco' & Hst).
  destruct (IH _ Hco' Hds) as (st' & ds' & Hf & Hc & Ha & Hdd & Hv).
  set (d' := mkDelta (dl_block_hash d) (dl_leaves d) (dl_nullifiers d)
    (root_to_bytes (node (pl_leaves st ++ fs) DEFAULT_DEPTH 0))).
  exists st', (d' :: ds'). cbn [rebuild_from]. rewrite Hst. split_and!; [done|done| |by rewrite !fmap_cons, Hdd|].
  - rewrite Ha. simpl. by rewrite <-app_assoc.
  - destruct (rebuild_step_decoded st d' fs Hco Hm) as (tree' & _ & Hst').
    pose proof (Hst' false) as He. change (rebuild_step false st d') with (rebuild_step false st d) in He.
    rewrite Hst in He. simpl in He. injection He as He.
    rewrite Hst'. cbn [dl_post_root d']. rewrite bool_decide_false by tauto. simpl. by rewrite <-He.
Qed.

Lemma rebuild_from_snoc v st ds d st1 :
  rebuild_from v st ds = Some (Ok st1) → rebuild_from v st (ds ++ [d]) = rebuild_step v st1 d.
Proof.
  revert st. induction ds as [|x ds IH]; intros st; cbn [rebuild_from app].
  { intros [= ->]. by destruct (rebuild_step v st1 d) as [[]|]. }
  destruct (rebuild_step v st x) as [[st2|e]|]; simpl; [apply IH|done|done].
Qed.
End pool_invariant.

(** ** Applying, reverting and reloading *)

Section pool_operations.
#[local] Opaque DEFAULT_DEPTH.
Context `{Poseidon} `{!Pallas} `{!Halo2} `{HashIter} `{Rmp} `{Sha256}.

Lemma state_ok_coherent w st : state_ok w st → coherent st.
Proof. intros [Hr _]. by eapply rebuild_verified; [apply new_coherent|]. Qed.

(** The index finds every delta of a well-formed state. *)
Lemma index_of_delta w st i d :
  state_ok w st → applied st !! i = Some d → applied_index st !! dl_block_hash d = Some i.
Proof.
  intros Hst Hi. apply (co_index _ (state_ok_coherent _ _ Hst)); [done|].
  pose proof (so_hashes _ _ Hst) as Hnd. rewrite <-(take_drop_middle _ _ _ Hi), fmap_app, fmap_cons in Hnd.
  apply NoDup_app in Hnd as (_ & _ & Hnd). by apply NoDup_cons in Hnd as [? _].
Qed.

Lemma check_structural_ok tx :
  check_structural tx = Ok () →
  ∃ n sc c, sh_nullifiers tx = [n] ∧ sh_spent_commitments tx = [sc] ∧ sh_commitments tx = [c].
Proof.
  unfold check_structural, CIRCUIT_MAX_INPUTS.
  destruct (sh_nullifiers tx) as [|n ns]; [done|]. simpl. case_bool_decide as Hk1; [done|].
  destruct (sh_spent_commitments tx) as [|sc scs]; [done|]. simpl. case_bool_decide as Hk2; [done|].
  destruct (sh_commitments tx) as [|c cs]; [done|]. simpl. case_bool_decide as Hk3; [done|].
  intros _. exists n, sc, c. destruct ns, scs, cs; simpl in *; (done || lia).
Qed.

(** A shielded transfer that validates spends one unspent nullifier and creates
    one commitment whose leaf decodes. *)
Lemma validate_shielded_inv tx env deps v :
  validate_shielded tx env deps = Ok v →
  ∃ n sc c leaf, sh_nullifiers tx = [n] ∧ sh_spent_commitments tx = [sc] ∧ sh_commitments tx = [c] ∧
    (n ∉ spent deps) ∧ commitment_leaf c = Ok leaf.
Proof.
  unfold validate_shielded, public_inputs_from_shielded_tx, commitment_leaf.
  destruct (check_structural tx) as [[]|] eqn:Hc; simpl; [|done].
  destruct (check_structural_ok _ Hc) as (n & sc & c & -> & -> & ->). simpl.
  destruct (point_coords sc) as [[cx cy]|]; simpl; [|done].
  destruct (bytes_to_root (sh_merkle_root tx)); simpl; [|done].
  destruct (point_coords c) as [[ox oy]|] eqn:Hpc; simpl; [|done].
  rewrite orb_false_r. unfold contains_nullifier. case_bool_decide as Hn; [done|]. intros _.
  exists n, sc, c, (poseidon_hash ox oy). by rewrite Hpc.
Qed.

(** The pool after a new delta. *)
Definition applied_pool (p : ShieldedPool) (h n : bytes) (leaf : Fp) (tree : IncrementalMerkleTree) : ShieldedPool :=
  mkShieldedPool ({[n]} ∪ nullifiers p) (pool_window p) (view_roots p)
    (next_state (guard p) (mkDelta h [root_to_bytes leaf] [n] []) tree (pl_leaves (guard p) ++ [leaf])).

(** A new delta: its hash and nullifier are new, and the pool has one leaf more. *)
Record newly_applied (p : ShieldedPool) (h n : bytes) (leaf : Fp) (p' : ShieldedPool) : Prop := {
  na_hash : applied_index (guard p) !! h = None;
  na_nullifier : n ∉ nullifiers p;
  na_pool : ∃ tree proof, append_leaf leaf (pl_tree (guard p)) = Some (tree, proof) ∧ p' = applied_pool p h n leaf tree;
}.

Lemma apply_update_cases block env p :
  coherent (guard p) →
  ∃ p' r, apply_update block env p = Some (p', r) ∧
    match st_shielded (signed_trans block) with
    | None => p' = p ∧ r = Ok Plain
    | Some stx =>
        if bool_decide (is_Some (applied_index (guard p) !! delta_key block)) then p' = p ∧ r = Ok AlreadyApplied
        else match validate_shielded stx env (pool_deps p) with
             | Err e => p' = p ∧ r = Err (CErrShieldedProofInvalid (sh_id stx) e)
             | Ok _ => r = Ok Applied ∧ ∃ n leaf, sh_nullifiers stx = [n] ∧ newly_applied p (delta_key block) n leaf p'
             end
    end.
Proof.
  intros Hco. unfold apply_update. destruct (st_shielded (signed_trans block)) as [stx|]; [|by eexists _, _].
  case_bool_decide as Hix; [by eexists _, _|]. rewrite <-eq_None_not_Some in Hix.
  destruct (validate_shielded stx env (pool_deps p)) as [v|e] eqn:Hval; [|by eexists _, _].
  destruct (validate_shielded_inv _ _ _ _ Hval) as (n & sc & c & leaf & Hns & _ & Hcs & Hn & Hleaf). simpl in Hn.
  rewrite Hns, Hcs, mark_many_ok; [|apply NoDup_singleton|by intros x ->%list_elem_of_singleton].
  cbn [append_outputs]. rewrite Hleaf.
  destruct (append_leaf_ok _ leaf _ (co_tree _ Hco)) as (tree & Ha & Hd & Ht). rewrite Ha. cbn [mbind option_bind].
  rewrite (co_depth _ Hco) in Hd. rewrite (tree_root_ok _ _ Ht), Hd. cbn [mbind option_bind].
  eexists _, _. split; [done|]. split; [done|]. exists n, leaf. split; [done|]. split; [done|done|].
  eexists tree, _. split; [done|]. unfold applied_pool, next_state. simpl. repeat f_equal. set_solver.
Qed.

(** The new delta, with its derived root. *)
Definition new_delta (p : ShieldedPool) (h n : bytes) (leaf : Fp) : AppliedPoolDelta :=
  mkDelta h [root_to_bytes leaf] [n] (root_to_bytes (node (pl_leaves (guard p) ++ [leaf]) DEFAULT_DEPTH 0)).

Lemma newly_applied_ok p h n leaf p' :
  pool_ok p → newly_applied p h n leaf p' →
  pool_ok p' ∧ applied (guard p') = applied (guard p) ++ [new_delta p h n leaf] ∧ nullifiers p' = {[n]} ∪ nullifiers p.
Proof.
  intros [Hst Hnd Hns] [Hix Hn (tree & proof & Ha & ->)]. split; [|done].
  pose proof (state_ok_coherent _ _ Hst) as Hco. destruct Hst as [Hre Hh]. split.
  - split; simpl.
    + erewrite rebuild_from_snoc by done. unfold rebuild_step. cbn [dl_leaves rebuild_leaves].
      assert (bytes_to_root (root_to_bytes leaf) = Some leaf) as -> by apply from_to_repr.
      destruct (append_leaf_ok _ leaf _ (co_tree _ Hco)) as (tree' & Ha' & Hd & Ht).
      rewrite Ha in Ha'. injection Ha' as <- _. rewrite Ha. cbn [mbind option_bind].
      rewrite (tree_root_ok _ _ Ht), Hd, (co_depth _ Hco). cbn [mbind option_bind dl_post_root].
      by rewrite bool_decide_false by tauto.
    + rewrite fmap_app. apply NoDup_app. split_and!; [done| |apply NoDup_singleton].
      intros x (d & -> & Hd)%list_elem_of_fmap He%list_elem_of_singleton. simpl in He. subst h.
      apply list_elem_of_lookup in Hd as [i Hi].
      rewrite (index_of_delta (pool_window p) _ i d) in Hix; by split || done.
  - unfold spent_list. simpl. rewrite fmap_app, concat_app. simpl. apply NoDup_app. split_and!; [done| |by apply NoDup_singleton].
    intros x Hx ->%list_elem_of_singleton. apply Hn. rewrite Hns. by apply elem_of_list_to_set.
  - unfold spent_list. simpl. rewrite fmap_app, concat_app, list_to_set_app_L, Hns. set_solver.
Qed.

(** Marking the nullifiers of a history: each must be new. *)
Lemma mark_deltas_ok ds ns :
  NoDup (concat (dl_nullifiers <$> ds)) → (∀ n, n ∈ concat (dl_nullifiers <$> ds) → n ∉ ns) →
  mark_deltas ds ns = Ok (list_to_set (concat (dl_nullifiers <$> ds)) ∪ ns).
Proof.
  revert ns. induction ds as [|d ds IH]; intros ns Hnd Hns; simpl in *; [f_equal; set_solver|].
  apply NoDup_app in Hnd as (Hnd1 & Hdis & Hnd2).
  rewrite mark_many_ok by set_solver. rewrite IH; [|done|set_solver].
  f_equal. rewrite list_to_set_app_L. set_solver.
Qed.

Lemma mark_deltas_inv ds ns ns' :
  mark_deltas ds ns = Ok ns' →
  NoDup (concat (dl_nullifiers <$> ds)) ∧ (∀ n, n ∈ concat (dl_nullifiers <$> ds) → n ∉ ns) ∧
  ns' = list_to_set (concat (dl_nullifiers <$> ds)) ∪ ns.
Proof.
  revert ns. induction ds as [|d ds IH]; intros ns; simpl.
  { intros [= <-]. split_and!; [constructor|set_solver|set_solver]. }
  destruct (decide (NoDup (dl_nullifiers d) ∧ Forall (λ n, n ∉ ns) (dl_nullifiers d))) as [[Hnd Hns]|Hno];
    rewrite Forall_forall in *; [rewrite mark_many_ok by done|by rewrite mark_many_fails].
  intros (Hnd' & Hns' & ->)%IH. split_and!; [apply NoDup_app; set_solver|set_solver|].
  rewrite list_to_set_app_L. set_solver.
Qed.

(** A deleted delta takes its nullifiers with it. *)
Lemma concat_delete {A} (ls : list (list A)) i l :
  ls !! i = Some l → concat ls ≡ₚ l ++ concat (delete i ls).
Proof.
  intros Hi. rewrite <-(take_drop_middle _ _ _ Hi) at 1. rewrite (delete_take_drop ls i), !concat_app. simpl.
  by rewrite !(Permutation_app_comm (concat (take i ls))), app_assoc.
Qed.

Lemma delta_data_proj (ds ds' : list AppliedPoolDelta) :
  delta_data <$> ds = delta_data <$> ds' →
  dl_block_hash <$> ds = dl_block_hash <$> ds' ∧ dl_nullifiers <$> ds = dl_nullifiers <$> ds'.
Proof.
  intros He. apply (f_equal (fmap (M:=list) (λ x : bytes * list bytes * list bytes, (x.1.1, x.2)))) in He.
  rewrite <-!list_fmap_compose in He. split.
  - apply (f_equal (fmap (M:=list) fst)) in He. by rewrite <-!list_fmap_compose in He.
  - apply (f_equal (fmap (M:=list) snd)) in He. by rewrite <-!list_fmap_compose in He.
Qed.

Lemma fmap_delete {A B} (f : A → B) (i : nat) (l : list A) : f <$> delete i l = delete i (f <$> l).
Proof. by rewrite !delete_take_drop, fmap_app, fmap_take, fmap_drop. Qed.

(** Reverting a recorded delta never fails. *)
Lemma revert_recorded p i d :
  pool_ok p → applied (guard p) !! i = Some d →
  ∃ st, revert_update (dl_block_hash d) p =
      Some (mkShieldedPool (nullifiers p ∖ list_to_set (dl_nullifiers d)) (pool_window p) (view_roots p) st, Ok ()) ∧
    state_ok (pool_window p) st ∧ delta_data <$> applied st = delete i (delta_data <$> applied (guard p)) ∧
    rebuild_from false (PoolState_new (pool_window p)) (delete i (applied (guard p))) = Some (Ok st).
Proof.
  intros [Hst Hnd Hns] Hi. unfold revert_update. rewrite (index_of_delta _ _ _ _ Hst Hi). unfold vec_remove.
  rewrite Hi. cbn [mbind option_bind]. rewrite unmark_many_spec.
  destruct Hst as [Hre Hh]. pose proof (new_coherent (pool_window p)) as Hnew.
  destruct (rebuild_verified _ _ _ Hnew Hre) as (Hco & Hdec & _ & _).
  assert (Forall delta_decodes (delete i (applied (guard p)))) as Hdec'.
  { rewrite delete_take_drop. apply Forall_app. split; [by apply Forall_take|by apply Forall_drop]. }
  destruct (rebuild_unverified _ _ Hnew Hdec') as (st & ds' & Hf & Hco' & Ha & Hdd & Hv). simpl in Ha.
  unfold rebuild_state. rewrite Hf. cbn [mbind option_bind].
  rewrite (co_tip _ Hco'), (coherent_root _ Hco'). cbn [mbind option_bind]. rewrite bool_decide_false by tauto.
  exists st. split_and!; [done| |by rewrite Ha, Hdd, fmap_delete|done]. split; [by rewrite Ha|].
  rewrite Ha. apply delta_data_proj in Hdd as [-> _]. rewrite fmap_delete.
  eapply sublist_NoDup; [exact Hh|apply sublist_delete].
Qed.
End pool_operations.

(** ** Every pool the operations reach *)

Section pool_reachability.
#[local] Opaque DEFAULT_DEPTH.
Context `{Poseidon} `{!Pallas} `{!Halo2} `{HashIter} `{Rmp} `{Sha256}.

(** One operation of the committer on its pool: a block is applied or reverted,
    or the node restarts from the state it persisted. *)
Inductive pool_step : ShieldedPool → ShieldedPool → Prop :=
| step_apply block env p p' r : apply_update block env p = Some (p', r) → pool_step p p'
| step_revert h p p' r : revert_update h p = Some (p', r) → pool_step p p'
| step_restart state p p' : state_snapshot p = Some state → from_state state (pool_window p) = Some (Ok p') → pool_step p p'.

Definition pool_reachable (w : nat) : ShieldedPool → Prop := rtc pool_step (ShieldedPool_new w).

Lemma new_pool_ok w : pool_ok (ShieldedPool_new w).
Proof. split; [split; [done|constructor]|constructor|done]. Qed.

Lemma apply_update_ok block env p p' r : pool_ok p → apply_update block env p = Some (p', r) → pool_ok p'.
Proof.
  intros Hp Ha. destruct (apply_update_cases block env p (state_ok_coherent _ _ (po_state _ Hp)))
    as (p1 & r1 & Ha1 & Hc). rewrite Ha in Ha1. simplify_eq.
  destruct (st_shielded _) as [stx|]; [|by destruct Hc as [-> _]].
  case_bool_decide; [by destruct Hc as [-> _]|]. destruct (validate_shielded _ _ _); [|by destruct Hc as [-> _]].
  destruct Hc as [_ (n & leaf & _ & Hna)]. by destruct (newly_applied_ok _ _ _ _ _ Hp Hna).
Qed.

Lemma revert_update_ok h p p' r : pool_ok p → revert_update h p = Some (p', r) → pool_ok p'.
Proof.
  intros Hp. unfold revert_update at 1. destruct (applied_index (guard p) !! h) as [i|] eqn:Hi; [|by intros [= <- _]].
  destruct (co_index_hash _ (state_ok_coherent _ _ (po_state _ Hp)) h i Hi) as (d & Hd & <-).
  destruct (revert_recorded p i d Hp Hd) as (st & Hr & Hst & Hdd & _).
  unfold revert_update in Hr. rewrite Hi in Hr. rewrite Hr. intros [= <- _].
  destruct Hp as [_ Hnd Hns]. rewrite <-fmap_delete in Hdd. apply delta_data_proj in Hdd as [_ Hdn].
  assert (spent_list p ≡ₚ dl_nullifiers d ++ concat (dl_nullifiers <$> applied st)) as Hperm.
  { unfold spent_list. rewrite Hdn, fmap_delete. apply concat_delete. by rewrite list_lookup_fmap, Hd. }
  rewrite Hperm in Hnd. apply NoDup_app in Hnd as (_ & Hdis & Hnd').
  split; [done|done|]. simpl. unfold spent_list at 1. simpl. apply set_eq. intros x.
  rewrite Hns, elem_of_difference, !elem_of_list_to_set, Hperm, elem_of_app. naive_solver.
Qed.

(** A persisted pool reloads as it was. *)
Lemma reload_ok p :
  pool_ok p →
  ∃ state, state_snapshot p = Some state ∧
    from_state state (pool_window p) =
      Some (Ok (mkShieldedPool (nullifiers p) (pool_window p) (pl_roots (guard p)) (guard p))).
Proof.
  intros [Hst Hnd Hns]. pose proof (state_ok_coherent _ _ Hst) as Hco. unfold state_snapshot.
  rewrite (coherent_root _ Hco). eexists. split; [done|]. unfold from_state. cbn.
  rewrite length_fmap, bool_decide_false by tauto.
  unfold rebuild_state. rewrite (so_rebuilt _ _ Hst). cbn. rewrite bool_decide_false by tauto.
  rewrite (co_tip _ Hco). cbn. rewrite !bool_decide_false by tauto.
  rewrite mark_deltas_ok; [|done|set_solver]. do 3 f_equal. rewrite Hns. unfold spent_list. set_solver.
Qed.

(** What is indexed is what is applied. *)
Lemma indexed_iff p h :
  pool_ok p → h ∈ dl_block_hash <$> applied (guard p) ↔ is_Some (applied_index (guard p) !! h).
Proof.
  intros Hp. split.
  - intros (d & -> & [i Hi]%list_elem_of_lookup)%list_elem_of_fmap. exists i. by eapply index_of_delta; [apply Hp|].
  - intros [i Hi]. destruct (co_index_hash _ (state_ok_coherent _ _ (po_state _ Hp)) h i Hi) as (d & Hd & <-).
    apply list_elem_of_fmap_2. by eapply list_elem_of_lookup_2.
Qed.

(** Reverting the last delta gives back the pool before it. *)
Lemma revert_newly_applied p h n leaf p' :
  pool_ok p → newly_applied p h n leaf p' → revert_update h p' = Some (p, Ok ()).
Proof.
  intros Hp Hna. destruct (newly_applied_ok _ _ _ _ _ Hp Hna) as (Hp' & Hap & Hns).
  assert (applied (guard p') !! length (applied (guard p)) = Some (new_delta p h n leaf)) as Hi.
  { rewrite Hap. by apply list_lookup_middle. }
  destruct (revert_recorded p' _ _ Hp' Hi) as (st & Hr & _ & _ & Hre). simpl in Hr. rewrite Hr.
  destruct Hna as [_ Hn (tree & proof & _ & ->)]. simpl in Hre.
  rewrite delete_take_drop, take_app_length, drop_ge, app_nil_r in Hre by (rewrite length_app; simpl; lia).
  destruct (rebuild_verified _ _ _ (new_coherent _) (so_rebuilt _ _ (po_state _ Hp))) as (_ & _ & _ & Hf).
  rewrite Hf in Hre. injection Hre as <-. simpl. do 2 f_equal. destruct p. simpl in *. f_equal. set_solver.
Qed.

(** Whatever is loaded is what its snapshot records. *)
Lemma from_state_sound state w :
  ∃ r, from_state state w = Some r ∧
    ∀ p, r = Ok p → NoDup (dl_block_hash <$> ps_applied state) →
      pool_ok p ∧ pool_window p = w ∧ ∃ state', state_snapshot p = Some state' ∧
        ps_root state' = ps_root state ∧ ps_leaf_count state' = ps_leaf_count state ∧
        ps_leaves state' = ps_leaves state ∧ ps_applied state' = ps_applied state ∧
        ps_nullifiers state' ≡ₚ ps_nullifiers state.
Proof.
  unfold from_state. case_bool_decide as Hlc; [by eexists|]. unfold rebuild_state.
  destruct (rebuild_from_total true _ (ps_applied state) (new_coherent w)) as [[st|e] Hre]; rewrite Hre; cbn; [|by eexists].
  destruct (rebuild_verified _ _ _ (new_coherent w) Hre) as (Hco & _ & Happ & _). simpl in Happ.
  case_bool_decide as Hlv; [by eexists|]. rewrite (co_tip _ Hco). cbn.
  case_bool_decide as Htip; [by eexists|].
  case_bool_decide as Hnl; [by eexists|].
  destruct (mark_deltas (ps_applied state) ∅) as [ns|e] eqn:Hm; [|by eexists].
  eexists. split; [done|]. intros p [= <-] Hh. apply mark_deltas_inv in Hm as (Hnd & _ & ->).
  rewrite <-Happ in Hre, Hh, Hnd, Hnl. rewrite <-Happ. split_and!; [|done|].
  - split; simpl; [by split|done|unfold spent_list; simpl; set_solver].
  - unfold state_snapshot. simpl. rewrite (coherent_root _ Hco). eexists. split; [done|]. simpl.
    split_and!; [done|by rewrite Hlc, <-Hlv, length_fmap|done|done|].
    by rewrite <-(sort_bytes_perm (ps_nullifiers state)), <-Hnl, sort_bytes_perm.
Qed.

Lemma pool_step_ok p p' : pool_ok p → pool_step p p' → pool_ok p'.
Proof.
  intros Hp Hstep. destruct Hstep as [block env p0 p1 r Ha|h p0 p1 r Hr|state p0 p1 Hs Hf];
    [by eapply apply_update_ok|by eapply revert_update_ok|].
  destruct (reload_ok p0 Hp) as (state' & Hs' & Hf'). rewrite Hs in Hs'. injection Hs' as <-. rewrite Hf in Hf'. simplify_eq.
  destruct Hp as [Hst Hnd Hns]. by split.
Qed.

(** No operation changes the window. *)
Lemma pool_step_window p p' : pool_ok p → pool_step p p' → pool_window p' = pool_window p.
Proof.
  intros Hp Hstep. destruct Hstep as [block env p0 p1 r Ha|h p0 p1 r Hr|state p0 p1 Hs Hf].
  - destruct (apply_update_cases block env p0 (state_ok_coherent _ _ (po_state _ Hp))) as (p2 & r2 & Ha2 & Hc).
    rewrite Ha in Ha2. simplify_eq. destruct (st_shielded _) as [stx|]; [|by destruct Hc as [-> _]].
    case_bool_decide; [by destruct Hc as [-> _]|]. destruct (validate_shielded _ _ _); [|by destruct Hc as [-> _]].
    by destruct Hc as [_ (n & leaf & _ & [_ _ (tree & proof & _ & ->)])].
  - unfold revert_update in Hr. repeat (case_match; simplify_option_eq; try done).
  - destruct (reload_ok p0 Hp) as (state' & Hs' & Hf'). rewrite Hs in Hs'. injection Hs' as <-. rewrite Hf in Hf'. by simplify_eq.
Qed.

Lemma pool_reachable_ok w p : pool_reachable w p → pool_ok p ∧ pool_window p = w.
Proof.
  unfold pool_reachable. intros Hr.
  assert (∀ q q', rtc pool_step q q' → pool_ok q → pool_window q = w → pool_ok q' ∧ pool_window q' = w) as Hind.
  { induction 1 as [|q q1 q2 Hstep _ IH]; [done|]. intros Hq Hw.
    apply IH; [by eapply pool_step_ok|]. by rewrite <-Hw; apply pool_step_window. }
  apply (Hind _ _ Hr); [apply new_pool_ok|done].
Qed.
End pool_reachability.

(** ** Properties *)

Section pool_properties.
#[local] Opaque DEFAULT_DEPTH.
Context `{Poseidon} `{!Pallas} `{!Halo2} `{HashIter} `{Rmp} `{Sha256}.

(** C1: the state of every reachable pool is consistent. Whatever blocks are
    applied and reverted, in whatever order, and however often the node restarts
    from its persisted state: no nullifier is spent by two applied blocks, the
    spent set is exactly the applied blocks' nullifiers, no block is applied
    twice, the tree holds exactly the applied leaves with the reference root
    over them, and the tip of the root history is that root. *)
Theorem reachable_pool_consistent w p :
  pool_reachable w p →
  NoDup (spent_list p) ∧ nullifiers p = list_to_set (spent_list p) ∧
  NoDup (dl_block_hash <$> applied (guard p)) ∧
  concat (dl_leaves <$> applied (guard p)) = root_to_bytes <$> pl_leaves (guard p) ∧
  tree_root (pl_tree (guard p)) = Some (node (pl_leaves (guard p)) DEFAULT_DEPTH 0) ∧
  current_root (pl_roots (guard p)) = root_to_bytes <$> tree_root (pl_tree (guard p)).
Proof.
  intros Hr. apply pool_reachable_ok in Hr as [[Hst Hnd Hns] _].
  pose proof (state_ok_coherent _ _ Hst) as Hco. rewrite (coherent_root _ Hco), (co_tip _ Hco).
  split_and!; [done|done|apply Hst|apply Hco|done|done].
Qed.

(** C16: applying a block is all or nothing, on every branch. The call never
    panics. A block without a shielded payload and one already applied leave the
    pool as it was; so does one that fails validation against the pool's own
    state, and its error is reported. Otherwise the block's one nullifier, until
    then unspent, is spent, its delta is recorded under its hash, and reverting
    that hash gives back exactly the pool before. *)
Theorem apply_update_atomic block env p :
  pool_ok p →
  ∃ p' r, apply_update block env p = Some (p', r) ∧ pool_ok p' ∧
    match st_shielded (signed_trans block) with
    | None => p' = p ∧ r = Ok Plain
    | Some stx =>
        if bool_decide (delta_key block ∈ dl_block_hash <$> applied (guard p)) then p' = p ∧ r = Ok AlreadyApplied
        else match validate_shielded stx env (pool_deps p) with
             | Err e => p' = p ∧ r = Err (CErrShieldedProofInvalid (sh_id stx) e)
             | Ok _ => r = Ok Applied ∧ ∃ n leaf, sh_nullifiers stx = [n] ∧ (n ∉ nullifiers p) ∧
                 nullifiers p' = {[n]} ∪ nullifiers p ∧
                 applied (guard p') = applied (guard p) ++ [new_delta p (delta_key block) n leaf] ∧
                 revert_update (delta_key block) p' = Some (p, Ok ())
             end
    end.
Proof.
  intros Hp. pose proof (state_ok_coherent _ _ (po_state _ Hp)) as Hco.
  destruct (apply_update_cases block env p Hco) as (p' & r & Ha & Hc).
  exists p', r. split_and!; [done|by eapply apply_update_ok|].
  destruct (st_shielded (signed_trans block)) as [stx|]; [|done].
  rewrite (bool_decide_ext _ (is_Some (applied_index (guard p) !! delta_key block))) by (by apply indexed_iff).
  case_bool_decide; [done|]. destruct (validate_shielded _ _ _); [|done].
  destruct Hc as [-> (n & leaf & Hn & Hna)]. split; [done|]. exists n, leaf.
  destruct (newly_applied_ok _ _ _ _ _ Hp Hna) as (Hp' & Hap & Hns). split_and!; [done|by destruct Hna|done|done|].
  by eapply revert_newly_applied.
Qed.

(** Reverting a block removes exactly its delta. The call never panics. A
    hash with no recorded delta is an error that changes nothing. Otherwise,
    wherever in the history the delta is, it is removed, its nullifiers become
    spendable again and no other, the surviving deltas keep their hashes, leaves
    and nullifiers in order, and the pool is well-formed again. *)
Theorem revert_update_exact h p :
  pool_ok p →
  ∃ p' r, revert_update h p = Some (p', r) ∧ pool_ok p' ∧
    (((h ∉ dl_block_hash <$> applied (guard p)) ∧ p' = p ∧ r = Err (CErrPoolRollback h)) ∨
     (∃ i d, applied (guard p) !! i = Some d ∧ dl_block_hash d = h ∧ r = Ok () ∧
        nullifiers p' = nullifiers p ∖ list_to_set (dl_nullifiers d) ∧
        delta_data <$> applied (guard p') = delete i (delta_data <$> applied (guard p)))).
Proof.
  intros Hp. destruct (decide (h ∈ dl_block_hash <$> applied (guard p))) as [Hin|Hn].
  - apply list_elem_of_fmap in Hin as (d & -> & [i Hi]%list_elem_of_lookup).
    destruct (revert_recorded p i d Hp Hi) as (st & Hr & _ & Hdd & _).
    eexists _, _. split_and!; [done|by eapply revert_update_ok|]. right. exists i, d. by split_and!.
  - exists p, (Err (CErrPoolRollback h)). split_and!; [|done|by left]. unfold revert_update.
    assert (applied_index (guard p) !! h = None) as ->; [|done].
    apply eq_None_not_Some. by rewrite <-indexed_iff.
Qed.

(** The persisted pool survives a restart and tampering is refused. A
    well-formed pool's snapshot reloads to the same pool, its view on the
    current roots. Loading any record at all never panics, and when it is
    accepted and its block hashes are distinct the pool is well-formed and
    snapshots back to that record, up to the order of the nullifiers. *)
Theorem reload_roundtrip :
  (∀ p, pool_ok p → ∃ state, state_snapshot p = Some state ∧
     from_state state (pool_window p) =
       Some (Ok (mkShieldedPool (nullifiers p) (pool_window p) (pl_roots (guard p)) (guard p)))) ∧
  (∀ state w, ∃ r, from_state state w = Some r ∧
     ∀ p, r = Ok p → NoDup (dl_block_hash <$> ps_applied state) →
       pool_ok p ∧ pool_window p = w ∧ ∃ state', state_snapshot p = Some state' ∧
         ps_root state' = ps_root state ∧ ps_leaf_count state' = ps_leaf_count state ∧
         ps_leaves state' = ps_leaves state ∧ ps_applied state' = ps_applied state ∧
         ps_nullifiers state' ≡ₚ ps_nullifiers state).
Proof. split; [apply reload_ok|apply from_state_sound]. Qed.

(** A restart through the data service, whatever is behind the interface: what
    was saved is what is loaded. *)
Lemma save_then_load `{DataProvider} db partition_id p db' :
  pool_ok p →
  (∀ s, state_snapshot p = Some s → save_shielded_pool db s partition_id = (db', Ok ()) →
     get_shielded_pool db' partition_id = Ok (Some s)) →
  pool_save db partition_id p = Some (db', Ok ()) →
  pool_load db' partition_id (pool_window p) =
    Some (db', Ok (mkShieldedPool (nullifiers p) (pool_window p) (pl_roots (guard p)) (guard p))).
Proof.
  intros Hp Hlaw. destruct (reload_ok p Hp) as (state & Hs & Hf). unfold pool_save, pool_load. rewrite Hs. cbn.
  destruct (save_shielded_pool db state partition_id) as [db1 r] eqn:Hsave. intros He. simplify_eq.
  destruct r as [[]|]; simpl in *; [|done]. rewrite (Hlaw _ Hs Hsave). cbn. by rewrite Hf.
Qed.

(** ** The nullifier's encoding *)

(** The same transfer with its nullifier written in other bytes. *)
Definition with_nullifier (n : bytes) (stx : ShieldedTransaction) : ShieldedTransaction :=
  mkShielded (sh_id stx) (sh_action stx) (sh_token_id stx) (sh_spent_commitments stx) [n] (sh_commitments stx)
    (sh_merkle_root stx) (sh_proof stx) (sh_note_ciphertexts stx) (sh_fee stx).

(** Bytes that differ by the modulus are the same public input, so the verdict
    on the transfer is the same as long as the new bytes are not in the set. *)
Lemma validate_reencoded stx env deps deps' v n n' root :
  validate_shielded stx env deps = Ok v → sh_nullifiers stx = [n] →
  le_value n' = (le_value n + pallas_modulus)%N → n' ∉ spent deps' →
  bytes_to_root (sh_merkle_root stx) = Some root → is_root_fresh root deps' = true →
  validate_shielded (with_nullifier n' stx) env deps' = Ok v.
Proof.
  unfold validate_shielded, public_inputs_from_shielded_tx. intros Hv Hn Hle Hns Hroot Hfresh.
  destruct (check_structural stx) as [[]|] eqn:Hc; simpl in Hv; [|done].
  assert (check_structural (with_nullifier n' stx) = Ok ()) as ->.
  { unfold check_structural in *. rewrite Hn in Hc. simpl in *. done. }
  rewrite Hn, Hroot in Hv. simpl in *. destruct (head (sh_spent_commitments stx)) as [sc|]; simpl in *; [|done].
  destruct (point_coords sc) as [[cx cy]|]; simpl in *; [|done]. rewrite Hroot. simpl.
  destruct (head (sh_commitments stx)) as [oc|]; simpl in *; [|done].
  destruct (point_coords oc) as [[ox oy]|]; simpl in *; [|done].
  unfold contains_nullifier in *. rewrite !orb_false_r in *. rewrite bool_decide_false by done.
  destruct (bool_decide (n ∈ spent deps)); [done|]. rewrite Hfresh. simpl.
  destruct (negb (is_root_fresh root deps)); [done|]. destruct (f_gt _ _); [done|].
  unfold bytes32_to_fp in *. by rewrite Hle, fp_of_N_reduces.
Qed.

(** C17: one note is spent twice. The nullifier set compares bytes while the proof
    only binds the nullifier as a field element, and the bytes are reduced
    modulo the field without being checked canonical. So once a transfer is
    applied, the same transfer with the modulus added to its nullifier's bytes
    (in another block, its root still in the window) is applied as well: the one
    proof spends the one note again. *)
Theorem nullifier_reencoding_spends_twice block1 block2 env p p1 stx n n' root :
  pool_ok p →
  st_shielded (signed_trans block1) = Some stx → sh_nullifiers stx = [n] →
  apply_update block1 env p = Some (p1, Ok Applied) →
  le_value n' = (le_value n + pallas_modulus)%N → n' ∉ nullifiers p →
  st_shielded (signed_trans block2) = Some (with_nullifier n' stx) →
  delta_key block2 ∉ dl_block_hash <$> applied (guard p1) →
  bytes_to_root (sh_merkle_root stx) = Some root → is_root_fresh root (pool_deps p1) = true →
  ∃ p2, apply_update block2 env p1 = Some (p2, Ok Applied) ∧ pool_ok p2 ∧
    nullifiers p2 = {[n; n']} ∪ nullifiers p.
Proof.
  intros Hp Hs1 Hn Ha1 Hle Hn' Hs2 Hkey Hroot Hfresh.
  destruct (apply_update_cases block1 env p (state_ok_coherent _ _ (po_state _ Hp))) as (p1' & r & Ha & Hc).
  rewrite Ha1 in Ha. injection Ha as <- <-. rewrite Hs1 in Hc.
  case_bool_decide; [by destruct Hc|]. destruct (validate_shielded stx env (pool_deps p)) as [v|] eqn:Hv; [|by destruct Hc].
  destruct Hc as (_ & m & leaf & Hm & Hna). rewrite Hn in Hm. injection Hm as <-.
  destruct (newly_applied_ok _ _ _ _ _ Hp Hna) as (Hp1 & _ & Hns1).
  assert (n' ≠ n) as Hne. { intros ->. unfold pallas_modulus in Hle. lia. }
  pose proof (validate_reencoded stx env (pool_deps p) (pool_deps p1) v n n' root Hv Hn Hle) as Hv2.
  destruct (apply_update_cases block2 env p1 (state_ok_coherent _ _ (po_state _ Hp1))) as (p2 & r2 & Ha2 & Hc2).
  rewrite Hs2, bool_decide_false, Hv2 in Hc2; [|simpl; rewrite Hns1; set_solver|done|done|by rewrite <-indexed_iff].
  destruct Hc2 as (-> & m & leaf2 & Hm & Hna2). injection Hm as <-.
  destruct (newly_applied_ok _ _ _ _ _ Hp1 Hna2) as (Hp2 & _ & Hns2).
  exists p2. split_and!; [done|done|]. rewrite Hns2, Hns1. set_solver.
Qed.
End pool_properties.

(** ** A concrete pool *)

Module ConcretePool.
Export ConcreteCurve.
Import ConcreteChain.

Definition transfer (n : bytes) : ShieldedTransaction :=
  mkShielded "tx" "shielded" [2%N] [[3%N]] [n] [[4%N]] (replicate 32 0%N) [1%N] [] 1.

Definition with_shielded (h : bytes) (stx : ShieldedTransaction) : Block :=
  let t := signed_trans genesis in
  mkBlock (mkSigned (st_transaction_id t) (st_transaction t) (st_total_stake t) (st_total_voters t)
    (st_leader_address t) (st_leader_stake t) (st_leader_hash t) (st_finalizer_addr t) (st_finalizer_sig t)
    (st_executor_sigs t) (st_proposer_key t) (Some stx)) ∅ [] h 0 Optimistic [] 0.

(** The nullifier 5, and its other encoding [5 + p]. *)
Definition le32 (x : N) : bytes := reverse (be_bytes 32 x).
Definition n1 : bytes := Eval vm_compute in le32 5.
Definition n2 : bytes := Eval vm_compute in le32 (5 + pallas_modulus).
Definition block1 : Block := with_shielded [1%N] (transfer n1).
Definition block2 : Block := with_shielded [2%N] (transfer n2).

Definition pool0 : ShieldedPool := ShieldedPool_new 10.
Definition pool1 : ShieldedPool :=
  match apply_update block1 ConcreteToken.env pool0 with Some (p, _) => p | None => pool0 end.

Lemma block1_applies : apply_update block1 ConcreteToken.env pool0 = Some (pool1, Ok Applied).
Proof.
  assert (match apply_update block1 ConcreteToken.env pool0 with Some (_, Ok Applied) => true | _ => false end = true)
    as Ha by (vm_compute; reflexivity).
  unfold pool1. destruct (apply_update block1 ConcreteToken.env pool0) as [[p [[]|e]]|]; [done|discriminate..].
Qed.

Lemma pool1_fresh : is_root_fresh (0 : @Fp nat_field) (pool_deps pool1) = true.
Proof. by vm_compute. Qed.

Lemma pool1_reachable : pool_reachable 10 pool1.
Proof. apply rtc_once. by apply (step_apply block1 ConcreteToken.env _ _ (Ok Applied)), block1_applies. Qed.

Lemma reachable_witness : NoDup (spent_list pool1) ∧ nullifiers pool1 = list_to_set (spent_list pool1).
Proof.
  destruct (reachable_pool_consistent 10 pool1 pool1_reachable) as (Hnd & Hns & _). by split.
Defined.

Lemma double_spend_witness :
  ∃ p2, apply_update block2 ConcreteToken.env pool1 = Some (p2, Ok Applied) ∧ pool_ok p2 ∧
    nullifiers p2 = {[n1; n2]} ∪ nullifiers pool0.
Proof.
  apply (nullifier_reencoding_spends_twice block1 block2 ConcreteToken.env pool0 pool1 (transfer n1) n1 n2 (0 : @Fp nat_field)).
  - apply new_pool_ok.
  - reflexivity.
  - reflexivity.
  - apply block1_applies.
  - reflexivity.
  - set_solver.
  - reflexivity.
  - apply (bool_decide_eq_true_1 (delta_key block2 ∉ dl_block_hash <$> applied (guard pool1))). by vm_compute.
  - reflexivity.
  - apply pool1_fresh.
Defined.

Lemma apply_witness :
  ∃ p' r, apply_update block1 ConcreteToken.env pool0 = Some (p', r) ∧ pool_ok p'.
Proof.
  destruct (apply_update_atomic block1 ConcreteToken.env pool0 (new_pool_ok 10)) as (p' & r & Ha & Hok & _).
  exists p', r. exact (conj Ha Hok).
Defined.

Lemma revert_witness : ∃ p' r, revert_update [1%N] pool1 = Some (p', r) ∧ pool_ok p'.
Proof.
  destruct (revert_update_exact [1%N] pool1) as (p' & r & Hr & Hok & _).
  - apply (pool_reachable_ok 10), pool1_reachable.
  - exists p', r. exact (conj Hr Hok).
Defined.
End ConcretePool.
