(* ===== verification/OrphanBuffer.v ===== *)
(** * The orphan buffer (committer/src/orphan_buffer.rs)

    Finalized blocks that arrive before their parents, held per token until the
    tip reaches the parent, bounded by a global and a per-token limit and by a
    time to live. Instants are counted in one unit from a common origin, and
    [duration_since] saturates at zero as in the standard library. *)

From S2P Require Import Prelude Interfaces Types.

Record BufferedBlock := mkBuffered {
  bb_block : Block;
  parent_hash : bytes;
  inserted_at : N;
  bb_ttl : N;
}.

Definition is_expired (now : N) (b : BufferedBlock) : bool := N.leb (bb_ttl b) (now - inserted_at b).

Inductive BufferDecision := Buffered | RejectedFull.

Record OrphanBuffer := mkOrphans {
  by_token : gmap bytes (list BufferedBlock);
  max_entries : nat;
  max_per_token : nat;
  ob_ttl : N;
  ob_count : nat;
}.

Definition OrphanBuffer_new (entries per_token : nat) (ttl : N) : OrphanBuffer := mkOrphans ∅ entries per_token ttl 0.

Definition ob_len (o : OrphanBuffer) : nat := ob_count o.
Definition ob_is_empty (o : OrphanBuffer) : bool := Nat.eqb (ob_count o) 0.

Definition with_queues (m : gmap bytes (list BufferedBlock)) (count : nat) (o : OrphanBuffer) : OrphanBuffer :=
  mkOrphans m (max_entries o) (max_per_token o) (ob_ttl o) count.

(** What [retain] leaves of a queue. *)
Definition live (now : N) (q : list BufferedBlock) : list BufferedBlock := filter (λ b, is_expired now b = false) q.

(** A queue goes when expiry emptied it. *)
Definition retain_queue (now : N) (q : list BufferedBlock) : option (list BufferedBlock) :=
  if Nat.ltb (length (live now q)) (length q) && is_nil (live now q) then None else Some (live now q).

Definition dropped (now : N) (m : gmap bytes (list BufferedBlock)) : nat :=
  sum_list_with (λ kq, length kq.2 - length (live now kq.2)) (map_to_list m).

Definition drop_expired (now : N) (o : OrphanBuffer) : OrphanBuffer :=
  with_queues (omap (retain_queue now) (by_token o)) (ob_count o - dropped now (by_token o)) o.

(** The eviction loop pops from the front while the queue is at its limit. *)
Fixpoint evict_to (limit : nat) (q : list BufferedBlock) : list BufferedBlock :=
  if Nat.leb limit (length q) then match q with [] => [] | _ :: q' => evict_to limit q' end else q.

Definition ob_insert (now : N) (token_id : bytes) (b : Block) (o : OrphanBuffer) : OrphanBuffer * BufferDecision :=
  let o := drop_expired now o in
  if Nat.leb (max_entries o) (ob_count o) then (o, RejectedFull)
  else
    let queue := default [] (by_token o !! token_id) in
    let kept := evict_to (max_per_token o) queue in
    (with_queues (<[token_id := kept ++ [mkBuffered b (previous_hash b) now (ob_ttl o)]]> (by_token o))
       (S (ob_count o - (length queue - length kept))) o, Buffered).

(** The first live entry with the parent, and the queue without it. *)
Fixpoint extract_child (now : N) (parent : bytes) (q : list BufferedBlock) : option (Block * list BufferedBlock) :=
  match q with
  | [] => None
  | b :: q' =>
      if negb (is_expired now b) && bool_decide (parent_hash b = parent) then Some (bb_block b, q')
      else '(x, rest) ← extract_child now parent q'; Some (x, b :: rest)
  end.

Definition take_matching (token_id parent : bytes) (now : N) (o : OrphanBuffer) : OrphanBuffer * option Block :=
  match by_token o !! token_id with
  | None => (o, None)
  | Some queue =>
      match extract_child now parent queue with
      | None => (o, None)
      | Some (b, rest) =>
          (with_queues (if is_nil rest then delete token_id (by_token o) else <[token_id := rest]> (by_token o))
             (ob_count o - 1) o, Some b)
      end
  end.

Definition requeue_back (now : N) (token_id : bytes) (b : Block) (o : OrphanBuffer) : OrphanBuffer :=
  with_queues
    (<[token_id := default [] (by_token o !! token_id) ++ [mkBuffered b (previous_hash b) now (ob_ttl o)]]> (by_token o))
    (S (ob_count o)) o.

(** ** Accounting *)

Definition total (m : gmap bytes (list BufferedBlock)) : nat := sum_list_with (λ kq, length kq.2) (map_to_list m).

Lemma sum_list_with_perm {A} (f : A → nat) l1 l2 : l1 ≡ₚ l2 → sum_list_with f l1 = sum_list_with f l2.
Proof. induction 1; simpl; lia. Qed.

Lemma sum_insert (f : bytes * list BufferedBlock → nat) m k q :
  m !! k = None → sum_list_with f (map_to_list (<[k := q]> m)) = f (k, q) + sum_list_with f (map_to_list m).
Proof. intros Hk. exact (sum_list_with_perm f _ _ (map_to_list_insert m k q Hk)). Qed.

Lemma total_insert m k q : m !! k = None → total (<[k := q]> m) = length q + total m.
Proof. apply (sum_insert (λ kq, length kq.2)). Qed.

Lemma total_delete m k q : m !! k = Some q → total m = length q + total (delete k m).
Proof. intros Hk. rewrite <-(total_insert _ k) by apply lookup_delete_eq. by rewrite insert_delete_id. Qed.

Lemma total_replace m k q : total (<[k := q]> m) + length (default [] (m !! k)) = total m + length q.
Proof.
  destruct (m !! k) as [q0|] eqn:Hk; simpl.
  - rewrite (total_delete m k q0 Hk), <-insert_delete_eq, total_insert by apply lookup_delete_eq. lia.
  - rewrite total_insert by done. lia.
Qed.

Lemma live_length now q : length (live now q) ≤ length q.
Proof. apply length_filter. Qed.

Lemma retain_length now q : length (default [] (retain_queue now q)) = length (live now q).
Proof.
  unfold retain_queue. destruct (_ && _) eqn:E; [|done]. apply andb_true_iff in E as [_ E].
  by destruct (live now q).
Qed.

Lemma drop_total now m : total (omap (retain_queue now) m) + dropped now m = total m.
Proof.
  induction m as [|k q m Hk IH] using map_ind.
  { by rewrite omap_empty. }
  unfold dropped. rewrite (sum_insert _ m k q Hk), total_insert by done. fold (dropped now m). cbn [snd].
  rewrite omap_insert. pose proof (live_length now q). pose proof (retain_length now q) as Hl.
  destruct (retain_queue now q) as [q'|]; simpl in Hl.
  - rewrite total_insert by (by rewrite lookup_omap, Hk). lia.
  - rewrite delete_id by (by rewrite lookup_omap, Hk). lia.
Qed.

Lemma evict_to_length limit q : length (evict_to limit q) = Nat.min (length q) (limit - 1).
Proof.
  induction q as [|b q IH]; [by destruct limit|]. cbn [evict_to length].
  destruct (Nat.leb_spec limit (S (length q))); [rewrite IH|cbn [length]]; lia.
Qed.

Lemma extract_child_length now parent q b rest :
  extract_child now parent q = Some (b, rest) → length q = S (length rest).
Proof.
  revert rest. induction q as [|x q IH]; intros rest; cbn [extract_child]; [done|].
  destruct (_ && _); [by intros [= _ <-]|]. destruct (extract_child now parent q) as [[y r]|]; [|done].
  intros [= <- <-]. cbn [length]. by rewrite (IH r).
Qed.

(** The operations the committer performs on its buffer, in any order. *)
Inductive OrphanOp :=
| OInsert (now : N) (token_id : bytes) (b : Block)
| OTake (token_id parent : bytes) (now : N)
| ORequeue (now : N) (token_id : bytes) (b : Block)
| ODrop (now : N).

Definition orphan_op (o : OrphanBuffer) (op : OrphanOp) : OrphanBuffer :=
  match op with
  | OInsert now k b => (ob_insert now k b o).1
  | OTake k parent now => (take_matching k parent now o).1
  | ORequeue now k b => requeue_back now k b o
  | ODrop now => drop_expired now o
  end.

Definition is_requeue (op : OrphanOp) : bool := match op with ORequeue _ _ _ => true | _ => false end.
Definition requeues (ops : list OrphanOp) : nat := length (filter (λ op, is_requeue op = true) ops).

(** [count] is the number of blocks held; the limits may be passed by requeued blocks only. *)
Record buffer_ok (extra : nat) (o : OrphanBuffer) : Prop := mkBufferOk {
  bo_count : ob_count o = total (by_token o);
  bo_total : ob_count o ≤ max_entries o + extra;
  bo_queue k q : by_token o !! k = Some q → length q ≤ Nat.max 1 (max_per_token o) + extra;
}.

Lemma drop_expired_ok extra now o : buffer_ok extra o → buffer_ok extra (drop_expired now o).
Proof.
  intros [Hc Ht Hq]. pose proof (drop_total now (by_token o)). split; cbn; [lia..|].
  intros k q. rewrite lookup_omap. destruct (by_token o !! k) as [q0|] eqn:Ek; [|done]. cbn. intros Hr.
  pose proof (retain_length now q0) as Hl. rewrite Hr in Hl. cbn in Hl. pose proof (live_length now q0). apply Hq in Ek. lia.
Qed.

Lemma queue_le_total m k : length (default [] (m !! k)) ≤ total m.
Proof. destruct (m !! k) as [q|] eqn:E; [|cbn; lia]. cbn. rewrite (total_delete m k q E). lia. Qed.

Lemma orphan_op_ok extra o op :
  buffer_ok extra o → buffer_ok (extra + if is_requeue op then 1 else 0) (orphan_op o op).
Proof.
  intros Ho. destruct op as [now k b|k parent now|now k b|now]; cbn [orphan_op is_requeue]; rewrite ?Nat.add_0_r.
  - apply (drop_expired_ok _ now) in Ho. unfold ob_insert. set (o1 := drop_expired now o) in *. destruct Ho as [Hc Ht Hq].
    destruct (Nat.leb_spec (max_entries o1) (ob_count o1)) as [|Hlt]; [done|]. cbn [fst].
    pose proof (evict_to_length (max_per_token o1) (default [] (by_token o1 !! k))) as He.
    set (kept := evict_to _ _) in *.
    pose proof (total_replace (by_token o1) k (kept ++ [mkBuffered b (previous_hash b) now (ob_ttl o1)])) as Hr.
    rewrite length_app in Hr. cbn [length] in Hr. pose proof (queue_le_total (by_token o1) k) as Hle.
    split; cbn [ob_count by_token max_entries max_per_token with_queues]; [lia..|]. intros k' q'.
    rewrite lookup_insert_Some. intros [[_ <-]|[_ Hk]]; [|by apply Hq in Hk]. rewrite length_app. cbn [length]. lia.
  - unfold take_matching. destruct (by_token o !! k) as [q|] eqn:Ek; [|done]. destruct (extract_child _ _ _) as [[b rest]|] eqn:Ex; [|done].
    apply extract_child_length in Ex. destruct Ho as [Hc Ht Hq]. cbn [fst]. pose proof (Hq k q Ek). pose proof (total_delete _ _ _ Ek).
    pose proof (total_replace (by_token o) k rest) as Hr. rewrite Ek in Hr. cbn [default from_option id] in Hr.
    destruct rest as [|x rest]; cbn [is_nil]; cbn [length] in *;
      (split; cbn [ob_count by_token max_entries max_per_token with_queues]; [lia..|]); intros k' q'.
    + rewrite lookup_delete_Some. intros [_ Hk]. by apply Hq in Hk.
    + rewrite lookup_insert_Some. intros [[_ <-]|[_ Hk]]; [cbn [length]; lia|by apply Hq in Hk].
  - destruct Ho as [Hc Ht Hq]. pose proof (total_replace (by_token o) k (default [] (by_token o !! k) ++ [mkBuffered b (previous_hash b) now (ob_ttl o)])) as Hr.
    rewrite length_app in Hr. cbn [length] in Hr. unfold requeue_back.
    split; cbn [ob_count by_token max_entries max_per_token with_queues]; [lia..|]. intros k' q'.
    rewrite lookup_insert_Some. intros [[_ <-]|[_ Hk]]; [|apply Hq in Hk; lia]. rewrite length_app. cbn [length].
    destruct (by_token o !! k) as [q|] eqn:Ek; cbn; [apply Hq in Ek; lia|lia].
  - by apply drop_expired_ok.
Qed.

(** The orphan buffer stays within its limits. After any sequence of
    operations the count is the number of blocks held, so that its unsigned
    subtractions never underflow, and neither the global limit nor a token's is
    passed by more than the blocks put back after a lost race. *)
Theorem orphan_buffer_bounded entries per_token ttl ops :
  let o := foldl orphan_op (OrphanBuffer_new entries per_token ttl) ops in
  ob_count o = total (by_token o) ∧ ob_count o ≤ entries + requeues ops ∧
  ∀ k q, by_token o !! k = Some q → length q ≤ Nat.max 1 per_token + requeues ops.
Proof.
  assert (∀ o extra, buffer_ok extra o → let o' := foldl orphan_op o ops in
    buffer_ok (extra + requeues ops) o' ∧ max_entries o' = max_entries o ∧ max_per_token o' = max_per_token o) as Hrun.
  { clear. induction ops as [|op ops IH]; intros o extra Ho; cbn [foldl].
    { by rewrite Nat.add_0_r. }
    destruct (IH _ _ (orphan_op_ok _ _ op Ho)) as (H1 & H2 & H3). rewrite H2, H3. split_and!.
    - replace (extra + requeues (op :: ops)) with (extra + (if is_requeue op then 1 else 0) + requeues ops); [done|].
      unfold requeues. rewrite filter_cons. case_decide as Hop; [rewrite Hop|apply not_true_is_false in Hop; rewrite Hop]; cbn [length]; lia.
    - destruct op; cbn; try done; [unfold ob_insert|unfold take_matching]; by repeat case_match.
    - destruct op; cbn; try done; [unfold ob_insert|unfold take_matching]; by repeat case_match. }
  cbv zeta. destruct (Hrun (OrphanBuffer_new entries per_token ttl) 0) as ([Hc Ht Hq] & He & Hp).
  { split; cbn; [done|lia|]. intros k q. by rewrite lookup_empty. }
  rewrite He in Ht. split_and!; [done|done|]. intros k q Hk. apply Hq in Hk. by rewrite Hp in Hk.
Qed.

(** ** Taking the child of a block *)

Lemma extract_child_None now parent q :
  extract_child now parent q = None → ∀ x, x ∈ q → is_expired now x = false → parent_hash x ≠ parent.
Proof.
  induction q as [|y q IH]; cbn [extract_child]; intros Hn x; [by intros ?%not_elem_of_nil|]. rewrite elem_of_cons.
  destruct (is_expired now y) eqn:Ey; cbn [negb andb] in Hn; [|case_bool_decide; [done|]];
    (destruct (extract_child now parent q) as [[]|]; [done|]); intros [->|Hx] He; try congruence; by apply IH.
Qed.

Lemma extract_child_Some now parent q b rest :
  extract_child now parent q = Some (b, rest) →
  ∃ x, bb_block x = b ∧ parent_hash x = parent ∧ is_expired now x = false ∧ q ≡ₚ x :: rest.
Proof.
  revert rest. induction q as [|y q IH]; cbn [extract_child]; intros rest; [done|].
  destruct (negb (is_expired now y) && _) eqn:Ey.
  - intros [= <- <-]. apply andb_true_iff in Ey as [E1 E2]. apply negb_true_iff in E1. apply bool_decide_eq_true in E2. by exists y.
  - destruct (extract_child now parent q) as [[y' r]|]; [|done]. intros [= <- <-]. destruct (IH r eq_refl) as (x & ? & ? & ? & Hp).
    exists x. split_and!; [done..|]. rewrite Hp. apply Permutation_swap.
Qed.

Lemma drop_expired_queue now k o :
  default [] (by_token (drop_expired now o) !! k) = live now (default [] (by_token o !! k)).
Proof.
  cbn. rewrite lookup_omap. destruct (by_token o !! k) as [q|]; [|done]. cbn [mbind option_bind default from_option id].
  unfold retain_queue. destruct (live now q) as [|x l] eqn:El; cbn [is_nil]; [by destruct (_ && _)|by rewrite andb_false_r].
Qed.

Lemma live_idemp now q : live now (live now q) = live now q.
Proof. unfold live. apply list_filter_filter_l. naive_solver. Qed.

(** An entry records its own block's parent, as every operation makes it. *)
Definition entries_wf (q : list BufferedBlock) : Prop := ∀ x, x ∈ q → parent_hash x = previous_hash (bb_block x).

Lemma take_matching_child now k o b l :
  let q := default [] (by_token o !! k) in
  entries_wf q → (∀ x, x ∈ q → is_expired now x = false) → bb_block <$> q ≡ₚ b :: l → NoDup (previous_hash <$> b :: l) →
  ∃ o', take_matching k (previous_hash b) now o = (o', Some b) ∧
    let q' := default [] (by_token o' !! k) in
    entries_wf q' ∧ (∀ x, x ∈ q' → x ∈ q) ∧ bb_block <$> q' ≡ₚ l.
Proof.
  cbv zeta. intros Hwf Hlive Hp Hnd. unfold take_matching.
  destruct (by_token o !! k) as [q|] eqn:Ek; cbn [default from_option id] in *.
  2:{ by apply Permutation_nil_cons in Hp. }
  assert (b ∈ bb_block <$> q) as (x0 & -> & Hx0)%list_elem_of_fmap by (rewrite Hp; left).
  destruct (extract_child now _ q) as [[b' rest]|] eqn:Ex.
  2:{ exfalso. apply (extract_child_None _ _ _ Ex x0); [done|by apply Hlive|by apply Hwf]. }
  destruct (extract_child_Some _ _ _ _ _ Ex) as (x & <- & Hpar & Hexp & Hq).
  assert (x ∈ q) as Hx by (rewrite Hq; left).
  assert (bb_block x = bb_block x0) as Hxx.
  { assert (bb_block x ∈ bb_block x0 :: l) as [?|Hin]%elem_of_cons by (rewrite <-Hp; by apply list_elem_of_fmap_2); [done|].
    rewrite fmap_cons in Hnd. apply NoDup_cons in Hnd as [Hnot _]. destruct Hnot. rewrite <-Hpar, (Hwf x Hx).
    by apply list_elem_of_fmap_2. }
  assert (∀ y, y ∈ rest → y ∈ q) as Hsub by (intros y Hy; rewrite Hq; by right).
  assert (∀ m : gmap bytes (list BufferedBlock),
    default [] ((if is_nil rest then delete k m else <[k := rest]> m) !! k) = rest) as Hd.
  { intros m. destruct rest; cbn [is_nil]; [by rewrite lookup_delete_eq|by rewrite lookup_insert_eq]. }
  eexists. rewrite Hxx. split; [done|]. cbn [by_token with_queues]. rewrite Hd. split_and!; [by intros y ?%Hsub%Hwf|done|].
  rewrite Hq, fmap_cons, Hxx in Hp. by apply Permutation_cons_inv in Hp.
Qed.
