(* ===== verification/CommitPipeline.v ===== *)
(** * The commit path (committer/src/committer/committing.rs, routing.rs, finalizing.rs signature check, auth.rs)

    From an inbound commit to the chain: who may send it, which block the
    Sentinel's decision allows, the duplicate gate, the pending entry, the
    conflict gate and the append with the shielded pool in step, gas, and the
    contract deltas. The handlers run on one state with one store; a handler
    that fails leaves the state as it is at that point. *)

From S2P Require Import Prelude Steps Utf8 Interfaces Types Float StakeSets Environment Crypto Transactions Chain Validation DataProvider Deserialize.
From S2P Require Import Tokens Contracts Scan NodeRegistry NodeSafety Messages Pool Registry Epoch EpochManager Committer Nullifiers Merkle Roots ShieldedPool Selection.

(** ** State and configuration *)

Section state.
Context `{Field} `{DataProvider}.

Record CommitState := mkCommitState {
  committed_txs : gmap string (N * bytes);
  pending_registry : PendingTransactionRegistry;
  conflicts : ConflictState;
  services : BlockServices;
  shielded_pool : ShieldedPool;
  current_epoch_number : N;
  node_registry : NodeRegistry;
}.

Definition with_committed (x : gmap string (N * bytes)) (s : CommitState) : CommitState :=
  mkCommitState x (pending_registry s) (conflicts s) (services s) (shielded_pool s) (current_epoch_number s) (node_registry s).
Definition with_pending (x : PendingTransactionRegistry) (s : CommitState) : CommitState :=
  mkCommitState (committed_txs s) x (conflicts s) (services s) (shielded_pool s) (current_epoch_number s) (node_registry s).
Definition with_conflicts (x : ConflictState) (s : CommitState) : CommitState :=
  mkCommitState (committed_txs s) (pending_registry s) x (services s) (shielded_pool s) (current_epoch_number s) (node_registry s).
Definition with_services (x : BlockServices) (s : CommitState) : CommitState :=
  mkCommitState (committed_txs s) (pending_registry s) (conflicts s) x (shielded_pool s) (current_epoch_number s) (node_registry s).
Definition with_shielded_pool (x : ShieldedPool) (s : CommitState) : CommitState :=
  mkCommitState (committed_txs s) (pending_registry s) (conflicts s) (services s) x (current_epoch_number s) (node_registry s).
Definition with_store (x : store) (s : CommitState) : CommitState := with_services (mkServices (tokens (services s)) x) s.
Definition the_store (s : CommitState) : store := db (services s).

End state.

Abbreviation handler := (step CommitState CommitterError) (only parsing).

Section handler_operations.
Context `{Field} `{DataProvider}.

(** A registry operation whose error becomes [CommitterError::Core]. *)
Definition on_registry {A} (f : PendingTransactionRegistry → PendingTransactionRegistry * result PneumaticError A)
    : handler (result PneumaticError A) :=
  λ s, let '(r, res) := f (pending_registry s) in Some (with_pending r s, Ok res).
Definition core {A} (r : result PneumaticError A) : handler A := of_result (map_err CErrCore r).
End handler_operations.

Record CommitterConfig := mkCommitterConfig {
  cc_env : EnvironmentMetadata;
  cc_crypto : AsymCryptoProvider;
  cc_identity : AsymCryptoProvider;
  cc_host : Host;
  cc_slash_fraction : f64;
}.

(** ** Who may send what *)

Inductive AllowedSenders := Exact (t : NodeRegistryType) | AnyRegistered | SelfOnly.

Definition allowed_senders_for (action : string) : AllowedSenders :=
  if String.eqb action "Commit" || String.eqb action "BlockFinalized" then Exact Finalizer
  else if String.eqb action "DistributeToken" || String.eqb action "DistributeBlock" then Exact Types.Committer
  else if String.eqb action "BlockConfirmed" then AnyRegistered
  else if String.eqb action "BlockQuorumReached" then Exact Types.Committer
  else if String.eqb action "EpochReconcile" then SelfOnly
  else Exact Types.Committer.

Definition sender_public_key (c : CommitterConfig) : bytes :=
  match public_key (cc_identity c) with Ok k => k | Err _ => [] end.

Definition authenticate_message (c : CommitterConfig) (r : NodeRegistry) (m : Message) : result CommitterError () :=
  match authenticate_envelope (cc_crypto c) (cc_host c) r (msg_signature m) (msg_public_key m) (body m) with
  | Err _ => Err (CErrUnauthenticatedSender (msg_public_key m))
  | Ok _ =>
      match allowed_senders_for (action m) with
      | Exact expected =>
          if node_may_send_action (cc_host c) (msg_public_key m) [expected] r then Ok ()
          else Err (CErrUnauthorizedRole (action m))
      | SelfOnly =>
          if bool_decide (msg_public_key m = sender_public_key c) then Ok () else Err (CErrUnauthorizedRole (action m))
      | AnyRegistered => Ok ()
      end
  end.

(** ** Authority *)

Section authority.
Context `{HashIter} `{Rmp} `{Sha256} (c : CommitterConfig).

Definition verify_finalizer_sig_under (signed : SignedTransaction) (key : bytes) (tx_id : string) : result CommitterError () :=
  map_err (λ f, match f with
                | Missing | InvalidUnderKey => CErrInvalidFinalizerSignature
                | PayloadMismatch _ _ => CErrSignaturePayloadMismatch tx_id
                end) (verify_finalizer_signature signed key (cc_identity c)).

Definition verify_block_finalizer_sig (b : Block) : result CommitterError () :=
  let signed := signed_trans b in
  verify_finalizer_sig_under signed (st_finalizer_addr signed) (tx_id (st_transaction signed)).

(** The routing decision this node holds for a transaction it has not committed. *)
Definition held_decision (id : string) (r : PendingTransactionRegistry) : option SelectionRecord :=
  match transactions r !! id with
  | Some entry =>
      match pt_state entry with
      | Preloaded tx | Validated tx _ | Executing tx | Finalizing tx _ => tx_selection tx
      | _ => None
      end
  | None => None
  end.

Definition block_authority (b : Block) (sender_key : bytes) (id : string) (nodes : NodeRegistry)
    (r : PendingTransactionRegistry) : result CommitterError () :=
  let tx := st_transaction (signed_trans b) in
  match tx_selection tx with
  | None =>
      if is_none (st_shielded (signed_trans b)) then Err (CErrRouting "no routing decision")
      else verify_block_finalizer_sig b
  | Some record =>
      attested ← map_err CErrCore (SelectionRecord_verify record (tx_id tx) FINALIZER_DOMAIN (cc_identity c));
      if negb attested then Err (CErrRouting "decision does not verify")
      else if negb (bool_decide (Sentinel ∈ find_node_types_by_public_key (cc_host c) (sr_sentinel_public_key record) nodes))
      then Err (CErrRouting "attester is not a Sentinel")
      else if negb (names record sender_key) then Err (CErrRouting "sender is not the assigned Finalizer")
      else match held_decision id r with
           | Some held =>
               if negb (same_decision_as held record) then Err (CErrRouting "another decision is held")
               else verify_finalizer_sig_under (signed_trans b) (sr_finalizer_public_key record) id
           | None => verify_finalizer_sig_under (signed_trans b) (sr_finalizer_public_key record) id
           end
  end.

Definition commit_authority (commit : TransactionCommit) (sender_key : bytes) (nodes : NodeRegistry)
    (r : PendingTransactionRegistry) : result CommitterError () :=
  block_authority (proposed_block commit) sender_key (from_utf8_lossy (trans_id commit)) nodes r.

Definition gossip_authority (b : Block) (sender_key : bytes) (nodes : NodeRegistry) (r : PendingTransactionRegistry)
    : result CommitterError () :=
  block_authority b sender_key (tx_id (st_transaction (signed_trans b))) nodes r.
End authority.

(** ** Contract deltas *)

Section deltas.
Context `{HashIter} `{Rmp} `{Sha256} `{DataProvider} (env : EnvironmentMetadata).

Definition deploy_failed : CommitterError := CErrCore (Validation [ContractDeployFailed]).

Definition apply_deploy_delta (tx : Transaction) (st : store) : may_panic (store * result CommitterError ()) :=
  match decode_params of_DeployParams (tx_payload tx) with
  | Err e => Some (st, Err (CErrDeserialization e))
  | Ok params =>
      r ← deploy_contract (tx_sender tx) (N.of_nat (tx_sequence_number tx)) params;
      Some match r with
           | Err _ => (st, Err deploy_failed)
           | Ok delta =>
               match rmp_enc (ser_CreateTokenDelta delta) with
               | Err _ => (st, Err CErrInternalSerialization)
               | Ok result_bytes =>
                   if bool_decide (sha256 result_bytes ≠ tx_result_hash tx) then
                     (st, Err (CErrTransactionPayloadMismatch (tx_id tx)))
                   else match to_token delta (environment_id env) with
                   | Err _ => (st, Err deploy_failed)
                   | Ok token =>
                       match get_token st (ct_token_id delta) (environment_id env) with
                       | Ok _ => (st, Ok ())
                       | Err _ =>
                           let '(st', saved) := save_token st (ct_token_id delta) token (environment_id env) in
                           (st', map_err (λ e, CErrCore (Data e)) saved)
                       end
                   end
               end
           end
  end.

Definition with_sc_storage (f : gmap bytes bytes → gmap bytes bytes) (sc : SmartContract) : SmartContract :=
  mkContract (sc_name sc) (sc_bytecode sc) (sc_version sc) (f (sc_storage sc)) (sc_owners sc) (sc_threshold sc).

(** Saving the changed token under its own id. *)
Definition persist_token (t : Token) (st : store) : store * result CommitterError () :=
  let '(st', saved) := save_token st (tok_id t) t (environment_id env) in (st', map_err (λ e, CErrCore (Data e)) saved).

Definition apply_storage_delta (tx : Transaction) (st : store) : store * result CommitterError () :=
  match get_token st (tx_token_id tx) (environment_id env) with
  | Err _ => (st, Ok ())
  | Ok token =>
      if bool_decide (tok_metadata token !! "contract_engine" ≠ Some "Wasm") then (st, Ok ())
      else if is_nil (tx_result_data tx) then (st, Ok ())
      else if bool_decide (sha256 (tx_result_data tx) ≠ tx_result_hash tx) then
        (st, Err (CErrTransactionPayloadMismatch (tx_id tx)))
      else match decode_params of_WasmResult (tx_result_data tx) with
      | Err e => (st, Err (CErrDeserialization e))
      | Ok r =>
          let '(token', applied) :=
            update_asset ser_SmartContract contract_asset (with_sc_storage (apply_delta_to (storage_delta r))) token in
          match applied with
          | None => (st, Err deploy_failed)
          | Some _ => persist_token token' st
          end
      end
  end.

Definition apply_upgrade_delta (tx : Transaction) (current_epoch : N) (st : store) : store * result CommitterError () :=
  match get_token st (tx_token_id tx) (environment_id env) with
  | Err _ => (st, Ok ())
  | Ok token =>
      match decode_params of_UpgradeParams (tx_payload tx) with
      | Err e => (st, Err (CErrDeserialization e))
      | Ok params =>
          let delta := mkReplaceAsset (tx_token_id tx) (up_new_bytecode params) (up_new_owners params)
                         (up_new_threshold params) (up_proposal_epoch params) in
          match rmp_enc (ser_ReplaceAssetDelta delta) with
          | Err _ => (st, Err CErrInternalSerialization)
          | Ok result_bytes =>
              if bool_decide (sha256 result_bytes ≠ tx_result_hash tx) then
                (st, Err (CErrTransactionPayloadMismatch (tx_id tx)))
              else if match get_contract token with Some current => N.eqb (sc_threshold current) 0 | None => false end
              then (st, Ok ())
              else if negb (timelock_satisfied (up_proposal_epoch params) current_epoch) then (st, Ok ())
              else match apply_replace_asset token delta with
                   | (_, Err _) => (st, Ok ())
                   | (token', Ok _) => persist_token token' st
                   end
          end
      end
  end.
End deltas.

(** ** The pipeline *)

Section pipeline.
Context `{Poseidon} `{!Pallas} `{!Halo2} `{HashIter} `{Rmp} `{Sha256} `{DataProvider}.
Context (c : CommitterConfig).

Definition PRUNE_THRESHOLD : nat := 4096.

Definition prune_committed_txs (s : CommitState) : CommitState :=
  with_committed (filter (λ kv : string * (N * bytes), (current_epoch_number s ≤ kv.2.1)%N) (committed_txs s)) s.

(** [shielded_pool.save] under the token partition. *)
Definition save_pool : handler () := λ s,
  '(st, r) ← pool_save (the_store s) (token_partition_id (cc_env c)) (shielded_pool s); Some (with_store st s, r).

Definition revert_pool (h : bytes) : handler () := λ s,
  '(p, r) ← revert_update h (shielded_pool s); Some (with_shielded_pool p s, r).

Definition shielded_commit_apply (commit : TransactionCommit) : handler PoolApplyOutcome := λ s,
  '(p, r) ← apply_update (proposed_block commit) (cc_env c) (shielded_pool s);
  let s := with_shielded_pool p s in
  match r with
  | Ok Applied =>
      '(s, saved) ← save_pool s;
      match saved with
      | Ok _ => Some (s, Ok Applied)
      | Err e =>
          '(s, reverted) ← revert_pool (current_hash (proposed_block commit)) s;
          match reverted with
          | Ok _ => Some (s, Err e)
          | Err _ => Some (s, Err (CErrPoolPersist "pool save failed; delta revert failed"))
          end
      end
  | r => Some (s, r)
  end.

Definition shielded_commit_undo (commit : TransactionCommit) (applied : PoolApplyOutcome) : handler () :=
  match applied with
  | Applied => _ ← revert_pool (current_hash (proposed_block commit)); save_pool
  | _ => mret ()
  end.

(** [block_services.commit_block], its result with the new state. *)
Definition commit_to_chain (commit : TransactionCommit) (rollback : option bytes)
    : handler (result CommitterError TokenCommitResult) := λ s,
  let '(sv, r) := services_commit_block (cc_env c) commit rollback (services s) in Some (with_services sv s, Ok r).

(** A defeated block that never reached the pool has no delta to revert. *)
Definition discard_loser (loser : bytes) : handler () := λ s,
  match revert_pool loser s with
  | Some (s, Ok _) | Some (s, Err (CErrPoolRollback _)) => save_pool s
  | r => r
  end.

(** The pool moves first, and back when the append fails. *)
Definition append_with_pool (commit : TransactionCommit) (rollback : option bytes) (then_ : handler ()) : handler () :=
  applied ← shielded_commit_apply commit;
  r ← commit_to_chain commit rollback;
  match r with
  | Ok _ => then_
  | Err e => _ ← shielded_commit_undo commit applied; fails e
  end.

(** Step 3. *)
Definition resolve_and_append (commit : TransactionCommit) (finalizer_key : bytes) : handler () := λ s,
  let '(cs, outcome) := handle_conflict_at_commit (cc_slash_fraction c) commit finalizer_key (conflicts s) in
  let s := with_conflicts cs s in
  match outcome with
  | Err e => Some (s, Err e)
  | Ok CommitOutcome => append_with_pool commit None (mret ()) s
  | Ok (CommitWinnerAfterRollback loser) => append_with_pool commit (Some loser) (discard_loser loser) s
  end.

(** The duplicate gate, and the entry of a commit nothing upstream announced. *)
Definition refuse_booked (id : string) : handler () :=
  booked ← asks (λ s, committed_txs s !! id);
  match booked with
  | Some (_, h) => fails (CErrTransactionAlreadyCommitted id h)
  | None => mret ()
  end.

Definition materialize (id : string) (tx : Transaction) (finalizer_key : bytes) : handler () :=
  known ← asks (λ s, contains id (pending_registry s));
  if (known : bool) then mret ()
  else
    r ← on_registry (add_transaction id (PendingTransaction_new id (Finalizing tx finalizer_key)));
    of_result (map_err (λ _, CErrTransactionNotInFinalizing id) r).

(** Step 1: [true] when the entry is already booked with this very block. *)
Definition acquire_entry (id : string) (block_hash : bytes) : handler bool :=
  r ← on_registry (acquire_transaction id);
  match r with
  | Ok _ => mret false
  | Err _ =>
      entry ← asks (λ s, transactions (pending_registry s) !! id);
      match pt_state <$> (entry : option PendingTransaction) with
      | Some (Committed _ h) => if bool_decide (h = block_hash) then mret true else fails (CErrTransactionNotInFinalizing id)
      | _ => fails (CErrTransactionNotInFinalizing id)
      end
  end.

(** Step 2: the transaction, and whether the leader proposed it. *)
Definition extract_transaction (id : string) (wire_tx : Transaction) (wire_authoritative : bool) : handler (Transaction * bool) :=
  if wire_authoritative then mret (wire_tx, false)
  else
    entry ← asks (λ s, transactions (pending_registry s) !! id);
    match entry with
    | None => fails (CErrCore (not_found id))
    | Some e =>
        match pt_state e with
        | Finalizing tx _ => mret (tx, false)
        | Validated tx _ => mret (tx, true)
        | _ => fails (CErrTransactionNotInFinalizing id)
        end
    end.

(** The identity compare; then the producer's result is adopted. *)
Definition adopt_result (id : string) (tx wire_tx : Transaction) : handler Transaction :=
  mine ← core (identity_hash tx);
  theirs ← core (identity_hash wire_tx);
  if bool_decide (mine ≠ theirs) then fails (CErrTransactionPayloadMismatch id)
  else mret (mkTransaction (tx_id tx) (tx_action tx) (tx_token_id tx) (tx_bid tx) (tx_sequence_number tx) (tx_sender tx)
               (tx_receiver tx) (tx_amount tx) (tx_timestamp tx) (tx_result_hash wire_tx) (tx_sender_signature tx)
               (tx_payload tx) (tx_gas_limit tx) (tx_result_data wire_tx) (tx_selection tx)).

Definition check_shielded (id : string) (wire : option ShieldedTransaction) : handler () :=
  match wire with
  | None => mret ()
  | Some wire_shielded =>
      held ← asks (λ s, get_shielded id (pending_registry s));
      match held with
      | None => fails (CErrTransactionPayloadMismatch id)
      | Some mine =>
          a ← core (Shielded_hash wire_shielded);
          b ← core (Shielded_hash mine);
          if bool_decide (a ≠ b) then fails (CErrTransactionPayloadMismatch id) else mret ()
      end
  end.

(** Step 3.5. *)
Definition deduct_gas (id : string) (sender : bytes) : handler () := λ s,
  match get_gas_used id (pending_registry s) with
  | None => Some (s, Ok ())
  | Some gas_used =>
      match get_user (the_store s) sender (token_partition_id (cc_env c)) with
      | Err e => Some (s, Err (CErrGasDeduction sender id gas_used e))
      | Ok user =>
          let user := mkUser (user_public_key user) (sat_sub (fuel_balance user) gas_used) (user_stake user) (nonce user) in
          let '(st, saved) := save_user (the_store s) sender user (token_partition_id (cc_env c)) in
          Some (with_store st s, map_err (CErrGasDeduction sender id gas_used) saved)
      end
  end.

(** Steps 3.6 to 3.8. *)
Definition apply_deltas (tx : Transaction) (epoch : N) : handler () := λ s,
  if String.eqb (tx_action tx) "DeployContract" then
    '(st, r) ← apply_deploy_delta (cc_env c) tx (the_store s); Some (with_store st s, r)
  else if String.eqb (tx_action tx) "ContractCall" then
    let '(st, r) := apply_storage_delta (cc_env c) tx (the_store s) in Some (with_store st s, r)
  else if String.eqb (tx_action tx) "UpgradeContract" then
    let '(st, r) := apply_upgrade_delta (cc_env c) tx epoch (the_store s) in Some (with_store st s, r)
  else Some (s, Ok ()).

(** Steps 4 and 5, and the booking. *)
Definition book_committed (id : string) (tx : Transaction) (b : Block) (is_leader_proposal : bool) : handler () :=
  _ ← updates (λ s, if is_leader_proposal then with_pending (remove_from_pool id (pending_registry s)) s else s);
  _ ← on_registry (get_transaction_mut id (transition_to_committed tx (current_hash b)));
  released ← on_registry (release_transaction id);
  should_remove ← core released;
  _ ← (if (should_remove : bool) then on_registry (remove_transaction id) else mret (Ok ()) : handler (result PneumaticError ()));
  _ ← updates (λ s, with_committed (<[id := (blk_epoch_number b, current_hash b)]> (committed_txs s)) s);
  updates (λ s, if bool_decide (PRUNE_THRESHOLD < size (committed_txs s)) then prune_committed_txs s else s).

(** [check_and_commit_transaction_results]. *)
Definition check_and_commit (commit : TransactionCommit) (finalizer_key : bytes) : handler () :=
  let id := from_utf8_lossy (trans_id commit) in
  let b := proposed_block commit in
  let wire_tx := st_transaction (signed_trans b) in
  _ ← refuse_booked id;
  _ ← materialize id wire_tx finalizer_key;
  wire_authoritative ← acquire_entry id (current_hash b);
  entry ← extract_transaction id wire_tx wire_authoritative;
  tx ← adopt_result id entry.1 wire_tx;
  _ ← check_shielded id (st_shielded (signed_trans b));
  _ ← resolve_and_append commit finalizer_key;
  _ ← deduct_gas id (tx_sender tx);
  _ ← apply_deltas tx (blk_epoch_number b);
  book_committed id tx b entry.2.

(** [handle_commit] on the decoded commit. *)
Definition handle_commit (commit : TransactionCommit) (sender_key : bytes) : handler () :=
  _ ← of_result (validate_transaction_message (cc_env c) commit);
  authority ← asks (λ s, commit_authority c commit sender_key (node_registry s) (pending_registry s));
  _ ← of_result authority;
  check_and_commit commit sender_key.
End pipeline.

(** ** Appending, for any relation its parts respect *)

Section appending.
Context `{Poseidon} `{!Pallas} `{!Halo2} `{HashIter} `{Rmp} `{Sha256} `{DataProvider} (c : CommitterConfig).
Context (R : relation CommitState) `{!PreOrder R}.
Context (Rpool : ∀ p s, R s (with_shielded_pool p s)) (Rsave : preserves R (save_pool c)).

Lemma revert_pool_preserves h : preserves R (revert_pool h).
Proof. intros s s' r. unfold revert_pool. destruct (revert_update _ _) as [[p x]|]; [|done]. intros [= <- _]. apply Rpool. Qed.

Lemma discard_preserves loser : preserves R (discard_loser c loser).
Proof.
  intros s s' r. unfold discard_loser. destruct (revert_pool loser s) as [[s1 x]|] eqn:Er; [|done]. apply revert_pool_preserves in Er.
  destruct x as [u|[]]; try (by intros [= <- _]); intros Hs; apply Rsave in Hs; by etrans.
Qed.

Lemma shielded_apply_preserves commit : preserves R (shielded_commit_apply c commit).
Proof.
  intros s s' r. unfold shielded_commit_apply. destruct (apply_update _ _ _) as [[p x]|]; [|done]. cbn [mbind option_bind].
  set (s1 := with_shielded_pool p s). assert (R s s1) as Hk1 by apply Rpool.
  destruct x as [[]|e]; try (by intros [= <- _]).
  destruct (save_pool c s1) as [[s2 saved]|] eqn:Es; [|done]. cbn [mbind option_bind]. apply Rsave in Es.
  destruct saved as [_u|e]; [intros [= <- _]; by etrans|].
  destruct (revert_pool _ s2) as [[s3 rv]|] eqn:Er; [|done]. cbn [mbind option_bind]. apply revert_pool_preserves in Er.
  assert (R s s3) by (etrans; [exact Hk1|]; by etrans). by destruct rv; intros [= <- _].
Qed.

#[local] Hint Resolve revert_pool_preserves shielded_apply_preserves discard_preserves : handlers.

Context (Rconflicts : ∀ cs s, R s (with_conflicts cs s)) (Rchain : ∀ commit rb, preserves R (commit_to_chain c commit rb)).

Lemma append_preserves commit rb m : preserves R m → preserves R (append_with_pool c commit rb m).
Proof. intros Hm. unfold append_with_pool, shielded_commit_undo. handler_steps. Qed.

Lemma resolve_preserves commit key : preserves R (resolve_and_append c commit key).
Proof.
  intros s s' r. unfold resolve_and_append. destruct (handle_conflict_at_commit _ _ _ _) as [cs o].
  destruct o as [[|loser]|e]; [| |by intros [= <- _]]; intros Hs; (etrans; [apply (Rconflicts cs)|]).
  all: eapply append_preserves; [|exact Hs]; eauto with handlers.
Qed.
End appending.

Section appended.
Context `{Poseidon} `{!Pallas} `{!Halo2} `{HashIter} `{Rmp} `{Sha256} `{DataProvider} (c : CommitterConfig).

Definition same_cache (s s' : CommitState) : Prop := tokens (services s') = tokens (services s).
#[global] Instance same_cache_preorder : PreOrder same_cache.
Proof. split; [done|]. unfold same_cache. intros s1 s2 s3 E1 E2. congruence. Qed.

Lemma save_pool_cache : preserves same_cache (save_pool c).
Proof. intros s s' r. unfold save_pool. destruct (pool_save _ _ _) as [[st x]|]; [|done]. by intros [= <- _]. Qed.

Lemma shielded_apply_tokens commit : preserves same_cache (shielded_commit_apply c commit).
Proof. apply shielded_apply_preserves; [apply _|done|apply save_pool_cache]. Qed.

Context (R : relation CommitState) `{!PreOrder R}.
Context (Rpool : ∀ p s, R s (with_shielded_pool p s)) (Rsave : preserves R (save_pool c)).

(** A success appended the block, between steps that touch the pool only. *)
Lemma resolve_success commit key s s' :
  resolve_and_append c commit key s = Some (s', Ok ()) →
  ∃ s1 s2 rb res, tokens (services s1) = tokens (services s) ∧
    commit_to_chain c commit rb s1 = Some (s2, Ok (Ok res)) ∧ R s2 s'.
Proof.
  unfold resolve_and_append. destruct (handle_conflict_at_commit _ _ _ _) as [cs o].
  assert (∀ rb m s0, preserves R m → tokens (services s0) = tokens (services s) →
    append_with_pool c commit rb m s0 = Some (s', Ok ()) →
    ∃ s1 s2 rb res, tokens (services s1) = tokens (services s) ∧
      commit_to_chain c commit rb s1 = Some (s2, Ok (Ok res)) ∧ R s2 s') as Hgo.
  { intros rb m s0 Hm Hs0 Happ. unfold append_with_pool in Happ.
    apply step_bind_inv in Happ as (s1 & [o'|e] & Hap & Happ); [|by destruct Happ].
    apply step_bind_inv in Happ as (s2 & [[res|e]|e] & Hch & Happ); [..|by destruct Happ].
    - exists s1, s2, rb, res. split_and!; [|done|by eapply Hm]. etrans; [|exact Hs0]. by eapply shielded_apply_tokens.
    - apply step_bind_inv in Happ as (s3 & [u|e'] & _ & Happ); [done|by destruct Happ]. }
  destruct o as [[|loser]|e]; [| |done]; apply Hgo; try done.
  - apply preserves_ret, _.
  - by apply discard_preserves.
Qed.
End appended.

(** ** The token cache never takes in a contract's changes *)

Section cache.
Context `{Poseidon} `{!Pallas} `{!Halo2} `{HashIter} `{Rmp} `{Sha256} `{DataProvider} (c : CommitterConfig).

Lemma commit_block_asset t b arch env rb : asset_data (commit_block t b arch env rb).1 = asset_data t.
Proof. unfold commit_block. repeat case_match; done. Qed.

(** Every cached token stays cached, with the asset it was cached with. *)
Definition keeps_assets (s s' : CommitState) : Prop :=
  ∀ k t, tokens (services s) !! k = Some t → ∃ t', tokens (services s') !! k = Some t' ∧ asset_data t' = asset_data t.

#[global] Instance keeps_assets_preorder : PreOrder keeps_assets.
Proof.
  split; [intros s k t Ht; by exists t|]. intros s1 s2 s3 H12 H23 k t Ht.
  destruct (H12 k t Ht) as (t2 & Ht2 & E2). destruct (H23 k t2 Ht2) as (t3 & Ht3 & E3). exists t3. by rewrite E3.
Qed.

Lemma same_tokens s s' : tokens (services s') = tokens (services s) → keeps_assets s s'.
Proof. intros E k t Ht. exists t. by rewrite E. Qed.

Lemma services_keep env commit rb sv :
  ∀ k t, tokens sv !! k = Some t →
    ∃ t', tokens (services_commit_block env commit rb sv).1 !! k = Some t' ∧ asset_data t' = asset_data t.
Proof.
  intros k t Hk. unfold services_commit_block. case_match; [by exists t|].
  set (warmed := match tokens sv !! tc_token_id commit with Some _ => _ | None => _ end).
  destruct warmed as [sv1|e] eqn:Ew; [|by exists t].
  assert (tokens sv1 !! k = Some t) as Hk1.
  { unfold warmed in Ew. destruct (tokens sv !! tc_token_id commit) eqn:E; [congruence|].
    destruct (get_token _ _ _) as [l|]; [|done]. apply (inj Ok) in Ew as <-. cbn. rewrite lookup_insert_ne; [done|]. intros <-. congruence. }
  destruct (tokens sv1 !! tc_token_id commit) as [tk|] eqn:Et; [|by exists t].
  pose proof (commit_block_asset tk (proposed_block commit) false env rb) as Ha.
  destruct (commit_block _ _ _ _ _) as [t' res]. cbn [fst] in Ha.
  assert (∃ t'', <[tc_token_id commit := t']> (tokens sv1) !! k = Some t'' ∧ asset_data t'' = asset_data t) as Hgoal.
  { destruct (decide (tc_token_id commit = k)) as [Heq|Hne]; [subst k|].
    - exists t'. rewrite lookup_insert_eq. split; [done|]. rewrite Ha. congruence.
    - exists t. by rewrite lookup_insert_ne. }
  destruct res as [r|e]; [|done]. destruct (save_token _ _ _ _) as [db' []]; done.
Qed.

(** A commit that succeeds appended the block to the cached token, or to the
    stored one when none was cached, and saved the result. *)
Lemma services_appends env commit rb sv sv' r :
  services_commit_block env commit rb sv = (sv', Ok r) →
  ∃ t t', (tokens sv !! tc_token_id commit = Some t ∨
           (tokens sv !! tc_token_id commit = None ∧ get_token (db sv) (tc_token_id commit) (token_partition_id env) = Ok t)) ∧
    commit_block t (proposed_block commit) false env rb = (t', Ok r) ∧
    tokens sv' !! tc_token_id commit = Some t' ∧
    (∃ st, save_token st (tc_token_id commit) t' (token_partition_id env) = (db sv', Ok ())).
Proof.
  unfold services_commit_block. case_match; [done|].
  assert (∀ (m : gmap bytes Token) t, 
    (let '(token', res) := commit_block t (proposed_block commit) false env rb in
     let s2 := mkServices (<[tc_token_id commit := token']> m) (db sv) in
     match res with
     | Err e => (s2, Err (CErrBlockCommit e))
     | Ok r =>
         let '(db', saved) := save_token (db s2) (tc_token_id commit) token' (token_partition_id env) in
         let s3 := mkServices (tokens s2) db' in
         match saved with Err e => (s3, Err (CErrTokenPersist (tc_token_id commit) e)) | Ok _ => (s3, Ok r) end
     end) = (sv', Ok r) →
    ∃ t', commit_block t (proposed_block commit) false env rb = (t', Ok r) ∧ tokens sv' !! tc_token_id commit = Some t' ∧
      (∃ st, save_token st (tc_token_id commit) t' (token_partition_id env) = (db sv', Ok ()))) as Hgo.
  { intros m t. destruct (commit_block t _ _ _ _) as [t' [res|e]]; [|done]. cbn [db tokens].
    destruct (save_token _ _ _ _) as [db' [[]|e]] eqn:Es; [|done]. intros [= <- <-]. exists t'. cbn.
    rewrite lookup_insert_eq. split_and!; [done..|]. by eexists. }
  destruct (tokens sv !! tc_token_id commit) as [t|] eqn:Et.
  - rewrite Et. intros Hs. destruct (Hgo _ t Hs) as (t' & Hc). exists t, t'. split; [by left|done].
  - destruct (get_token (db sv) _ _) as [t|e] eqn:Eg; [|done]. cbn [tokens db]. rewrite lookup_insert_eq. intros Hs.
    destruct (Hgo _ t Hs) as (t' & Hc). exists t, t'. split; [by right|done].
Qed.

Lemma commit_to_chain_keeps commit rb : preserves keeps_assets (commit_to_chain c commit rb).
Proof.
  intros s s' r. unfold commit_to_chain. pose proof (services_keep (cc_env c) commit rb (services s)) as Hk.
  destruct (services_commit_block _ _ _ _) as [sv res]. intros [= <- _]. exact Hk.
Qed.

Lemma on_registry_keeps {A} (f : PendingTransactionRegistry → PendingTransactionRegistry * result PneumaticError A) :
  preserves keeps_assets (on_registry f).
Proof. intros s s' r. unfold on_registry. case_match. intros [= <- _]. by apply same_tokens. Qed.

Lemma core_keeps {A} (x : result PneumaticError A) : preserves keeps_assets (core x).
Proof. apply preserves_of_result. typeclasses eauto. Qed.

Lemma save_pool_keeps : preserves keeps_assets (save_pool c).
Proof. intros s s' r. unfold save_pool. destruct (pool_save _ _ _) as [[st x]|]; [|done]. intros [= <- _]. by apply same_tokens. Qed.

Lemma resolve_keeps commit key : preserves keeps_assets (resolve_and_append c commit key).
Proof. apply resolve_preserves; try apply _; [intros; by apply same_tokens|apply save_pool_keeps|intros; by apply same_tokens|apply commit_to_chain_keeps]. Qed.

#[local] Hint Resolve on_registry_keeps core_keeps resolve_keeps : handlers.

Lemma updates_keeps f : (∀ s, services (f s) = services s) → preserves keeps_assets (updates f : handler ()).
Proof. intros Hf s s' r [= <- _]. apply same_tokens. by rewrite Hf. Qed.

Lemma gas_keeps id sender : preserves keeps_assets (deduct_gas c id sender).
Proof.
  intros s s' r. unfold deduct_gas. case_match; [|by intros [= <- _]]. case_match; [|by intros [= <- _]].
  case_match. intros [= <- _]. by apply same_tokens.
Qed.

Lemma deltas_keeps tx epoch : preserves keeps_assets (apply_deltas c tx epoch).
Proof.
  intros s s' r. unfold apply_deltas. case_match.
  - destruct (apply_deploy_delta _ _ _) as [[st x]|]; [|done]. intros [= <- _]. by apply same_tokens.
  - repeat case_match; intros [= <- _]; by apply same_tokens.
Qed.

Lemma book_keeps id tx b l : preserves keeps_assets (book_committed id tx b l).
Proof.
  unfold book_committed. handler_steps; apply updates_keeps; intros s; try done; by case_match.
Qed.

#[local] Hint Resolve gas_keeps deltas_keeps book_keeps : handlers.

Lemma check_and_commit_keeps commit key : preserves keeps_assets (check_and_commit c commit key).
Proof.
  unfold check_and_commit, refuse_booked, materialize, acquire_entry, extract_transaction, adopt_result, check_shielded.
  handler_steps.
Qed.
End cache.

(** ** A commit under an id nobody knows *)

Section fresh.
Context `{Poseidon} `{!Pallas} `{!Halo2} `{HashIter} `{Rmp} `{Sha256} `{DataProvider} (c : CommitterConfig).

Definition fresh_id (id : string) (s : CommitState) : Prop :=
  committed_txs s !! id = None ∧ transactions (pending_registry s) !! id = None.

(** The entry such a commit makes for itself, locked. *)
Definition entered (id : string) (tx : Transaction) (key : bytes) (s : CommitState) : CommitState :=
  with_pending (with_transactions (<[id := mkPending id (Finalizing tx key) 1]> (transactions (pending_registry s)))
                  (pending_registry s)) s.

Lemma with_pending_twice r r' s : with_pending r (with_pending r' s) = with_pending r s.
Proof. done. Qed.

Lemma fresh_commit commit key s h :
  let id := from_utf8_lossy (trans_id commit) in
  let b := proposed_block commit in
  let tx := st_transaction (signed_trans b) in
  fresh_id id s → st_shielded (signed_trans b) = None → identity_hash tx = Ok h →
  check_and_commit c commit key s =
  (_ ← resolve_and_append c commit key; _ ← deduct_gas c id (tx_sender tx); _ ← apply_deltas c tx (blk_epoch_number b);
   book_committed id tx b false) (entered id tx key s).
Proof.
  cbv zeta. intros [Hb Hr] Hsh Hid. unfold check_and_commit.
  set (id := from_utf8_lossy (trans_id commit)) in *. set (tx := st_transaction (signed_trans (proposed_block commit))) in *.
  rewrite (step_bind_Ok _ _ _ s ()). 2:{ unfold refuse_booked, mbind, step_bind, asks. by rewrite Hb. }
  set (s1 := with_pending (with_transactions (<[id := mkPending id (Finalizing tx key) 0]> (transactions (pending_registry s)))
                             (pending_registry s)) s).
  rewrite (step_bind_Ok _ _ _ s1 ()).
  2:{ unfold materialize, mbind, step_bind, asks, contains. rewrite Hr. cbn. unfold on_registry, add_transaction. by rewrite Hr. }
  rewrite (step_bind_Ok _ _ _ (entered id tx key s) false).
  2:{ unfold acquire_entry, mbind, step_bind, on_registry, acquire_transaction, s1. cbn. rewrite lookup_insert_eq. cbn.
      unfold entered, with_pending, with_transactions. cbn. by rewrite insert_insert_eq. }
  rewrite (step_bind_Ok _ _ _ (entered id tx key s) (tx, false)).
  2:{ unfold extract_transaction, mbind, step_bind, asks, entered. cbn. by rewrite lookup_insert_eq. }
  cbn [fst snd]. rewrite (step_bind_Ok _ _ _ (entered id tx key s) tx).
  2:{ unfold adopt_result, core, mbind, step_bind, of_result. rewrite Hid. cbn. rewrite bool_decide_false by (by intros ?). by destruct tx. }
  rewrite Hsh. by rewrite (step_bind_Ok _ _ _ (entered id tx key s) ()).
Qed.

(** Appending leaves the pending registry alone. *)
Definition same_pending (s s' : CommitState) : Prop := pending_registry s' = pending_registry s.

#[global] Instance same_pending_preorder : PreOrder same_pending.
Proof. split; [done|]. unfold same_pending. intros s1 s2 s3 E1 E2. congruence. Qed.

Lemma resolve_pending commit key : preserves same_pending (resolve_and_append c commit key).
Proof.
  apply resolve_preserves; try apply _; try done.
  - intros s s' r. unfold save_pool. destruct (pool_save _ _ _) as [[st x]|]; [|done]. by intros [= <- _].
  - intros commit' rb s s' r. unfold commit_to_chain. case_match. by intros [= <- _].
Qed.

(** The duplicate gate compares an id the sender chooses. The block of a
    transaction already booked is refused under the id it was booked with; under
    an envelope id this node has not seen, which nothing compares with the
    transaction's own, the same block goes on to be appended and applied, as the
    fresh transaction it claims to be, and no gas is charged for it. *)
Theorem envelope_id_evades_duplicate_gate commit commit' key s epoch booked h :
  let id := from_utf8_lossy (trans_id commit) in
  let id' := from_utf8_lossy (trans_id commit') in
  let b := proposed_block commit in
  let tx := st_transaction (signed_trans b) in
  proposed_block commit' = b → st_shielded (signed_trans b) = None → identity_hash tx = Ok h →
  committed_txs s !! id = Some (epoch, booked) → fresh_id id' s → get_gas_used id' (pending_registry s) = None →
  check_and_commit c commit key s = Some (s, Err (CErrTransactionAlreadyCommitted id booked)) ∧
  check_and_commit c commit' key s =
    (_ ← resolve_and_append c commit' key; _ ← apply_deltas c tx (blk_epoch_number b);
     book_committed id' tx b false) (entered id' tx key s).
Proof.
  cbv zeta. intros Hcb Hsh Hid Hbooked Hfresh Hgas. split.
  { unfold check_and_commit, refuse_booked, mbind, step_bind, asks. by rewrite Hbooked. }
  rewrite (fresh_commit commit' key s h) by (by rewrite ?Hcb). rewrite Hcb.
  set (s1 := entered _ _ key s). assert (get_gas_used (from_utf8_lossy (trans_id commit')) (pending_registry s1) = None) as Hg1 by done.
  destruct (resolve_and_append c commit' key s1) as [[s2 [u|e]]|] eqn:Er.
  - rewrite !(step_bind_Ok _ _ s1 s2 u Er). rewrite (step_bind_Ok _ _ s2 s2 ()); [done|]. unfold deduct_gas.
    apply resolve_pending in Er. unfold same_pending in Er. by rewrite Er, Hg1.
  - unfold mbind, step_bind. by rewrite Er.
  - unfold mbind, step_bind. by rewrite Er.
Qed.
End fresh.

(** ** What a commit that succeeds leaves behind *)

Section outcomes.
Context `{Poseidon} `{!Pallas} `{!Halo2} `{HashIter} `{Rmp} `{Sha256} `{TokenStore} (c : CommitterConfig).

Lemma services_commit_ok env commit rb sv sv' r :
  services_commit_block env commit rb sv = (sv', Ok r) →
  ∃ t t', (tokens sv !! tc_token_id commit = Some t ∨
           (tokens sv !! tc_token_id commit = None ∧ get_token (db sv) (tc_token_id commit) (token_partition_id env) = Ok t)) ∧
    commit_block t (proposed_block commit) false env rb = (t', Ok r) ∧
    tokens sv' !! tc_token_id commit = Some t' ∧
    get_token (db sv') (tc_token_id commit) (token_partition_id env) = Ok t'.
Proof.
  intros (t & t' & Hf & Hc & Ht & st & Hs)%services_appends. exists t, t'. split_and!; [done..|]. by eapply token_saved.
Qed.

(** The cached and the stored token [k] are as before. *)
Definition settled (k : bytes) (s s' : CommitState) : Prop :=
  tokens (services s') !! k = tokens (services s) !! k ∧
  get_token (the_store s') k (token_partition_id (cc_env c)) = get_token (the_store s) k (token_partition_id (cc_env c)).

#[global] Instance settled_preorder k : PreOrder (settled k).
Proof. split; [by split|]. intros s1 s2 s3 [A1 B1] [A2 B2]. split; congruence. Qed.

Context (k : bytes) (Hpool : k ≠ pool_key).

Lemma same_services s s' : services s' = services s → settled k s s'.
Proof. intros E. unfold settled, the_store. by rewrite E. Qed.

Lemma save_pool_settled : preserves (settled k) (save_pool c).
Proof.
  intros s s' r. unfold save_pool, pool_save. destruct (state_snapshot _) as [x|]; [|done]. cbn [mbind option_bind].
  destruct (save_shielded_pool _ _ _) as [st sr] eqn:Es. intros [= <- _]. split; [done|]. by eapply token_kept_by_pool.
Qed.

Lemma discard_settled loser : preserves (settled k) (discard_loser c loser).
Proof. apply discard_preserves; [apply _|intros; by apply same_services|apply save_pool_settled]. Qed.

Lemma gas_settled id sender : sender ≠ k → preserves (settled k) (deduct_gas c id sender).
Proof.
  intros Hne s s' r. unfold deduct_gas. case_match; [|by intros [= <- _]]. case_match; [|by intros [= <- _]].
  destruct (save_user _ _ _ _) as [st sr] eqn:Es. intros [= <- _]. split; [done|]. eapply token_kept_by_user; [exact Es|]. congruence.
Qed.

Lemma on_registry_settled {A} (f : PendingTransactionRegistry → PendingTransactionRegistry * result PneumaticError A) :
  preserves (settled k) (on_registry f).
Proof. intros s s' r. unfold on_registry. case_match. intros [= <- _]. by apply same_services. Qed.

Lemma updates_settled f : (∀ s, services (f s) = services s) → preserves (settled k) (updates f : handler ()).
Proof. intros Hf s s' r [= <- _]. by apply same_services. Qed.

#[local] Hint Resolve on_registry_settled : handlers.

Lemma book_settled id tx b l : preserves (settled k) (book_committed id tx b l).
Proof. unfold book_committed, core. handler_steps; apply updates_settled; intros s; try done; by case_match. Qed.

End outcomes.

Section survival.
Context `{Poseidon} `{!Pallas} `{!Halo2} `{HashIter} `{Rmp} `{Sha256} `{TokenStore} (c : CommitterConfig).

(** Commits one after the other, whatever their results. *)
Fixpoint run_commits (l : list (TransactionCommit * bytes)) (s : CommitState) : may_panic CommitState :=
  match l with
  | [] => Some s
  | (commit, key) :: l' => '(s', _) ← check_and_commit c commit key s; run_commits l' s'
  end.

Lemma run_commits_keeps l s s' : run_commits l s = Some s' → keeps_assets s s'.
Proof.
  revert s. induction l as [|[commit key] l IH]; intros s; cbn [run_commits]; [by intros [= <-]|].
  destruct (check_and_commit c commit key s) as [[s1 r]|] eqn:E; [|done]. cbn. intros Hr.
  etrans; [by eapply check_and_commit_keeps|by apply IH].
Qed.

Definition changes_contracts (action : string) : bool :=
  String.eqb action "DeployContract" || String.eqb action "ContractCall" || String.eqb action "UpgradeContract".

(** A contract's state does not survive the next commit on its chain. Once a
    token is in the committer's cache, calls and upgrades change the stored copy
    only; the next commit on the token appends to the cached copy and saves that,
    so that the stored contract is again the one the cache was loaded with,
    whatever the commits in between did to it. *)
Theorem contract_writes_do_not_survive k t s earlier s1 commit key s2 h :
  let id := from_utf8_lossy (trans_id commit) in
  let b := proposed_block commit in
  let tx := st_transaction (signed_trans b) in
  k ≠ pool_key → tokens (services s) !! k = Some t → run_commits earlier s = Some s1 →
  tc_token_id commit = k → fresh_id id s1 → st_shielded (signed_trans b) = None → identity_hash tx = Ok h →
  changes_contracts (tx_action tx) = false → tx_sender tx ≠ k →
  check_and_commit c commit key s1 = Some (s2, Ok ()) →
  ∃ t2, get_token (the_store s2) k (token_partition_id (cc_env c)) = Ok t2 ∧ get_contract t2 = get_contract t.
Proof.
  cbv zeta. intros Hpool Ht Hrun Hk Hfresh Hsh Hid Hact Hsender Hc.
  rewrite (fresh_commit c commit key s1 h) in Hc by done.
  apply step_bind_inv in Hc as (sa & [[]|e] & Ha & Hc); [|by destruct Hc].
  apply step_bind_inv in Hc as (sb & [[]|e] & Hb & Hc); [|by destruct Hc].
  apply step_bind_inv in Hc as (sc & [[]|e] & Hd & Hc); [|by destruct Hc].
  eapply (resolve_success c (settled c k)) in Ha as (s3 & s4 & rb & res & Hka & Hch & Hset);
    [|intros; by apply same_services|by apply save_pool_settled].
  apply gas_settled with (k := k) in Hb; [|done]. eapply (book_settled c k) in Hc.
  assert (sc = sb) as ->.
  { unfold apply_deltas, changes_contracts in *. apply orb_false_iff in Hact as [[Hd1 Hd2]%orb_false_iff Hd3].
    rewrite Hd1, Hd2, Hd3 in Hd. by injection Hd. }
  assert (settled c k s4 s2) as [Hcache Hstore] by (etrans; [exact Hset|]; by etrans).
  unfold commit_to_chain in Hch. destruct (services_commit_block _ _ _ _) as [sv sr] eqn:Es. injection Hch as <- ->.
  destruct (services_commit_ok _ _ _ _ _ _ Es) as (t1 & t' & Hfrom & Hcb & _ & Hget). rewrite Hk in *.
  exists t'. split; [by rewrite Hstore|].
  destruct (run_commits_keeps _ _ _ Hrun k t Ht) as (ta & Hta & Ea).
  change (tokens (services s3) = tokens (services s1)) in Hka. rewrite Hka in Hfrom.
  destruct Hfrom as [Hf|[Hf _]]; [|congruence]. assert (t1 = ta) as -> by congruence.
  pose proof (commit_block_asset ta (proposed_block commit) false (cc_env c) rb) as Hasset. rewrite Hcb in Hasset.
  unfold get_contract, get_asset. cbn [fst] in Hasset. by rewrite Hasset, Ea.
Qed.
End survival.

(** ** The record of commits *)

Section books.
Context `{Poseidon} `{!Pallas} `{!Halo2} `{HashIter} `{Rmp} `{Sha256} `{DataProvider} (c : CommitterConfig).

(** Before the booking nothing is booked. *)
Definition same_books (s s' : CommitState) : Prop :=
  committed_txs s' = committed_txs s ∧ current_epoch_number s' = current_epoch_number s.
#[global] Instance same_books_preorder : PreOrder same_books.
Proof. split; [done|]. intros s1 s2 s3 [A1 B1] [A2 B2]. split; congruence. Qed.

Lemma on_registry_books {A} (f : PendingTransactionRegistry → PendingTransactionRegistry * result PneumaticError A) :
  preserves same_books (on_registry f).
Proof. intros s s' r. unfold on_registry. case_match. by intros [= <- _]. Qed.

Lemma save_pool_books : preserves same_books (save_pool c).
Proof. intros s s' r. unfold save_pool. destruct (pool_save _ _ _) as [[st x]|]; [|done]. by intros [= <- _]. Qed.

Lemma resolve_books commit key : preserves same_books (resolve_and_append c commit key).
Proof.
  apply resolve_preserves; try apply _; try done; [apply save_pool_books|].
  intros commit' rb s s' r. unfold commit_to_chain. case_match. by intros [= <- _].
Qed.

Lemma gas_books id sender : preserves same_books (deduct_gas c id sender).
Proof. intros s s' r. unfold deduct_gas. repeat case_match; by intros [= <- _]. Qed.

Lemma deltas_books tx epoch : preserves same_books (apply_deltas c tx epoch).
Proof.
  intros s s' r. unfold apply_deltas. case_match.
  - destruct (apply_deploy_delta _ _ _) as [[st x]|]; [|done]. by intros [= <- _].
  - repeat case_match; by intros [= <- _].
Qed.
#[local] Hint Resolve on_registry_books : handlers.

Lemma entry_books id b tx key wire :
  preserves same_books (refuse_booked id) ∧ preserves same_books (materialize id tx key) ∧
  preserves same_books (acquire_entry id (current_hash b)) ∧
  preserves same_books (extract_transaction id tx wire) ∧ (∀ tx', preserves same_books (adopt_result id tx' tx)) ∧
  preserves same_books (check_shielded id (st_shielded (signed_trans b))).
Proof. unfold refuse_booked, materialize, acquire_entry, extract_transaction, adopt_result, check_shielded, core. split_and!; intros; handler_steps. Qed.

(** A step that keeps the books either ends the handler or is followed by the rest. *)
Lemma bind_books {A B} (m : handler A) (f : A → handler B) s0 s s' r :
  preserves same_books m → same_books s0 s → (m ≫= f) s = Some (s', r) →
  (∃ e, r = Err e ∧ same_books s0 s') ∨ (∃ a s1, m s = Some (s1, Ok a) ∧ same_books s0 s1 ∧ f a s1 = Some (s', r)).
Proof.
  intros Hm Hs0 (s1 & r1 & Hm1 & Hrest)%step_bind_inv. pose proof (Hm _ _ _ Hm1) as Hk.
  assert (same_books s0 s1) by (by etrans). destruct r1 as [a|e]; [by right; exists a, s1|].
  destruct Hrest as [-> ->]. left. by exists e.
Qed.

Lemma book_spec id tx b leader s s' :
  book_committed id tx b leader s = Some (s', Ok ()) →
  services s' = services s ∧
  committed_txs s' =
    let m := <[id := (blk_epoch_number b, current_hash b)]> (committed_txs s) in
    if bool_decide (PRUNE_THRESHOLD < size m)
    then filter (λ kv : string * (N * bytes), (current_epoch_number s ≤ kv.2.1)%N) m else m.
Proof.
  unfold book_committed. intros Hb.
  apply step_bind_inv in Hb as (s1 & [u|e] & Hm1 & Hb); [|by destruct Hb].
  apply step_bind_inv in Hb as (s2 & [u2|e] & Hm2 & Hb); [|by destruct Hb].
  apply step_bind_inv in Hb as (s3 & [rel|e] & Hm3 & Hb); [|by destruct Hb].
  apply step_bind_inv in Hb as (s4 & [rm|e] & Hm4 & Hb); [|by destruct Hb].
  apply step_bind_inv in Hb as (s5 & [u5|e] & Hm5 & Hb); [|by destruct Hb].
  apply step_bind_inv in Hb as (s6 & [u6|e] & Hm6 & Hb); [|by destruct Hb].
  assert (same_books s s5 ∧ services s5 = services s) as [[Hc He] Hs].
  { unfold core, of_result in Hm4. injection Hm4 as <- _. injection Hm1 as <- _.
    unfold on_registry, mret, step_ret in *. repeat case_match; simplify_eq; done. }
  injection Hm6 as <- _. injection Hb as <-. cbn [committed_txs with_committed]. rewrite Hc. cbv zeta.
  destruct (bool_decide _); [|done]. split; [exact Hs|]. unfold prune_committed_txs. cbn. by rewrite He.
Qed.

Lemma gas_cache id sender : preserves same_cache (deduct_gas c id sender).
Proof. intros s s' r. unfold deduct_gas. repeat case_match; by intros [= <- _]. Qed.

Lemma deltas_cache tx epoch : preserves same_cache (apply_deltas c tx epoch).
Proof.
  intros s s' r. unfold apply_deltas. case_match.
  - destruct (apply_deploy_delta _ _ _) as [[st x]|]; [|done]. by intros [= <- _].
  - repeat case_match; by intros [= <- _].
Qed.

(** A booking that fails has booked nothing. *)
Lemma book_fails id tx b leader s s' e :
  book_committed id tx b leader s = Some (s', Err e) → same_books s s'.
Proof.
  unfold book_committed. intros Hb. assert (same_books s s) as K by done.
  apply (bind_books _ _ s) in Hb as [(? & _ & ?)|(u1 & s1 & _ & K1 & Hb)]; [done| |by intros ??? [= <- _]; destruct leader|done].
  apply (bind_books _ _ s) in Hb as [(? & _ & ?)|(u2 & s2 & _ & K2 & Hb)]; [done| |apply on_registry_books|done].
  apply (bind_books _ _ s) in Hb as [(? & _ & ?)|(u3 & s3 & _ & K3 & Hb)]; [done| |apply on_registry_books|done].
  apply (bind_books _ _ s) in Hb as [(? & _ & ?)|(u4 & s4 & _ & K4 & Hb)]; [done| |apply preserves_of_result, _|done].
  apply (bind_books _ _ s) in Hb as [(? & _ & ?)|(u5 & s5 & _ & K5 & Hb)];
    [done| |destruct u4; [apply on_registry_books|apply preserves_ret, _]|done].
  by apply step_bind_inv in Hb as (s6 & [u6|?] & Hm6 & Hb).
Qed.

(** C3: the committer books exactly the commits that succeed. A success means the
    id was not booked, the token now cached is the one [commit_block] made by
    appending the proposed block, and the books gain the id with the block's epoch
    and hash, older epochs leaving them above the threshold. Any refusal, however
    late, leaves the books as they were. *)
Theorem commits_are_booked_once commit key s s' r :
  let id := from_utf8_lossy (trans_id commit) in
  let b := proposed_block commit in
  check_and_commit c commit key s = Some (s', r) →
  match r with
  | Err _ => committed_txs s' = committed_txs s
  | Ok _ =>
      committed_txs s !! id = None ∧
      (committed_txs s' =
        let m := <[id := (blk_epoch_number b, current_hash b)]> (committed_txs s) in
        if bool_decide (PRUNE_THRESHOLD < size m)
        then filter (λ kv : string * (N * bytes), (current_epoch_number s ≤ kv.2.1)%N) m else m) ∧
      ∃ t t' rb res, commit_block t b false (cc_env c) rb = (t', Ok res) ∧
        tokens (services s') !! tc_token_id commit = Some t'
  end.
Proof.
  cbv zeta. unfold check_and_commit. intros Hc. assert (same_books s s) as K by done.
  set (id := from_utf8_lossy _) in *. set (b := proposed_block commit) in *. set (wtx := st_transaction _) in *.
  destruct (entry_books id b wtx key false) as (E1 & E2 & E3 & _ & E5 & E6).
  apply (bind_books _ _ s) in Hc as [(? & -> & [? _])|(u1 & s1 & Hr & K1 & Hc)]; [done| |done..].
  apply (bind_books _ _ s) in Hc as [(? & -> & [? _])|(u2 & s2 & _ & K2 & Hc)]; [done| |done..].
  apply (bind_books _ _ s) in Hc as [(? & -> & [? _])|(u3 & s3 & _ & K3 & Hc)]; [done| |done..].
  apply (bind_books _ _ s) in Hc as [(? & -> & [? _])|(u4 & s4 & _ & K4 & Hc)]; [done| |apply (entry_books id b wtx key)|done].
  apply (bind_books _ _ s) in Hc as [(? & -> & [? _])|(u5 & s5 & _ & K5 & Hc)]; [done| |done..].
  apply (bind_books _ _ s) in Hc as [(? & -> & [? _])|(u6 & s6 & _ & K6 & Hc)]; [done| |done..].
  apply (bind_books _ _ s) in Hc as [(? & -> & [? _])|([] & s7 & Happ & K7 & Hc)]; [done| |apply resolve_books|done].
  apply (bind_books _ _ s) in Hc as [(? & -> & [? _])|(u8 & s8 & Hg & K8 & Hc)]; [done| |apply gas_books|done].
  apply (bind_books _ _ s) in Hc as [(? & -> & [? _])|(u9 & s9 & Hd & [K9 L9] & Hc)]; [done| |apply deltas_books|done].
  destruct r as [[]|e]; [|apply book_fails in Hc as [Hc _]; congruence].
  apply book_spec in Hc as [Hsv Hbk]. apply gas_cache in Hg. apply deltas_cache in Hd. unfold same_cache in *.
  split_and!; [|by rewrite Hbk, K9, L9|].
  { unfold refuse_booked, mbind, step_bind, asks in Hr. by destruct (committed_txs s !! id) as [[]|]. }
  eapply (resolve_success c same_cache) in Happ as (sa & sb & rb & res & _ & Hch & Hs); [|done|apply save_pool_cache].
  unfold commit_to_chain in Hch. destruct (services_commit_block _ _ _ _) as [sv sr] eqn:Es. injection Hch as <- ->.
  destruct (services_appends _ _ _ _ _ _ Es) as (t & t' & _ & Hcb & Hget & _). exists t, t', rb, res. split; [done|].
  by rewrite Hsv, Hd, Hg, Hs.
Qed.
End books.

(** ** From an unsolicited acknowledgement to a commit *)

Section escalation.
Context `{HashIter} `{Rmp} `{Sha256} `{SignaturePrims} (c : CommitterConfig).

Lemma no_roles key r :
  key ≠ h_public_key (cc_host c) → (∀ role, get_nodes role r !! key = None) →
  find_node_types_by_public_key (cc_host c) key r = [].
Proof.
  intros Hself Hnone. destruct (find_node_types_by_public_key _ key r) as [|role l] eqn:E; [done|].
  assert (role ∈ find_node_types_by_public_key (cc_host c) key r) as Hin by (rewrite E; left).
  apply roles_of_key_elem in Hin as [[n Hn]|[? _]]; [|done]. by rewrite Hnone in Hn.
Qed.

(** One unsolicited acknowledgement gives a key nobody registered the whole
    authority over commits. Before it, the key's messages are refused; after it
    the same key is both the Sentinel that attests the routing decision and the
    Finalizer the decision names, so that its commit passes the sender check and
    the decision check on nothing but its own signatures. *)
Theorem unregistered_key_gains_commit_authority now req t key reason r commit m reg record :
  let b := proposed_block commit in
  let tx := st_transaction (signed_trans b) in
  let r' := (handle_control (cc_host c) now req r).1 in
  key ≠ h_public_key (cc_host c) → (∀ role, get_nodes role r !! key = None) →
  request_type req = RegisterAck true t key reason → requester_types req = [Sentinel; Finalizer] →
  verify_binding key (requester_rhash req) t (requester_types req) (binding_signature req) = true →
  (∀ role, role ∈ requester_types req → size (get_nodes role r) < get_max_node_number (cc_host c) role) →
  action m = "Commit" → msg_public_key m = key → check_signature (cc_crypto c) (msg_signature m) key (body m) = Ok true →
  tx_selection tx = Some record → sr_sentinel_public_key record = key → names record key = true →
  SelectionRecord_verify record (tx_id tx) FINALIZER_DOMAIN (cc_identity c) = Ok true →
  verify_finalizer_signature (signed_trans b) key (cc_identity c) = Ok () →
  held_decision (from_utf8_lossy (trans_id commit)) reg = None →
  authenticate_message c r m = Err (CErrUnauthenticatedSender key) ∧
  authenticate_message c r' m = Ok () ∧ commit_authority c commit key r' reg = Ok ().
Proof.
  cbv zeta. intros Hself Hnone Hty Htypes Hv Hroom Hact Hmk Hsig Hsel Hsent Hnames Hatt Hfin Hheld.
  assert (key ≠ []) as Hkey by (by intros ->).
  assert (∀ role, role ∈ [Sentinel; Finalizer] →
    role ∈ find_node_types_by_public_key (cc_host c) key (handle_control (cc_host c) now req r).1) as Hroles.
  { intros role Hr. rewrite <-Htypes in Hr. apply roles_of_key_elem. left. rewrite (ack_installs (cc_host c) now req t key reason) by auto. done. }
  assert (sr_finalizer_public_key record = key) as Hfk by (unfold names in Hnames; apply andb_true_iff in Hnames as [_ Hn]; by apply bool_decide_eq_true in Hn).
  split_and!.
  - unfold authenticate_message, authenticate_envelope. by rewrite Hmk, Hsig, no_roles.
  - unfold authenticate_message, authenticate_envelope, node_may_send_action. rewrite Hmk, Hsig, Hact.
    assert (Finalizer ∈ [Sentinel; Finalizer]) as Hf by set_solver. apply Hroles in Hf.
    set (roles := find_node_types_by_public_key _ _ _) in *. assert (existsb (λ role, bool_decide (role ∈ [Finalizer])) roles = true) as Hex.
    { apply existsb_exists. exists Finalizer. split; [by apply list_elem_of_In|]. apply bool_decide_eq_true. set_solver. }
    destruct roles; [by apply not_elem_of_nil in Hf|]. change (allowed_senders_for "Commit") with (Exact Finalizer). cbv iota. by rewrite Hex.
  - unfold commit_authority, block_authority. rewrite Hsel, Hatt. cbn [map_err mbind result_bind negb].
    rewrite Hsent, bool_decide_true by (apply Hroles; set_solver). rewrite Hnames, Hheld. cbn [negb].
    unfold verify_finalizer_sig_under. by rewrite Hfk, Hfin.
Qed.
End escalation.

(** ** Where a deployed contract goes *)

Section deployed.
Context `{HashIter} `{Rmp} `{Sha256} `{TokenStore} (env : EnvironmentMetadata).

Lemma deploy_saves tx st st' :
  apply_deploy_delta env tx st = Some (st', Ok ()) →
  ∃ params delta t, decode_params of_DeployParams (tx_payload tx) = Ok params ∧
    deploy_contract (tx_sender tx) (N.of_nat (tx_sequence_number tx)) params = Some (Ok delta) ∧
    get_token st' (ct_token_id delta) (environment_id env) = Ok t ∧
    (∀ k p, p ≠ environment_id env → get_token st' k p = get_token st k p).
Proof.
  unfold apply_deploy_delta. destruct (decode_params _ _) as [params|]; [|done].
  destruct (deploy_contract _ _ _) as [[delta|]|] eqn:Ed; [|done..]. cbn [mbind option_bind]. intros Hs. apply (inj Some) in Hs.
  destruct (rmp_enc _) as [rb|]; [|done]. case_bool_decide; [done|]. destruct (to_token _ _) as [tok|]; [|done].
  destruct (get_token st _ _) as [t|] eqn:Eg.
  - injection Hs as <-. by exists params, delta, t.
  - destruct (save_token _ _ _ _) as [st1 [[]|]] eqn:Es; [|done]. injection Hs as <-. exists params, delta, tok. split_and!; [done..| |].
    + by eapply token_saved.
    + intros k p Hp. eapply token_kept_by_token; [exact Es|]. by intros [= _ ->].
Qed.

(** A deployed contract cannot be committed to. The deployment files the token
    under the environment's id, while the append looks for it in the token
    partition: where the two differ, a successful deployment leaves the token in a
    place from which the next commit on it answers that there is no such token. *)
Theorem deployed_contract_not_found tx st st' :
  environment_id env ≠ token_partition_id env → apply_deploy_delta env tx st = Some (st', Ok ()) →
  ∃ params delta t, decode_params of_DeployParams (tx_payload tx) = Ok params ∧
    deploy_contract (tx_sender tx) (N.of_nat (tx_sequence_number tx)) params = Some (Ok delta) ∧
    get_token st' (ct_token_id delta) (environment_id env) = Ok t ∧
    ∀ e commit cached, get_token st (ct_token_id delta) (token_partition_id env) = Err e →
      tc_env_id commit = environment_id env → tc_token_id commit = ct_token_id delta → cached !! ct_token_id delta = None →
      services_commit_block env commit None (mkServices cached st') =
        (mkServices cached st', Err (CErrTokenNotFound (ct_token_id delta) (Some e))).
Proof.
  intros Hne (params & delta & t & Hp & Hd & Hg & Hk)%deploy_saves. exists params, delta, t. split_and!; [done..|].
  intros e commit cached He Henv Hid Hc. unfold services_commit_block. rewrite bool_decide_false by (by intros []).
  cbn [tokens db]. rewrite Hid, Hc, Hk by done. by rewrite He.
Qed.
End deployed.

(** ** The properties at concrete commits *)

Module ConcreteCommits.
Export ConcretePool ConcreteStore.
Import ConcreteChain ConcreteCrypto.

Definition config : CommitterConfig :=
  mkCommitterConfig ConcreteToken.env ConcreteNodes.signer ConcreteNodes.signer ConcreteNodes.host f64_one.

(** The token in the cache, and in the store the same token with other data. *)
Definition written : Token :=
  mkToken [1%N] ∅ (mkChain [genesis] ∅) None [42%N] 0 true false "SelfSigned" "env" 1.
Definition stored : store := (save_token (empty_store : store) [1%N] written "tokens").1.
Definition start : CommitState :=
  mkCommitState ∅ Registry_new (mkConflictState CandidateRegistry_new ∅) (mkServices {[ [1%N] := ConcreteToken.token ]} stored)
    pool0 0 (NodeRegistry_init [Types.Committer]).

Definition commit (id : bytes) : TransactionCommit := mkCommit id [1%N] "env" second.
Definition first : option (CommitState * result CommitterError ()) := check_and_commit config (commit [65%N]) [7%N] start.
Definition after : CommitState := match first with Some (s, _) => s | None => start end.

Lemma first_commits : first = Some (after, Ok ()).
Proof.
  assert (match first with Some (_, Ok _) => true | _ => false end = true) as Hv by (by vm_compute).
  unfold after. destruct first as [[s [[]|e]]|]; done.
Qed.

Definition wire : Transaction := Eval vm_compute in st_transaction (signed_trans second).
Lemma wire_hash : ∃ h, identity_hash wire = Ok h.
Proof. destruct (identity_hash wire) eqn:E; [by eexists|]. exfalso. assert (is_ok (identity_hash wire) = true) by (by vm_compute). by rewrite E in *. Qed.

Lemma commit_fresh : fresh_id "A" start.
Proof. split; by vm_compute. Qed.

Lemma survival_witness :
  ∃ t2, get_token (the_store after) [1%N] "tokens" = Ok t2 ∧ get_contract t2 = get_contract ConcreteToken.token.
Proof.
  destruct wire_hash as [h Hh].
  assert (changes_contracts (tx_action wire) = false) as Ha by (by vm_compute).
  assert (tx_sender wire ≠ [1%N]) as Hs by done.
  pose proof (contract_writes_do_not_survive config [1%N] ConcreteToken.token start [] start (commit [65%N]) [7%N] after h) as Hw.
  cbv zeta in Hw. exact (Hw ltac:(done) eq_refl eq_refl eq_refl commit_fresh eq_refl Hh Ha Hs first_commits).
Defined.

Lemma booked_witness : committed_txs start !! "A" = None ∧ is_Some (tokens (services after) !! [1%N]).
Proof.
  pose proof (commits_are_booked_once config (commit [65%N]) [7%N] start after (Ok ()) first_commits) as Hb.
  cbv zeta iota in Hb. destruct Hb as (Hn & _ & t & t' & _ & _ & _ & Ht). split; [exact Hn|by exists t'].
Defined.

Definition booked : N * bytes := default (0%N, []) (committed_txs after !! "A").
Lemma booked_after : committed_txs after !! "A" = Some (booked.1, booked.2).
Proof.
  assert (bool_decide (is_Some (committed_txs after !! "A")) = true) as [x Hx]%bool_decide_eq_true by (by vm_compute).
  unfold booked. rewrite Hx. by destruct x.
Qed.
Lemma other_fresh : fresh_id "B" after.
Proof. split; by vm_compute. Qed.

(** The block just booked as A, sent again as B. *)
Lemma evasion_witness :
  check_and_commit config (commit [65%N]) [7%N] after = Some (after, Err (CErrTransactionAlreadyCommitted "A" booked.2)) ∧
  check_and_commit config (commit [66%N]) [7%N] after =
    (_ ← resolve_and_append config (commit [66%N]) [7%N]; _ ← apply_deltas config wire (blk_epoch_number second);
     book_committed "B" wire second false) (entered "B" wire [7%N] after).
Proof.
  destruct wire_hash as [h Hh].
  pose proof (envelope_id_evades_duplicate_gate config (commit [65%N]) (commit [66%N]) [7%N] after booked.1 booked.2 h) as He.
  cbv zeta in He. assert (get_gas_used "B" (pending_registry after) = None) as Hg by (by vm_compute).
  exact (He eq_refl eq_refl Hh booked_after other_fresh Hg).
Defined.

(** A decision and a block one key makes for itself. *)
Definition ok_or {E A} (a : A) (r : result E A) : A := match r with Ok x => x | Err _ => a end.
Definition record : SelectionRecord :=
  Eval vm_compute in ok_or (mkSelection [] 0 [] [] []) (attest ConcreteNodes.signer "tx" FINALIZER_DOMAIN ConcreteNodes.key 0 []).
Definition self_routed : Transaction :=
  mkTransaction "tx" "Transfer" [1%N] None 1 [9%N] [8%N] None 0 [] [] [] 0 [] (Some record).
Definition signed_with (sig : TransactionSignature) : SignedTransaction :=
  mkSigned "tx" self_routed 0 0 [] 0 [] ConcreteNodes.key sig ∅ [] None.
Definition self_digest : bytes := Eval vm_compute in ok_or [] (finalizer_digest (signed_with (mkSignature [] [] [] [] 0))).
Definition self_signed : SignedTransaction :=
  Eval vm_compute in signed_with (mkSignature [] [] self_digest (ok_or [] (sign_data ConcreteNodes.signer self_digest)) 0).
Definition self_commit : TransactionCommit :=
  mkCommit [67%N] [1%N] "env" (mkBlock self_signed ∅ [] [1%N] 0 Optimistic [] 0).
Definition self_message : Message :=
  Eval vm_compute in ok_or (mkMessage "" "" [] [] [] None) (signed_message ConcreteNodes.signer "tokens" "Commit" [1%N] None).

Lemma escalation_witness :
  let r' := (handle_control ConcreteNodes.host 5 (ConcreteNodes.ack Finalizer) ConcreteNodes.empty).1 in
  authenticate_message config ConcreteNodes.empty self_message = Err (CErrUnauthenticatedSender ConcreteNodes.key) ∧
  authenticate_message config r' self_message = Ok () ∧
  commit_authority config self_commit ConcreteNodes.key r' Registry_new = Ok ().
Proof.
  cbv zeta. eapply (unregistered_key_gains_commit_authority config 5 (ConcreteNodes.ack Finalizer) Finalizer ConcreteNodes.key ""
           ConcreteNodes.empty self_commit self_message Registry_new record).
  - by vm_compute.
  - by intros [].
  - reflexivity.
  - reflexivity.
  - exact ConcreteNodes.ack_verifies.
  - exact ConcreteNodes.role_has_room.
  - by vm_compute.
  - by vm_compute.
  - by vm_compute.
  - by vm_compute.
  - by vm_compute.
  - by vm_compute.
  - by vm_compute.
  - by vm_compute.
  - by vm_compute.
Defined.

(** A contract deployed by key 9, with the result its executor reports. *)
Definition params_value : serde :=
  ser_struct [fld "name" (SStr "counter"); fld "engine" (SStr "Spec"); fld "bytecode" (ser_bytes [2%N]);
              fld "metadata" (SMap []); fld "owners" (SSeq []); fld "threshold" (SInt 0)].
Definition result_bytes : bytes :=
  Eval vm_compute in match deploy_contract [9%N] 1 (mkDeployParams "counter" "Spec" [2%N] ∅ [] 0) with
                     | Some (Ok d) => ok_or [] (rmp_enc (ser_CreateTokenDelta d))
                     | _ => []
                     end.
Definition deployment : Transaction :=
  Eval vm_compute in mkTransaction "deploy" "DeployContract" [] None 1 [9%N] [] None 0 (sha256 result_bytes) []
                       (ok_or [] (rmp_enc params_value)) 0 [] None.
Definition deployed_store : store :=
  match apply_deploy_delta ConcreteToken.env deployment empty_store with Some (st, _) => st | None => empty_store end.

Lemma deployment_succeeds : apply_deploy_delta ConcreteToken.env deployment empty_store = Some (deployed_store, Ok ()).
Proof.
  assert (match apply_deploy_delta ConcreteToken.env deployment empty_store with Some (_, Ok _) => true | _ => false end = true) as Hv
    by (by vm_compute).
  unfold deployed_store. destruct (apply_deploy_delta _ _ _) as [[st [[]|e]]|]; done.
Qed.

Lemma lost_deployment_witness :
  ∃ id t, get_token deployed_store id "env" = Ok t ∧
    services_commit_block ConcreteToken.env (mkCommit [65%N] id "env" second) None (mkServices ∅ deployed_store) =
      (mkServices ∅ deployed_store, Err (CErrTokenNotFound id (Some DataNotFound))).
Proof.
  destruct (deployed_contract_not_found ConcreteToken.env deployment (empty_store : store) deployed_store)
    as (params & delta & t & _ & _ & Hg & Hlost); [done|exact deployment_succeeds|].
  exists (ct_token_id delta), t. split; [exact Hg|]. apply (Hlost DataNotFound); [|reflexivity..|].
  - change (found (m_tokens empty_store !! ("tokens", ct_token_id delta)) = Err DataNotFound). unfold empty_store. cbn [m_tokens].
    by rewrite lookup_empty.
  - by rewrite lookup_empty.
Defined.
End ConcreteCommits.
