(* ===== verification/Confirmation.v ===== *)
(** * Gossip and confirmation (committer/src/committer/{finalizing,quoruming,distributing}.rs, committer.rs)

    What a committer does with a finalized block it hears of: it remembers the
    stake set the message carries, checks the authority behind the block, appends
    it or holds it until its parent arrives, moves the shielded pool along, votes,
    and weighs the votes of others. Messages leave through an outbox of payloads
    with the roles they are broadcast to. *)

From S2P Require Import Prelude Steps Utf8 Interfaces Types Float StakeSets Environment Serialize Crypto Transactions Chain DataProvider Deserialize Wire.
From S2P Require Import Tokens Contracts Scan NodeRegistry Messages Pool Registry Epoch EpochManager Signatures Committer Nullifiers Merkle Roots ShieldedPool.
From S2P Require Import NodeSafety OrphanBuffer CommitPipeline.

(** ** Votes *)

Record Votes := mkVotes {
  stake_set_cache : gmap bytes StakeSet;
  confirmation_votes : gmap bytes (gset bytes * N);
  pending_confirmation_votes : gmap bytes (list bytes);
  buffered_confirmation_votes : N;
  rejected_quorum_claims : N;
}.

Definition Votes_new : Votes := mkVotes ∅ ∅ ∅ 0 0.

Definition with_stake_cache (x : gmap bytes StakeSet) (v : Votes) : Votes :=
  mkVotes x (confirmation_votes v) (pending_confirmation_votes v) (buffered_confirmation_votes v) (rejected_quorum_claims v).
Definition with_votes (x : gmap bytes (gset bytes * N)) (v : Votes) : Votes :=
  mkVotes (stake_set_cache v) x (pending_confirmation_votes v) (buffered_confirmation_votes v) (rejected_quorum_claims v).
Definition with_early_votes (x : gmap bytes (list bytes)) (n : N) (v : Votes) : Votes :=
  mkVotes (stake_set_cache v) (confirmation_votes v) x n (rejected_quorum_claims v).
Definition reject_claim (v : Votes) : Votes :=
  mkVotes (stake_set_cache v) (confirmation_votes v) (pending_confirmation_votes v) (buffered_confirmation_votes v)
    (wrap_add (rejected_quorum_claims v) 1).

Definition accumulate_vote (block_hash voter_key : bytes) (v : Votes) : Votes * option N :=
  match stake_set_cache v !! block_hash with
  | None => (v, None)
  | Some stakes =>
      let '(voters, cumulative) := default (∅, 0%N) (confirmation_votes v !! block_hash) in
      let cumulative' :=
        if bool_decide (voter_key ∈ voters) then cumulative else sat_add cumulative (StakeSet_get_stake stakes voter_key) in
      (with_votes (<[block_hash := ({[voter_key]} ∪ voters, cumulative')]> (confirmation_votes v)) v, Some cumulative')
  end.

Definition cast_confirmation_vote (block_hash voter_key : bytes) (v : Votes) : Votes :=
  let '(v, counted) := accumulate_vote block_hash voter_key v in
  match counted with
  | Some _ => v
  | None =>
      with_early_votes
        (<[block_hash := default [] (pending_confirmation_votes v !! block_hash) ++ [voter_key]]> (pending_confirmation_votes v))
        (wrap_add (buffered_confirmation_votes v) 1) v
  end.

Section quorum.
Context `{HashIter} (env : EnvironmentMetadata).

(** [quorum_percentage.round() as u128]. *)
Definition committer_quorum_pct : N := cast_with round_magnitude u128_max (Environment.quorum_percentage env).

Definition local_quorum_reached (block_hash : bytes) (v : Votes) : option bool :=
  stakes ← stake_set_cache v !! block_hash;
  let total := StakeSet_total_stake stakes in
  if N.eqb total 0 then Some false
  else
    votes ← confirmation_votes v !! block_hash;
    Some (quorum_met votes.2 total committer_quorum_pct).
End quorum.

(** The votes that came early, and how many were counted. *)
Definition replay_votes (block_hash : bytes) (voters : list bytes) (v : Votes) : Votes * nat :=
  foldl (λ acc voter, let '(v, counted) := accumulate_vote block_hash voter acc.1 in
                      (v, if is_none counted then acc.2 else S acc.2)) (v, 0) voters.

(** ** The committer's state and what it sends *)

Section node.
Context `{Poseidon} `{!Pallas} `{!Halo2} `{HashIter} `{Rmp} `{Sha256} `{DataProvider} (c : CommitterConfig).
(** The [public_key] field the node was built with. *)
Context (own_key : bytes).

Record CommitterNode := mkNode {
  core_state : CommitState;
  votes : Votes;
  orphan_blocks : OrphanBuffer;
  outbox : list (NodeRegistryType * bytes);
}.

Definition with_core (x : CommitState) (n : CommitterNode) : CommitterNode := mkNode x (votes n) (orphan_blocks n) (outbox n).
Definition set_votes (x : Votes) (n : CommitterNode) : CommitterNode := mkNode (core_state n) x (orphan_blocks n) (outbox n).
Definition set_orphans (x : OrphanBuffer) (n : CommitterNode) : CommitterNode := mkNode (core_state n) (votes n) x (outbox n).
Definition send (x : list (NodeRegistryType * bytes)) (n : CommitterNode) : CommitterNode :=
  mkNode (core_state n) (votes n) (orphan_blocks n) (outbox n ++ x).
Definition with_tokens (x : gmap bytes Token) (n : CommitterNode) : CommitterNode :=
  with_core (with_services (mkServices x (the_store (core_state n))) (core_state n)) n.
Definition node_tokens (n : CommitterNode) : gmap bytes Token := tokens (services (core_state n)).

Definition signed_payload (act : string) (b : bytes) : result CommitterError bytes :=
  m ← map_err CErrCore (signed_message (cc_identity c) (environment_id (cc_env c)) act b None);
  map_err (λ _, CErrInternalSerialization) (rmp_enc (ser_Message m)).

Definition peer_roles : list NodeRegistryType := [Types.Committer; Archiver; Executor; Sentinel].

Definition broadcast_quorum_reached (block_hash : bytes) (n : CommitterNode) : CommitterNode * result CommitterError () :=
  match body ← map_err (λ _, CErrInternalSerialization) (rmp_enc (ser_bytes block_hash)); signed_payload "BlockQuorumReached" body with
  | Ok payload => (send ((λ t, (t, payload)) <$> peer_roles) n, Ok ())
  | Err e => (n, Err e)
  end.

(** A vote that cannot be encoded is sent with an empty body. *)
Definition broadcast_vote (block_hash : bytes) (n : CommitterNode) : CommitterNode :=
  let body := bytes_or_default (rmp_enc (SSeq [ser_bytes block_hash; ser_bytes own_key])) in
  match signed_payload "BlockConfirmed" body with
  | Ok payload => send ((λ t, (t, payload)) <$> peer_roles) n
  | Err _ => n
  end.

Definition announce_quorum_if_reached (block_hash : bytes) (n : CommitterNode) : CommitterNode :=
  if bool_decide (local_quorum_reached (cc_env c) block_hash (votes n) = Some true)
  then (broadcast_quorum_reached block_hash n).1 else n.

Definition replay_pending_votes (block_hash : bytes) (n : CommitterNode) : CommitterNode :=
  let v := votes n in
  match pending_confirmation_votes v !! block_hash with
  | None => n
  | Some voters =>
      let v := with_early_votes (delete block_hash (pending_confirmation_votes v)) (buffered_confirmation_votes v) v in
      let '(v, replayed) := replay_votes block_hash voters v in
      let n := set_votes v n in
      if Nat.ltb 0 replayed then announce_quorum_if_reached block_hash n else n
  end.

Definition of_vote (v : serde) : result string (bytes * bytes) :=
  match v with
  | SSeq [h; k] => h ← of_bytes h; k ← of_bytes k; Ok (h, k)
  | _ => Err "invalid type"
  end.

Definition handle_block_confirmed_vote (m : Message) (n : CommitterNode) : CommitterNode * result CommitterError () :=
  match decode_params of_vote (body m) with
  | Err e => (n, Err (CErrDeserialization e))
  | Ok (block_hash, voter_key) =>
      let n := set_votes (cast_confirmation_vote block_hash voter_key (votes n)) n in
      (announce_quorum_if_reached block_hash n, Ok ())
  end.

(** The first token, in the map's order, whose last block has the hash. *)
Definition token_with_tip (block_hash : bytes) (m : gmap bytes Token) : option bytes :=
  tok_id <$> head (filter (λ t, current_hash <$> last_block (blockchain t) = Some block_hash) (snd <$> hash_iter m)).

Definition handle_block_quorum_reached (m : Message) (n : CommitterNode) : CommitterNode * result CommitterError () :=
  match decode_params of_bytes (body m) with
  | Err e => (n, Err (CErrDeserialization e))
  | Ok block_hash =>
      if negb (bool_decide (local_quorum_reached (cc_env c) block_hash (votes n) = Some true)) then
        (set_votes (reject_claim (votes n)) n, Ok ())
      else match token_with_tip block_hash (node_tokens n) with
      | None => (n, Ok ())
      | Some token_id =>
          match node_tokens n !! token_id with
          | None => (n, Err (CErrTokenNotFound token_id None))
          | Some t =>
              let ch := (set_finality_status (blockchain t) block_hash Confirmed).1 in
              (with_tokens (<[token_id := with_blockchain ch t]> (node_tokens n)) n, Ok ())
          end
      end
  end.

(** ** Finalized blocks *)

Definition buffer_orphan (now : N) (token_id : bytes) (b : Block) (n : CommitterNode) : CommitterNode :=
  set_orphans (ob_insert now token_id b (orphan_blocks n)).1 n.

(** [append_validated_block] under [get_mut]. *)
Definition append_cached (token_id : bytes) (t : Token) (b : Block) (n : CommitterNode) : CommitterNode * AppendOutcome :=
  let '(ch, outcome) := append_validated_block (blockchain t) b in
  (with_tokens (<[token_id := with_blockchain ch t]> (node_tokens n)) n, outcome).

(** The cascade. Every turn takes a block out of the buffer, and only a turn that
    appended it is followed by another, so that a fuel above the number of blocks
    buffered for the token is never used up. The clock is read twice in a turn, and
    once more when a block goes back; [i] counts the readings. *)
Fixpoint replay_loop (fuel : nat) (clock : nat → N) (i : nat) (tip token_id : bytes) (n : CommitterNode) : CommitterNode * list Block :=
  match fuel with
  | 0 => (n, [])
  | S fuel =>
      let '(o, chosen) := take_matching token_id tip (clock (S i)) (drop_expired (clock i) (orphan_blocks n)) in
      let n := set_orphans o n in
      match chosen with
      | None => (n, [])
      | Some b =>
          match node_tokens n !! token_id with
          | None => (n, [])
          | Some t =>
              let '(n, outcome) := append_cached token_id t b n in
              match outcome with
              | Appended => let '(n, rest) := replay_loop fuel clock (S (S i)) (current_hash b) token_id n in (n, b :: rest)
              | InvalidHash => (n, [])
              | LinkageMismatch => (set_orphans (requeue_back (clock (S (S i))) token_id b (orphan_blocks n)) n, [])
              end
          end
      end
  end.

Definition buffered_for (token_id : bytes) (n : CommitterNode) : list BufferedBlock :=
  default [] (by_token (orphan_blocks n) !! token_id).

Definition replay_orphan_blocks (clock : nat → N) (tip token_id : bytes) (n : CommitterNode) : CommitterNode * list Block :=
  replay_loop (S (length (buffered_for token_id n))) clock 0 tip token_id n.

(** The stake set the message carries, which its signature does not cover. *)
Definition cache_stake_set (block_hash : bytes) (stakes : option StakeSet) (n : CommitterNode) : CommitterNode :=
  match stakes with
  | None => n
  | Some s => replay_pending_votes block_hash (set_votes (with_stake_cache (<[block_hash := s]> (stake_set_cache (votes n))) (votes n)) n)
  end.

(** Warming the cache as [commit_block] does. *)
Definition warm_token (token_id : bytes) (n : CommitterNode) : result CommitterError (Token * CommitterNode) :=
  match node_tokens n !! token_id with
  | Some t => Ok (t, n)
  | None =>
      match get_token (the_store (core_state n)) token_id (token_partition_id (cc_env c)) with
      | Ok t => Ok (t, with_tokens (<[token_id := t]> (node_tokens n)) n)
      | Err e => Err (CErrTokenNotFound token_id (Some e))
      end
  end.

Definition distribute_to_archivers (b : Block) (n : CommitterNode) : CommitterNode :=
  match payload ← map_err CErrEncoding (rmp_enc (ser_Block b)); signed_payload "DistributeBlock" payload with
  | Ok payload => send [(Archiver, payload)] n
  | Err _ => n
  end.

(** What follows the append of one block: the pool, the archivers, the own vote. *)
Definition propagate (b : Block) (n : CommitterNode)
    : may_panic (CommitterNode * result CommitterError ()) :=
  '(p, r) ← apply_update b (cc_env c) (shielded_pool (core_state n));
  let n := with_core (with_shielded_pool p (core_state n)) n in
  '(n, saved) ← match r with
                | Ok Applied => '(s, saved) ← save_pool c (core_state n); Some (with_core s n, saved)
                | Ok _ => Some (n, Ok ())
                | Err e => Some (n, Err e)
                end;
  match saved with
  | Err e => Some (n, Err e)
  | Ok _ =>
      let n := distribute_to_archivers b n in
      let n := set_votes (cast_confirmation_vote (current_hash b) own_key (votes n)) n in
      let n := broadcast_vote (current_hash b) n in
      Some (announce_quorum_if_reached (current_hash b) n, Ok ())
  end.

Fixpoint propagate_all (l : list Block) (n : CommitterNode)
    : may_panic (CommitterNode * result CommitterError ()) :=
  match l with
  | [] => Some (n, Ok ())
  | b :: l' =>
      '(n, r) ← propagate b n;
      match r with Ok _ => propagate_all l' n | Err e => Some (n, Err e) end
  end.

(** [handle_block_finalized] on the decoded block, with the clock's readings. *)
Definition handle_block_finalized (clock : nat → N) (b : Block) (m : Message)
    (n : CommitterNode) : may_panic (CommitterNode * result CommitterError ()) :=
  let block_hash := current_hash b in
  let token_id := tx_token_id (st_transaction (signed_trans b)) in
  let n := cache_stake_set block_hash (stake_set m) n in
  match gossip_authority c b (msg_public_key m) (node_registry (core_state n)) (pending_registry (core_state n)) with
  | Err e => Some (n, Err e)
  | Ok _ =>
      match warm_token token_id n with
      | Err e => Some (n, Err e)
      | Ok (t, n) =>
          let '(n, outcome) := append_cached token_id t b n in
          match outcome with
          | LinkageMismatch => Some (buffer_orphan (clock 0) token_id b n, Ok ())
          | InvalidHash => Some (n, Err CErrInvalidBlockHash)
          | Appended =>
              let '(n, promoted) := replay_orphan_blocks clock block_hash token_id n in
              propagate_all (b :: promoted) n
          end
      end
  end.

(** ** Distribution *)

Definition handle_token_distribution (t : Token) (n : CommitterNode) : CommitterNode * result CommitterError () :=
  match node_tokens n !! tok_id t with
  | Some _ => (n, Err (CErrTokenConflict (tok_id t)))
  | None => (with_tokens (<[tok_id t := t]> (node_tokens n)) n, Ok ())
  end.

Definition bootstrap_token (t : Token) (n : CommitterNode) : CommitterNode :=
  with_tokens (<[tok_id t := t]> (node_tokens n)) n.
End node.

(** ** Votes add up *)

Lemma accumulate_known h k v stakes :
  stake_set_cache v !! h = Some stakes →
  let '(voters, cum) := default (∅, 0%N) (confirmation_votes v !! h) in
  let cum' := if bool_decide (k ∈ voters) then cum else sat_add cum (StakeSet_get_stake stakes k) in
  accumulate_vote h k v = (with_votes (<[h := ({[k]} ∪ voters, cum')]> (confirmation_votes v)) v, Some cum').
Proof. intros Hs. unfold accumulate_vote. rewrite Hs. by destruct (default _ _). Qed.

Lemma cast_known h k v stakes :
  stake_set_cache v !! h = Some stakes → cast_confirmation_vote h k v = (accumulate_vote h k v).1.
Proof.
  intros Hs. pose proof (accumulate_known h k v stakes Hs) as Ha. unfold cast_confirmation_vote.
  destruct (default _ _) as [voters cum]. cbv zeta in Ha. by rewrite Ha.
Qed.

(** Distinct voters not counted yet add their stakes. *)
Lemma accumulate_all h stakes ks v voters cum :
  stake_set_cache v !! h = Some stakes → default (∅, 0%N) (confirmation_votes v !! h) = (voters, cum) →
  NoDup ks → (∀ k, k ∈ ks → k ∉ voters) → ks ≠ [] →
  let v' := foldl (λ v k, (accumulate_vote h k v).1) v ks in
  stake_set_cache v' !! h = Some stakes ∧
  confirmation_votes v' !! h = Some (list_to_set ks ∪ voters, foldl sat_add cum (StakeSet_get_stake stakes <$> ks)).
Proof.
  revert v voters cum. induction ks as [|k ks IH]; intros v voters cum Hs Hv Hnd Hnew Hcons; [done|]. clear Hcons. cbv zeta. cbn [foldl fmap list_fmap].
  pose proof (accumulate_known h k v stakes Hs) as Ha. rewrite Hv in Ha. cbv zeta in Ha.
  rewrite bool_decide_false in Ha by (apply Hnew; left). rewrite Ha. cbn [fst].
  apply NoDup_cons in Hnd as [Hk Hnd]. destruct (decide (ks = [])) as [->|Hne].
  { cbn. split; [done|]. rewrite lookup_insert_eq. by rewrite union_empty_r_L. }
  destruct (IH (with_votes (<[h := ({[k]} ∪ voters, sat_add cum (StakeSet_get_stake stakes k))]> (confirmation_votes v)) v)
               ({[k]} ∪ voters) (sat_add cum (StakeSet_get_stake stakes k))) as [IH1 IH2]; try done.
  - cbn [confirmation_votes with_votes]. by rewrite lookup_insert_eq.
  - intros k' Hk'. rewrite elem_of_union, elem_of_singleton. intros [->|?]; [done|]. by apply (Hnew k'); [right|].
  - split; [done|]. rewrite IH2. f_equal. f_equal. set_solver.
Qed.

Lemma quorum_met_all total pct : (total ≤ u64_max)%N → (pct ≤ 100)%N → quorum_met total total pct = true.
Proof.
  intros Ht Hp. unfold quorum_met, u128_mul. apply bool_decide_eq_true.
  assert (total * 100 < u128_max + 1)%N by (unfold u64_max, u128_max in *; lia).
  rewrite !N.mod_small; nia.
Qed.

Lemma quorum_met_mono x y total pct : (x ≤ y ≤ u64_max)%N → quorum_met x total pct = true → quorum_met y total pct = true.
Proof.
  unfold quorum_met, u128_mul. rewrite !bool_decide_eq_true. intros [Hxy Hy].
  assert (y * 100 < u128_max + 1)%N by (unfold u64_max, u128_max in *; lia).
  rewrite (N.mod_small (x * 100)), (N.mod_small (y * 100)) by lia. lia.
Qed.

Section voting.
Context `{Poseidon} `{!Pallas} `{!Halo2} `{HashIter} `{Rmp} `{Sha256} `{DataProvider} (c : CommitterConfig) (own_key : bytes).

Lemma announce_votes h n : votes (announce_quorum_if_reached c h n) = votes n.
Proof. unfold announce_quorum_if_reached, broadcast_quorum_reached. destruct (bool_decide _); [|done]. by destruct (_ ≫= _). Qed.

Lemma announce_core h n : core_state (announce_quorum_if_reached c h n) = core_state n.
Proof. unfold announce_quorum_if_reached, broadcast_quorum_reached. destruct (bool_decide _); [|done]. by destruct (_ ≫= _). Qed.

(** One registered node can vote for everybody. A vote counts for the key its
    body names, and nothing compares that key with the key that signed the
    message: a sender of any role that names each staker in turn in its own
    messages brings the block to its quorum without the vote of anyone else. *)
Theorem one_sender_votes_for_all n h stakes sender msgs :
  stake_set_cache (votes n) !! h = Some stakes → confirmation_votes (votes n) !! h = None →
  (0 < StakeSet_total_stake stakes)%N → (committer_quorum_pct (cc_env c) ≤ 100)%N →
  Forall2 (λ m k, msg_public_key m = sender ∧ authenticate_message c (node_registry (core_state n)) m = Ok () ∧
                  decode_params of_vote (body m) = Ok (h, k)) msgs (map_to_list (stakers stakes)).*1 →
  local_quorum_reached (cc_env c) h (votes (foldl (λ n m, (handle_block_confirmed_vote c m n).1) n msgs)) = Some true.
Proof.
  intros Hs Hv Hpos Hpct Hm. set (ks := (map_to_list (stakers stakes)).*1) in *.
  assert (votes (foldl (λ n m, (handle_block_confirmed_vote c m n).1) n msgs) =
          foldl (λ v k, (accumulate_vote h k v).1) (votes n) ks) as ->.
  { clear Hv Hpos. revert Hm. generalize (node_registry (core_state n)). intros r Hm. revert n Hs.
    induction Hm as [|m k msgs ks' (_ & _ & Hd) _ IH]; intros n Hs; [done|]. cbn [foldl]. unfold handle_block_confirmed_vote at 2.
    rewrite Hd. cbn [fst]. rewrite IH.
    - by rewrite announce_votes, <-(cast_known h k _ stakes Hs).
    - rewrite announce_votes. cbn [votes set_votes]. rewrite (cast_known h k _ stakes Hs).
      pose proof (accumulate_known h k (votes n) stakes Hs) as Ha. destruct (default _ _). cbv zeta in Ha. by rewrite Ha. }
  assert (ks ≠ []) as Hne.
  { unfold ks. intros Hk%fmap_nil_inv%map_to_list_empty_iff. unfold StakeSet_total_stake, hash_values in Hpos.
    rewrite Hk, hash_iter_perm, map_to_list_empty in Hpos. done. }
  destruct (accumulate_all h stakes ks (votes n) ∅ 0) as [Hs' Hv']; try done.
  { by rewrite Hv. } { apply NoDup_fst_map_to_list. }
  unfold local_quorum_reached. rewrite Hs'. cbn [mbind option_bind]. destruct (N.eqb_spec (StakeSet_total_stake stakes) 0); [lia|].
  rewrite Hv'. cbn [mbind option_bind snd]. f_equal.
  assert (foldl sat_add 0%N (StakeSet_get_stake stakes <$> ks) = StakeSet_total_stake stakes) as ->.
  { unfold StakeSet_total_stake, hash_values. rewrite hash_iter_perm. change (foldl sat_add 0%N) with sat_sum. f_equal.
    unfold ks. rewrite <-list_fmap_compose. apply list_fmap_ext. intros i [k x] Hi. cbn. unfold StakeSet_get_stake.
    apply list_elem_of_lookup_2, elem_of_map_to_list in Hi. by rewrite Hi. }
  apply quorum_met_all; [|done]. unfold StakeSet_total_stake. rewrite sat_sum_spec. lia.
Qed.

Lemma replay_votes_grow h stakes ks v voters cum :
  stake_set_cache v !! h = Some stakes → confirmation_votes v !! h = Some (voters, cum) → (cum ≤ u64_max)%N →
  let v' := (replay_votes h ks v).1 in
  stake_set_cache v' !! h = Some stakes ∧
  ∃ voters' cum', confirmation_votes v' !! h = Some (voters', cum') ∧ (cum ≤ cum' ≤ u64_max)%N.
Proof.
  cbv zeta. unfold replay_votes. generalize 0. revert v voters cum.
  induction ks as [|k ks IH]; intros v voters cum i Hs Hv Hc; cbn [foldl]; [by split; [|exists voters, cum]|]. cbn [fst snd].
  pose proof (accumulate_known h k v stakes Hs) as Ha. rewrite Hv in Ha. cbn [default from_option id] in Ha. cbv zeta in Ha. rewrite Ha.
  set (cum1 := if bool_decide (k ∈ voters) then cum else _) in *.
  assert (cum ≤ cum1 ≤ u64_max)%N as [Hlo Hhi] by (unfold cum1, sat_add; destruct (bool_decide _); lia).
  destruct (IH (with_votes (<[h := ({[k]} ∪ voters, cum1)]> (confirmation_votes v)) v) ({[k]} ∪ voters) cum1
              (if is_none (Some cum1) then i else S i)) as (? & voters' & cum' & ? & ?); [done| |done|].
  - cbn [confirmation_votes with_votes]. by rewrite lookup_insert_eq.
  - split; [done|]. exists voters', cum'. split; [done|lia].
Qed.

Lemma cache_stake_core h s n : core_state (cache_stake_set c h s n) = core_state n.
Proof.
  unfold cache_stake_set, replay_pending_votes. destruct s as [s|]; [|done]. cbv zeta. destruct (pending_confirmation_votes _ !! h); [|done].
  destruct (replay_votes _ _ _). destruct (Nat.ltb _ _); [by rewrite announce_core|done].
Qed.

(** Caching a stake set for votes already counted keeps their sum, or raises it. *)
Lemma cache_stake_votes h s n voters cum :
  confirmation_votes (votes n) !! h = Some (voters, cum) → (cum ≤ u64_max)%N →
  let v' := votes (cache_stake_set c h (Some s) n) in
  stake_set_cache v' !! h = Some s ∧
  ∃ voters' cum', confirmation_votes v' !! h = Some (voters', cum') ∧ (cum ≤ cum' ≤ u64_max)%N.
Proof.
  cbv zeta. intros Hv Hc. unfold cache_stake_set, replay_pending_votes. cbn [votes set_votes pending_confirmation_votes with_stake_cache].
  destruct (pending_confirmation_votes (votes n) !! h) as [ks|].
  - set (v1 := with_early_votes _ _ _).
    destruct (replay_votes_grow h s ks v1 voters cum) as [Hs' Hr]; [cbn; by rewrite lookup_insert_eq|done|done|].
    destruct (replay_votes h ks v1) as [v' r]. cbn [fst] in *. destruct (Nat.ltb _ _); [by rewrite announce_votes|done].
  - cbn. rewrite lookup_insert_eq. split; [done|]. by exists voters, cum.
Qed.

(** A refused message decides what a quorum is. The stake set of a finalized
    block's message is not covered by its signature and is taken over before the
    authority behind the block is checked. Once any vote is counted, a message
    that is refused for want of authority, with a stake set whose total is not
    above the stake counted so far, leaves the block at its quorum. *)
Theorem refused_gossip_lowers_the_quorum clock b m n voters cum s e :
  let h := current_hash b in
  confirmation_votes (votes n) !! h = Some (voters, cum) → (cum ≤ u64_max)%N →
  stake_set m = Some s → (0 < StakeSet_total_stake s ≤ cum)%N → (committer_quorum_pct (cc_env c) ≤ 100)%N →
  gossip_authority c b (msg_public_key m) (node_registry (core_state n)) (pending_registry (core_state n)) = Err e →
  ∃ n', handle_block_finalized c own_key clock b m n = Some (n', Err e) ∧
    local_quorum_reached (cc_env c) h (votes n') = Some true.
Proof.
  cbv zeta. intros Hv Hc Hs Ht Hpct Hauth. unfold handle_block_finalized. rewrite cache_stake_core, Hauth.
  eexists. split; [done|]. rewrite Hs.
  destruct (cache_stake_votes (current_hash b) s n voters cum Hv Hc) as (Hs' & voters' & cum' & Hv' & Hcum).
  unfold local_quorum_reached. rewrite Hs'. cbn [mbind option_bind]. destruct (N.eqb_spec (StakeSet_total_stake s) 0); [lia|].
  rewrite Hv'. cbn [mbind option_bind snd]. f_equal.
  apply (quorum_met_mono (StakeSet_total_stake s)); [lia|]. apply quorum_met_all; [lia|done].
Qed.
End voting.

(** ** What gossip leaves behind *)

Section gossip.
Context `{Poseidon} `{!Pallas} `{!Halo2} `{HashIter} `{Rmp} `{Sha256} `{TokenStore} (c : CommitterConfig) (own_key : bytes).

(** The stored tokens and the books are as before. *)
Definition unsaved (n n' : CommitterNode) : Prop :=
  (∀ k p, k ≠ pool_key → get_token (the_store (core_state n')) k p = get_token (the_store (core_state n)) k p) ∧
  committed_txs (core_state n') = committed_txs (core_state n).

#[global] Instance unsaved_preorder : PreOrder unsaved.
Proof.
  split; [by split|]. intros n1 n2 n3 [A1 B1] [A2 B2]. split; [|congruence]. intros k p Hk. by rewrite A2, A1.
Qed.

Lemma same_core n n' : core_state n' = core_state n → unsaved n n'.
Proof. intros E. split; by rewrite E. Qed.

Lemma append_unsaved k t b n : unsaved n (append_cached k t b n).1.
Proof. unfold append_cached. destruct (append_validated_block _ _). by split. Qed.

Lemma replay_unsaved fuel clock i tip k n : unsaved n (replay_loop fuel clock i tip k n).1.
Proof.
  revert i tip n. induction fuel as [|fuel IH]; intros i tip n; cbn [replay_loop]; [done|].
  destruct (take_matching _ _ _ _) as [o [b|]]; [|by split]. set (n1 := set_orphans o n).
  destruct (node_tokens n1 !! k) as [t|]; [|by split].
  assert (unsaved n n1) as K1 by (by split). pose proof (append_unsaved k t b n1) as K2.
  destruct (append_cached k t b n1) as [n2 []]; cbn [fst] in K2.
  - cbn. etrans; [exact K1|]. etrans; [exact K2|]. by split.
  - cbn. by etrans.
  - pose proof (IH (S (S i)) (current_hash b) n2) as K3. destruct (replay_loop _ _ _ _ _ _). cbn [fst] in *. etrans; [exact K1|]. by etrans.
Qed.

Lemma distribute_core b n : core_state (distribute_to_archivers c b n) = core_state n.
Proof. unfold distribute_to_archivers. by destruct (_ ≫= _). Qed.

Lemma vote_core h n : core_state (broadcast_vote c own_key h n) = core_state n.
Proof. unfold broadcast_vote. by destruct (signed_payload _ _ _). Qed.

Lemma propagate_unsaved b n n' r :
  propagate c own_key b n = Some (n', r) → unsaved n n' ∧ node_tokens n' = node_tokens n.
Proof.
  unfold propagate. destruct (apply_update _ _ _) as [[p x]|]; [|done]. cbn [mbind option_bind].
  set (n1 := with_core _ n). assert (unsaved n n1 ∧ node_tokens n1 = node_tokens n) as [K1 L1] by done.
  assert (∀ n2 saved, match x with
                | Ok Applied => '(s, saved) ← save_pool c (core_state n1); Some (with_core s n1, saved)
                | Ok _ => Some (n1, Ok ())
                | Err e => Some (n1, Err e)
                end = Some (n2, saved) → unsaved n n2 ∧ node_tokens n2 = node_tokens n) as Hsave.
  { intros n2 saved. destruct x as [[]|]; try (by intros [= <- _]).
    unfold save_pool, pool_save. destruct (state_snapshot _) as [snap|]; [|done]. cbn [mbind option_bind].
    destruct (save_shielded_pool _ _ _) as [st sr] eqn:Es. intros [= <- _]. split; [|done]. etrans; [exact K1|].
    split; [|done]. intros k q Hk. by eapply token_kept_by_pool. }
  destruct (match x with Ok Applied => _ | Ok _ => _ | Err e => _ end) as [[n2 saved]|] eqn:E2; [|done].
  destruct (Hsave _ _ eq_refl) as [K2 L2]. cbn [mbind option_bind]. destruct saved as [u|e]; [|by intros [= <- _]].
  set (n6 := announce_quorum_if_reached c _ _). assert (core_state n6 = core_state n2) as E6.
  { unfold n6. rewrite announce_core, vote_core. cbn [core_state set_votes]. apply distribute_core. }
  intros [= <- _]. unfold node_tokens. rewrite E6. split; [|done]. etrans; [exact K2|by apply same_core].
Qed.

Lemma propagate_all_unsaved l n n' r :
  propagate_all c own_key l n = Some (n', r) → unsaved n n' ∧ node_tokens n' = node_tokens n.
Proof.
  revert n. induction l as [|b l IH]; intros n; cbn [propagate_all]; [by intros [= <- _]|].
  destruct (propagate c own_key b n) as [[n1 x]|] eqn:E; [|done]. cbn [mbind option_bind].
  destruct (propagate_unsaved _ _ _ _ E) as [K1 L1]. destruct x; [|by intros [= <- _]].
  intros (K2 & L2)%IH. split; [by etrans|congruence].
Qed.

(** The chain of a token may only grow. *)
Definition extends (k : bytes) (n n' : CommitterNode) : Prop :=
  ∀ t, node_tokens n !! k = Some t → ∃ t', node_tokens n' !! k = Some t' ∧ chain (blockchain t) `prefix_of` chain (blockchain t').

#[global] Instance extends_preorder k : PreOrder (extends k).
Proof.
  split; [intros n t Ht; by exists t|]. intros n1 n2 n3 H12 H23 t Ht. destruct (H12 t Ht) as (t2 & Ht2 & P2).
  destruct (H23 t2 Ht2) as (t3 & Ht3 & P3). exists t3. split; [done|by etrans].
Qed.

Lemma extends_same k n n' : node_tokens n' = node_tokens n → extends k n n'.
Proof. intros E t Ht. exists t. by rewrite E. Qed.

Lemma append_prefix ch b : chain ch `prefix_of` chain (append_validated_block ch b).1.
Proof.
  unfold append_validated_block. destruct (negb _); [reflexivity|]. destruct (create_hash b); [|reflexivity]. destruct (decide _); [|reflexivity].
  by apply prefix_app_r.
Qed.

Lemma append_extends k t b n : node_tokens n !! k = Some t → extends k n (append_cached k t b n).1.
Proof.
  intros Ht t0 Ht0. assert (t0 = t) as -> by congruence. unfold append_cached. pose proof (append_prefix (blockchain t) b) as Hp.
  destruct (append_validated_block _ _) as [ch o]. exists (with_blockchain ch t). split; [|done].
  unfold node_tokens. cbn. by rewrite lookup_insert_eq.
Qed.

Lemma replay_extends fuel clock i tip k n : extends k n (replay_loop fuel clock i tip k n).1.
Proof.
  revert i tip n. induction fuel as [|fuel IH]; intros i tip n; cbn [replay_loop]; [reflexivity|].
  destruct (take_matching _ _ _ _) as [o [b|]]; [|by apply extends_same]. set (n1 := set_orphans o n).
  destruct (node_tokens n1 !! k) as [t|] eqn:Et; [|by apply extends_same].
  assert (extends k n n1) as K1 by (by apply extends_same). pose proof (append_extends k t b n1 Et) as K2.
  destruct (append_cached k t b n1) as [n2 []]; cbn [fst] in K2.
  - cbn. etrans; [exact K1|]. etrans; [exact K2|by apply extends_same].
  - cbn. by etrans.
  - pose proof (IH (S (S i)) (current_hash b) n2) as K3. destruct (replay_loop _ _ _ _ _ _). cbn [fst] in *. etrans; [exact K1|]. by etrans.
Qed.

Lemma warm_token_spec k n t n1 :
  warm_token c k n = Ok (t, n1) → node_tokens n1 !! k = Some t ∧ unsaved n n1 ∧ (∀ t0, node_tokens n !! k = Some t0 → n1 = n ∧ t0 = t).
Proof.
  unfold warm_token. destruct (node_tokens n !! k) as [t0|] eqn:E; [intros [= -> <-]; split_and!; [done..|]; naive_solver|].
  destruct (get_token _ _ _) as [t'|]; [|done]. intros [= -> <-]. split_and!; [|done..]. unfold node_tokens. cbn. by rewrite lookup_insert_eq.
Qed.

Lemma append_cached_spec k t b n n' o :
  append_cached k t b n = (n', o) →
  match o with
  | Appended => previous_hash b = cached_tip (blockchain t) ∧ block_ok b ∧
      node_tokens n' = <[k := with_blockchain (add_block (blockchain t) b) t]> (node_tokens n)
  | _ => ¬ (previous_hash b = cached_tip (blockchain t) ∧ block_ok b)
  end.
Proof.
  unfold append_cached, append_validated_block, block_ok. pose proof (linkage_ok_spec (cached_tip (blockchain t)) b) as Hl.
  destruct (linkage_ok _ b); cbn [negb]; [|intros [= <- <-] [? _]; naive_solver].
  destruct (create_hash b) as [h|]; [|by intros [= <- <-] [_ ?]].
  destruct (decide (h = current_hash b)) as [->|]; [|intros [= <- <-] [_ ?]; naive_solver].
  intros [= <- <-]. split_and!; [naive_solver|done|done].
Qed.

(** What gossip brings in is neither stored nor booked. Whatever the outcome
    of a finalized block's message, every stored token and the record of committed
    transactions are as before; but when the block follows the cached chain the
    cached token has grown by it. A restart, or another reader of the store, is
    back at the chain without the block, and the block's transaction can still be
    committed a second time. *)
Theorem gossiped_blocks_are_not_kept clock b m n n' r :
  let k := tx_token_id (st_transaction (signed_trans b)) in
  handle_block_finalized c own_key clock b m n = Some (n', r) →
  ((∀ k p, k ≠ pool_key → get_token (the_store (core_state n')) k p = get_token (the_store (core_state n)) k p) ∧
   committed_txs (core_state n') = committed_txs (core_state n)) ∧
  (∀ t, gossip_authority c b (msg_public_key m) (node_registry (core_state n)) (pending_registry (core_state n)) = Ok () →
     node_tokens n !! k = Some t → previous_hash b = cached_tip (blockchain t) → block_ok b →
     ∃ t', node_tokens n' !! k = Some t' ∧ (chain (blockchain t) ++ [b]) `prefix_of` chain (blockchain t')).
Proof.
  cbv zeta. unfold handle_block_finalized. set (k := tx_token_id _). set (n0 := cache_stake_set c _ _ n).
  assert (core_state n0 = core_state n) as E0 by apply cache_stake_core. rewrite E0.
  assert (node_tokens n0 = node_tokens n) as T0 by (unfold node_tokens; by rewrite E0).
  apply same_core in E0. destruct (gossip_authority _ _ _ _ _) as [[]|e]; [|by intros [= <- _]].
  destruct (warm_token c k n0) as [[t n1]|e] eqn:Ew; [|intros [= <- _]; split; [done|]].
  2:{ intros t _ Ht. unfold warm_token in Ew. by rewrite T0, Ht in Ew. }
  destruct (warm_token_spec _ _ _ _ Ew) as (Ht1 & K1 & Hsame).
  pose proof (append_unsaved k t b n1) as K2. destruct (append_cached k t b n1) as [n2 o] eqn:Ea. cbn [fst] in K2.
  assert (unsaved n n2) as K by (etrans; [exact E0|]; by etrans). apply append_cached_spec in Ea.
  destruct o; [intros [= <- _]; split; [done|]; intros t0 _ Ht0; rewrite <-T0 in Ht0; destruct (Hsame _ Ht0) as [_ ->]; tauto..|].
  destruct Ea as (_ & _ & Ht2). pose proof (replay_unsaved (S (length (buffered_for k n2))) clock 0 (current_hash b) k n2) as K3.
  pose proof (replay_extends (S (length (buffered_for k n2))) clock 0 (current_hash b) k n2) as X3. unfold replay_orphan_blocks.
  destruct (replay_loop _ _ _ _ _ _) as [n3 promoted]. cbn [fst] in K3, X3. intros (K4 & L4)%propagate_all_unsaved.
  split; [change (unsaved n n'); etrans; [exact K|]; by etrans|]. intros t0 _ Ht0 _ _. rewrite <-T0 in Ht0. destruct (Hsame _ Ht0) as [_ ->].
  rewrite L4. apply (X3 (with_blockchain (add_block (blockchain t) b) t)). by rewrite Ht2, lookup_insert_eq.
Qed.

(** ** Blocks out of order *)

(** Blocks that follow a tip one after the other, each with its own hash. *)
Fixpoint chained (tip : bytes) (l : list Block) : Prop :=
  match l with [] => True | b :: l' => previous_hash b = tip ∧ block_ok b ∧ chained (current_hash b) l' end.

Definition grown (t : Token) (l : list Block) : Token :=
  with_blockchain (mkChain (chain (blockchain t) ++ l) (chain_metadata (blockchain t))) t.

Lemma grown_cons t b l : grown (with_blockchain (add_block (blockchain t) b) t) l = grown t (b :: l).
Proof. unfold grown, add_block, with_blockchain. cbn. by rewrite <-app_assoc. Qed.

Lemma append_next k t b n :
  previous_hash b = cached_tip (blockchain t) → block_ok b →
  append_cached k t b n = (with_tokens (<[k := with_blockchain (add_block (blockchain t) b) t]> (node_tokens n)) n, Appended).
Proof.
  intros Hp Hb. unfold append_cached, append_validated_block. rewrite (proj2 (linkage_ok_spec _ _) Hp). cbn [negb].
  rewrite Hb, decide_True by done. done.
Qed.

Lemma all_live now q : (∀ x, x ∈ q → is_expired now x = false) → live now q = q.
Proof.
  induction q as [|x q IH]; [done|]. intros Hl. unfold live in *. rewrite filter_cons_True by (apply Hl; left).
  rewrite IH; [done|]. intros y Hy. apply Hl. by right.
Qed.

(** No block of the queue expires between the readings of the clock. *)
Definition steady (clock : nat → N) (q : list BufferedBlock) : Prop :=
  ∀ i x, x ∈ q → is_expired (clock i) x = is_expired (clock 0) x.

Lemma steady_live clock i q : steady clock q → live (clock i) q = live (clock 0) q.
Proof.
  intros Hs. unfold live. induction q as [|x q IH]; [done|].
  assert (is_expired (clock i) x = is_expired (clock 0) x) as Hx by (apply Hs; left).
  rewrite !filter_cons, Hx, IH; [done|]. intros j y Hy. apply Hs. by right.
Qed.

Lemma steady_sub clock q q' : (∀ x, x ∈ q' → x ∈ q) → steady clock q → steady clock q'.
Proof. intros Hsub Hs i x Hx. by apply Hs, Hsub. Qed.

Lemma replay_all fuel clock i k n t l :
  node_tokens n !! k = Some t → chained (cached_tip (blockchain t)) l → NoDup (previous_hash <$> l) →
  entries_wf (buffered_for k n) → steady clock (buffered_for k n) → bb_block <$> live (clock 0) (buffered_for k n) ≡ₚ l → length l < fuel →
  ∃ n', replay_loop fuel clock i (cached_tip (blockchain t)) k n = (n', l) ∧
    node_tokens n' !! k = Some (grown t l) ∧ buffered_for k n' = [].
Proof.
  revert i n t l. induction fuel as [|fuel IH]; intros i n t l Ht Hch Hnd Hwf Hst Hp Hfuel; [lia|]. cbn [replay_loop].
  pose proof (drop_expired_queue (clock i) k (orphan_blocks n)) as Hq. set (o1 := drop_expired (clock i) (orphan_blocks n)) in *.
  fold (buffered_for k n) in Hq. rewrite steady_live in Hq by done.
  assert (∀ x, x ∈ live (clock 0) (buffered_for k n) → x ∈ buffered_for k n ∧ is_expired (clock 0) x = false) as Hlive
    by (intros x [? ?]%list_elem_of_filter; done).
  destruct l as [|b l].
  - assert (live (clock 0) (buffered_for k n) = []) as Hnil by (apply Permutation_nil_r, fmap_nil_inv in Hp; done).
    rewrite Hnil in Hq. exists (set_orphans o1 n). unfold take_matching.
    assert (grown t [] = t) as -> by (unfold grown; rewrite app_nil_r; destruct t as [??[]]; done).
    destruct (by_token o1 !! k) as [q|] eqn:Ek; cbn [default from_option id] in Hq; [subst q; cbn|];
      split_and!; try done; unfold buffered_for; cbn [orphan_blocks set_orphans]; by rewrite Ek.
  - destruct Hch as (Hprev & Hok & Hch).
    destruct (take_matching_child (clock (S i)) k o1 b l) as (o2 & Htake & Hwf2 & Hsub2 & Hp2); rewrite ?Hq in *; [..|done|done|].
    { intros x [Hx _]%Hlive. by apply Hwf. }
    { intros x [Hx <-]%Hlive. by apply Hst. }
    rewrite <-Hprev, Htake. change (node_tokens (set_orphans o2 n)) with (node_tokens n). rewrite Ht, append_next by done.
    set (t1 := with_blockchain (add_block (blockchain t) b) t). set (n1 := with_tokens _ _).
    destruct (IH (S (S i)) n1 t1 l) as (n' & Hr & Ht' & Hb').
    + unfold node_tokens. cbn. by rewrite lookup_insert_eq.
    + unfold t1. cbn [blockchain with_blockchain]. by rewrite cached_tip_add.
    + rewrite fmap_cons in Hnd. by apply NoDup_cons in Hnd as [_ ?].
    + exact Hwf2.
    + apply (steady_sub _ (buffered_for k n)); [|done]. intros x [Hx _]%Hsub2%Hlive. done.
    + rewrite (all_live (clock 0) (buffered_for k n1)); [done|]. intros x [_ Hx]%Hsub2%Hlive. done.
    + cbn [length] in Hfuel. lia.
    + unfold t1 in Hr, Ht'. cbn [blockchain with_blockchain] in Hr. rewrite cached_tip_add in Hr. rewrite Hr.
      exists n'. split_and!; [done| |done]. by rewrite grown_cons in Ht'.
Qed.

(** C5: blocks that arrive out of order are not lost. When the live blocks buffered
    for a token are a chain that starts at its tip, in whatever order they were
    buffered, and none of them expires during the replay, whatever the clock reads
    at each turn, the replay appends all of them, in chain order, and leaves none
    in the buffer; the loop needs no more turns than there are blocks. *)
Theorem orphans_follow_their_parent clock k n t l :
  node_tokens n !! k = Some t → chained (cached_tip (blockchain t)) l → NoDup (previous_hash <$> l) →
  entries_wf (buffered_for k n) → steady clock (buffered_for k n) → bb_block <$> live (clock 0) (buffered_for k n) ≡ₚ l →
  ∃ n', replay_orphan_blocks clock (cached_tip (blockchain t)) k n = (n', l) ∧
    node_tokens n' !! k = Some (grown t l) ∧ buffered_for k n' = [].
Proof.
  intros Ht Hch Hnd Hwf Hst Hp. apply replay_all; try done. apply Permutation_length in Hp. rewrite length_fmap in Hp.
  pose proof (live_length (clock 0) (buffered_for k n)). lia.
Qed.
End gossip.

(** ** The properties at concrete messages *)

Module ConcreteGossip.
Export ConcreteCommits.
Import ConcreteChain ConcreteCrypto.

Definition h : bytes := Eval vm_compute in current_hash second.
Definition stakes : StakeSet := mkStakeSet (<[ [5%N] := 60%N ]> {[ [6%N] := 40%N ]}).
Definition known_core : CommitState :=
  mkCommitState ∅ Registry_new (mkConflictState CandidateRegistry_new ∅) (mkServices {[ [1%N] := ConcreteToken.token ]} stored)
    pool0 0 ConcreteNodes.known.
Definition node (v : Votes) (o : OrphanBuffer) : CommitterNode := mkNode known_core v o [].
Definition buffer : OrphanBuffer := OrphanBuffer_new 1024 256 30.

Definition ballot (k : bytes) : Message :=
  ok_or (mkMessage "" "" [] [] [] None)
    (signed_message ConcreteNodes.signer "tokens" "BlockConfirmed" (ok_or [] (rmp_enc (SSeq [ser_bytes h; ser_bytes k]))) None).

(** Two votes of a node that stakes nothing, in the names of both stakers. *)
Lemma votes_witness :
  local_quorum_reached (cc_env config) h
    (votes (foldl (λ n m, (handle_block_confirmed_vote config m n).1) (node (mkVotes {[h := stakes]} ∅ ∅ 0 0) buffer)
              (ballot <$> [[6%N]; [5%N]]))) = Some true.
Proof.
  apply (one_sender_votes_for_all config (node (mkVotes {[h := stakes]} ∅ ∅ 0 0) buffer) h stakes ConcreteNodes.key).
  - apply lookup_singleton_eq.
  - apply lookup_empty.
  - by vm_compute.
  - by vm_compute.
  - match goal with |- Forall2 _ _ ?l => assert (l = [[6%N]; [5%N]]) as -> by (by vm_compute) end.
    constructor; [|constructor; [|constructor]]; (split; [by vm_compute|split; by vm_compute]).
Defined.

Definition refused : Message := mkMessage "tokens" "BlockFinalized" [] [] ConcreteNodes.key (Some (mkStakeSet {[ [5%N] := 1%N ]})).

Lemma refused_witness :
  ∃ n', handle_block_finalized config [9%N] (λ _, 0%N) second refused
          (node (mkVotes {[h := stakes]} {[h := ({[ [5%N] ]}, 60%N)]} ∅ 0 0) buffer) = Some (n', Err (CErrRouting "no routing decision")) ∧
    local_quorum_reached (cc_env config) h (votes n') = Some true.
Proof.
  eapply (refused_gossip_lowers_the_quorum config [9%N] (λ _, 0%N) second refused).
  - apply lookup_singleton_eq.
  - by vm_compute.
  - reflexivity.
  - by vm_compute.
  - by vm_compute.
  - by vm_compute.
Defined.

(** A block its sender routed to itself, on top of the cached chain. *)
Definition routed : Block :=
  Eval vm_compute in
    let b := mkBlock self_signed ∅ (current_hash genesis) [] 0 Optimistic [] 0 in with_current_hash (ok_or [] (create_hash b)) b.
Definition routed_message : Message := mkMessage "tokens" "BlockFinalized" [] [] ConcreteNodes.key None.
Abbreviation heard := (handle_block_finalized config [9%N] (λ _, 0%N) routed routed_message (node Votes_new buffer)).
Definition listener := match heard with Some (n, _) => n | None => node Votes_new buffer end.

Lemma heard_ok : heard = Some (listener, Ok ()).
Proof.
  assert (match heard with Some (_, Ok _) => true | _ => false end = true) as Hv by (by vm_compute).
  unfold listener. destruct heard as [[s [[]|e]]|]; done.
Qed.

Lemma routed_authority :
  gossip_authority config routed ConcreteNodes.key (node_registry known_core) (pending_registry known_core) = Ok ().
Proof. by vm_compute. Qed.

Lemma routed_next : previous_hash routed = cached_tip (blockchain ConcreteToken.token) ∧ block_ok routed.
Proof. split; by vm_compute. Qed.

Lemma cached_here : node_tokens (node Votes_new buffer) !! [1%N] = Some ConcreteToken.token.
Proof. exact eq_refl. Qed.

Lemma not_pool_key : [1%N] ≠ pool_key.
Proof. done. Qed.

Lemma gossip_witness :
  get_token (the_store (core_state listener)) [1%N] "tokens" = get_token (the_store (core_state (node Votes_new buffer))) [1%N] "tokens" ∧
  ∃ t', node_tokens listener !! [1%N] = Some t' ∧ (chain (blockchain ConcreteToken.token) ++ [routed]) `prefix_of` chain (blockchain t').
Proof.
  destruct (gossiped_blocks_are_not_kept config [9%N] (λ _, 0%N) routed routed_message (node Votes_new buffer) listener (Ok ()) heard_ok)
    as [[Hs _] Hc].
  split; [exact (Hs [1%N] "tokens" not_pool_key)|].
  exact (Hc ConcreteToken.token routed_authority cached_here (proj1 routed_next) (proj2 routed_next)).
Defined.

Definition third : Block := Eval vm_compute in default genesis (test_block 2 (current_hash second)).
Definition waiting : OrphanBuffer :=
  mkOrphans {[ [1%N] := [mkBuffered third (previous_hash third) 5 30; mkBuffered second (previous_hash second) 6 30] ]} 1024 256 30 2.

(** The third block came before the second; a second passes at every other reading
    of the clock, up to the twentieth. *)
Definition ticking (i : nat) : N := (10 + N.of_nat (Nat.min 10 (Nat.div2 i)))%N.

Lemma orphans_witness :
  ∃ n', replay_orphan_blocks ticking (cached_tip (blockchain ConcreteToken.token)) [1%N] (node Votes_new waiting) = (n', [second; third]) ∧
    node_tokens n' !! [1%N] = Some (grown ConcreteToken.token [second; third]) ∧ buffered_for [1%N] n' = [].
Proof.
  assert (buffered_for [1%N] (node Votes_new waiting) = [mkBuffered third (previous_hash third) 5 30; mkBuffered second (previous_hash second) 6 30]) as Hq by exact eq_refl.
  apply (orphans_follow_their_parent ticking [1%N] (node Votes_new waiting) ConcreteToken.token [second; third]); rewrite ?Hq.
  - exact eq_refl.
  - repeat split; by vm_compute.
  - apply (bool_decide_unpack (NoDup _)). by vm_compute.
  - intros x. rewrite !elem_of_cons. by intros [->|[->|?%not_elem_of_nil]].
  - intros i x Hx. assert (bb_ttl x = 30 ∧ 5 ≤ inserted_at x)%N as [Ht Hi].
    { revert Hx. rewrite !elem_of_cons. by intros [->|[->|?%not_elem_of_nil]]. }
    unfold is_expired, ticking. rewrite Ht. rewrite !(proj2 (N.leb_gt _ _)); [done|..]; lia.
  - apply Permutation_swap.
Defined.
End ConcreteGossip.
