(* ===== verification/Leadership.v ===== *)
(** * Epochs and leader proposals (committer/src/committer/epoching.rs, the dispatch of committer.rs)

    The committer advances the epoch, elects the leader from the stake and the
    chain tip, and, when it is the leader itself, proposes a batch of blocks from
    the pool and commits them through the path every other commit takes. The
    election is a parameter: [EpochManager] models the selector. *)

From S2P Require Import Prelude Steps Utf8 Interfaces Types Float StakeSets Environment Crypto Transactions Chain DataProvider Deserialize Wire.
From S2P Require Import Tokens Contracts Scan NodeRegistry Messages Pool Registry Epoch EpochManager Committer Nullifiers Merkle Roots ShieldedPool.
From S2P Require Import NodeSafety OrphanBuffer CommitPipeline Confirmation.

(** [canonical_chain_tip]: the tip of the token with the least id. *)
Definition canonical_chain_tip `{HashIter} `{Rmp} `{Sha256} (m : gmap bytes Token) : bytes :=
  match btree_entries m with
  | (_, t) :: _ => last_hash_in (get_current_chain_state (blockchain t))
  | [] => []
  end.

Section epochs.
Context `{Poseidon} `{!Pallas} `{!Halo2} `{HashIter} `{Rmp} `{Sha256} `{DataProvider} (c : CommitterConfig) (own_key : bytes).

(** What the node was built with: the selector, the epoch length, the proposer,
    and the token ids and the partition its reconciler looks at; and whether another
    task holds the detector's lock when an advance asks for it. *)
Record LeaderConfig := mkLeaderConfig {
  lc_select : StakeSet → N → bytes → bytes;
  lc_epoch_duration : Z;
  lc_proposer : BlockProposer;
  lc_reconciler_tokens : list bytes;
  lc_reconciler_env : string;
  lc_detector_held : bool;
}.
Context (lc : LeaderConfig).

Record LeaderNode := mkLeaderNode { ln_node : CommitterNode; epoch_detector : option EpochBoundaryDetector }.

Definition ln_core (n : LeaderNode) : CommitState := core_state (ln_node n).
Definition set_core (s : CommitState) (n : LeaderNode) : LeaderNode := mkLeaderNode (with_core s (ln_node n)) (epoch_detector n).
Definition set_detector (d : EpochBoundaryDetector) (n : LeaderNode) : LeaderNode := mkLeaderNode (ln_node n) (Some d).
Definition with_epoch_number (x : N) (s : CommitState) : CommitState :=
  mkCommitState (committed_txs s) (pending_registry s) (conflicts s) (services s) (shielded_pool s) x (node_registry s).

(** [advance_epoch_to]. The detector is advanced and the counter stored before the
    snapshots are saved. The next number wraps as in a release build. *)
Definition advance_epoch_to (n : LeaderNode) : LeaderNode * result CommitterError (option bytes) :=
  let s := ln_core n in
  let stakes := store_stake_set (stake_store (conflicts s)) in
  let tip := canonical_chain_tip (tokens (services s)) in
  if lc_detector_held lc then (n, Err CErrInternalSerialization)
  else match epoch_detector n with
  | None => (n, Err CErrInternalSerialization)
  | Some d =>
      let new_epoch := wrap_add (epoch_number (current_epoch d)) 1 in
      if N.leb new_epoch (current_epoch_number s) then (n, Ok None)
      else
        let d := advance_to_new_epoch (lc_select lc) stakes (lc_epoch_duration lc) tip d in
        let s := with_epoch_number new_epoch s in
        let n := set_detector d n in
        let '(st, saved) := save_stake_snapshot (the_store s) new_epoch stakes (token_partition_id (cc_env c)) in
        let s := with_store st s in
        match saved with
        | Err e => (set_core s n, Err (CErrSnapshotPersist new_epoch "stake" e))
        | Ok _ =>
            let '(st, saved) := save_executor_set (the_store s) new_epoch (to_executor_set stakes) (token_partition_id (cc_env c)) in
            let s := with_store st s in
            match saved with
            | Err e => (set_core s n, Err (CErrSnapshotPersist new_epoch "executor" e))
            | Ok _ => (set_core s n, Ok (Some (leader_public_key (current_epoch d))))
            end
        end
  end.

(** [handle_epoch_reconcile]. *)
Definition handle_epoch_reconcile (n : LeaderNode) : LeaderNode * result CommitterError () :=
  let s := ln_core n in
  let r := reconcile_internal (stake_store (conflicts s)) (candidate_registry (conflicts s)) (the_store s) (lc_reconciler_env lc)
             (lc_reconciler_tokens lc) (cc_slash_fraction c) in
  let '(stakes, applied) :=
    if negb (is_nil (slashing_ops r)) || negb (is_nil (reward_ops r)) then apply_ops r (stake_store (conflicts s))
    else (stake_store (conflicts s), Ok ()) in
  let n := set_core (with_conflicts (mkConflictState (candidate_registry (conflicts s)) stakes) s) n in
  match applied with
  | Err e => (n, Err (CErrCore e))
  | Ok _ => let '(n, advanced) := advance_epoch_to n in (n, match advanced with Ok _ => Ok () | Err e => Err e end)
  end.

(** The commit of one proposed transaction; routed ones are skipped. *)
Definition proposal (now : Z) (token_id : bytes) (t : Token) (epoch : N) (p : Transaction * SignedTransaction)
    : option TransactionCommit :=
  if is_none (tx_selection p.1) then
    Some (mkCommit (string_bytes (tx_id p.1)) token_id (environment_id (cc_env c))
            (from_transaction now p.2 (blockchain t) t epoch))
  else None.

(** [propose_blocks]; [now] is the clock, in seconds. *)
Definition propose_blocks (now : Z) (token_id : bytes) (limit : nat) (n : LeaderNode)
    : LeaderNode * result CommitterError (list TransactionCommit) :=
  let should_advance := match epoch_detector n with Some d => is_epoch_expired now d | None => false end in
  let '(n, advanced) := if (should_advance : bool) then advance_epoch_to n else (n, Ok None) in
  match advanced with
  | Err e => (n, Err e)
  | Ok _ =>
      let leader := d ← epoch_detector n; current_leader d in
      if negb (bool_decide (leader = Some own_key)) then (n, Ok [])
      else
        let '(r, batch) := propose_batch (lc_proposer lc) token_id limit (pending_registry (ln_core n)) in
        let n := set_core (with_pending r (ln_core n)) n in
        match batch with
        | Err e => (n, Err (CErrCore e))
        | Ok [] => (n, Ok [])
        | Ok batch =>
            match tokens (services (ln_core n)) !! token_id with
            | None => (n, Err (CErrTokenNotFound token_id None))
            | Some t => (n, Ok (omap (proposal now token_id t (current_epoch_number (ln_core n))) batch))
            end
        end
  end.

(** The commits of a batch one after the other; errors are only logged. *)
Fixpoint commit_batch (l : list TransactionCommit) (n : LeaderNode) : may_panic LeaderNode :=
  match l with
  | [] => Some n
  | commit :: l' =>
      '(s, _) ← check_and_commit c commit (sender_public_key c) (ln_core n);
      commit_batch l' (set_core s n)
  end.

Fixpoint epoch_loop (now : Z) (ids : list bytes) (n : LeaderNode) : may_panic (LeaderNode * result CommitterError ()) :=
  match ids with
  | [] => Some (n, Ok ())
  | id :: ids' =>
      let '(n, commits) := propose_blocks now id 10 n in
      match commits with
      | Err e => Some (n, Err e)
      | Ok commits => n ← commit_batch commits n; epoch_loop now ids' n
      end
  end.

(** [run_epoch_loop]. *)
Definition run_epoch_loop (now : Z) (n : LeaderNode) : may_panic (LeaderNode * result CommitterError ()) :=
  epoch_loop now (hash_iter (tokens (services (ln_core n)))).*1 n.

(** ** The dispatch of messages *)

Definition set_node (x : CommitterNode) (n : LeaderNode) : LeaderNode := mkLeaderNode x (epoch_detector n).

(** A handler of the committer's state, run in the node. *)
Definition in_core {A} (m : handler A) (n : LeaderNode) : may_panic (LeaderNode * result CommitterError A) :=
  '(s, r) ← m (ln_core n); Some (set_core s n, r).

Definition in_node {A} (f : CommitterNode → CommitterNode * result CommitterError A) (n : LeaderNode)
    : may_panic (LeaderNode * result CommitterError A) :=
  let '(x, r) := f (ln_node n) in Some (set_node x n, r).

(** [handle_message]; [at_instant] is the monotonic clock, reading by reading. *)
Definition handle_message (at_instant : nat → N) (m : Message) (n : LeaderNode) : may_panic (LeaderNode * result CommitterError ()) :=
  let undecodable e := Some (n, Err (CErrDeserialization e)) in
  match authenticate_message c (node_registry (ln_core n)) m with
  | Err e => Some (n, Err e)
  | Ok _ =>
      if String.eqb (action m) "Commit" then
        match decode_params (of_serde (A:=TransactionCommit)) (body m) with
        | Err e => undecodable e
        | Ok commit => in_core (handle_commit c commit (msg_public_key m)) n
        end
      else if String.eqb (action m) "DistributeToken" then
        match decode_params (of_serde (A:=Token)) (body m) with
        | Err e => undecodable e
        | Ok t => in_node (handle_token_distribution t) n
        end
      else if String.eqb (action m) "DistributeBlock" then
        match decode_params (of_serde (A:=Block)) (body m) with
        | Err e => undecodable e
        | Ok _ => Some (n, Ok ())
        end
      else if String.eqb (action m) "EpochReconcile" then Some (handle_epoch_reconcile n)
      else if String.eqb (action m) "BlockFinalized" then
        match decode_params (of_serde (A:=Block)) (body m) with
        | Err e => undecodable e
        | Ok b => '(x, r) ← handle_block_finalized c own_key at_instant b m (ln_node n); Some (set_node x n, r)
        end
      else if String.eqb (action m) "BlockConfirmed" then in_node (handle_block_confirmed_vote c m) n
      else if String.eqb (action m) "BlockQuorumReached" then in_node (handle_block_quorum_reached c m) n
      else Some (n, Err (CErrUnknownAction (action m)))
  end.
End epochs.

(** ** The conflict state along a commit *)

Section gate_state.
Context `{Poseidon} `{!Pallas} `{!Halo2} `{HashIter} `{Rmp} `{Sha256} `{DataProvider} (c : CommitterConfig).

Definition same_conflicts (s s' : CommitState) : Prop := conflicts s' = conflicts s.
#[global] Instance same_conflicts_preorder : PreOrder same_conflicts.
Proof. split; [done|]. unfold same_conflicts. intros s1 s2 s3 E1 E2. congruence. Qed.

Lemma on_registry_conflicts {A} (f : PendingTransactionRegistry → PendingTransactionRegistry * result PneumaticError A) :
  preserves same_conflicts (on_registry f).
Proof. intros s s' r. unfold on_registry. destruct (f _). by intros [= <- _]. Qed.

Lemma updates_conflicts f : (∀ s, conflicts (f s) = conflicts s) → preserves same_conflicts (updates f : handler ()).
Proof. intros Hf s s' r [= <- _]. apply Hf. Qed.

Lemma save_pool_conflicts : preserves same_conflicts (save_pool c).
Proof. intros s s' r. unfold save_pool. destruct (pool_save _ _ _) as [[st x]|]; [|done]. by intros [= <- _]. Qed.

Lemma gas_conflicts id sender : preserves same_conflicts (deduct_gas c id sender).
Proof. intros s s' r. unfold deduct_gas. repeat case_match; by intros [= <- _]. Qed.

Lemma deltas_conflicts tx epoch : preserves same_conflicts (apply_deltas c tx epoch).
Proof.
  intros s s' r. unfold apply_deltas. case_match.
  - destruct (apply_deploy_delta _ _ _) as [[st x]|]; [|done]. by intros [= <- _].
  - repeat case_match; by intros [= <- _].
Qed.

#[local] Hint Resolve on_registry_conflicts gas_conflicts deltas_conflicts : handlers.

Lemma book_conflicts id tx b l : preserves same_conflicts (book_committed id tx b l).
Proof. unfold book_committed, core. handler_steps; apply updates_conflicts; intros s; try done; by case_match. Qed.

Lemma append_conflicts commit rb m : preserves same_conflicts m → preserves same_conflicts (append_with_pool c commit rb m).
Proof.
  apply append_preserves; try apply _; try done; [apply save_pool_conflicts|].
  intros commit' rb' s s' r. unfold commit_to_chain. destruct (services_commit_block _ _ _ _). by intros [= <- _].
Qed.

(** Whatever follows, the gate has left its mark. *)
Lemma resolve_conflicts commit key s s' r :
  resolve_and_append c commit key s = Some (s', r) →
  conflicts s' = (handle_conflict_at_commit (cc_slash_fraction c) commit key (conflicts s)).1.
Proof.
  unfold resolve_and_append. destruct (handle_conflict_at_commit _ _ _ _) as [cs o]. cbn [fst].
  destruct o as [[|loser]|e]; [| |by intros [= <- _]]; intros Hs; apply append_conflicts in Hs; try done.
  - apply preserves_ret, _.
  - apply discard_preserves; [apply _|done|apply save_pool_conflicts].
Qed.

Lemma before_gate_conflicts id b tx key wire :
  preserves same_conflicts (refuse_booked id) ∧ preserves same_conflicts (materialize id tx key) ∧
  preserves same_conflicts (acquire_entry id (current_hash b)) ∧
  preserves same_conflicts (extract_transaction id tx wire) ∧ (∀ tx', preserves same_conflicts (adopt_result id tx' tx)) ∧
  preserves same_conflicts (check_shielded id (st_shielded (signed_trans b))).
Proof. unfold refuse_booked, materialize, acquire_entry, extract_transaction, adopt_result, check_shielded, core. split_and!; intros; handler_steps. Qed.

Lemma committed_conflicts commit key s s' :
  check_and_commit c commit key s = Some (s', Ok ()) →
  conflicts s' = (handle_conflict_at_commit (cc_slash_fraction c) commit key (conflicts s)).1.
Proof.
  unfold check_and_commit. intros Hc.
  set (id := from_utf8_lossy _) in *. set (b := proposed_block commit) in *. set (wtx := st_transaction _) in *.
  destruct (before_gate_conflicts id b wtx key false) as (E1 & E2 & E3 & _ & E5 & E6).
  apply step_bind_inv in Hc as (s1 & [u1|e] & K1%E1 & Hc); [|by destruct Hc].
  apply step_bind_inv in Hc as (s2 & [u2|e] & K2%E2 & Hc); [|by destruct Hc].
  apply step_bind_inv in Hc as (s3 & [u3|e] & K3%E3 & Hc); [|by destruct Hc].
  apply step_bind_inv in Hc as (s4 & [u4|e] & K4 & Hc); [|by destruct Hc].
  apply (before_gate_conflicts id b wtx key u3) in K4.
  apply step_bind_inv in Hc as (s5 & [u5|e] & K5%E5 & Hc); [|by destruct Hc].
  apply step_bind_inv in Hc as (s6 & [u6|e] & K6%E6 & Hc); [|by destruct Hc].
  apply step_bind_inv in Hc as (s7 & [u7|e] & K7 & Hc); [|by destruct Hc]. apply resolve_conflicts in K7.
  apply step_bind_inv in Hc as (s8 & [u8|e] & K8%gas_conflicts & Hc); [|by destruct Hc].
  apply step_bind_inv in Hc as (s9 & [u9|e] & K9%deltas_conflicts & Hc); [|by destruct Hc].
  apply book_conflicts in Hc. unfold same_conflicts in *. congruence.
Qed.

(** A commit of a transaction that waits in the registry reaches the gate with its entry locked. *)
Lemma waiting_commit commit key s h pid tx v locks :
  let id := from_utf8_lossy (trans_id commit) in
  let b := proposed_block commit in
  committed_txs s !! id = None → transactions (pending_registry s) !! id = Some (mkPending pid (Validated tx v) locks) →
  st_transaction (signed_trans b) = tx → st_shielded (signed_trans b) = None → identity_hash tx = Ok h →
  check_and_commit c commit key s =
  (_ ← resolve_and_append c commit key; _ ← deduct_gas c id (tx_sender tx); _ ← apply_deltas c tx (blk_epoch_number b);
   book_committed id tx b true)
    (with_pending (with_transactions (<[id := mkPending pid (Validated tx v) (S locks)]> (transactions (pending_registry s)))
                     (pending_registry s)) s).
Proof.
  cbv zeta. intros Hb Hr Htx Hsh Hid. unfold check_and_commit. rewrite Htx.
  set (id := from_utf8_lossy (trans_id commit)) in *. set (s1 := with_pending _ s).
  rewrite (step_bind_Ok _ _ _ s ()). 2:{ unfold refuse_booked, mbind, step_bind, asks. by rewrite Hb. }
  rewrite (step_bind_Ok _ _ _ s ()). 2:{ unfold materialize, mbind, step_bind, asks, contains. by rewrite Hr. }
  rewrite (step_bind_Ok _ _ _ s1 false). 2:{ unfold acquire_entry, mbind, step_bind, on_registry, acquire_transaction. by rewrite Hr. }
  rewrite (step_bind_Ok _ _ _ s1 (tx, true)).
  2:{ unfold extract_transaction, mbind, step_bind, asks, s1. cbn. by rewrite lookup_insert_eq. }
  cbn [fst snd]. rewrite (step_bind_Ok _ _ _ s1 tx).
  2:{ unfold adopt_result, core, mbind, step_bind, of_result. rewrite Hid. cbn. rewrite bool_decide_false by (by intros ?). by destruct tx. }
  rewrite Hsh. by rewrite (step_bind_Ok _ _ _ s1 ()).
Qed.
End gate_state.

(** ** A leader against itself *)

Section leaders.
Context `{Poseidon} `{!Pallas} `{!Halo2} `{HashIter} `{Rmp} `{Sha256} `{DataProvider} (c : CommitterConfig) (own_key : bytes).
Context (lc : LeaderConfig).

Lemma propose_all_plain p ids r batch :
  propose_all p ids r = Ok batch → Forall (λ x : Transaction * SignedTransaction, x.2 = proposed p x.1) batch.
Proof.
  revert batch. induction ids as [|id ids IH]; intros batch; cbn [propose_all]; [intros [= <-]; constructor|].
  destruct (get_transaction id r) as [tx|]; [|done]. cbn [mbind result_bind]. destruct (propose_all p ids r) as [rest|]; [|done].
  cbn [mbind result_bind]. intros [= <-]. constructor; [done|by apply IH].
Qed.

(** Every block of a batch is built on the same tip, and carries nothing shielded. *)
Definition at_position (token_id prev : bytes) (commit : TransactionCommit) : Prop :=
  tc_token_id commit = token_id ∧ previous_hash (proposed_block commit) = prev ∧
  st_shielded (signed_trans (proposed_block commit)) = None.

Lemma proposals_at now token_id t epoch p ps :
  Forall (λ x : Transaction * SignedTransaction, x.2 = proposed p x.1) ps →
  Forall (at_position token_id (if decide (get_count (blockchain t) = 0) then [] else last_hash_in (get_current_chain_state (blockchain t))))
    (omap (proposal c now token_id t epoch) ps).
Proof.
  induction 1 as [|q ps Hq _ IH]; [constructor|]. cbn [omap list_omap]. unfold proposal at 1. destruct (is_none _); [|exact IH].
  constructor; [|exact IH]. split_and!; [done|done|]. cbn. by rewrite Hq.
Qed.

Lemma proposals_share_position now token_id limit n n' l :
  propose_blocks c own_key lc now token_id limit n = (n', Ok l) → ∃ prev, Forall (at_position token_id prev) l.
Proof.
  unfold propose_blocks. destruct (if match epoch_detector n with Some d => is_epoch_expired now d | None => false end then _ else _)
    as [n1 [leader|e]]; [|done].
  destruct (negb _); [intros [= _ <-]; by exists []|]. unfold propose_batch.
  destruct (dequeue_for_leader _ _ _) as [r ids]. destruct (propose_all _ ids r) as [batch|] eqn:Eb; [|done].
  apply propose_all_plain in Eb. destruct batch as [|p batch]; [intros [= _ <-]; by exists []|].
  destruct (tokens (services _) !! token_id) as [t|]; [|done]. intros E%(f_equal snd). apply (inj Ok) in E as <-.
  eexists. by eapply proposals_at.
Qed.

(** A leader that proposes two transactions at once is slashed by itself. All
    blocks of a batch are built on the tip the batch started from. When the first
    is committed, the second meets it at the conflict gate as a rival by the same
    proposer: it is discarded, its transaction stays locked in the registry, and
    the leader pays for a double proposal. *)
Theorem leader_batch_slashes_leader now token_id limit n n' c1 c2 rest s1 h pid v locks :
  let key := sender_public_key c in
  let s := ln_core n' in
  let tx := st_transaction (signed_trans (proposed_block c2)) in
  let id := from_utf8_lossy (trans_id c2) in
  propose_blocks c own_key lc now token_id limit n = (n', Ok (c1 :: c2 :: rest)) →
  get_candidates token_id (previous_hash (proposed_block c1)) (candidate_registry (conflicts s)) = [] →
  1 ≤ max_candidates (candidate_registry (conflicts s)) →
  check_and_commit c c1 key s = Some (s1, Ok ()) →
  committed_txs s1 !! id = None → transactions (pending_registry s1) !! id = Some (mkPending pid (Validated tx v) locks) →
  identity_hash tx = Ok h →
  ∃ s2, check_and_commit c c2 key s1 = Some (s2, Err CErrLoserDiscarded) ∧
    stake_store (conflicts s2) =
      slash key (slash_amount (get_stake key (stake_store (conflicts s))) (cc_slash_fraction c)) (stake_store (conflicts s)) ∧
    transactions (pending_registry s2) !! id = Some (mkPending pid (Validated tx v) (S locks)).
Proof.
  cbv zeta. intros Hprop Hnone Hmax Hfirst Hbook Hentry Hid.
  apply proposals_share_position in Hprop as (prev & Hall). apply Forall_cons in Hall as [(Ht1 & Hp1 & _) Hall].
  apply Forall_cons in Hall as [(Ht2 & Hp2 & Hsh) _]. apply committed_conflicts in Hfirst.
  unfold handle_conflict_at_commit in Hfirst. rewrite Ht1, Hp1 in Hfirst. rewrite Hp1 in Hnone. rewrite Hnone in Hfirst. cbn [fst] in Hfirst.
  rewrite (waiting_commit c c2 _ s1 h pid _ v locks) by done. set (s2 := with_pending _ s1).
  unfold resolve_and_append at 1. unfold mbind at 1, step_bind at 1.
  assert (conflicts s2 = conflicts s1) as -> by done. rewrite Hfirst.
  unfold handle_conflict_at_commit. rewrite Ht2, Hp2. cbn [candidate_registry]. rewrite get_insert_candidate, Hnone.
  cbn [app length]. replace (1 - _) with 0 by lia. cbn [drop].
  change (stake_store (mkConflictState ?r ?st)) with st. set (cs := mkConflictState _ _).
  rewrite (fold_candidates_stops _ _ _ _ _ cs (proposed_block c1, sender_public_key c) []).
  2:{ unfold passes. simpl. lia. }
  eexists. split; [done|]. split.
  - unfold rejected. simpl. by rewrite bool_decide_true.
  - cbn. by rewrite lookup_insert_eq.
Qed.

(** C40: what an epoch advance does. While another task holds the detector it is an
    error that changes nothing. It is refused, with nothing changed, unless the
    next number exceeds the counter. Otherwise the counter and the detector both
    move to the next number, with the leader the selector names for the stake and
    the canonical tip; and they have moved also when saving a snapshot fails and
    the advance reports an error, so that a retry asks for the number after, and
    the epoch whose snapshot is missing is never saved again. *)
Theorem epoch_advance_outcomes n d n' r :
  let s := ln_core n in
  let next := wrap_add (epoch_number (current_epoch d)) 1 in
  let leader := lc_select lc (store_stake_set (stake_store (conflicts s))) next (canonical_chain_tip (tokens (services s))) in
  epoch_detector n = Some d → advance_epoch_to c lc n = (n', r) →
  if lc_detector_held lc then n' = n ∧ r = Err CErrInternalSerialization else
  match r with
  | Ok None => n' = n ∧ (next ≤ current_epoch_number s)%N
  | _ =>
      (current_epoch_number s < next)%N ∧ current_epoch_number (ln_core n') = next ∧
      (∃ d', epoch_detector n' = Some d' ∧ epoch_number (current_epoch d') = next ∧ leader_public_key (current_epoch d') = leader) ∧
      match r with Ok k => k = Some leader | Err e => ∃ what cause, e = CErrSnapshotPersist next what cause end
  end.
Proof.
  cbv zeta. intros Hd. unfold advance_epoch_to. destruct (lc_detector_held lc); [by intros [= <- <-]|]. rewrite Hd. set (next := wrap_add _ 1).
  destruct (N.leb_spec next (current_epoch_number (ln_core n))) as [Hle|Hlt]; [by intros [= <- <-]|].
  set (d1 := advance_to_new_epoch _ _ _ _ _).
  destruct (save_stake_snapshot _ _ _ _) as [st1 [u1|e1]].
  - destruct (save_executor_set _ _ _ _) as [st2 [u2|e2]]; intros [= <- <-].
    + split_and!; [done|done| |done]. by exists d1.
    + split_and!; [done|done| |by do 2 eexists]. by exists d1.
  - intros [= <- <-]. split_and!; [done|done| |by do 2 eexists]. by exists d1.
Qed.

(** The reconciliation of an epoch never slashes anyone on a node built as the
    committer's main program builds it, with no token to look at: whatever chains
    the store holds and whatever rivals were recorded, candidates and stakes come
    out as they went in. *)
Theorem reconciliation_looks_at_nothing n :
  lc_reconciler_tokens lc = [] → conflicts (ln_core (handle_epoch_reconcile c lc n).1) = conflicts (ln_core n).
Proof.
  intros Ht. unfold handle_epoch_reconcile, reconcile_internal. rewrite Ht. cbn [foldl snd slashing_ops reward_ops is_nil negb orb].
  set (n1 := set_core _ n). assert (conflicts (ln_core n1) = conflicts (ln_core n)) as <- by (unfold n1; cbn; by destruct (conflicts _)).
  unfold advance_epoch_to. repeat case_match; cbn in *; simplify_eq; done.
Qed.
End leaders.

(** ** The properties at a concrete leader *)

Module ConcreteLeader.
Export ConcreteGossip.
Import ConcreteChain ConcreteCrypto.

Definition waiting_tx (id : string) (seq : nat) : Transaction :=
  mkTransaction id "Transfer" [1%N] None seq [9%N] [8%N] None 0 [] [] [] 0 [] None.
Definition verdict : TransactionValidationResult := validation_valid [] (mkRisk 0 0 false false).
Definition entry (id : string) (seq : nat) : PendingTransaction := mkPending id (Validated (waiting_tx id seq) verdict) 0.
Definition queued_two : PendingTransactionRegistry :=
  mkRegistry (<["a" := entry "a" 1]> {["b" := entry "b" 2]})
    (enqueue "b" [1%N] 2 0 [9%N] (enqueue "a" [1%N] 1 0 [9%N] TransactionPool_new)) ∅ ∅ ∅ ∅.
Definition leader_stakes : gmap bytes N := {[ConcreteNodes.key := 100%N]}.
Definition leader_core : CommitState :=
  mkCommitState ∅ queued_two (mkConflictState CandidateRegistry_new leader_stakes)
    (mkServices {[ [1%N] := ConcreteToken.token ]} stored) pool0 0 ConcreteNodes.known.
Definition leader_config : LeaderConfig :=
  mkLeaderConfig (λ _ _ _, ConcreteNodes.key) 60 (BlockProposer_new ConcreteNodes.key 100 []) [] "env" false.
Definition leader : LeaderNode :=
  mkLeaderNode (mkNode leader_core Votes_new buffer []) (Some (EpochBoundaryDetector_new (mkEpoch 0 60 1 ConcreteNodes.key))).

Abbreviation batch := (propose_blocks config ConcreteNodes.key leader_config 10 [1%N] 10 leader).
Definition after_proposal : LeaderNode := batch.1.
Definition nth_commit (i : nat) : TransactionCommit :=
  match batch.2 with Ok l => default (commit []) (l !! i) | Err _ => commit [] end.

Lemma two_proposed : batch = (after_proposal, Ok [nth_commit 0; nth_commit 1]).
Proof.
  assert (match batch.2 with Ok [_; _] => true | _ => false end = true) as Hv by (by vm_compute).
  unfold after_proposal, nth_commit. destruct batch as [n [[|a [|b [|x l]]]|e]]; done.
Qed.

Abbreviation one_done := (check_and_commit config (nth_commit 0) (sender_public_key config) (ln_core after_proposal)).
Definition after_one : CommitState := match one_done with Some (s, _) => s | None => leader_core end.

Lemma first_committed : one_done = Some (after_one, Ok ()).
Proof.
  assert (match one_done with Some (_, Ok _) => true | _ => false end = true) as Hv by (by vm_compute).
  unfold after_one. destruct one_done as [[s [[]|e]]|]; done.
Qed.

Definition second_tx : Transaction := st_transaction (signed_trans (proposed_block (nth_commit 1))).
Lemma second_waits :
  committed_txs after_one !! from_utf8_lossy (trans_id (nth_commit 1)) = None ∧
  transactions (pending_registry after_one) !! from_utf8_lossy (trans_id (nth_commit 1)) =
    Some (mkPending "b" (Validated second_tx verdict) 0) ∧
  is_ok (identity_hash second_tx) = true.
Proof. split_and!; by vm_compute. Qed.

Lemma no_rivals :
  get_candidates [1%N] (previous_hash (proposed_block (nth_commit 0))) (candidate_registry (conflicts (ln_core after_proposal))) = [] ∧
  1 ≤ max_candidates (candidate_registry (conflicts (ln_core after_proposal))).
Proof. split; [by vm_compute|]. apply (bool_decide_unpack (_ ≤ _)). by vm_compute. Qed.

Lemma leader_witness :
  ∃ s2, check_and_commit config (nth_commit 1) (sender_public_key config) after_one = Some (s2, Err CErrLoserDiscarded).
Proof.
  destruct second_waits as (Hb & He & Hh). destruct no_rivals as [Hr Hm].
  destruct (identity_hash second_tx) as [h|] eqn:Eh; [|done].
  destruct (leader_batch_slashes_leader config ConcreteNodes.key leader_config 10 [1%N] 10 leader after_proposal (nth_commit 0) (nth_commit 1)
              [] after_one h "b" verdict 0 two_proposed Hr Hm first_committed Hb He Eh) as (s2 & Hs & _).
  exists s2. exact Hs.
Defined.

Abbreviation advanced := (advance_epoch_to config leader_config leader).
Lemma advance_witness : current_epoch_number (ln_core advanced.1) = 2%N.
Proof.
  assert (is_ok advanced.2 = true ∧ match advanced.2 with Ok None => false | _ => true end = true) as [Hv Hn] by (split; by vm_compute).
  destruct advanced as [n' r] eqn:E. cbn [fst snd] in *.
  pose proof (epoch_advance_outcomes config leader_config leader (EpochBoundaryDetector_new (mkEpoch 0 60 1 ConcreteNodes.key)) n' r eq_refl E) as Ha.
  cbv zeta in Ha. destruct r as [[k|]|e]; [|done..]. by destruct Ha as (_ & -> & _).
Defined.

Lemma no_reconciliation_witness :
  conflicts (ln_core (handle_epoch_reconcile config leader_config leader).1) = conflicts (ln_core leader).
Proof. apply (reconciliation_looks_at_nothing config leader_config leader). reflexivity. Defined.
End ConcreteLeader.
