(* ===== verification/Finalizer.v ===== *)
(** * The Finalizer (finalizer/src/finalizer.rs, finalizer/{signing,routing,finalizing,shielded}.rs,
    block_builder.rs, message_dispatcher.rs)

    Preloads with the routing decision they carry, the votes of Executors, the
    block built from the first of them, and the quorum path of shielded
    transfers. Frames leave through a list of payloads with the role they are
    broadcast to; the data service, the pool view and the clock are what they are
    when a handler runs. *)

From S2P Require Import Prelude Steps Utf8 Interfaces Types Float StakeSets Selection Environment Serialize Crypto Transactions Chain DataProvider.
From S2P Require Import Deserialize Wire NodeRegistry Messages Pool Registry Epoch Signatures Nullifiers Merkle Roots.

(** ** Building blocks *)

Record BlockBuilder := mkBuilder {
  bb_signing_key : AsymCryptoProvider;
  bb_leader_address : bytes;
  bb_leader_stake : N;
  bb_leader_hash : bytes;
  bb_finalizer_addr : bytes;
}.

Section builder.
Context `{HashIter} `{Rmp} `{Sha256} (bb : BlockBuilder).

(** The reconciled votes as the block carries them. *)
Definition carried_sigs (id : string) (token_id : bytes) (l : list ExecutorSignature) : gmap bytes TransactionSignature :=
  foldl (λ m es, <[executor_public_key es :=
                     mkSignature (string_bytes id) token_id (es_signature es) (es_signature es) (es_stake es)]> m) ∅ l.

Definition placeholder_sig (id : string) (token_id : bytes) : TransactionSignature :=
  mkSignature (string_bytes id) token_id [] [] 0.

Definition build_signed_transaction (reconciled : ReconciledSignatures) (t : Transaction) (total_stake total_voters : N)
    : SignedTransaction :=
  mkSigned (tx_id t) t total_stake total_voters (bb_leader_address bb) (bb_leader_stake bb) (bb_leader_hash bb)
    (bb_finalizer_addr bb) (placeholder_sig (tx_id t) (tx_token_id t))
    (carried_sigs (tx_id t) (tx_token_id t) (executor_signatures reconciled)) (bb_leader_address bb) None.

Definition build_signed_transaction_shielded (reconciled : ReconciledSignatures) (stx : ShieldedTransaction)
    (total_stake total_voters : N) : SignedTransaction :=
  mkSigned (sh_id stx) (placeholder_transaction stx) total_stake total_voters (bb_leader_address bb) (bb_leader_stake bb)
    (bb_leader_hash bb) (bb_finalizer_addr bb) (placeholder_sig (sh_id stx) (sh_token_id stx))
    (carried_sigs (sh_id stx) (sh_token_id stx) (executor_signatures reconciled)) (bb_leader_address bb) (Some stx).

Definition with_result_hash (h : bytes) (t : Transaction) : Transaction :=
  mkTransaction (tx_id t) (tx_action t) (tx_token_id t) (tx_bid t) (tx_sequence_number t) (tx_sender t)
    (tx_receiver t) (tx_amount t) (tx_timestamp t) h (tx_sender_signature t) (tx_payload t)
    (tx_gas_limit t) (tx_result_data t) (tx_selection t).

Definition build_signed_transaction_optimistic (sig : TransactionSignature) (t : Transaction) (executor_key : bytes)
    : SignedTransaction :=
  let t := with_result_hash (ts_transaction_hash sig) t in
  mkSigned (tx_id t) t (ts_current_stake sig) 1 (bb_leader_address bb) (bb_leader_stake bb) (bb_leader_hash bb)
    (bb_finalizer_addr bb) (placeholder_sig (tx_id t) (tx_token_id t))
    {[ executor_key := mkSignature (string_bytes (tx_id t)) (tx_token_id t) (ts_signature sig) (ts_signature sig)
                         (ts_current_stake sig) ]} (bb_leader_address bb) None.

Definition sign_finalizer_block (signed : SignedTransaction) : result PneumaticError TransactionSignature :=
  transaction_hash ← finalizer_digest signed;
  signature ← map_err (λ _, CryptoError "finalizer block signing failed") (sign_data (bb_signing_key bb) transaction_hash);
  Ok (mkSignature (string_bytes (tx_id (st_transaction signed))) (tx_token_id (st_transaction signed)) transaction_hash
        signature (bb_leader_stake bb)).

Definition create_block (now : Z) (signed : SignedTransaction) (previous : bytes) (epoch : N) : result PneumaticError Block :=
  let block := mkBlock signed ∅ previous [] now Optimistic (st_proposer_key signed) epoch in
  hash ← map_err (λ _, Encoding "create_hash") (create_hash block);
  Ok (with_current_hash hash block).

Definition create_block_optimistic := create_block.
End builder.

(** ** State *)

Record FinalizerConfig := mkFinalizerConfig {
  fz_env_id : string;
  fz_public_key : bytes;
  fz_identity : AsymCryptoProvider;
  fz_host : Host;
  fz_builder : BlockBuilder;
  fz_partition : string;
  fz_env : EnvironmentMetadata;
  (** [set_stake_set] *)
  fz_stake_set : option StakeSet;
}.

Record FinalizerState := mkFinalizerState {
  fz_nodes : NodeRegistry;
  fz_pending : PendingTransactionRegistry;
  fz_collector : SignatureCollector;
  preload_tasks : gmap string bytes;
  fz_epoch : N;
  stake_cache : EpochSnapshotCache (T:=StakeSet);
  recorded_shielded : gmap string bytes;
  sent : list (NodeRegistryType * bytes);
}.

Definition set_pending (x : PendingTransactionRegistry) (s : FinalizerState) : FinalizerState :=
  mkFinalizerState (fz_nodes s) x (fz_collector s) (preload_tasks s) (fz_epoch s) (stake_cache s) (recorded_shielded s) (sent s).
Definition set_collector (x : SignatureCollector) (s : FinalizerState) : FinalizerState :=
  mkFinalizerState (fz_nodes s) (fz_pending s) x (preload_tasks s) (fz_epoch s) (stake_cache s) (recorded_shielded s) (sent s).
Definition set_preloads (x : gmap string bytes) (s : FinalizerState) : FinalizerState :=
  mkFinalizerState (fz_nodes s) (fz_pending s) (fz_collector s) x (fz_epoch s) (stake_cache s) (recorded_shielded s) (sent s).
Definition set_cache (x : EpochSnapshotCache (T:=StakeSet)) (s : FinalizerState) : FinalizerState :=
  mkFinalizerState (fz_nodes s) (fz_pending s) (fz_collector s) (preload_tasks s) (fz_epoch s) x (recorded_shielded s) (sent s).
Definition set_recorded (x : gmap string bytes) (s : FinalizerState) : FinalizerState :=
  mkFinalizerState (fz_nodes s) (fz_pending s) (fz_collector s) (preload_tasks s) (fz_epoch s) (stake_cache s) x (sent s).
Definition push_sent (x : list (NodeRegistryType * bytes)) (s : FinalizerState) : FinalizerState :=
  mkFinalizerState (fz_nodes s) (fz_pending s) (fz_collector s) (preload_tasks s) (fz_epoch s) (stake_cache s)
    (recorded_shielded s) (sent s ++ x).

(** [advance_epoch] of finalizer.rs. *)
Definition finalizer_advance_epoch (s : FinalizerState) : FinalizerState :=
  mkFinalizerState (fz_nodes s) (fz_pending s) (fz_collector s) (preload_tasks s) (wrap_add (fz_epoch s) 1)
    (invalidate_all (stake_cache s)) (recorded_shielded s) (sent s).

Abbreviation finalizer := (step FinalizerState PneumaticError) (only parsing).

Definition on_pending {A} (f : PendingTransactionRegistry → PendingTransactionRegistry * result PneumaticError A) : finalizer A :=
  λ s, let '(r, res) := f (fz_pending s) in Some (set_pending r s, res).
Definition on_collector {A} (f : SignatureCollector → SignatureCollector * result PneumaticError A) : finalizer A :=
  λ s, let '(r, res) := f (fz_collector s) in Some (set_collector r s, res).
(** [if let Ok(mut entry) = get_transaction_mut(..)] *)
Definition mutate (id : string) (f : PendingTransaction → PendingTransaction) : finalizer () :=
  updates (λ s, set_pending (get_transaction_mut id f (fz_pending s)).1 s).

Definition acknowledge : bytes := string_bytes "ack".

(** ** Routing authority *)

Section handlers.
Context `{Poseidon} `{!Pallas} `{!Halo2} `{HashIter} `{Rmp} `{Sha256} `{DataProvider} (c : FinalizerConfig).
(** The data service, the pool view and the clock at the time of the call. *)
Context (st : store) (view : ShieldedValidationDeps) (now : Z).

Definition finalize_authority (t : Transaction) (nodes : NodeRegistry) : result PneumaticError () :=
  record ← ok_or (Routing "no routing decision") (tx_selection t);
  attested ← SelectionRecord_verify record (tx_id t) FINALIZER_DOMAIN (fz_identity c);
  if negb attested then Err (Routing "decision does not verify")
  else if negb (bool_decide (Sentinel ∈ find_node_types_by_public_key (fz_host c) (sr_sentinel_public_key record) nodes))
  then Err (Routing "attester is not a Sentinel")
  else if negb (names record (fz_public_key c)) then Err (Routing "assigned to another Finalizer")
  else Ok ().

(** A missing or settled entry is not refused here. *)
Definition finalize_authority_for_id (id : string) (s : FinalizerState) : result PneumaticError () :=
  match transactions (fz_pending s) !! id with
  | None => Ok ()
  | Some entry =>
      match held_transaction (pt_state entry) with
      | Some t => finalize_authority t (fz_nodes s)
      | None => Ok ()
      end
  end.

(** ** Frames *)

Definition frame (act : string) (v : serde) (stakes : option StakeSet) : result PneumaticError bytes :=
  body ← map_err Encoding (rmp_enc v);
  m ← signed_message (fz_identity c) (fz_env_id c) act body stakes;
  map_err Encoding (rmp_enc (ser_Message m)).

Definition dispatch_frame (act : string) (v : serde) (stakes : option StakeSet) (roles : list NodeRegistryType) : finalizer () :=
  payload ← of_result (frame act v stakes);
  updates (push_sent ((λ t, (t, payload)) <$> roles)).

Definition send_to_committers (commit : TransactionCommit) : finalizer () :=
  dispatch_frame "Commit" (ser_TransactionCommit commit) None [Committer].
Definition send_shielded_vote_to_finalizers (vote : TransactionSignature) : finalizer () :=
  dispatch_frame "ShieldedVote" (ser_TransactionSignature vote) None [Finalizer].
Definition send_clear_to_sentinels (id : string) : finalizer () := dispatch_frame "Clear" (SStr id) None [Sentinel].
Definition send_block_finalized (b : Block) (stakes : option StakeSet) : finalizer () :=
  dispatch_frame "BlockFinalized" (ser_Block b) stakes [Committer; Archiver; Sentinel].
Definition send_block_confirmed_vote (block_hash : bytes) : finalizer () :=
  dispatch_frame "BlockConfirmed" (SSeq [ser_bytes block_hash; ser_bytes (fz_public_key c)]) None
    [Committer; Archiver; Executor; Sentinel].
Definition send_block_quorum_reached (block_hash : bytes) : finalizer () :=
  dispatch_frame "BlockQuorumReached" (ser_bytes block_hash) None [Committer; Archiver; Executor; Sentinel].

(** ** What a block is built on *)

Definition get_stake_set_for_epoch : finalizer (option StakeSet) :=
  match fz_stake_set c with
  | Some x => mret (Some x)
  | None => runs (λ s, let '(k, x) := cache_get (get_stake_snapshot st) (fz_epoch s) (stake_cache s) in (set_cache k s, x))
  end.

Definition resolve_previous_hash (token_id : bytes) : bytes :=
  match get_token st token_id (fz_partition c) with
  | Ok t => last_hash_in (get_current_chain_state (blockchain t))
  | Err _ => []
  end.

Definition resolve_stake_metrics : finalizer (N * N) :=
  stakes ← get_stake_set_for_epoch;
  mret match stakes with
       | Some x => (StakeSet_total_stake x, N.of_nat (size (stakers x)) mod 4294967296)%N
       | None => (0, 0)%N
       end.

Definition responsible_set : finalizer ResponsibleSet :=
  if N.ltb 1 (shard_count (fz_env c)) then fails (EpochError "no responsible set for a shard")
  else
    stakes ← get_stake_set_for_epoch;
    match stakes with
    | Some x => mret (from_stake_set x)
    | None => fails (EpochError "no stake snapshot for the current epoch")
    end.

Definition current_stake_for_voter (voter : bytes) : finalizer N :=
  stakes ← get_stake_set_for_epoch;
  mret match stakes with Some x => default 0%N (stakers x !! voter) | None => 0%N end.

(** ** Finalizing *)

Definition not_executable (id : string) : PneumaticError :=
  Registry ("Transaction " +:+ id +:+ " not in executable state for finalization").

Definition load_held (id : string) : finalizer Transaction :=
  λ s, Some (s, match transactions (fz_pending s) !! id with
                | None => Err (not_found id)
                | Some entry => ok_or (not_executable id) (held_transaction (pt_state entry))
                end).

Definition finalizer_key_at (id : string) (s : FinalizerState) : bytes :=
  match transactions (fz_pending s) !! id with
  | Some entry =>
      match pt_state entry with
      | Validated _ validation => finalizer_public_key validation
      | Finalizing _ key => key
      | _ => []
      end
  | None => []
  end.

(** The last steps of every finalization. *)
Definition clean_up (id : string) : finalizer bytes :=
  _ ← updates (λ s, set_preloads (delete id (preload_tasks s)) s);
  _ ← updates (λ s, set_collector (with_signatures (try_remove_transaction id (signature_registry (fz_collector s))).1 (fz_collector s)) s);
  of_result (map_err Encoding (rmp_enc (ser_bytes (string_bytes id)))).

Definition try_finalize (id : string) : finalizer bytes :=
  responsible ← responsible_set;
  reconciled ← on_collector (reconcile_signatures id responsible);
  t ← load_held id;
  key ← asks (finalizer_key_at id);
  metrics ← resolve_stake_metrics;
  let signed := build_signed_transaction (fz_builder c) reconciled t metrics.1 metrics.2 in
  fsig ← of_result (sign_finalizer_block (fz_builder c) signed);
  let signed := with_finalizer_sig fsig signed in
  _ ← mutate id (transition_to_finalizing t key);
  epoch ← asks fz_epoch;
  b ← of_result (create_block now signed (resolve_previous_hash (tx_token_id t)) epoch);
  _ ← send_to_committers (mkCommit (string_bytes id) (tx_token_id t) (fz_env_id c) b);
  _ ← send_clear_to_sentinels id;
  _ ← mutate id (transition_to_committed t (current_hash b));
  clean_up id.

Definition try_finalize_optimistic (id : string) (sig : TransactionSignature) (voter : bytes) : finalizer bytes :=
  t ← load_held id;
  authority ← asks (λ s, finalize_authority t (fz_nodes s));
  _ ← of_result authority;
  let t := with_result_hash (ts_transaction_hash sig) t in
  key ← asks (finalizer_key_at id);
  let signed := build_signed_transaction_optimistic (fz_builder c) sig t voter in
  fsig ← of_result (sign_finalizer_block (fz_builder c) signed);
  let signed := with_finalizer_sig fsig signed in
  _ ← mutate id (transition_to_finalizing t key);
  epoch ← asks fz_epoch;
  b ← of_result (create_block_optimistic now signed (resolve_previous_hash (tx_token_id t)) epoch);
  _ ← send_to_committers (mkCommit (string_bytes id) (tx_token_id t) (fz_env_id c) b);
  stakes ← get_stake_set_for_epoch;
  _ ← send_block_finalized b stakes;
  _ ← send_clear_to_sentinels id;
  _ ← mutate id (transition_to_committed t (current_hash b));
  clean_up id.

(** A failed replay is only logged. *)
Definition retry_finalize_from_collected (id : string) : finalizer () :=
  first ← asks (λ s, first_signature id (fz_collector s));
  match first with
  | None => mret ()
  | Some (voter, sig) => _ ← attempt (try_finalize_optimistic id sig voter); mret ()
  end.

(** ** Preloads and votes *)

(** [authenticate_signature_message] and [authenticate_shielded_message]: the
    envelope, and the one role its sender must hold. *)
Definition authenticate_role (role : NodeRegistryType) (m : Message) (nodes : NodeRegistry) : result PneumaticError bytes :=
  match authenticate_envelope (fz_identity c) (fz_host c) nodes (msg_signature m) (msg_public_key m) (body m) with
  | Err (BadSignature _ _) => Err (CryptoError "envelope signature verification failed")
  | Err (Unregistered _) => Err (Registry "sender is not registered as any node")
  | Ok roles =>
      if bool_decide (role ∈ roles) then Ok (msg_public_key m) else Err (Registry "sender does not hold the role")
  end.
Definition authenticate_signature_message := authenticate_role Executor.
Definition authenticate_shielded_message := authenticate_role Finalizer.

(** The preloaded transaction takes the place of the entry's own. *)
Definition refresh (t : Transaction) (entry : PendingTransaction) : PendingTransaction :=
  match pt_state entry with
  | Pending => transition_to_preloaded t entry
  | Validated _ validation => with_state (Validated t validation) entry
  | Preloaded _ | Executing _ => with_state (Preloaded t) entry
  | _ => entry
  end.

Definition register_preload (t : Transaction) : finalizer () :=
  present ← asks (λ s, contains (tx_id t) (fz_pending s));
  if (present : bool) then mutate (tx_id t) (refresh t)
  else
    _ ← on_pending (λ r, let '(r', x) := register_pending (tx_id t) r in (r', map_err (λ _, Registry "preload register") x));
    mutate (tx_id t) (transition_to_preloaded t).

Definition handle_preload (m : Message) : finalizer bytes :=
  t ← of_result (map_err Encoding (deserialize_rmp_to Transaction (body m)));
  authority ← asks (λ s, finalize_authority t (fz_nodes s));
  _ ← of_result authority;
  encoded ← of_result (map_err Encoding (rmp_enc (ser_Transaction t)));
  _ ← updates (λ s, set_preloads (<[tx_id t := encoded]> (preload_tasks s)) s);
  _ ← register_preload t;
  _ ← retry_finalize_from_collected (tx_id t);
  mret acknowledge.

Definition with_stake (n : N) (x : TransactionSignature) : TransactionSignature :=
  mkSignature (ts_transaction_id x) (ts_env_id x) (ts_transaction_hash x) (ts_signature x) n.

(** The inner signature, over the hash the vote claims. *)
Definition verify_vote (vote : TransactionSignature) (voter : bytes) : result PneumaticError () :=
  match check_signature (fz_identity c) (ts_signature vote) voter (ts_transaction_hash vote) with
  | Ok true => Ok ()
  | _ => Err (CryptoError "vote signature verification failed")
  end.

Definition handle_signature (m : Message) : finalizer bytes :=
  vote ← of_result (map_err Encoding (deserialize_rmp_to TransactionSignature (body m)));
  let id := from_utf8_lossy (ts_transaction_id vote) in
  authenticated ← asks (λ s, authenticate_signature_message m (fz_nodes s));
  voter ← of_result authenticated;
  _ ← of_result (verify_vote vote voter);
  stake ← current_stake_for_voter voter;
  let vote := with_stake stake vote in
  authority ← asks (finalize_authority_for_id id);
  _ ← of_result authority;
  _ ← on_collector (add_signature id voter vote);
  n ← asks (λ s, signature_count id (fz_collector s));
  if bool_decide (n = 1) then try_finalize_optimistic id vote voter else mret acknowledge.

(** ** Shielded transfers *)

Definition validate_advisory (stx : ShieldedTransaction) : result PneumaticError () :=
  _ ← validate_shielded_advisory stx (fz_env c) view; Ok ().

Definition record_shielded (stx : ShieldedTransaction) (canonical : bytes) : finalizer () :=
  existing ← asks (λ s, recorded_shielded s !! sh_id stx);
  match existing with
  | Some x =>
      if bool_decide (x ≠ canonical) then fails (Registry "conflicting shielded tx")
      else updates (λ s, set_recorded (<[sh_id stx := canonical]> (recorded_shielded s)) s)
  | None => updates (λ s, set_recorded (<[sh_id stx := canonical]> (recorded_shielded s)) s)
  end.

Definition handle_sign_shielded (m : Message) : finalizer bytes :=
  authenticated ← asks (λ s, authenticate_shielded_message m (fz_nodes s));
  sender ← of_result authenticated;
  stx ← of_result (map_err Encoding (deserialize_rmp_to ShieldedTransaction (body m)));
  canonical ← of_result (Shielded_canonical_bytes stx);
  _ ← of_result (validate_advisory stx);
  _ ← record_shielded stx canonical;
  tx_hash ← of_result (Shielded_hash stx);
  signature ← of_result (map_err (λ _, CryptoError "shielded vote signing failed") (sign_data (fz_identity c) tx_hash));
  stake ← current_stake_for_voter sender;
  _ ← send_shielded_vote_to_finalizers (mkSignature (string_bytes (sh_id stx)) (string_bytes (fz_env_id c)) tx_hash signature stake);
  mret acknowledge.

(** Every collected vote names this hash. *)
Definition votes_bind (id : string) (h : bytes) (s : FinalizerState) : bool :=
  match get_transaction_registry id (signature_registry (fz_collector s)) with
  | Some votes => forallb (λ kv : bytes * TransactionSignature, bool_decide (ts_transaction_hash kv.2 = h)) (hash_iter votes)
  | None => true
  end.

Definition try_finalize_shielded (id : string) : finalizer bytes :=
  responsible ← responsible_set;
  reconciled ← on_collector (reconcile_signatures id responsible);
  recorded ← asks (λ s, recorded_shielded s !! id);
  stx_bytes ← of_result (ok_or (Registry "no recorded shielded tx") recorded);
  stx ← of_result (map_err Encoding (deserialize_rmp_to ShieldedTransaction stx_bytes));
  stx_hash ← of_result (Shielded_hash stx);
  bound ← asks (votes_bind id stx_hash);
  if negb bound then fails (CryptoError "shielded vote binds another hash")
  else
    metrics ← resolve_stake_metrics;
    let signed := build_signed_transaction_shielded (fz_builder c) reconciled stx metrics.1 metrics.2 in
    fsig ← of_result (sign_finalizer_block (fz_builder c) signed);
    let signed := with_finalizer_sig fsig signed in
    epoch ← asks fz_epoch;
    b ← of_result (create_block now signed (resolve_previous_hash (sh_token_id stx)) epoch);
    _ ← send_to_committers (mkCommit (string_bytes id) (sh_token_id stx) (fz_env_id c) b);
    stakes ← get_stake_set_for_epoch;
    _ ← send_block_finalized b stakes;
    _ ← updates (λ s, set_recorded (delete id (recorded_shielded s)) s);
    _ ← updates (λ s, set_collector (with_signatures (try_remove_transaction id (signature_registry (fz_collector s))).1 (fz_collector s)) s);
    of_result (map_err Encoding (rmp_enc (ser_bytes (string_bytes id)))).

Definition handle_shielded_vote (m : Message) : finalizer bytes :=
  authenticated ← asks (λ s, authenticate_shielded_message m (fz_nodes s));
  voter ← of_result authenticated;
  vote ← of_result (map_err Encoding (deserialize_rmp_to TransactionSignature (body m)));
  _ ← of_result (verify_vote vote voter);
  stake ← current_stake_for_voter voter;
  let vote := with_stake stake vote in
  let id := from_utf8_lossy (ts_transaction_id vote) in
  _ ← on_collector (add_signature id voter vote);
  metrics ← resolve_stake_metrics;
  quorum ← asks (λ s, check_stake_quorum id metrics.1 (fz_collector s));
  reached ← of_result quorum;
  if (reached : bool) then try_finalize_shielded id else mret acknowledge.
End handlers.
