(* ===== verification/FinalizerSafety.v ===== *)
(** * What the Finalizer sends, and what may be swapped before it does

    A finalization that succeeds has sent a block the Committers accept: signed
    envelope, attested decision, the Finalizer's signature over the block. The
    preload and the vote may arrive in either order. But nothing ties a preload to
    the transaction its decision was made for. *)

From S2P Require Import Prelude Steps Utf8 Interfaces Types Float StakeSets Selection Environment Serialize Crypto Transactions Chain DataProvider.
From S2P Require Import Tokens Deserialize Wire NodeRegistry NodeSafety Messages Pool Registry Epoch Signatures Nullifiers Merkle Roots.
From S2P Require Import Committer ShieldedPool CommitPipeline Finalizer.

(** ** What a finalization sends *)

Section sends.
Context `{Poseidon} `{!Pallas} `{!Halo2} `{HashIter} `{Rmp} `{Sha256} `{DataProvider} (c : FinalizerConfig).
Context (st : store) (now : Z).

(** The signed transaction a vote is finalized with. *)
Definition optimistic_signed (sig : TransactionSignature) (t : Transaction) (voter : bytes) : SignedTransaction :=
  build_signed_transaction_optimistic (fz_builder c) sig t voter.

Lemma dispatch_inv act v stakes roles s s' :
  dispatch_frame c act v stakes roles s = Some (s', Ok ()) →
  ∃ payload, frame c act v stakes = Ok payload ∧ s' = push_sent ((λ t, (t, payload)) <$> roles) s.
Proof.
  intros Hd. unfold dispatch_frame in Hd. step_result Hd payload Hf. exists payload. split; [done|]. by injection Hd as <-.
Qed.

Lemma result_hash_twice h t : with_result_hash h (with_result_hash h t) = with_result_hash h t.
Proof. done. Qed.

Lemma stakes_frame s s' x : get_stake_set_for_epoch c st s = Some (s', x) → ∃ k, s' = set_cache k s.
Proof.
  unfold get_stake_set_for_epoch. destruct (fz_stake_set c).
  - intros [= <- _]. exists (stake_cache s). by destruct s.
  - unfold runs. destruct (cache_get _ _ _) as [k y]. intros [= <- _]. by exists k.
Qed.

Lemma finalized_sends id sig voter s s' r :
  try_finalize_optimistic c st now id sig voter s = Some (s', Ok r) →
  ∃ entry t fsig b stakes p1 p2 p3,
    transactions (fz_pending s) !! id = Some entry ∧ held_transaction (pt_state entry) = Some t ∧
    finalize_authority c t (fz_nodes s) = Ok () ∧
    sign_finalizer_block (fz_builder c) (optimistic_signed sig t voter) = Ok fsig ∧
    create_block now (with_finalizer_sig fsig (optimistic_signed sig t voter))
      (resolve_previous_hash c st (tx_token_id t)) (fz_epoch s) = Ok b ∧
    frame c "Commit" (ser_TransactionCommit (mkCommit (string_bytes id) (tx_token_id t) (fz_env_id c) b)) None = Ok p1 ∧
    frame c "BlockFinalized" (ser_Block b) stakes = Ok p2 ∧ frame c "Clear" (SStr id) None = Ok p3 ∧
    sent s' = sent s ++ [(Types.Committer, p1); (Types.Committer, p2); (Archiver, p2); (Sentinel, p2); (Sentinel, p3)].
Proof.
  intros Ht. unfold try_finalize_optimistic in Ht.
  step_ok Ht s1 t K. unfold load_held in K. destruct (transactions (fz_pending s) !! id) as [entry|] eqn:He; [|done].
  injection K as <- Hh. destruct (held_transaction (pt_state entry)) as [t'|] eqn:Hs; [|done]. injection Hh as ->.
  step_pure Ht. step_result Ht u Ha. step_pure Ht. step_result Ht fsig Hsig. unfold mutate in Ht. step_pure Ht. step_pure Ht.
  step_result Ht b Hb.
  step_ok Ht s2 u1 K. destruct u1. apply dispatch_inv in K as (p1 & Hp1 & ->).
  step_ok Ht s3 stakes K. apply stakes_frame in K as [k ->].
  step_ok Ht s4 u1 K. destruct u1. apply dispatch_inv in K as (p2 & Hp2 & ->).
  step_ok Ht s5 u1 K. destruct u1. apply dispatch_inv in K as (p3 & Hp3 & ->).
  step_pure Ht. unfold clean_up in Ht. step_pure Ht. step_pure Ht. injection Ht as <- _.
  destruct u. exists entry, t, fsig, b, stakes, p1, p2, p3. split_and!; try done.
  cbn. by rewrite <-!app_assoc.
Qed.
End sends.

(** ** The Committer accepts it *)

(** A Committer that verifies signatures as the Finalizer does and knows the
    Finalizer and the Sentinel of the decision by their roles. *)
Record acquainted (c : FinalizerConfig) (cc : CommitterConfig) (nodes : NodeRegistry) (sentinel : bytes) : Prop := {
  aq_key : public_key (fz_identity c) = Ok (fz_public_key c);
  aq_envelope : vouches (fz_identity c) (fz_public_key c) (cc_crypto cc);
  aq_block : vouches (bb_signing_key (fz_builder c)) (fz_public_key c) (cc_identity cc);
  aq_verifier sg k d : check_signature (cc_identity cc) sg k d = check_signature (fz_identity c) sg k d;
  aq_finalizer : Finalizer ∈ find_node_types_by_public_key (cc_host cc) (fz_public_key c) nodes;
  aq_sentinel : Sentinel ∈ find_node_types_by_public_key (cc_host cc) sentinel nodes;
}.

Section accepted.
Context `{Poseidon} `{!Pallas} `{!Halo2} `{HashIter} `{Rmp} `{Sha256} `{DataProvider} (c : FinalizerConfig).
Context (st : store) (now : Z).

Lemma signed_block_verifies cc signed fsig key :
  sign_finalizer_block (fz_builder c) signed = Ok fsig →
  vouches (bb_signing_key (fz_builder c)) key (cc_identity cc) →
  verify_finalizer_signature (with_finalizer_sig fsig signed) key (cc_identity cc) = Ok tt.
Proof.
  intros Hs Hv. unfold sign_finalizer_block in Hs. apply bind_Ok in Hs as (d & Hd & Hs).
  apply bind_Ok in Hs as (sg & Hsg & [= <-]). apply map_err_Ok in Hsg. destruct (Hv _ _ Hsg) as [Hne Hc].
  assert (∀ f, finalizer_digest (with_finalizer_sig f signed) = Ok d) as Hw.
  { intros f. unfold finalizer_digest. destruct (carrier_of_with_sig f signed) as [-> ->]. exact Hd. }
  apply verify_finalizer_signature_iff. split; [done|]. exists d. by split_and!.
Qed.

Lemma authority_record t nodes :
  finalize_authority c t nodes = Ok () →
  ∃ rec, tx_selection t = Some rec ∧ SelectionRecord_verify rec (tx_id t) FINALIZER_DOMAIN (fz_identity c) = Ok true ∧
    sr_finalizer_public_key rec = fz_public_key c ∧ names rec (fz_public_key c) = true.
Proof.
  unfold finalize_authority. destruct (tx_selection t) as [rec|]; [|done]. cbn [ok_or mbind result_bind].
  intros (a & Hv & Hr)%bind_Ok. destruct a; [|done]. cbn [negb] in Hr.
  destruct (bool_decide _); [|done]. cbn [negb] in Hr. destruct (names rec (fz_public_key c)) eqn:Hn; [|done].
  exists rec. split_and!; try done. unfold names in Hn. apply andb_true_iff in Hn as [_ Hn]. by apply bool_decide_eq_true in Hn.
Qed.

Lemma verify_same rec id dom p q :
  (∀ sg k d, check_signature p sg k d = check_signature q sg k d) →
  SelectionRecord_verify rec id dom p = SelectionRecord_verify rec id dom q.
Proof.
  intros Hpq. unfold SelectionRecord_verify. destruct (_ || _); [done|].
  destruct (attestation_surface _ _ _ _ _) as [x|]; [|done]. apply Hpq.
Qed.

Lemma frame_inv act v stakes p :
  frame c act v stakes = Ok p → public_key (fz_identity c) = Ok (fz_public_key c) →
  ∃ m, rmp_enc (ser_Message m) = Ok p ∧ rmp_enc v = Ok (body m) ∧ action m = act ∧ stake_set m = stakes ∧
    msg_public_key m = fz_public_key c ∧ sign_data (fz_identity c) (body m) = Ok (msg_signature m).
Proof.
  intros Hf Hk. unfold frame in Hf. apply bind_Ok in Hf as (b & Hb%map_err_Ok & Hf).
  apply bind_Ok in Hf as (m & Hm & Hp%map_err_Ok). unfold signed_message in Hm.
  apply bind_Ok in Hm as (sg & Hs & Hm). rewrite Hk in Hm. injection Hm as <-. by eexists.
Qed.

Lemma envelope_accepted cc nodes m :
  vouches (fz_identity c) (fz_public_key c) (cc_crypto cc) → msg_public_key m = fz_public_key c →
  sign_data (fz_identity c) (body m) = Ok (msg_signature m) → action m = "Commit" ∨ action m = "BlockFinalized" →
  Finalizer ∈ find_node_types_by_public_key (cc_host cc) (fz_public_key c) nodes →
  authenticate_message cc nodes m = Ok ().
Proof.
  intros Hv Hk Hs Ha Hf. unfold authenticate_message, authenticate_envelope. rewrite Hk.
  destruct (Hv _ _ Hs) as [_ ->].
  destruct (find_node_types_by_public_key (cc_host cc) (fz_public_key c) nodes) as [|x l] eqn:Hr; [by apply elem_of_nil in Hf|].
  assert (allowed_senders_for (action m) = Exact Finalizer) as -> by (by destruct Ha as [->| ->]).
  unfold node_may_send_action. rewrite Hr.
  rewrite (proj2 (existsb_exists _ _)); [done|]. exists Finalizer.
  split; [by apply list_elem_of_In|]. by apply bool_decide_true, list_elem_of_singleton.
Qed.

(** The commit of a block made from an entry the node has authority for. *)
Lemma commit_accepted t rec fsig b sig voter prev epoch id p fnodes cc nodes pend :
  let commit := mkCommit (string_bytes id) (tx_token_id t) (fz_env_id c) b in
  finalize_authority c t fnodes = Ok () → tx_selection t = Some rec →
  sign_finalizer_block (fz_builder c) (optimistic_signed c sig t voter) = Ok fsig →
  create_block now (with_finalizer_sig fsig (optimistic_signed c sig t voter)) prev epoch = Ok b →
  frame c "Commit" (ser_TransactionCommit commit) None = Ok p → from_utf8 (string_bytes id) = Some id →
  acquainted c cc nodes (sr_sentinel_public_key rec) → (∀ held, held_decision id pend = Some held → held = rec) →
  ∃ m, rmp_enc (ser_Message m) = Ok p ∧ rmp_enc (ser_TransactionCommit commit) = Ok (body m) ∧
    authenticate_message cc nodes m = Ok () ∧ commit_authority cc commit (msg_public_key m) nodes pend = Ok ().
Proof.
  intros commit Ha Hrec Hs Hb Hp Hid [Hpk Hve Hvb Hvv Hf Hse] Hheld.
  destruct (authority_record _ _ Ha) as (rec' & Hrec' & Hver & Hkey & Hn). rewrite Hrec in Hrec'. injection Hrec' as <-.
  destruct (frame_inv _ _ _ _ Hp Hpk) as (m & Hm & Hbody & Hact & _ & Hmk & Hsg).
  exists m. split_and!; [done..| |]; [eapply envelope_accepted; eauto|].
  unfold create_block in Hb. apply bind_Ok in Hb as (h & Hh'%map_err_Ok & [= <-]).
  unfold commit_authority. cbn [trans_id commit]. rewrite (from_utf8_lossy_valid _ _ Hid).
  unfold block_authority. cbn. rewrite Hrec, Hmk. rewrite (verify_same _ _ _ _ _ Hvv), Hver. cbn.
  rewrite bool_decide_true by done. cbn. rewrite Hn. cbn. rewrite Hkey. unfold verify_finalizer_sig_under.
  rewrite (signed_block_verifies cc _ _ _ Hs Hvb). destruct (held_decision id pend) as [held|]; [|done].
  rewrite (Hheld held eq_refl). unfold same_decision_as. by rewrite !bool_decide_true.
Qed.

(** C8: the block a Finalizer sends is one the Committers accept. When a
    finalization succeeds, the first frame it sends is an envelope that passes the
    sender check of every Committer acquainted with it, and the commit inside
    passes the routing authority there: attested decision, assigned Finalizer,
    signature over the recomputed digest. The block's hash is its own, it is
    chained to the tip of the stored token, and it carries the vote's result. *)
Theorem finalized_block_is_authorized id sig voter s s' r :
  try_finalize_optimistic c st now id sig voter s = Some (s', Ok r) →
  from_utf8 (string_bytes id) = Some id →
  ∃ entry t rec commit p rest,
    transactions (fz_pending s) !! id = Some entry ∧ held_transaction (pt_state entry) = Some t ∧
    tx_selection t = Some rec ∧ sent s' = sent s ++ (Types.Committer, p) :: rest ∧
    st_transaction (signed_trans (proposed_block commit)) = with_result_hash (ts_transaction_hash sig) t ∧
    create_hash (proposed_block commit) = Ok (current_hash (proposed_block commit)) ∧
    previous_hash (proposed_block commit) = resolve_previous_hash c st (tx_token_id t) ∧
    ∀ cc nodes pend,
      acquainted c cc nodes (sr_sentinel_public_key rec) → (∀ held, held_decision id pend = Some held → held = rec) →
      ∃ m, rmp_enc (ser_Message m) = Ok p ∧ rmp_enc (ser_TransactionCommit commit) = Ok (body m) ∧
        authenticate_message cc nodes m = Ok () ∧ commit_authority cc commit (msg_public_key m) nodes pend = Ok ().
Proof.
  intros (entry & t & fsig & b & stakes & p1 & p2 & p3 & He & Hh & Ha & Hs & Hb & Hp & _ & _ & Hsent)%finalized_sends Hid.
  destruct (authority_record _ _ Ha) as (rec & Hrec & _).
  eexists entry, t, rec, _, p1, _. split_and!; [done..|exact Hsent| | | |intros cc nodes pend Hq Hheld; by eapply commit_accepted].
  all: unfold create_block in Hb; apply bind_Ok in Hb as (h & Hh'%map_err_Ok & [= <-]); first [exact Hh'|done].
Qed.
End accepted.

(** ** The preload and the first vote *)

Section arrivals.
Context `{Poseidon} `{!Pallas} `{!Halo2} `{HashIter} `{Rmp} `{Sha256} `{DataProvider} (c : FinalizerConfig).
Context (st : store) (now : Z).

(** The stake set a call sees, and the cache it leaves. *)
Definition stake_lookup (s : FinalizerState) : EpochSnapshotCache (T:=StakeSet) * option StakeSet :=
  match fz_stake_set c with
  | Some x => (stake_cache s, Some x)
  | None => cache_get (get_stake_snapshot st) (fz_epoch s) (stake_cache s)
  end.

Lemma get_stake_eq s : get_stake_set_for_epoch c st s = Some (set_cache (stake_lookup s).1 s, Ok (stake_lookup s).2).
Proof.
  unfold get_stake_set_for_epoch, stake_lookup. destruct (fz_stake_set c); [by destruct s|].
  unfold runs. by destruct (cache_get _ _ _).
Qed.

(** Nothing fails to encode, and the node's keys sign. *)
Record signs_and_encodes : Prop := {
  se_enc v : ∃ b, rmp_enc v = Ok b;
  se_envelope d : ∃ sg, sign_data (fz_identity c) d = Ok sg;
  se_block d : ∃ sg, sign_data (bb_signing_key (fz_builder c)) d = Ok sg;
  se_key : ∃ k, public_key (fz_identity c) = Ok k;
}.

(** Evaluates the next encoding of the goal. *)
Ltac encode He := match goal with |- context [rmp_enc ?v] => let b := fresh "b" in let E := fresh in destruct (He v) as [b E]; rewrite E; clear E end.

Lemma dispatch_ok act v stakes roles s :
  signs_and_encodes → ∃ p, dispatch_frame c act v stakes roles s = Some (push_sent ((λ t, (t, p)) <$> roles) s, Ok ()).
Proof.
  intros [He Hi _ [k Hk]]. unfold dispatch_frame, frame, signed_message. encode He. cbn [mbind result_bind map_err].
  destruct (Hi b) as [sg ->]. cbn [mbind result_bind]. rewrite Hk. cbn [mbind result_bind]. encode He. by eexists.
Qed.

Lemma canonical_ok s : signs_and_encodes → ∃ b, canonical_signed_trans_bytes s = Ok b.
Proof.
  intros [He _ _ _]. unfold canonical_signed_trans_bytes. encode He. cbn [mbind result_bind map_err].
  destruct (st_shielded s) as [sh|]; [|by exists b]. unfold Shielded_canonical_bytes, encoding_err.
  encode He. cbn. by eexists.
Qed.

Lemma create_block_ok signed prev epoch : signs_and_encodes → ∃ b, create_block now signed prev epoch = Ok b.
Proof.
  intros Hs. pose proof (canonical_ok signed Hs) as [x Hx]. destruct Hs as [He _ _ _].
  unfold create_block, create_hash, hash_input, create_hash_err, canonical_map_bytes.
  cbn [blk_timestamp signed_trans token_metadata blk_proposer_key blk_epoch_number previous_hash].
  encode He. cbn [mbind result_bind map_err]. rewrite Hx. cbn [mbind result_bind map_err].
  do 3 (encode He; cbn [mbind result_bind map_err]). by eexists.
Qed.

Lemma optimistic_ok id sig voter s entry t :
  signs_and_encodes → transactions (fz_pending s) !! id = Some entry → held_transaction (pt_state entry) = Some t →
  finalize_authority c t (fz_nodes s) = Ok () →
  ∃ s' r, try_finalize_optimistic c st now id sig voter s = Some (s', Ok r).
Proof.
  intros Hs He Hh Ha. unfold try_finalize_optimistic.
  erewrite step_bind_Ok by (unfold load_held; rewrite He, Hh; reflexivity).
  erewrite step_bind_Ok by reflexivity. erewrite step_bind_Ok by (unfold of_result; rewrite Ha; reflexivity). cbn zeta.
  erewrite step_bind_Ok by reflexivity.
  assert (∃ f, sign_finalizer_block (fz_builder c)
    (build_signed_transaction_optimistic (fz_builder c) sig (with_result_hash (ts_transaction_hash sig) t) voter) = Ok f) as [f Hf].
  { destruct Hs as [Henc _ Hb _]. unfold sign_finalizer_block, finalizer_digest. encode Henc. cbn [mbind result_bind map_err].
    edestruct Hb as [? ->]. by eexists. }
  erewrite step_bind_Ok by (unfold of_result; rewrite Hf; reflexivity).
  unfold mutate. erewrite step_bind_Ok by reflexivity. erewrite step_bind_Ok by reflexivity.
  edestruct create_block_ok as [b Hb]; [exact Hs|].
  erewrite step_bind_Ok by (unfold of_result, create_block_optimistic; rewrite Hb; reflexivity).
  edestruct (dispatch_ok "Commit") as [p1 Hp1]; [exact Hs|]. erewrite step_bind_Ok by exact Hp1.
  erewrite step_bind_Ok by apply get_stake_eq.
  edestruct (dispatch_ok "BlockFinalized") as [p2 Hp2]; [exact Hs|]. erewrite step_bind_Ok by exact Hp2.
  edestruct (dispatch_ok "Clear") as [p3 Hp3]; [exact Hs|]. erewrite step_bind_Ok by exact Hp3.
  unfold clean_up. do 3 (erewrite step_bind_Ok by reflexivity). destruct (se_enc Hs (ser_bytes (string_bytes id))) as [x Hx].
  unfold of_result. rewrite Hx. by eexists _, _.
Qed.

(** The state after a preload: its entry holds [t] and nothing is locked. *)
Definition preloaded (t : Transaction) (encoded : bytes) (s : FinalizerState) : FinalizerState :=
  set_pending (with_transactions (<[tx_id t := mkPending (tx_id t) (Preloaded t) 0]> (transactions (fz_pending s))) (fz_pending s))
    (set_preloads (<[tx_id t := encoded]> (preload_tasks s)) s).

(** The state after a first vote is collected. *)
Definition with_first_vote (id : string) (voter : bytes) (vote : TransactionSignature) (s : FinalizerState) : FinalizerState :=
  set_collector (with_signatures (<[id := {[ voter := vote ]}]> (signature_registry (fz_collector s))) (fz_collector s))
    (set_cache (stake_lookup s).1 s).

Definition stamped (voter : bytes) (vote : TransactionSignature) (s : FinalizerState) : TransactionSignature :=
  with_stake match (stake_lookup s).2 with Some x => default 0%N (stakers x !! voter) | None => 0%N end vote.

Lemma preload_runs m t encoded s :
  deserialize_rmp_to Transaction (body m) = Ok t → rmp_enc (ser_Transaction t) = Ok encoded →
  finalize_authority c t (fz_nodes s) = Ok () →
  (transactions (fz_pending s) !! tx_id t = None ∨
   ∃ t0, transactions (fz_pending s) !! tx_id t = Some (mkPending (tx_id t) (Preloaded t0) 0)) →
  handle_preload c st now m s = (_ ← retry_finalize_from_collected c st now (tx_id t); mret acknowledge) (preloaded t encoded s).
Proof.
  intros Hd He Ha Hp. unfold handle_preload.
  erewrite step_bind_Ok by (unfold of_result; rewrite Hd; reflexivity).
  erewrite step_bind_Ok by reflexivity. erewrite step_bind_Ok by (unfold of_result; rewrite Ha; reflexivity).
  erewrite step_bind_Ok by (unfold of_result; rewrite He; reflexivity). erewrite step_bind_Ok by reflexivity.
  erewrite step_bind_Ok; [reflexivity|]. unfold register_preload. erewrite step_bind_Ok by reflexivity.
  unfold contains. cbn [fz_pending set_preloads]. destruct Hp as [Hp|[t0 Hp]]; rewrite Hp.
  - rewrite bool_decide_false by (by intros [? ?]). erewrite step_bind_Ok.
    2:{ unfold on_pending, register_pending, add_transaction. cbn [fz_pending set_preloads]. rewrite Hp. reflexivity. }
    unfold mutate, updates, get_transaction_mut. cbn. rewrite lookup_insert_eq. cbn. by rewrite insert_insert_eq.
  - rewrite bool_decide_true by done. unfold mutate, updates, get_transaction_mut. cbn. rewrite Hp. done.
Qed.

Lemma signature_runs m vote voter s :
  let id := from_utf8_lossy (ts_transaction_id vote) in
  deserialize_rmp_to TransactionSignature (body m) = Ok vote →
  authenticate_signature_message c m (fz_nodes s) = Ok voter → verify_vote c vote voter = Ok () →
  finalize_authority_for_id c id s = Ok () → signature_registry (fz_collector s) !! id = None →
  handle_signature c st now m s =
    try_finalize_optimistic c st now id (stamped voter vote s) voter (with_first_vote id voter (stamped voter vote s) s).
Proof.
  intros id Hd Ha Hv Hf Hn. unfold handle_signature.
  erewrite step_bind_Ok by (unfold of_result; rewrite Hd; reflexivity). cbn zeta. fold id.
  erewrite step_bind_Ok by reflexivity. erewrite step_bind_Ok by (unfold of_result; rewrite Ha; reflexivity).
  erewrite step_bind_Ok by (unfold of_result; rewrite Hv; reflexivity).
  erewrite step_bind_Ok by (unfold current_stake_for_voter; erewrite step_bind_Ok by apply get_stake_eq; reflexivity).
  fold (stamped voter vote s). erewrite step_bind_Ok by reflexivity.
  erewrite step_bind_Ok by (unfold of_result, finalize_authority_for_id in *; cbn [fz_pending fz_nodes set_cache]; rewrite Hf; reflexivity).
  erewrite (step_bind_Ok _ _ _ (with_first_vote id voter (stamped voter vote s) s) ()).
  2:{ unfold on_collector, add_signature, ensure_transaction_registered, try_add_signature. cbn [fz_collector set_cache].
      rewrite Hn. rewrite lookup_insert_eq, lookup_empty. rewrite bool_decide_false by (by intros [? ?]).
      rewrite insert_insert_eq. done. }
  erewrite step_bind_Ok by reflexivity. unfold signature_count, get_transaction_registry, with_first_vote. cbn [fz_collector set_collector signature_registry with_signatures].
  rewrite lookup_insert_eq, map_size_singleton. done.
Qed.

Lemma first_of_one id voter vote s : first_signature id (fz_collector (with_first_vote id voter vote s)) = Some (voter, vote).
Proof.
  unfold first_signature, get_transaction_registry, with_first_vote. cbn [fz_collector set_collector signature_registry with_signatures].
  rewrite lookup_insert_eq. cbn [mbind option_bind].
  pose proof (hash_iter_perm (K:=bytes) {[ voter := vote ]}) as Hp. rewrite map_to_list_singleton in Hp.
  apply Permutation_singleton_r in Hp. by rewrite Hp.
Qed.

(** A transaction preloaded before its vote is finalized by the vote. *)
Lemma preload_then_vote m1 m2 t encoded vote voter s :
  signs_and_encodes →
  deserialize_rmp_to Transaction (body m1) = Ok t → rmp_enc (ser_Transaction t) = Ok encoded →
  finalize_authority c t (fz_nodes s) = Ok () →
  (transactions (fz_pending s) !! tx_id t = None ∨
   ∃ t0, transactions (fz_pending s) !! tx_id t = Some (mkPending (tx_id t) (Preloaded t0) 0)) →
  deserialize_rmp_to TransactionSignature (body m2) = Ok vote → from_utf8_lossy (ts_transaction_id vote) = tx_id t →
  authenticate_signature_message c m2 (fz_nodes s) = Ok voter → verify_vote c vote voter = Ok () →
  signature_registry (fz_collector s) !! tx_id t = None →
  let x := with_first_vote (tx_id t) voter (stamped voter vote s) (preloaded t encoded s) in
  ∃ s' r, try_finalize_optimistic c st now (tx_id t) (stamped voter vote s) voter x = Some (s', Ok r) ∧
    handle_preload c st now m1 s = Some (preloaded t encoded s, Ok acknowledge) ∧
    handle_signature c st now m2 (preloaded t encoded s) = Some (s', Ok r).
Proof.
  intros Hs Hd1 He Ha Hp Hd2 Hid Hk Hv Hr x.
  destruct (optimistic_ok (tx_id t) (stamped voter vote s) voter x (mkPending (tx_id t) (Preloaded t) 0) t Hs) as (s' & r & Hok);
    [unfold x; cbn; apply lookup_insert_eq|done|exact Ha|].
  exists s', r. split_and!; [done| |].
  - erewrite preload_runs by done. unfold retry_finalize_from_collected.
    erewrite step_bind_Ok; [reflexivity|]. erewrite step_bind_Ok by reflexivity.
    unfold asks, first_signature, get_transaction_registry. cbn [fz_collector preloaded set_pending set_preloads]. by rewrite Hr.
  - erewrite signature_runs; [rewrite Hid; exact Hok|done..| |by rewrite Hid]. unfold finalize_authority_for_id. rewrite Hid.
    cbn [fz_pending preloaded set_pending with_transactions transactions]. rewrite lookup_insert_eq. exact Ha.
Qed.

(** C10: the preload and the first vote may arrive in either order. For a
    transaction the node has not seen, both orders end in the same state, with the
    block sent; a vote that comes first is refused with an error but kept, and the
    preload finalizes with it. *)
Theorem preload_and_vote_in_any_order m1 m2 t encoded vote voter s :
  signs_and_encodes →
  deserialize_rmp_to Transaction (body m1) = Ok t → rmp_enc (ser_Transaction t) = Ok encoded →
  finalize_authority c t (fz_nodes s) = Ok () → transactions (fz_pending s) !! tx_id t = None →
  deserialize_rmp_to TransactionSignature (body m2) = Ok vote → from_utf8_lossy (ts_transaction_id vote) = tx_id t →
  authenticate_signature_message c m2 (fz_nodes s) = Ok voter → verify_vote c vote voter = Ok () →
  signature_registry (fz_collector s) !! tx_id t = None →
  ∃ s1 s2 s' r p rest,
    handle_preload c st now m1 s = Some (s1, Ok acknowledge) ∧ handle_signature c st now m2 s1 = Some (s', Ok r) ∧
    handle_signature c st now m2 s = Some (s2, Err (not_found (tx_id t))) ∧ sent s2 = sent s ∧
    handle_preload c st now m1 s2 = Some (s', Ok acknowledge) ∧ sent s' = sent s ++ (Types.Committer, p) :: rest.
Proof.
  intros Hs Hd1 He Ha Hp Hd2 Hid Hk Hv Hr.
  destruct (preload_then_vote m1 m2 t encoded vote voter s Hs Hd1 He Ha (or_introl Hp) Hd2 Hid Hk Hv Hr) as (s' & r & Hok & Hpre & Hvote).
  pose proof Hok as (entry & t' & fsig & b & stakes & p1 & p2 & p3 & _ & _ & _ & _ & _ & _ & _ & _ & Hsent)%finalized_sends.
  eexists _, (with_first_vote (tx_id t) voter (stamped voter vote s) s), s', r, _, _. split_and!; [exact Hpre|exact Hvote| |done| |exact Hsent].
  - erewrite signature_runs; [|done..| |by rewrite Hid]; rewrite Hid.
    + unfold try_finalize_optimistic. erewrite step_bind_Err; [reflexivity|]. unfold load_held. cbn. by rewrite Hp.
    + unfold finalize_authority_for_id. by rewrite Hp.
  - erewrite preload_runs by (done || by left). unfold retry_finalize_from_collected.
    erewrite step_bind_Ok; [reflexivity|]. erewrite step_bind_Ok by reflexivity.
    unfold asks. rewrite (first_of_one (tx_id t) voter (stamped voter vote s) s : first_signature _ (fz_collector (preloaded _ _ _)) = _).
    erewrite step_bind_Ok; [reflexivity|]. unfold attempt.
    change (preloaded t encoded (with_first_vote ?i ?v ?g ?x)) with (with_first_vote i v g (preloaded t encoded x)).
    rewrite Hok. reflexivity.
Qed.

(** C18: a preload replaces the transaction that is waiting. Preloads are not
    authenticated, and a routing decision attests the id it was made for and
    nothing else of the transaction. So while [t] waits for its vote, a message
    from anybody whose body is another transaction [t'] with the id and the
    decision of [t] takes its place; the Executor's vote then finalizes [t'], and
    the Committers acquainted with the node accept the block. *)
Theorem preload_swaps_the_transaction m1 m2 t t' rec encoded vote voter s :
  signs_and_encodes →
  transactions (fz_pending s) !! tx_id t = Some (mkPending (tx_id t) (Preloaded t) 0) →
  finalize_authority c t (fz_nodes s) = Ok () → tx_selection t = Some rec →
  tx_id t' = tx_id t → tx_selection t' = tx_selection t →
  deserialize_rmp_to Transaction (body m1) = Ok t' → rmp_enc (ser_Transaction t') = Ok encoded →
  deserialize_rmp_to TransactionSignature (body m2) = Ok vote → from_utf8_lossy (ts_transaction_id vote) = tx_id t →
  authenticate_signature_message c m2 (fz_nodes s) = Ok voter → verify_vote c vote voter = Ok () →
  signature_registry (fz_collector s) !! tx_id t = None → from_utf8 (string_bytes (tx_id t)) = Some (tx_id t) →
  ∃ s1 s' r commit p rest,
    handle_preload c st now m1 s = Some (s1, Ok acknowledge) ∧ handle_signature c st now m2 s1 = Some (s', Ok r) ∧
    sent s' = sent s ++ (Types.Committer, p) :: rest ∧
    st_transaction (signed_trans (proposed_block commit)) = with_result_hash (ts_transaction_hash vote) t' ∧
    ∀ cc nodes pend,
      acquainted c cc nodes (sr_sentinel_public_key rec) → (∀ held, held_decision (tx_id t) pend = Some held → held = rec) →
      ∃ m, rmp_enc (ser_Message m) = Ok p ∧ rmp_enc (ser_TransactionCommit commit) = Ok (body m) ∧
        authenticate_message cc nodes m = Ok () ∧ commit_authority cc commit (msg_public_key m) nodes pend = Ok ().
Proof.
  intros Hs Hp Ha Hrec Hi Hsel Hd1 He Hd2 Hid Hk Hv Hr Hu.
  assert (finalize_authority c t' (fz_nodes s) = Ok ()) as Ha' by (unfold finalize_authority in *; by rewrite Hi, Hsel).
  rewrite <- Hi in *. destruct (preload_then_vote m1 m2 t' encoded vote voter s Hs Hd1 He Ha') as (s' & r & Hok & Hpre & Hvote);
    [right; eauto|done..|].
  pose proof Hok as (entry & t2 & fsig & b & stakes & p1 & p2 & p3 & He2 & Hh & Ha2 & Hsg & Hb & Hf & _ & _ & Hsent)%finalized_sends.
  cbn in He2. rewrite lookup_insert_eq in He2. injection He2 as <-. injection Hh as <-.
  eexists _, s', r, (mkCommit _ _ _ b), p1, _. split_and!; [exact Hpre|exact Hvote|exact Hsent| |].
  - unfold create_block in Hb. by apply bind_Ok in Hb as (h & _ & [= <-]).
  - intros cc nodes pend Hq Hheld. eapply commit_accepted; try done. by rewrite Hsel.
Qed.
End arrivals.

(** ** A concrete node, and the properties at it *)

Module ConcreteFinalizer.
Import ConcreteCrypto ConcreteChain ConcreteCommits.

(** One key with every role, as a composite host has. *)
Definition key : bytes := ConcreteNodes.key.
Definition peer : NodeRegistryNode := bound_node ConcreteNodes.host 5 (ConcreteNodes.ack Finalizer).
Definition nodes : NodeRegistry :=
  insert_node Executor key peer (insert_node Finalizer key peer (insert_node Sentinel key peer ConcreteNodes.empty)).

Definition node : FinalizerConfig :=
  mkFinalizerConfig "env" key ConcreteNodes.signer ConcreteNodes.host (mkBuilder ConcreteNodes.signer [] 0 [] key) "tokens"
    ConcreteToken.env None.
Definition fresh : FinalizerState :=
  mkFinalizerState nodes Registry_new (SignatureCollector_new SignatureRegistry_new f32_one) ∅ 0 (cache_new "tokens") ∅ [].

Definition envelope (v : serde) : Message :=
  ok_or (mkMessage "" "" [] [] [] None) (signed_message ConcreteNodes.signer "env" "" (ok_or [] (rmp_enc v)) None).

(** The transaction of the decision, and another one with its id and decision. *)
Definition other : Transaction :=
  mkTransaction "tx" "Transfer" [1%N] None 1 [66%N] [67%N] (Some 1000000%N) 0 [] [] [] 0 [] (Some record).
Definition vote : TransactionSignature :=
  mkSignature (string_bytes "tx") (string_bytes "env") [5%N] (ok_or [] (sign_data ConcreteNodes.signer [5%N])) 0.
Definition preload_message : Message := envelope (ser_Transaction self_routed).
Definition vote_message : Message := envelope (ser_TransactionSignature vote).
(** Unsigned, under no key. *)
Definition forged_message : Message := mkMessage "" "" (ok_or [] (rmp_enc (ser_Transaction other))) [] [] None.
Definition encoding (t : Transaction) : bytes := ok_or [] (rmp_enc (ser_Transaction t)).
Definition waiting : FinalizerState := preloaded self_routed (encoding self_routed) fresh.

Lemma node_signs : signs_and_encodes node.
Proof. split; intros; by eexists. Qed.

Lemma signer_vouches : vouches ConcreteNodes.signer key ConcreteNodes.signer.
Proof. by apply (provider_vouches node_keys). Qed.

Lemma known_node : acquainted node config nodes (sr_sentinel_public_key record).
Proof. split; try done; try exact signer_vouches; refine (bool_decide_unpack _ _); by vm_compute. Qed.

Lemma no_signature : signature_registry (fz_collector fresh) !! tx_id self_routed = None.
Proof. apply lookup_empty. Qed.

Lemma any_order_witness :
  ∃ s1 s2 s' r,
    handle_preload node (empty_store : store) 0 preload_message fresh = Some (s1, Ok acknowledge) ∧
    handle_signature node (empty_store : store) 0 vote_message s1 = Some (s', Ok r) ∧
    handle_signature node (empty_store : store) 0 vote_message fresh = Some (s2, Err (not_found "tx")) ∧
    handle_preload node (empty_store : store) 0 preload_message s2 = Some (s', Ok acknowledge).
Proof.
  destruct (preload_and_vote_in_any_order node (empty_store : store) 0 preload_message vote_message self_routed
    (encoding self_routed) vote key fresh node_signs) as (s1 & s2 & s' & r & p & rest & H1 & H2 & H3 & _ & H4 & _);
    [by vm_compute..|exact no_signature|].
  exists s1, s2, s', r. exact (conj H1 (conj H2 (conj H3 H4))).
Defined.

Lemma swap_witness :
  ∃ s1 s' r commit,
    handle_preload node (empty_store : store) 0 forged_message waiting = Some (s1, Ok acknowledge) ∧
    handle_signature node (empty_store : store) 0 vote_message s1 = Some (s', Ok r) ∧
    tx_sender (st_transaction (signed_trans (proposed_block commit))) = tx_sender other ∧
    ∃ k, commit_authority config commit k nodes Registry_new = Ok ().
Proof.
  destruct (preload_swaps_the_transaction node (empty_store : store) 0 forged_message vote_message self_routed other record
    (encoding other) vote key waiting node_signs) as (s1 & s' & r & commit & p & rest & H1 & H2 & _ & H3 & H4);
    [by vm_compute..|].
  destruct (H4 config nodes Registry_new known_node) as (m & _ & _ & _ & Hc); [done|].
  exists s1, s', r, commit. refine (conj H1 (conj H2 (conj _ (ex_intro _ _ Hc)))). rewrite H3. reflexivity.
Defined.

(** The vote of the composite's own key, on a transaction it has preloaded. *)
Definition collected : FinalizerState := with_first_vote node (empty_store : store) "tx" key vote waiting.
Definition finalized : may_panic (FinalizerState * result PneumaticError bytes) :=
  try_finalize_optimistic node (empty_store : store) 0 "tx" vote key collected.

Lemma authorized_witness :
  ∃ s' r commit k, finalized = Some (s', Ok r) ∧ commit_authority config commit k nodes Registry_new = Ok ().
Proof.
  assert (match finalized with Some (_, Ok _) => true | _ => false end = true) as Hv by (by vm_compute).
  destruct finalized as [[s' [r|e]]|] eqn:E; [|done..].
  destruct (finalized_block_is_authorized node (empty_store : store) 0 "tx" vote key collected s' r E)
    as (entry & t & rec & commit & p & rest & He & Ht & Hr & _ & _ & _ & _ & Hc); [by vm_compute|].
  assert (rec = record) as ->.
  { assert (entry = mkPending "tx" (Preloaded self_routed) 0) as -> by (apply (inj Some); rewrite <-He; by vm_compute).
    injection Ht as <-. by injection Hr. }
  destruct (Hc config nodes Registry_new known_node) as (m & _ & _ & _ & Ha); [done|].
  exists s', r, commit, (msg_public_key m). exact (conj eq_refl Ha).
Defined.
End ConcreteFinalizer.
