(* ===== verification/Sentinel.v ===== *)
(** * The Sentinel (sentinel/src/sentinel.rs, sentinel/{processing,finalizing,registering,epoching,shielded}.rs,
    transaction_validator.rs, transaction_notifier.rs, sentinel_error.rs)

    Admission of transactions, the choice of their Finalizer and its attestation,
    reassignment, registration of nodes, epochs, and shielded transfers, with the
    targeted sends of src/src/node/registry/fanout.rs they go through. What leaves
    the node is a list; a broadcast runs on a thread of its own, so its failures
    are not the handler's. Audit texts of errors are left out. *)

From S2P Require Import Prelude Steps Utf8 Interfaces Types Float StakeSets Selection Environment Config Serialize Crypto Transactions Chain Validation.
From S2P Require Import DataProvider Deserialize Wire Tokens Contracts Engines WasmHost Scan NodeRegistry Messages Packets Pool Registry Epoch.
From S2P Require Import Nullifiers Merkle Roots.
From Stdlib Require Import SpecFloat.

(** ** Registration requests *)

Record NodeRegistryRequest := mkRegistryRequest {
  rr_requester_key : bytes;
  rr_rhash : bytes;
  rr_requester_types : list NodeRegistryType;
  rr_requested_type : NodeRegistryType;
  rr_binding_signature : bytes;
}.

Definition ser_NodeRegistryRequest (r : NodeRegistryRequest) : serde :=
  ser_struct [
    fld "requester_key" (ser_bytes (rr_requester_key r));
    fld "rhash" (ser_bytes (rr_rhash r));
    fld "requester_types" (ser_list ser_type (rr_requester_types r));
    fld "requested_type" (ser_type (rr_requested_type r));
    fld "binding_signature" (ser_bytes (rr_binding_signature r))].

Definition of_NodeRegistryRequest (v : serde) : result string NodeRegistryRequest :=
  fs ← get_struct ["requester_key"; "rhash"; "requester_types"; "requested_type"; "binding_signature"] v;
  match fs with
  | [a; b; c; d; e] =>
      k ← of_bytes a; h ← of_array16 b; ts ← of_list of_type c; t ← of_type d; s ← of_bytes e; Ok (mkRegistryRequest k h ts t s)
  | _ => Err "invalid length"
  end.

#[export, refine] Instance NodeRegistryRequest_serde : Serde NodeRegistryRequest := {|
  to_serde := ser_NodeRegistryRequest; of_serde := of_NodeRegistryRequest;
  wf r := wf_bytes (rr_requester_key r) ∧ wf_bytes (rr_rhash r) ∧ length (rr_rhash r) = 16 ∧ wf_bytes (rr_binding_signature r);
|}.
Proof.
  intros [k h ts t s] (Hk & Hh & Hl & Hs). cbn in Hk, Hh, Hl, Hs. unfold of_NodeRegistryRequest, ser_NodeRegistryRequest. cbn.
  rewrite of_bytes_ser by done. cbn. rewrite of_array16_ser by done. cbn. rewrite of_types_ser. cbn. rewrite of_type_ser. cbn.
  by rewrite of_bytes_ser.
Defined.

(** ** Errors *)

Inductive SentinelError :=
| SErrEncoding (msg : string)
| SErrConnection
| SErrData (e : DataError)
| SErrRegistry (msg : string)
| SErrTransactionAlreadyExists (id : string)
| SErrTransactionInTerminalState (id : string)
| SErrTransactionNotAwaitingFinalizer (id : string)
| SErrNoTarget (t : NodeRegistryType)
| SErrUnknownAction (action : string)
| SErrRouting (msg : string)
| SErrUnauthenticatedSubmitter (msg : string)
| SErrInvalidSenderSignature (msg : string)
| SErrValidation (e : PneumaticError).

(** What the notifier makes of an error of the identity. *)
Definition notify_error (e : PneumaticError) : SentinelError := SErrData (DECryptoError "").

(** ** State *)

(** A frame for a role's bucket, for one peer, or for the node's own inbound path. *)
Inductive Outgoing :=
| ToAll (t : NodeRegistryType) (payload : bytes)
| ToPeer (t : NodeRegistryType) (key payload : bytes)
| ToSelf (frame : bytes).

(** [reaches] is the transport's outcome for a peer's address: whether a send
    ends within its timeout. *)
Record SentinelConfig := mkSentinelConfig {
  sn_host : Host;
  sn_env : EnvironmentMetadata;
  sn_engines : gmap string ContractEngine;
  sn_crypto : AsymCryptoProvider;
  sn_config : Config;
  reaches : bytes → bool;
}.

Record SentinelState := mkSentinelState {
  sn_nodes : NodeRegistry;
  sn_pending : PendingTransactionRegistry;
  stake_snapshots : EpochSnapshotCache (T:=StakeSet);
  executor_sets : EpochSnapshotCache (T:=ExecutorSet);
  sn_epoch : N;
  outbox : list Outgoing;
}.

Definition put_nodes (x : NodeRegistry) (s : SentinelState) : SentinelState :=
  mkSentinelState x (sn_pending s) (stake_snapshots s) (executor_sets s) (sn_epoch s) (outbox s).
Definition put_pending (x : PendingTransactionRegistry) (s : SentinelState) : SentinelState :=
  mkSentinelState (sn_nodes s) x (stake_snapshots s) (executor_sets s) (sn_epoch s) (outbox s).
Definition put_stakes (x : EpochSnapshotCache (T:=StakeSet)) (s : SentinelState) : SentinelState :=
  mkSentinelState (sn_nodes s) (sn_pending s) x (executor_sets s) (sn_epoch s) (outbox s).
Definition put_executors (x : EpochSnapshotCache (T:=ExecutorSet)) (s : SentinelState) : SentinelState :=
  mkSentinelState (sn_nodes s) (sn_pending s) (stake_snapshots s) x (sn_epoch s) (outbox s).
Definition post (x : list Outgoing) (s : SentinelState) : SentinelState :=
  mkSentinelState (sn_nodes s) (sn_pending s) (stake_snapshots s) (executor_sets s) (sn_epoch s) (outbox s ++ x).

Abbreviation sentinel := (step SentinelState SentinelError) (only parsing).

(** A registry operation, with its own result as the value. *)
Definition on_registry {A} (f : PendingTransactionRegistry → PendingTransactionRegistry * A) : sentinel A :=
  runs (λ s, let '(r, a) := f (sn_pending s) in (put_pending r s, a)).
Definition edit (id : string) (f : PendingTransaction → PendingTransaction) : sentinel () :=
  updates (λ s, put_pending (get_transaction_mut id f (sn_pending s)).1 s).

Section sentinel.
Context `{Poseidon} `{!Pallas} `{!Halo2} `{HashIter} `{Rmp} `{Sha256} `{StdRng} `{Hex} `{SignaturePrims} `{Wasmi} `{WasmParser}.
Context `{DataProvider} (c : SentinelConfig).
(** The data service, the pool view, and the second the handler runs in. *)
Context (st : store) (view : ShieldedValidationDeps) (now : N).

(** ** Targeted sends *)

(** The filter of [send_to_peers_blocking]: a target that is this node and not in
    the bucket is served through the inbound path; what is left goes to peers. *)
Fixpoint self_hops (data : bytes) (t : NodeRegistryType) (targets : list (bytes * option bytes)) (r : NodeRegistry)
    : NodeRegistry * list Outgoing * list (bytes * option bytes) :=
  match targets with
  | [] => (r, [], [])
  | (key, rhash) :: targets' =>
      if negb (is_none rhash) || negb (bool_decide (key = h_public_key (sn_host c))) then
        let '(r', out, peers) := self_hops data t targets' r in (r', out, (key, rhash) :: peers)
      else
        match deliver_self_copy (sn_host c) data t r with
        | (r1, Some frame) => let '(r', out, peers) := self_hops data t targets' r1 in (r', ToSelf frame :: out, peers)
        | (r1, None) => let '(r', out, peers) := self_hops data t targets' r1 in (r', out, (key, rhash) :: peers)
        end
  end.

(** The loop over the peers: what was sent, and the keys that were not reached. *)
Fixpoint peer_hops (data : bytes) (t : NodeRegistryType) (peers : list (bytes * option bytes)) (r : NodeRegistry)
    : NodeRegistry * list Outgoing * list bytes :=
  match peers with
  | [] => (r, [], [])
  | (key, None) :: peers' => let '(r', out, un) := peer_hops data t peers' r in (r', out, key :: un)
  | (key, Some rhash) :: peers' =>
      if reaches c rhash then
        let '(r', out, un) := peer_hops data t peers' r in (r', ToPeer t key data :: out, un)
      else
        let '(r', out, un) := peer_hops data t peers' (record_delivery_failure rhash t r) in (r', out, key :: un)
  end.

Definition send_to_peers_blocking (keys : list bytes) (t : NodeRegistryType) (data : bytes) : sentinel (list bytes) :=
  runs (λ s,
    let targets := (λ key, (key, nd_rhash <$> get_nodes t (sn_nodes s) !! key)) <$> keys in
    let '(r1, out1, peers) := self_hops data t targets (sn_nodes s) in
    let '(r2, out2, undelivered) := peer_hops data t peers r1 in
    (post (out1 ++ out2) (put_nodes r2 s), undelivered)).

(** ** The notifier *)

Definition envelope (act : string) (body : bytes) : result SentinelError bytes :=
  m ← map_err notify_error (signed_message (h_signer (sn_host c)) (token_partition_id (sn_env c)) act body None);
  map_err SErrEncoding (rmp_enc (ser_Message m)).

Definition framed (act : string) (v : serde) : result SentinelError bytes :=
  body ← map_err SErrEncoding (rmp_enc v); envelope act body.

Definition send_to_nodes (t : NodeRegistryType) (payload : bytes) : sentinel () := updates (post [ToAll t payload]).

Definition send_to_executors_for_preload (tx : Transaction) : sentinel () :=
  payload ← of_result (framed "Preload" (ser_Transaction tx)); send_to_nodes Executor payload.

Definition send_to_shard_executors_for_preload (tx : Transaction) (executor_keys : list bytes) : sentinel () :=
  payload ← of_result (framed "Preload" (ser_Transaction tx));
  undelivered ← send_to_peers_blocking executor_keys Executor payload;
  if negb (is_nil executor_keys) && Nat.eqb (length undelivered) (length executor_keys)
  then fails (SErrNoTarget Executor) else mret ().

Definition attest_selection (id : string) (finalizer_key : bytes) (epoch : N) (salt : bytes) : result SentinelError SelectionRecord :=
  map_err notify_error (attest (h_signer (sn_host c)) id FINALIZER_DOMAIN finalizer_key epoch salt).

Definition deliver_to_finalizer (finalizer_key payload : bytes) : sentinel () :=
  if is_nil finalizer_key then fails (SErrNoTarget Finalizer)
  else
    undelivered ← send_to_peers_blocking [finalizer_key] Finalizer payload;
    if is_nil undelivered then mret () else fails (SErrNoTarget Finalizer).

Definition send_to_finalizer_for_preload (tx : Transaction) (finalizer_key : bytes) : sentinel () :=
  payload ← of_result (framed "PreloadForFinalizer" (ser_Transaction tx)); deliver_to_finalizer finalizer_key payload.

Definition send_sign_shielded (stx : ShieldedTransaction) (finalizer_key : bytes) : sentinel () :=
  body ← of_result (map_err notify_error (Shielded_canonical_bytes stx));
  payload ← of_result (envelope "SignShielded" body); deliver_to_finalizer finalizer_key payload.

Definition notify_clear_to_process (id : string) : sentinel () :=
  payload ← of_result (framed "Clear" (SStr id)); send_to_nodes Sentinel payload.

Definition notify_delete (id : string) : sentinel () :=
  payload ← of_result (framed "Delete" (SStr id)); send_to_nodes Sentinel payload.

Definition request_finalizer (tx : Transaction) : sentinel bytes :=
  payload ← of_result (framed "FinalizerRequest" (ser_Transaction tx)); _ ← send_to_nodes Finalizer payload; mret [].

Definition request_single_finalizer (tx : Transaction) (finalizer_key : bytes) : sentinel () :=
  payload ← of_result (framed "PreloadForFinalizer" (ser_Transaction tx)); deliver_to_finalizer finalizer_key payload.

(** ** The validator *)

(** Dynamic dispatch on a transaction's specification. *)
Definition spec_validate_transaction (spec : TransactionSpec) (tx : Transaction) (token : Token)
    : may_panic (result PneumaticError TransactionValidationResult) :=
  match spec with
  | SelfSignedTx => Some (SelfSigned_validate tx token)
  | ExecutedTx _ => Some (Executed_validate tx (sn_env c))
  | ShieldedTx => Some (Err (Validation [UnsupportedAction]))
  | DeployTx => Deploy_validate (sn_engines c) st tx (sn_env c)
  | UpgradeTx => Upgrade_validate (sn_engines c) (sn_crypto c) tx token (sn_env c)
  end.

(** The specification a token and an action select. *)
Definition select_spec (tx : Transaction) (token : Token) : option TransactionSpec :=
  let specs := transaction_validation_specs (sn_env c) in
  if is_self_verified token then specs !! "SelfSigned"
  else if String.eqb (tx_action tx) "" then None
  else match specs !! tx_action tx with Some s => Some s | None => specs !! "Executed" end.

Definition validate_transaction (tx : Transaction) : may_panic (result PneumaticError ()) :=
  match get_token st (tx_token_id tx) (token_partition_id (sn_env c)) with
  | Err _ => Some (Err (Validation [TokenNotFound]))
  | Ok token =>
      match select_spec tx token with
      | None => Some (Err (Validation [UnsupportedAction]))
      | Some spec =>
          r ← spec_validate_transaction spec tx token;
          Some (v ← r; if is_valid v then Ok () else Err (Validation (failure_reasons v)))
      end
  end.

Definition f32_0_6 : f32 := S754_finite false 10066330 (-24).

Definition route_finalizers (risk : TransactionRiskFactor) : nat :=
  let s := score risk in
  if f_ge s f32_zero && f_le s f32_0_3 then 1
  else if f_ge s f32_0_3 && f_le s f32_0_6 then 2
  else 3.

Definition compute_gas_used (tx : Transaction) : N :=
  compute_gas (cost_model (sn_env c)) (default 0%N (tx_amount tx))
    (default f64_one (amount_multiplier (cost_model (sn_env c)) !! tx_action tx)).

(** ** Finalizer assignment *)

Definition chain_tip_of (token : Token) : bytes := last_hash_in (get_current_chain_state (blockchain token)).

Definition selection_tip (token_id : bytes) : result SentinelError bytes :=
  match get_token st token_id (token_partition_id (sn_env c)) with
  | Ok token => Ok (chain_tip_of token)
  | Err _ => Err (SErrRegistry "cannot read the token")
  end.

(** The Finalizers the node can address: registered, or its own. *)
Definition addressable (nodes : NodeRegistry) (key : bytes) : bool :=
  bool_decide (is_Some (get_nodes Finalizer nodes !! key)) ||
  (bool_decide (Finalizer ∈ self_delivery_roles nodes) && bool_decide (key = h_public_key (sn_host c))).

Definition staked_finalizers (snapshot : StakeSet) (nodes : NodeRegistry) : StakeSet :=
  mkStakeSet (filter (λ kv : bytes * N, (0 < kv.2)%N ∧ addressable nodes kv.1 = true) (stakers snapshot)).

Definition assign_finalizer_deterministic (id : string) (epoch : N) (chain_tip : bytes) : sentinel bytes :=
  cached ← runs (λ s, let '(k, x) := cache_get (get_stake_snapshot st) epoch (stake_snapshots s) in (put_stakes k s, x));
  snapshot ← of_result (ok_or (SErrRouting "no snapshot") cached);
  if bool_decide (StakeSet_total_stake snapshot = 0%N) then fails (SErrRouting "stake set is empty")
  else
    candidates ← asks (λ s, staked_finalizers snapshot (sn_nodes s));
    if bool_decide (StakeSet_total_stake candidates = 0%N) then fails (SErrRouting "no staked Finalizer")
    else
      selected ← of_panic (deterministic_select candidates FINALIZER_DOMAIN (string_bytes id) epoch chain_tip);
      key ← of_result (ok_or (SErrRouting "selection returned none") selected);
      if bool_decide (StakeSet_get_stake snapshot key = 0%N) then fails (SErrRouting "zero stake") else mret key.

Definition assign_finalizer_deterministic_retry (id : string) (epoch : N) (rejected_key chain_tip : bytes) : sentinel bytes :=
  key ← assign_finalizer_deterministic id epoch chain_tip;
  if bool_decide (key = rejected_key) then assign_finalizer_deterministic (id +:+ "_retry") epoch chain_tip
  else mret key.

Definition reassign_finalizer_deterministically (id : string) (rejected_key : bytes) : sentinel bytes :=
  entry ← asks (λ s, transactions (sn_pending s) !! id);
  match (e ← entry; held_transaction (pt_state e)) with
  | None => fails (SErrRegistry "no transaction in state")
  | Some tx =>
      chain_tip ← of_result (selection_tip (tx_token_id tx));
      epoch ← asks sn_epoch;
      assign_finalizer_deterministic_retry id epoch rejected_key chain_tip
  end.

Definition routing_decision_for (tx : Transaction) (token : Token) : sentinel (bytes * SelectionRecord) :=
  match tx_selection tx with
  | Some carried => mret (sr_finalizer_public_key carried, carried)
  | None =>
      epoch ← asks sn_epoch;
      let salt := chain_tip_of token in
      finalizer_key ← assign_finalizer_deterministic (tx_id tx) epoch salt;
      selection ← of_result (attest_selection (tx_id tx) finalizer_key epoch salt);
      mret (finalizer_key, selection)
  end.

(** ** Admission *)

Definition get_shard_executors (id : string) (epoch : N) (chain_tip : bytes) : sentinel (list bytes) :=
  cached ← runs (λ s, let '(k, x) := cache_get (get_executor_set st) epoch (executor_sets s) in (put_executors k s, x));
  executors ← of_result (ok_or (SErrRouting "no executor set") cached);
  if ExecutorSet_is_empty executors then fails (SErrRouting "executor set is empty")
  else
    selected ← of_panic (deterministic_select_shard executors (shard_count (sn_env c)) id epoch chain_tip);
    shard ← of_result (ok_or (SErrRouting "selected shard has no executors") selected);
    if is_nil shard then fails (SErrRouting "selected shard has no executors") else mret shard.

Definition send_to_executor_for_preload (tx : Transaction) : sentinel () :=
  if N.ltb 1 (shard_count (sn_env c)) then
    chain_tip ← of_result (selection_tip (tx_token_id tx));
    epoch ← asks sn_epoch;
    shard ← get_shard_executors (tx_id tx) epoch chain_tip;
    send_to_shard_executors_for_preload tx shard
  else send_to_executors_for_preload tx.

Definition with_selection (r : SelectionRecord) (t : Transaction) : Transaction :=
  mkTransaction (tx_id t) (tx_action t) (tx_token_id t) (tx_bid t) (tx_sequence_number t) (tx_sender t) (tx_receiver t)
    (tx_amount t) (tx_timestamp t) (tx_result_hash t) (tx_sender_signature t) (tx_payload t) (tx_gas_limit t) (tx_result_data t)
    (Some r).

Definition sentinel_transition_to_failed (id : string) (tx : Transaction) (e : PneumaticError) : sentinel () :=
  edit id (transition_to_failed tx match e with Validation reasons => reasons | _ => [] end).

Definition handle_self_signed (tx : Transaction) (gas_used : N) : sentinel () :=
  let id := tx_id tx in
  enqueued ← on_registry (transition_to_validated_and_enqueue id tx (mkValidation true (calculate_risk tx) [] []));
  _ ← of_result (map_err (λ _, SErrRegistry "replayed nonce") enqueued);
  _ ← updates (λ s, put_pending (record_gas_used id gas_used (sn_pending s)) s);
  _ ← on_registry (release_transaction id);
  mret ().

(** From step 3 of [handle_process_request] on. *)
Definition admit_registered (tx : Transaction) : sentinel () :=
  let id := tx_id tx in
  acquired ← on_registry (acquire_transaction id);
  _ ← of_result (map_err (λ _, SErrTransactionInTerminalState id) acquired);
  token ← of_result (map_err SErrData (get_token st (tx_token_id tx) (token_partition_id (sn_env c))));
  if is_self_verified token then handle_self_signed tx (compute_gas_used tx)
  else
    decision ← attempt (routing_decision_for tx token);
    match decision with
    | Err e => _ ← on_registry (release_transaction id); fails e
    | Ok (finalizer_key, selection) =>
        let tx := with_selection selection tx in
        enqueued ← on_registry (transition_to_validated_and_enqueue id tx
                                  (mkValidation true (calculate_risk tx) [] finalizer_key));
        match enqueued with
        | Err _ => _ ← on_registry (release_transaction id); fails (SErrRegistry "replayed nonce")
        | Ok _ => send_to_executor_for_preload tx
        end
    end.

Definition handle_process_request (m : Message) : sentinel () :=
  tx ← of_result (map_err SErrEncoding (deserialize_rmp_to Transaction (body m)));
  if is_nil (tx_sender tx) then fails (SErrUnauthenticatedSubmitter "empty sender")
  else
    authorized ← of_result (map_err (λ _, SErrInvalidSenderSignature "check error") (verify_sender_signature tx));
    if negb authorized then fails (SErrInvalidSenderSignature "not authorized")
    else if negb (bool_decide (msg_public_key m = tx_sender tx)) then fails (SErrUnauthenticatedSubmitter "not the sender")
    else
      let gas_used := compute_gas_used tx in
      let id := tx_id tx in
      validation ← of_panic (validate_transaction tx);
      match validation with
      | Err e => sentinel_transition_to_failed id tx e
      | Ok _ =>
          _ ← updates (λ s, put_pending (record_gas_used id gas_used (sn_pending s)) s);
          registered ← on_registry (register_pending id);
          _ ← of_result (map_err (λ _, SErrTransactionAlreadyExists id) registered);
          admit_registered tx
      end.

Definition handle_clear_request (m : Message) : sentinel () :=
  id ← of_result (map_err SErrEncoding (deserialize_rmp_to string (body m)));
  _ ← on_registry (remove_transaction id);
  mret ().

(** ** Confirmation and rejection *)

Definition handle_confirmation (m : Message) : sentinel () :=
  id ← of_result (map_err SErrEncoding (deserialize_rmp_to string (body m)));
  acquired ← on_registry (acquire_transaction id);
  _ ← of_result (map_err (λ _, SErrTransactionInTerminalState id) acquired);
  assigned ← asks (λ s, is_requested_finalizer id (msg_public_key m) (sn_pending s));
  if negb assigned then fails (SErrRegistry "confirmation from unassigned finalizer")
  else
    entry ← asks (λ s, transactions (sn_pending s) !! id);
    _ ← match entry with
        | None => mret ()
        | Some e =>
            match pt_state e with
            | Finalizing transaction _ => edit id (transition_to_committed transaction [])
            | _ => fails (SErrRegistry "not in Finalizing state for confirmation")
            end
        end;
    _ ← attempt (notify_delete id);
    _ ← on_registry (release_transaction id);
    mret ().

(** The reassigned Finalizer: the selection's, or the first registered one that is
    not the rejecting one. *)
Definition replacement_finalizer (id : string) (rejected_key : bytes) : sentinel bytes :=
  reassigned ← attempt (reassign_finalizer_deterministically id rejected_key);
  match reassigned with
  | Ok key => mret key
  | Err _ =>
      nodes ← asks (λ s, hash_keys (get_nodes Finalizer (sn_nodes s)));
      match filter (λ key, key ≠ rejected_key) nodes with
      | key :: _ => mret key
      | [] => _ ← on_registry (release_transaction id); fails (SErrRegistry "no alternative finalizer")
      end
  end.

(** The entry moves to the new Finalizer and its transaction is copied. An entry
    in another state: the guard on it is still held when [release_transaction] asks
    for it again, and that wait never ends. The handler has no outcome then, which is
    [None] here, as for a panic; a panic would let go of the guard and a deadlock
    keeps it. *)
Definition take_for_reassignment (id : string) (new_key : bytes) : sentinel Transaction :=
  entry ← asks (λ s, transactions (sn_pending s) !! id);
  match entry with
  | None => _ ← on_registry (release_transaction id); fails (SErrRegistry "cannot read transaction")
  | Some e =>
      match pt_state e with
      | Finalizing transaction _ => _ ← edit id (transition_to_finalizing transaction new_key); mret transaction
      | _ => of_panic None
      end
  end.

(** The epoch and the salt of the decision the transaction carries. *)
Definition reattest (id : string) (new_key : bytes) (tx : Transaction) : sentinel Transaction :=
  es ← match tx_selection tx with
       | Some record => mret (sr_epoch_number record, sr_salt record)
       | None => tip ← of_result (selection_tip (tx_token_id tx)); epoch ← asks sn_epoch; mret (epoch, tip)
       end;
  match attest_selection id new_key es.1 es.2 with
  | Ok record => mret (with_selection record tx)
  | Err e => _ ← on_registry (release_transaction id); fails e
  end.

Definition handle_rejection (m : Message) : sentinel () :=
  id ← of_result (map_err SErrEncoding (deserialize_rmp_to string (body m)));
  acquired ← on_registry (acquire_transaction id);
  _ ← of_result (map_err (λ _, SErrTransactionInTerminalState id) acquired);
  let rejected_key := msg_public_key m in
  assigned ← asks (λ s, is_requested_finalizer id rejected_key (sn_pending s));
  if negb assigned then fails (SErrRegistry "rejection from non-assigned finalizer")
  else
    new_key ← replacement_finalizer id rejected_key;
    tx ← take_for_reassignment id new_key;
    tx ← reattest id new_key tx;
    send_result ← attempt (request_single_finalizer tx new_key);
    _ ← attempt (notify_delete id);
    _ ← on_registry (release_transaction id);
    of_result send_result.

(** ** Registration and epochs *)

Definition check_stake_for_type (key : bytes) (t : NodeRegistryType) : result SentinelError bool :=
  user ← map_err SErrData (get_user st key (environment_id (sn_env c)));
  Ok (meets_minimum_stake (user_stake user) (get_global_min_stake (sn_config c)) (get_min_type_stake (sn_config c) t)).

Definition handle_register_request (m : Message) : sentinel () :=
  request ← of_result (map_err SErrEncoding (deserialize_rmp_to NodeRegistryRequest (body m)));
  if negb (verify_binding (rr_requester_key request) (rr_rhash request) (rr_requested_type request)
             (rr_requester_types request) (rr_binding_signature request))
  then fails (SErrRegistry "invalid binding signature")
  else
    already ← asks (λ s, node_is_already_registered (rr_requester_key request) (rr_requested_type request) (sn_nodes s));
    if (already : bool) then fails (SErrRegistry "already registered")
    else
      staked ← of_result (check_stake_for_type (rr_requester_key request) (rr_requested_type request));
      if negb staked then fails (SErrRegistry "insufficient stake")
      else
        updates (λ s : SentinelState, put_nodes (foldl (λ r t, insert_node t (rr_requester_key request)
                                                 (Node_new now (rr_rhash request) NullConnection) r)
                                   (sn_nodes s) (rr_requester_types request)) s).

Definition sentinel_advance_epoch (epoch : N) (s : SentinelState) : SentinelState :=
  if N.leb epoch (sn_epoch s) then s
  else mkSentinelState (sn_nodes s) (sn_pending s) (invalidate_all (stake_snapshots s)) (invalidate_all (executor_sets s))
         epoch (outbox s).

Definition handle_block_finalized_for_epoch (m : Message) : sentinel () :=
  block ← of_result (map_err SErrEncoding (deserialize_rmp_to Block (body m)));
  is_finalizer ← asks (λ s, bool_decide (is_Some (get_nodes Finalizer (sn_nodes s) !! msg_public_key m)));
  if negb is_finalizer then fails (SErrRegistry "BlockFinalized from non-finalizer")
  else updates (sentinel_advance_epoch (blk_epoch_number block)).

(** ** Shielded transfers *)

Definition handle_shielded_transfer (m : Message) : sentinel () :=
  stx ← of_result (map_err SErrEncoding (deserialize_rmp_to ShieldedTransaction (body m)));
  _ ← of_result (map_err SErrValidation (validate_shielded_advisory stx (sn_env c)
                   (mkDeps (spent view) (dep_roots view) (shielded_root_recency (sn_env c)))));
  token ← of_result (map_err (λ _, SErrValidation (Validation [TokenNotFound]))
                       (get_token st (sh_token_id stx) (token_partition_id (sn_env c))));
  if negb (is_self_verified token) then fails (SErrValidation (Validation [NotSelfVerified]))
  else if negb (is_shielded_opt_in token) then fails (SErrValidation (Validation [NotShieldedOptIn]))
  else
    registered ← on_registry (register_shielded stx);
    _ ← of_result (map_err (λ _, SErrTransactionAlreadyExists (sh_id stx)) registered);
    epoch ← asks sn_epoch;
    finalizer_key ← assign_finalizer_deterministic (sh_id stx) epoch (chain_tip_of token);
    send_sign_shielded stx finalizer_key.

(** ** Dispatch *)

Definition on_message (m : Message) : sentinel () :=
  if String.eqb (action m) "Process" then handle_process_request m
  else if String.eqb (action m) "Confirm" then handle_confirmation m
  else if String.eqb (action m) "Reject" then handle_rejection m
  else if String.eqb (action m) "Register" then handle_register_request m
  else if String.eqb (action m) "Clear" || String.eqb (action m) "Delete" then handle_clear_request m
  else if String.eqb (action m) "BlockFinalized" then handle_block_finalized_for_epoch m
  else if String.eqb (action m) "ShieldedTransfer" then handle_shielded_transfer m
  else fails (SErrUnknownAction (action m)).

Definition on_data_received (raw : bytes) : sentinel () :=
  m ← of_result (map_err SErrEncoding (deserialize_rmp_to Message raw)); on_message m.
End sentinel.
