(* ===== verification/SentinelSafety.v ===== *)
(** * What the Sentinel admits, and what stops it

    A decision made at admission is one the chosen Finalizer honours. The
    epoch never goes back; but it goes as far forward as a Finalizer claims, a
    transaction's id can be taken by anybody who submits it again, and a rejection
    can leave the handler waiting for itself. *)

From S2P Require Import Prelude Steps Utf8 Interfaces Types Float StakeSets Selection Environment Config Serialize Crypto Transactions Chain Validation.
From S2P Require Import DataProvider Deserialize Wire Tokens Contracts Engines WasmHost Scan NodeRegistry NodeSafety Messages Pool Registry Epoch.
From S2P Require Import Nullifiers Merkle Roots ShieldedPool Committer CommitPipeline Signatures Finalizer FinalizerSafety Sentinel.

(** ** Epochs *)

Section epochs.
Context `{Poseidon} `{!Pallas} `{!Halo2} `{HashIter} `{Rmp} `{Sha256} `{StdRng} `{Hex} `{SignaturePrims} `{Wasmi} `{WasmParser}.
Context `{DataProvider} (c : SentinelConfig) (st : store) (view : ShieldedValidationDeps) (now : N).

(** The epoch stays, and a snapshot the store does not have is not cached. *)
Record stays (s s' : SentinelState) : Prop := {
  stays_epoch : sn_epoch s' = sn_epoch s;
  stays_partition : cache_partition (stake_snapshots s') = cache_partition (stake_snapshots s);
  stays_missing e : is_ok (get_stake_snapshot st e (cache_partition (stake_snapshots s))) = false →
    local (stake_snapshots s) !! e = None → local (stake_snapshots s') !! e = None;
}.

#[local] Instance stays_preorder : PreOrder stays.
Proof.
  split; [by split|]. intros s1 s2 s3 [He1 Hp1 Hm1] [He2 Hp2 Hm2]. split; [congruence..|].
  intros e Hs Hl. apply Hm2; [by rewrite Hp1|by apply Hm1].
Qed.

Lemma on_registry_stays {A} (f : PendingTransactionRegistry → PendingTransactionRegistry * A) : preserves stays (on_registry f).
Proof. apply preserves_runs. intros s. destruct (f (sn_pending s)). by split. Qed.
Lemma edit_stays id f : preserves stays (edit id f).
Proof. apply preserves_updates. by split. Qed.
Lemma edit_pending_stays f : preserves stays (updates (λ s, put_pending (f s) s) : sentinel ()).
Proof. apply preserves_updates. by split. Qed.
Lemma edit_nodes_stays f : preserves stays (updates (λ s, put_nodes (f s) s) : sentinel ()).
Proof. apply preserves_updates. by split. Qed.
Lemma send_to_nodes_stays t p : preserves stays (send_to_nodes t p).
Proof. apply preserves_updates. by split. Qed.
Lemma send_to_peers_stays keys t d : preserves stays (send_to_peers_blocking c keys t d).
Proof. apply preserves_runs. intros s. cbv zeta. destruct (self_hops _ _ _ _ _) as [[??]?], (peer_hops _ _ _ _ _) as [[??]?]. by split. Qed.
#[local] Hint Resolve on_registry_stays edit_stays edit_pending_stays edit_nodes_stays send_to_nodes_stays send_to_peers_stays : handlers.

Lemma assign_stays id e tip : preserves stays (assign_finalizer_deterministic c st id e tip).
Proof.
  unfold assign_finalizer_deterministic. apply preserves_bind; [typeclasses eauto| |intros ?; handler_steps].
  apply preserves_runs. intros s. unfold cache_get. destruct (local _ !! e) eqn:Hl; [by split|].
  destruct (get_stake_snapshot st e _) eqn:Hg; [|by split]. split; [done..|]. intros e' He Hn. cbn in *.
  destruct (decide (e' = e)) as [->|Hne]; [by rewrite Hg in He|by rewrite lookup_insert_ne].
Qed.

Lemma shard_stays id e tip : preserves stays (get_shard_executors c st id e tip).
Proof.
  unfold get_shard_executors. apply preserves_bind; [typeclasses eauto| |intros ?; handler_steps].
  apply preserves_runs. intros s. destruct (cache_get _ _ _). by split.
Qed.
#[local] Hint Resolve assign_stays shard_stays : handlers.

Lemma deliver_stays k p : preserves stays (deliver_to_finalizer c k p).
Proof. unfold deliver_to_finalizer. handler_steps. Qed.
Lemma delete_stays id : preserves stays (notify_delete c id).
Proof. unfold notify_delete. handler_steps. Qed.
Lemma request_stays tx k : preserves stays (request_single_finalizer c tx k).
Proof. unfold request_single_finalizer, deliver_to_finalizer. handler_steps. Qed.
Lemma reassign_stays id k : preserves stays (reassign_finalizer_deterministically c st id k).
Proof. unfold reassign_finalizer_deterministically, assign_finalizer_deterministic_retry. handler_steps. Qed.
Lemma route_stays tx token : preserves stays (routing_decision_for c st tx token).
Proof. unfold routing_decision_for. handler_steps. Qed.
#[local] Hint Resolve deliver_stays delete_stays request_stays reassign_stays route_stays : handlers.

Lemma process_stays m : preserves stays (handle_process_request c st m).
Proof.
  unfold handle_process_request, admit_registered, sentinel_transition_to_failed, handle_self_signed, send_to_executor_for_preload,
    send_to_shard_executors_for_preload, send_to_executors_for_preload.
  handler_steps.
Qed.

Lemma rejection_stays m : preserves stays (handle_rejection c st m).
Proof.
  unfold handle_rejection, replacement_finalizer, take_for_reassignment, reattest. handler_steps.
Qed.
#[local] Hint Resolve process_stays rejection_stays : handlers.

Lemma other_actions_stay m : action m ≠ "BlockFinalized" → preserves stays (on_message c st view now m).
Proof.
  intros Hne. unfold on_message. rewrite (proj2 (String.eqb_neq _ "BlockFinalized") Hne).
  unfold handle_confirmation, handle_register_request, handle_clear_request, handle_shielded_transfer, send_sign_shielded.
  handler_steps.
Qed.

Lemma of_u64_bound v n : of_u64 v = Ok n → (n ≤ u64_max)%N.
Proof. unfold of_u64. destruct v; try done. case_bool_decide; [|done]. intros [= <-]. lia. Qed.

Lemma of_Block_epoch v b : of_Block v = Ok b → (blk_epoch_number b ≤ u64_max)%N.
Proof.
  unfold of_Block. intros (fs & _ & Hb)%bind_Ok. repeat (case_match; try done).
  repeat match goal with H : (_ ≫= _) = Ok _ |- _ => apply bind_Ok in H as (? & ? & ?) end.
  simplify_eq/=. by eapply of_u64_bound.
Qed.

Lemma block_epoch_bound bs b : deserialize_rmp_to Block bs = Ok b → (blk_epoch_number b ≤ u64_max)%N.
Proof. unfold deserialize_rmp_to. intros ([v rest] & _ & Hb)%bind_Ok. by eapply of_Block_epoch. Qed.

Lemma finalized_epoch m s s' r :
  action m = "BlockFinalized" → on_message c st view now m s = Some (s', r) →
  s' = s ∨ ∃ b, deserialize_rmp_to Block (body m) = Ok b ∧ is_Some (get_nodes Finalizer (sn_nodes s) !! msg_public_key m) ∧
    s' = sentinel_advance_epoch (blk_epoch_number b) s ∧ r = Ok ().
Proof.
  intros Ha. unfold on_message. rewrite Ha. cbn [String.eqb Ascii.eqb Bool.eqb orb].
  unfold handle_block_finalized_for_epoch. destruct (deserialize_rmp_to Block (body m)) as [b|]; [|intros [= <- _]; by left].
  do 2 (erewrite step_bind_Ok by reflexivity). case_bool_decide as Hf; intros [= <- <-]; [right|by left]. by exists b.
Qed.

(** The Sentinel's epoch never goes back, whatever message it is handed, and
    it moves only by a finalized block from a registered Finalizer, to the epoch
    that block claims. *)
Theorem epoch_moves_only_forward m s s' r :
  on_message c st view now m s = Some (s', r) →
  (sn_epoch s ≤ sn_epoch s')%N ∧
  (sn_epoch s' ≠ sn_epoch s → ∃ b, action m = "BlockFinalized" ∧ deserialize_rmp_to Block (body m) = Ok b ∧
     is_Some (get_nodes Finalizer (sn_nodes s) !! msg_public_key m) ∧ sn_epoch s' = blk_epoch_number b).
Proof.
  intros Hm. destruct (decide (action m = "BlockFinalized")) as [Ha|Ha].
  - destruct (finalized_epoch m s s' r Ha Hm) as [->|(b & Hb & Hf & -> & _)]; [done|].
    unfold sentinel_advance_epoch. case_match eqn:Hle; [done|]. apply N.leb_gt in Hle. cbn. split; [lia|]. eauto.
  - destruct (other_actions_stay m Ha s s' r Hm) as [-> _ _]. done.
Qed.
End epochs.

Section stuck.
Context `{Poseidon} `{!Pallas} `{!Halo2} `{HashIter} `{Rmp} `{Sha256} `{StdRng} `{Hex} `{SignaturePrims} `{Wasmi} `{WasmParser}.
Context `{DataProvider} (c : SentinelConfig) (partition : string).

Definition no_last_snapshot (st : store) : Prop := is_ok (get_stake_snapshot st u64_max partition) = false.

(** Any message, at any time, while the data service has no snapshot for the last epoch. *)
Definition handles (s s' : SentinelState) : Prop :=
  ∃ st view now m r, no_last_snapshot st ∧ on_message c st view now m s = Some (s', r).

(** At the last epoch, with nothing cached for it. *)
Definition parked (s : SentinelState) : Prop :=
  sn_epoch s = u64_max ∧ cache_partition (stake_snapshots s) = partition ∧ local (stake_snapshots s) !! u64_max = None.

Lemma parked_stays s s' : handles s s' → parked s → parked s'.
Proof.
  intros (st & view & now & m & r & Hst & Hm) (He & Hp & Hl). destruct (decide (action m = "BlockFinalized")) as [Ha|Ha].
  - destruct (finalized_epoch c st view now m s s' r Ha Hm) as [->|(b & Hb & _ & -> & _)]; [done|].
    unfold sentinel_advance_epoch. rewrite (proj2 (N.leb_le _ _)); [done|]. rewrite He. by eapply block_epoch_bound.
  - destruct (other_actions_stay c st view now m Ha s s' r Hm) as [He' Hp' Hm'].
    split_and!; [congruence..|]. apply Hm'; [by rewrite Hp|done].
Qed.

(** A Finalizer can stop all routing with one message. The epoch of a finalized
    block is taken as it is written; nobody checks the block. Once a registered
    Finalizer has claimed the last epoch, no message brings the Sentinel back from
    it, and while the data service has no snapshot of that epoch every transaction
    that needs a decision is refused. *)
Theorem claimed_epoch_stops_routing st view now m b s0 s1 r s2 :
  action m = "BlockFinalized" → deserialize_rmp_to Block (body m) = Ok b → blk_epoch_number b = u64_max →
  is_Some (get_nodes Finalizer (sn_nodes s0) !! msg_public_key m) → (sn_epoch s0 < u64_max)%N →
  cache_partition (stake_snapshots s0) = partition →
  on_message c st view now m s0 = Some (s1, r) → rtc handles s1 s2 →
  sn_epoch s2 = u64_max ∧
  ∀ st' tx token, no_last_snapshot st' → tx_selection tx = None →
    ∃ s3, routing_decision_for c st' tx token s2 = Some (s3, Err (SErrRouting "no snapshot")).
Proof.
  intros Ha Hb Hmax Hf Hlt Hp Hm Hrun.
  assert (parked s1) as Hpark.
  { revert Hm. unfold on_message. rewrite Ha. cbn [String.eqb Ascii.eqb Bool.eqb orb]. unfold handle_block_finalized_for_epoch.
    rewrite Hb. do 2 (erewrite step_bind_Ok by reflexivity). rewrite bool_decide_true by done. intros [= <- _].
    unfold sentinel_advance_epoch. rewrite Hmax. rewrite (proj2 (N.leb_gt _ _)) by done. done. }
  assert (parked s2) as (He & Hp2 & Hl) by (clear -Hpark Hrun; induction Hrun; eauto using parked_stays).
  split; [done|]. intros st' tx token Hst Hsel. unfold routing_decision_for. rewrite Hsel.
  erewrite step_bind_Ok by reflexivity. rewrite He. cbv zeta.
  exists s2. unfold assign_finalizer_deterministic. erewrite step_bind_Err; [reflexivity|].
  erewrite (step_bind_Ok _ _ _ s2 None); [reflexivity|]. unfold runs, cache_get. rewrite Hl, Hp2.
  unfold no_last_snapshot in Hst. destruct (get_stake_snapshot st' u64_max partition); [done|]. by destruct s2.
Qed.
End stuck.

(** ** Admission *)

Section admission.
Context `{Poseidon} `{!Pallas} `{!Halo2} `{HashIter} `{Rmp} `{Sha256} `{StdRng} `{Hex} `{SignaturePrims} `{Wasmi} `{WasmParser}.
Context `{DataProvider} (c : SentinelConfig) (st : store).

Lemma selected_candidate snapshot nodes d x e p key :
  StakeSet_total_stake (staked_finalizers c snapshot nodes) ≠ 0%N →
  deterministic_select (staked_finalizers c snapshot nodes) d x e p = Some (Some key) →
  (0 < StakeSet_get_stake snapshot key)%N ∧ addressable c nodes key = true.
Proof.
  intros Ht Hs. destruct (deterministic_select_owner (staked_finalizers c snapshot nodes) d x e p Ht) as (k & Hk & pre & post & He & _).
  rewrite Hs in Hk. injection Hk as <-.
  destruct (proj1 (elem_of_positive_keys (stakers (staked_finalizers c snapshot nodes)) key)) as (v & Hv & _).
  { rewrite He. set_solver. }
  apply map_lookup_filter_Some in Hv as [Hv [Hpos Ha]]. cbn in *. unfold StakeSet_get_stake. by rewrite Hv.
Qed.

(** The snapshot of an epoch as the node's cache answers it. *)
Definition snapshot_at (e : N) (s : SentinelState) : option StakeSet := (cache_get (get_stake_snapshot st) e (stake_snapshots s)).2.

Lemma assign_inv id e tip s s' key :
  assign_finalizer_deterministic c st id e tip s = Some (s', Ok key) →
  ∃ snapshot k, snapshot_at e s = Some snapshot ∧ s' = put_stakes k s ∧
    (0 < StakeSet_get_stake snapshot key)%N ∧ addressable c (sn_nodes s) key = true.
Proof.
  unfold assign_finalizer_deterministic, snapshot_at. intros Ha. step_ok Ha s1 cached K. unfold runs in K.
  destruct (cache_get _ _ _) as [k x]. injection K as <- <-. step_result Ha y0 Hs.
  destruct x as [y|]; [|done]. injection Hs as <-.
  case_bool_decide; [done|]. step_pure Ha. case_bool_decide as Ht; [done|]. step_ok Ha s2 selected K.
  unfold of_panic in K. destruct (deterministic_select _ _ _ _ _) as [o|] eqn:Hd; [|done]. injection K as <- <-.
  step_result Ha key' Hk. destruct o as [key0|]; [|done]. injection Hk as <-.
  case_bool_decide; [done|]. injection Ha as <- <-.
  destruct (selected_candidate y _ _ _ _ _ key0 Ht Hd). by exists y, k.
Qed.

(** The pending registry stays. *)
Definition same_pending (s s' : SentinelState) : Prop := sn_pending s' = sn_pending s.
#[local] Instance same_pending_preorder : PreOrder same_pending.
Proof. split; unfold same_pending; [done|]. intros ??? -> ->. done. Qed.

Lemma send_to_peers_pending keys t d : preserves same_pending (send_to_peers_blocking c keys t d).
Proof. apply preserves_runs. intros s. cbv zeta. destruct (self_hops _ _ _ _ _) as [[??]?], (peer_hops _ _ _ _ _) as [[??]?]. done. Qed.
Lemma send_to_nodes_pending t p : preserves same_pending (send_to_nodes t p).
Proof. by apply preserves_updates. Qed.
Lemma shard_pending id e tip : preserves same_pending (get_shard_executors c st id e tip).
Proof.
  unfold get_shard_executors. apply preserves_bind; [typeclasses eauto| |intros ?; handler_steps].
  apply preserves_runs. intros s. destruct (cache_get _ _ _). done.
Qed.
#[local] Hint Resolve send_to_peers_pending send_to_nodes_pending shard_pending : handlers.

Lemma preload_pending tx : preserves same_pending (send_to_executor_for_preload c st tx).
Proof.
  unfold send_to_executor_for_preload, send_to_shard_executors_for_preload, send_to_executors_for_preload. handler_steps.
Qed.

Lemma attested_verifies signer own id dom key e salt rec verifier :
  attest signer id dom key e salt = Ok rec → public_key signer = Ok own → own ≠ [] → vouches signer own verifier →
  SelectionRecord_verify rec id dom verifier = Ok true ∧ sr_finalizer_public_key rec = key ∧ sr_epoch_number rec = e ∧
    sr_salt rec = salt ∧ sr_sentinel_public_key rec = own.
Proof.
  intros Ha Hpk Hne Hv. unfold attest in Ha. apply bind_Ok in Ha as (surface & Hs & Ha). apply bind_Ok in Ha as (sg & Hsg & Ha).
  rewrite Hpk in Ha. injection Ha as <-. split_and!; [|done..]. destruct (Hv _ _ Hsg) as [Hn Hc].
  unfold SelectionRecord_verify. cbn. rewrite Hs. destruct sg, own; done.
Qed.

(** An id that was free is registered, locked, and validated in one go. *)
Lemma registered_and_queued id tx v gas r r1 r2 :
  register_pending id (record_gas_used id gas r) = (r1, Ok ()) →
  transition_to_validated_and_enqueue id tx v (acquire_transaction id r1).1 = (r2, Ok ()) →
  transactions r !! id = None ∧ transactions r2 !! id = Some (mkPending id (Validated tx v) 1) ∧
  ((tx_token_id tx, tx_sender tx, tx_sequence_number tx) ∉ used_nonces r) ∧
  used_nonces r2 = ({[(tx_token_id tx, tx_sender tx, tx_sequence_number tx)]} ∪ used_nonces r) ∧
  pool r2 = enqueue id (tx_token_id tx) (tx_sequence_number tx) (tx_timestamp tx) (tx_sender tx) (pool r).
Proof.
  unfold register_pending, add_transaction. cbn. destruct (transactions r !! id) eqn:Hn; [done|]. intros [= <-].
  unfold acquire_transaction, transition_to_validated_and_enqueue. cbn. rewrite lookup_insert_eq. cbn.
  rewrite lookup_insert_eq. unfold enqueue_to_pool. cbn. case_bool_decide as Hu; [done|]. intros [= <-]. cbn.
  rewrite lookup_insert_eq. done.
Qed.

(** The authenticated part of a submission. *)
Definition authentic (m : Message) (tx : Transaction) : Prop :=
  deserialize_rmp_to Transaction (body m) = Ok tx ∧ tx_sender tx ≠ [] ∧ verify_sender_signature tx = Ok true ∧
  msg_public_key m = tx_sender tx.

(** What is left of the handler for an authentic submission. *)
Lemma authentic_runs m tx s :
  authentic m tx →
  handle_process_request c st m s =
    (validation ← of_panic (validate_transaction c st tx);
     match validation with
     | Err e => sentinel_transition_to_failed (tx_id tx) tx e
     | Ok _ =>
         _ ← updates (λ s, put_pending (record_gas_used (tx_id tx) (compute_gas_used c tx) (sn_pending s)) s);
         registered ← on_registry (register_pending (tx_id tx));
         _ ← of_result (map_err (λ _, SErrTransactionAlreadyExists (tx_id tx)) registered);
         admit_registered c st tx
     end) s.
Proof.
  intros (Hd & Hs & Hv & Hk). unfold handle_process_request. rewrite Hd. erewrite step_bind_Ok by reflexivity.
  destruct (tx_sender tx) eqn:Hsd; [done|]. cbn [is_nil]. rewrite Hv. erewrite step_bind_Ok by reflexivity. cbn [negb].
  rewrite bool_decide_true by (by rewrite Hk). done.
Qed.

Lemma unauthentic_is_refused m tx s s' r :
  deserialize_rmp_to Transaction (body m) = Ok tx → ¬ authentic m tx →
  handle_process_request c st m s = Some (s', r) → s' = s ∧ is_ok r = false.
Proof.
  intros Hd Hn. unfold handle_process_request. rewrite Hd. erewrite step_bind_Ok by reflexivity.
  destruct (tx_sender tx) eqn:Hsd; [by intros [= <- <-]|]. cbn [is_nil].
  destruct (verify_sender_signature tx) as [[]|] eqn:Hv; [|by intros [= <- <-]..].
  erewrite step_bind_Ok by reflexivity. cbn [negb]. case_bool_decide as Hk; [|by intros [= <- <-]].
  exfalso. apply Hn. unfold authentic. by rewrite Hsd.
Qed.

Lemma route_inv tx token s s' key rec :
  routing_decision_for c st tx token s = Some (s', Ok (key, rec)) → tx_selection tx = None →
  ∃ y k, snapshot_at (sn_epoch s) s = Some y ∧ s' = put_stakes k s ∧ (0 < StakeSet_get_stake y key)%N ∧
    addressable c (sn_nodes s) key = true ∧
    attest (h_signer (sn_host c)) (tx_id tx) FINALIZER_DOMAIN key (sn_epoch s) (chain_tip_of token) = Ok rec.
Proof.
  intros Hr Hsel. unfold routing_decision_for in Hr. rewrite Hsel in Hr. step_pure Hr. cbv zeta in Hr. step_ok Hr s1 key1 Ka.
  apply assign_inv in Ka as (y & k & Hy & -> & Hpos & Hadr). step_result Hr rec1 Hat. apply map_err_Ok in Hat.
  injection Hr as <- <- <-. by exists y, k.
Qed.

(** A decision, carried or made here, for a transaction. *)
Definition decided (tx : Transaction) (token : Token) (s : SentinelState) (key : bytes) (rec : SelectionRecord) : Prop :=
  match tx_selection tx with
  | Some carried => rec = carried ∧ key = sr_finalizer_public_key carried
  | None =>
      ∃ y, snapshot_at (sn_epoch s) s = Some y ∧ (0 < StakeSet_get_stake y key)%N ∧ addressable c (sn_nodes s) key = true ∧
        sr_epoch_number rec = sn_epoch s ∧ sr_salt rec = chain_tip_of token ∧ sr_finalizer_public_key rec = key ∧
        ∀ own fc nodes, public_key (h_signer (sn_host c)) = Ok own → own ≠ [] → key ≠ [] →
          vouches (h_signer (sn_host c)) own (fz_identity fc) → fz_public_key fc = key →
          Sentinel ∈ find_node_types_by_public_key (fz_host fc) own nodes →
          finalize_authority fc (with_selection rec tx) nodes = Ok ()
  end.

Lemma decision_inv tx token s s' key rec :
  routing_decision_for c st tx token s = Some (s', Ok (key, rec)) → sn_pending s' = sn_pending s ∧ decided tx token s key rec.
Proof.
  intros Hr. unfold decided. destruct (tx_selection tx) as [carried|] eqn:Hsel.
  { unfold routing_decision_for in Hr. rewrite Hsel in Hr. by injection Hr as <- <- <-. }
  apply route_inv in Hr as (y & k & Hy & -> & Hpos & Hadr & Hatt); [|done]. split; [done|].
  assert (sr_epoch_number rec = sn_epoch s ∧ sr_salt rec = chain_tip_of token ∧ sr_finalizer_public_key rec = key) as (He & Hsalt & Hkey).
  { unfold attest in Hatt. apply bind_Ok in Hatt as (? & _ & Hatt). apply bind_Ok in Hatt as (? & _ & Hatt).
    apply bind_Ok in Hatt as (? & _ & Hatt). by injection Hatt as <-. }
  exists y. split_and!; [done..|]. intros own fc nodes Hpk Hno Hnk Hv <- Hs.
  destruct (attested_verifies _ _ _ _ _ _ _ _ _ Hatt Hpk Hno Hv) as (Hver & Hfk & _ & _ & Hsent).
  unfold finalize_authority. cbn. rewrite Hver. cbn. rewrite Hsent, bool_decide_true by done. cbn. unfold names.
  rewrite Hfk, bool_decide_true by done. by destruct (fz_public_key fc).
Qed.

(** The end of an admission to the standard path. *)
Definition route_registered (tx : Transaction) (token : Token) : step SentinelState SentinelError () :=
  decision ← attempt (routing_decision_for c st tx token);
  match decision with
  | Err e => _ ← on_registry (release_transaction (tx_id tx)); fails e
  | Ok (finalizer_key, selection) =>
      enqueued ← on_registry (transition_to_validated_and_enqueue (tx_id tx) (with_selection selection tx)
                                (mkValidation true (calculate_risk tx) [] finalizer_key));
      match enqueued with
      | Err _ => _ ← on_registry (release_transaction (tx_id tx)); fails (SErrRegistry "replayed nonce")
      | Ok _ => send_to_executor_for_preload c st (with_selection selection tx)
      end
  end.

(** The registration of an admission, and what it leaves to the rest. *)
Lemma admission_registers m tx token s s' :
  authentic m tx → validate_transaction c st tx = Some (Ok ()) →
  get_token st (tx_token_id tx) (token_partition_id (sn_env c)) = Ok token → handle_process_request c st m s = Some (s', Ok ()) →
  ∃ r1, register_pending (tx_id tx) (record_gas_used (tx_id tx) (compute_gas_used c tx) (sn_pending s)) = (r1, Ok ()) ∧
    let s2 := put_pending (acquire_transaction (tx_id tx) r1).1 s in
    (if is_self_verified token then handle_self_signed tx (compute_gas_used c tx) else route_registered tx token) s2 = Some (s', Ok ()).
Proof.
  intros Hau Hval Htok Hp. rewrite (authentic_runs m tx s Hau) in Hp.
  erewrite step_bind_Ok in Hp by (unfold of_panic; rewrite Hval; reflexivity). step_pure Hp.
  step_ok Hp s1 registered Kr. step_result Hp u Hreg. apply map_err_Ok in Hreg. subst registered. destruct u.
  unfold on_registry, runs in Kr. destruct (register_pending _ _) as [r1 res1] eqn:Er. injection Kr as <- ->. cbn [sn_pending put_pending] in *.
  exists r1. split; [done|]. unfold admit_registered in Hp. step_ok Hp s2 acquired Ka. unfold on_registry, runs in Ka.
  cbn [sn_pending put_pending] in Ka. destruct (acquire_transaction _ _) as [r2 res2] eqn:Ea. injection Ka as <- <-. step_result Hp u Hacq.
  step_result Hp token' Ht. apply map_err_Ok in Ht. rewrite Htok in Ht. injection Ht as <-. exact Hp.
Qed.

Lemma self_signed_queues tx gas r1 r s s' :
  register_pending (tx_id tx) (record_gas_used (tx_id tx) gas r) = (r1, Ok ()) →
  handle_self_signed tx gas (put_pending (acquire_transaction (tx_id tx) r1).1 s) = Some (s', Ok ()) →
  ∃ r2, transition_to_validated_and_enqueue (tx_id tx) tx (mkValidation true (calculate_risk tx) [] []) (acquire_transaction (tx_id tx) r1).1 = (r2, Ok ()) ∧
    sn_pending s' = (release_transaction (tx_id tx) (record_gas_used (tx_id tx) gas r2)).1.
Proof.
  intros Hr Hp. unfold handle_self_signed in Hp. step_ok Hp s3 enqueued Ke. unfold on_registry, runs in Ke. cbn [sn_pending put_pending] in Ke.
  destruct (transition_to_validated_and_enqueue _ _ _ _) as [r2 res] eqn:Ev. injection Ke as <- <-. step_result Hp u Hq.
  apply map_err_Ok in Hq. subst res. destruct u. step_pure Hp. step_ok Hp s4 b Kb. unfold on_registry, runs in Kb.
  cbn [sn_pending put_pending] in Kb. destruct (release_transaction _ _) as [r3 res3] eqn:E3. injection Kb as <- <-. injection Hp as <-.
  exists r2. split; [done|]. by rewrite E3.
Qed.

Lemma routed_queues tx token r1 s s' :
  route_registered tx token (put_pending r1 s) = Some (s', Ok ()) →
  ∃ key rec, decided tx token s key rec ∧
    transition_to_validated_and_enqueue (tx_id tx) (with_selection rec tx) (mkValidation true (calculate_risk tx) [] key) r1 = (sn_pending s', Ok ()).
Proof.
  intros Hp. unfold route_registered in Hp. step_ok Hp s3 decision Kd. unfold attempt in Kd.
  destruct (routing_decision_for _ _ _ _ _) as [[s4 [[key rec]|e]]|] eqn:Er2; [| |done].
  2:{ injection Kd as <- <-. by step_ok Hp s5 b Kb. }
  injection Kd as <- <-. apply decision_inv in Er2 as [Hs4 Hd]. step_ok Hp s5 enqueued Ke. unfold on_registry, runs in Ke.
  destruct (transition_to_validated_and_enqueue _ _ _ _) as [r3 res3] eqn:Ev. injection Ke as <- <-.
  destruct res3 as [[]|e]; [|by step_ok Hp s6 b Kb]. apply preload_pending in Hp. unfold same_pending in Hp. cbn in Hp, Hs4.
  exists key, rec. split; [exact Hd|]. rewrite Hs4 in Ev. by rewrite Ev, Hp.
Qed.


(** ** Ids used again *)

Lemma fetch_all_fails ids id r : id ∈ ids → is_ok (get_transaction id r) = false → is_ok (fetch_all ids r) = false.
Proof.
  induction ids as [|x ids IH]; [set_solver|]. intros [->|Hin]%elem_of_cons Hg; cbn [fetch_all].
  - by destruct (get_transaction x r).
  - destruct (get_transaction x r); [|done]. cbn [mbind result_bind]. specialize (IH Hin Hg). by destruct (fetch_all ids r).
Qed.

Lemma ordered_batch_lost tok n id p r :
  pool r = p → id ∈ peek_top tok n p → is_ok (get_transaction id r) = false →
  let '(r', res) := get_ordered_transactions tok n r in
  is_ok res = false ∧ default [] (pools (pool r') !! tok) = drop n (default [] (pools p !! tok)).
Proof.
  intros <- Hin Hg. unfold get_ordered_transactions, dequeue_for_leader, pool_dequeue. cbv zeta iota beta. split.
  - eapply fetch_all_fails; [exact Hin|exact Hg].
  - unfold peek_top in Hin. cbn [pool with_pool pools]. destruct (pools (pool r) !! tok) as [ids|]; [|by apply not_elem_of_nil in Hin].
    assert (drop (n `min` length ids) ids = drop n ids) as ->.
    { destruct (decide (n ≤ length ids)); [by rewrite Nat.min_l|]. rewrite Nat.min_r by lia. by rewrite !drop_ge by lia. }
    destruct (drop n ids) eqn:Hd; [rewrite lookup_delete_eq|rewrite lookup_insert_eq]; cbn; by rewrite Hd.
Qed.

(** A transaction is unseated by whoever submits its id again. The ids of
    transactions are the submitters' to choose. Whether another transaction under
    the id of a queued one is refused by the rules or as a duplicate, the queued
    entry is overwritten first: it is failed, or back at its start and unlocked.
    The next batch a leader draws with the id in it fails as a whole, and every
    transaction of the batch has left the queue. *)
Theorem reused_id_unseats_the_queued m tx t v n tok s s' r :
  authentic m tx →
  pt_state <$> transactions (sn_pending s) !! tx_id tx = Some (Validated t v) →
  tx_id tx ∈ peek_top tok n (pool (sn_pending s)) →
  handle_process_request c st m s = Some (s', r) →
  ((∃ reasons, r = Ok () ∧ pt_state <$> transactions (sn_pending s') !! tx_id tx = Some (Failed tx reasons)) ∨
    (r = Err (SErrTransactionAlreadyExists (tx_id tx)) ∧
     transactions (sn_pending s') !! tx_id tx = Some (mkPending (tx_id tx) Pending 0))) ∧
  let '(r2, res) := get_ordered_transactions tok n (sn_pending s') in
  is_ok res = false ∧ default [] (pools (pool r2) !! tok) = drop n (default [] (pools (pool (sn_pending s)) !! tok)).
Proof.
  intros Hau Hst Hin Hp. rewrite (authentic_runs m tx s Hau) in Hp.
  destruct (transactions (sn_pending s) !! tx_id tx) as [entry|] eqn:He; [|done].
  apply step_bind_inv in Hp as (s1 & r1 & Kv & Hp). unfold of_panic in Kv.
  destruct (validate_transaction c st tx) as [validation|]; [|done]. injection Kv as <- <-.
  destruct validation as [[]|e].
  - erewrite step_bind_Ok in Hp by reflexivity. erewrite step_bind_Ok in Hp.
    2:{ unfold on_registry, runs, register_pending, add_transaction. cbn. rewrite He. reflexivity. }
    erewrite step_bind_Err in Hp by reflexivity. injection Hp as <- <-. cbn [sn_pending put_pending].
    assert (transactions (with_transactions (<[tx_id tx := PendingTransaction_new (tx_id tx) Pending]> (transactions (sn_pending s)))
      (record_gas_used (tx_id tx) (compute_gas_used c tx) (sn_pending s))) !! tx_id tx = Some (mkPending (tx_id tx) Pending 0)) as Hnew
      by apply lookup_insert_eq.
    split; [by right|]. eapply ordered_batch_lost; [done|exact Hin|]. unfold get_transaction. by rewrite Hnew.
  - injection Hp as <- <-. unfold get_transaction_mut. rewrite He. cbn [sn_pending put_pending fst].
    split; [left; eexists; split; [done|]; cbn; by rewrite lookup_insert_eq|].
    eapply ordered_batch_lost; [done|exact Hin|]. unfold get_transaction. cbn. by rewrite lookup_insert_eq.
Qed.
End admission.

(** ** The Finalizer's answers *)

Section answers.
Context `{Poseidon} `{!Pallas} `{!Halo2} `{HashIter} `{Rmp} `{Sha256} `{StdRng} `{Hex} `{SignaturePrims} `{Wasmi} `{WasmParser}.
Context `{DataProvider} (c : SentinelConfig) (st : store).

(** Only the caches change. *)
Definition only_caches (s s' : SentinelState) : Prop := sn_pending s' = sn_pending s ∧ sn_nodes s' = sn_nodes s.
#[local] Instance only_caches_preorder : PreOrder only_caches.
Proof. split; unfold only_caches; [done|]. intros ??? [-> ->] [-> ->]. done. Qed.

Lemma assign_only_caches id e tip : preserves only_caches (assign_finalizer_deterministic c st id e tip).
Proof.
  unfold assign_finalizer_deterministic. apply preserves_bind; [typeclasses eauto| |intros ?; handler_steps].
  apply preserves_runs. intros s. by destruct (cache_get _ _ _).
Qed.
#[local] Hint Resolve assign_only_caches : handlers.

Lemma reassign_only_caches id k : preserves only_caches (reassign_finalizer_deterministically c st id k).
Proof. unfold reassign_finalizer_deterministically, assign_finalizer_deterministic_retry. handler_steps. Qed.

(** With another Finalizer registered, a replacement is always found. *)
Lemma replacement_found id k k' s :
  k' ≠ k → is_Some (get_nodes Finalizer (sn_nodes s) !! k') →
  match replacement_finalizer c st id k s with
  | Some (s', Ok _) => only_caches s s'
  | Some (_, Err _) => False
  | None => True
  end.
Proof.
  intros Hne [nd Hk]. unfold replacement_finalizer.
  destruct (attempt (reassign_finalizer_deterministically c st id k) s) as [[s1 [r1|e1]]|] eqn:Ha.
  2:{ unfold attempt in Ha. by destruct (reassign_finalizer_deterministically _ _ _ _ _) as [[??]|]. }
  2:{ unfold mbind, step_bind. by rewrite Ha. }
  erewrite step_bind_Ok by exact Ha. unfold attempt in Ha.
  destruct (reassign_finalizer_deterministically c st id k s) as [[s2 r2]|] eqn:Hr; [|done]. injection Ha as <- <-.
  apply reassign_only_caches in Hr as Hc. destruct r2 as [key|e]; [done|]. erewrite step_bind_Ok by reflexivity.
  assert (k' ∈ filter (λ key, key ≠ k) (hash_keys (get_nodes Finalizer (sn_nodes s2)))) as Hin.
  { apply list_elem_of_filter. split; [done|]. unfold hash_keys. apply list_elem_of_fmap. exists (k', nd). split; [done|].
    rewrite hash_iter_perm, elem_of_map_to_list. by rewrite (proj2 Hc). }
  destruct (filter _ _) as [|x l]; [by apply not_elem_of_nil in Hin|done].
Qed.

(** C33: a Finalizer that answers for a transaction it was assigned, while the entry
    is still where admission left it, is not heard. A confirmation is refused and
    leaves one more lock on the entry. A rejection, with another Finalizer to turn
    to, never returns: the handler asks for the entry it already holds. *)
Theorem answers_before_finalizing m id t v lock k' s :
  deserialize_rmp_to string (body m) = Ok id →
  transactions (sn_pending s) !! id = Some (mkPending id (Validated t v) lock) →
  finalizer_public_key v = msg_public_key m → msg_public_key m ≠ [] →
  k' ≠ msg_public_key m → is_Some (get_nodes Finalizer (sn_nodes s) !! k') →
  (∃ s', handle_confirmation c m s = Some (s', Err (SErrRegistry "not in Finalizing state for confirmation")) ∧
     transactions (sn_pending s') !! id = Some (mkPending id (Validated t v) (S lock))) ∧
  handle_rejection c st m s = None.
Proof.
  intros Hd He Hv Hn Hne Hk.
  set (s1 := put_pending (with_transactions (<[id := mkPending id (Validated t v) (S lock)]> (transactions (sn_pending s))) (sn_pending s)) s).
  assert ((on_registry (acquire_transaction id) : sentinel _) s = Some (s1, Ok (Ok ()))) as Hacq.
  { unfold on_registry, runs, acquire_transaction. rewrite He. done. }
  assert (transactions (sn_pending s1) !! id = Some (mkPending id (Validated t v) (S lock))) as He1 by apply lookup_insert_eq.
  assert (is_requested_finalizer id (msg_public_key m) (sn_pending s1) = true) as Hreq.
  { unfold is_requested_finalizer. rewrite bool_decide_false, He1 by done. cbn. by rewrite Hv, bool_decide_false, bool_decide_true. }
  split.
  - exists s1. split; [|done]. unfold handle_confirmation. rewrite Hd. erewrite step_bind_Ok by reflexivity.
    erewrite step_bind_Ok by exact Hacq. do 2 (erewrite step_bind_Ok by reflexivity). rewrite Hreq. cbn [negb].
    erewrite step_bind_Ok by reflexivity. rewrite He1. by erewrite step_bind_Err by reflexivity.
  - unfold handle_rejection. rewrite Hd. erewrite step_bind_Ok by reflexivity. erewrite step_bind_Ok by exact Hacq.
    do 2 (erewrite step_bind_Ok by reflexivity). cbv zeta. rewrite Hreq. cbn [negb].
    pose proof (replacement_found id (msg_public_key m) k' s1 Hne Hk) as Hrep. unfold mbind at 1, step_bind at 1.
    destruct (replacement_finalizer c st id (msg_public_key m) s1) as [[s2 [key|e]]|]; [|done..]. destruct Hrep as [Hp _].
    unfold mbind at 1, step_bind at 1, take_for_reassignment. erewrite step_bind_Ok by reflexivity. by rewrite Hp, He1.
Qed.

Lemma delete_message id payload :
  framed c "Delete" (SStr id) = Ok payload →
  ∃ m, rmp_enc (ser_Message m) = Ok payload ∧ action m = "Delete" ∧ deserialize_rmp_to string (body m) = Ok id.
Proof.
  unfold framed, envelope, signed_message. intros Hf. apply bind_Ok in Hf as (b & Hb%map_err_Ok & Hf).
  apply bind_Ok in Hf as (m & Hm%map_err_Ok & Hp%map_err_Ok). exists m. split; [done|].
  apply bind_Ok in Hm as (sg & _ & Hm). apply bind_Ok in Hm as (k & _ & [= <-]). split; [done|]. cbn [body].
  unfold deserialize_rmp_to. apply (rmp_round _ _ []) in Hb. rewrite app_nil_r in Hb. by rewrite Hb.
Qed.

Lemma delete_clears m id c2 st2 view now s :
  action m = "Delete" → deserialize_rmp_to string (body m) = Ok id →
  ∃ s', on_message c2 st2 view now m s = Some (s', Ok ()) ∧ transactions (sn_pending s') !! id = None.
Proof.
  intros Ha Hd. unfold on_message. rewrite Ha. cbn [String.eqb Ascii.eqb Bool.eqb orb]. unfold handle_clear_request. rewrite Hd.
  erewrite step_bind_Ok by reflexivity. unfold mbind, step_bind, on_registry, runs, remove_transaction, mret, step_ret.
  destruct (transactions (sn_pending s) !! id) eqn:E; eexists; (split; [reflexivity|]); cbn; [apply lookup_delete_eq|done].
Qed.

(** A reassignment deletes the transaction it saves. After it has handed the
    transaction to another Finalizer, the handler announces the reassignment to
    the Sentinels with the message [Delete], and every Sentinel that receives it,
    this one included when it serves the role itself, forgets the transaction. *)
Theorem reassignment_deletes_the_transaction m id payload s s' :
  deserialize_rmp_to string (body m) = Ok id → framed c "Delete" (SStr id) = Ok payload →
  handle_rejection c st m s = Some (s', Ok ()) →
  ToAll Sentinel payload ∈ outbox s' ∧
  ∃ announced, rmp_enc (ser_Message announced) = Ok payload ∧
    ∀ c2 st2 view now s2, ∃ s3,
      on_message c2 st2 view now announced s2 = Some (s3, Ok ()) ∧ transactions (sn_pending s3) !! id = None.
Proof.
  intros Hd Hf Hr. split.
  - unfold handle_rejection in Hr. rewrite Hd in Hr. erewrite step_bind_Ok in Hr by reflexivity.
    step_ok Hr s1 acquired K1. step_result Hr u Hacq. cbv zeta in Hr. step_pure Hr. destruct (negb _); [done|].
    step_ok Hr s2 new_key K2. step_ok Hr s3 tx K3. step_ok Hr s4 tx' K4. step_ok Hr s5 res K5.
    erewrite step_bind_Ok in Hr by (unfold attempt, notify_delete; rewrite Hf; reflexivity).
    step_ok Hr s6 b K6. unfold of_result in Hr. injection Hr as <- _.
    unfold on_registry, runs in K6. destruct (release_transaction _ _). injection K6 as <- _. cbn. set_solver.
  - destruct (delete_message id payload Hf) as (a & Ha & Hact & Hb). exists a. split; [done|]. intros. by apply delete_clears.
Qed.
End answers.

(** ** Registration *)

Section registering.
Context `{HashIter} `{Rmp} `{Sha256} `{SignaturePrims} `{DataProvider} (c : SentinelConfig) (st : store) (now : N).

Lemma install_roles key node types r t key' :
  get_nodes t (foldl (λ r t, insert_node t key node r) r types) !! key' =
    if bool_decide (t ∈ types ∧ key = key') then Some node else get_nodes t r !! key'.
Proof.
  revert r. induction types as [|x types IH]; intros r; cbn [foldl].
  { rewrite bool_decide_false; [done|]. intros [?%not_elem_of_nil _]. done. }
  rewrite IH, insert_node_lookup. destruct (decide (key = key')) as [->|Hk]; [|rewrite !bool_decide_false by tauto; done].
  destruct (decide (t ∈ types)); [rewrite !bool_decide_true by (set_solver || done); done|].
  rewrite (bool_decide_false (t ∈ types ∧ _)) by tauto.
  destruct (decide (x = t)) as [->|]; [rewrite !bool_decide_true by set_solver|rewrite !bool_decide_false by set_solver]; done.
Qed.

(** One role is checked and all are granted: a registration succeeds exactly when
    its binding verifies, the key is new to the requested role, and its stake
    meets the floors of that role; then every role it lists holds the key,
    whatever their floors and however many nodes they have. *)
Theorem registration_checks_one_role m req s s' r :
  deserialize_rmp_to NodeRegistryRequest (body m) = Ok req → handle_register_request c st now m s = Some (s', r) →
  (is_ok r = true ↔
     verify_binding (rr_requester_key req) (rr_rhash req) (rr_requested_type req) (rr_requester_types req)
       (rr_binding_signature req) = true ∧
     get_nodes (rr_requested_type req) (sn_nodes s) !! rr_requester_key req = None ∧
     check_stake_for_type c st (rr_requester_key req) (rr_requested_type req) = Ok true) ∧
  ∀ t key, get_nodes t (sn_nodes s') !! key =
    if is_ok r && bool_decide (t ∈ rr_requester_types req ∧ rr_requester_key req = key)
    then Some (Node_new now (rr_rhash req) NullConnection) else get_nodes t (sn_nodes s) !! key.
Proof.
  intros Hd. unfold handle_register_request. rewrite Hd. erewrite step_bind_Ok by reflexivity.
  destruct (verify_binding _ _ _ _ _) eqn:Hv; cbn [negb]; [|intros [= <- <-]; naive_solver].
  erewrite step_bind_Ok by reflexivity. unfold node_is_already_registered. case_bool_decide as Hr.
  { intros [= <- <-]. split; [|done]. split; [done|]. intros (_ & Hn & _). by rewrite Hn in Hr; destruct Hr. }
  apply eq_None_not_Some in Hr.
  destruct (check_stake_for_type c st _ _) as [[]|e] eqn:Hs; [..|intros [= <- <-]; naive_solver].
  - erewrite step_bind_Ok by reflexivity. cbn [negb]. intros [= <- <-]. split; [done|]. intros t key. apply install_roles.
  - erewrite step_bind_Ok by reflexivity. intros [= <- <-]. naive_solver.
Qed.
End registering.

(** ** A concrete node, and the properties at it *)

Module ConcreteSentinel.
Import ConcreteCrypto ConcreteChain ConcreteCommits ConcreteHex ConcreteWasm ConcreteScan.

(** One key that is a user, the Sentinel and a Finalizer. *)
Definition key : bytes := ConcreteNodes.key.
Definition node : SentinelConfig :=
  mkSentinelConfig (mkHost key [2%N] ConcreteNodes.room false ConcreteNodes.signer (λ _ _, true) (Some (λ _, true)))
    ConcreteToken.env ∅ ConcreteNodes.signer (mkConfig key [2%N] false Full all_types "env" "" ∅ ∅) (λ _, true).

(** A token that is not self-verified, and the stakes of the first epoch. *)
Definition executed_token : Token := mkToken [1%N] ∅ (mkChain [genesis] ∅) None [] 0 false false "Executed" "env" 1.
Definition data : store :=
  (save_stake_snapshot (save_token (empty_store : store) [1%N] executed_token "tokens").1 1
     (mkStakeSet {[ key := 5%N ]}) "tokens").1.
Definition other_key : bytes := [77%N].
Definition peers : NodeRegistry := insert_node Finalizer other_key ConcreteFinalizer.peer ConcreteFinalizer.nodes.
Definition start : SentinelState := mkSentinelState peers Registry_new (cache_new "tokens") (cache_new "tokens") 1 [].

Definition unsigned (amount : option N) : Transaction :=
  mkTransaction "tx" "Transfer" [1%N] None 1 key [8%N] amount 0 [] [] [] 0 [] None.
Definition signed (t : Transaction) : Transaction :=
  mkTransaction (tx_id t) (tx_action t) (tx_token_id t) (tx_bid t) (tx_sequence_number t) (tx_sender t) (tx_receiver t)
    (tx_amount t) (tx_timestamp t) (tx_result_hash t)
    (ok_or [] (c ← canonical_signature_bytes t; sign_data ConcreteNodes.signer c)) (tx_payload t) (tx_gas_limit t) (tx_result_data t) None.
Definition transfer : Transaction := Eval vm_compute in signed (unsigned (Some 5%N)).
Definition message (act : string) (v : serde) : Message := mkMessage "tokens" act (ok_or [] (rmp_enc v)) [] key None.
Definition submission : Message := message "Process" (ser_Transaction transfer).

Abbreviation admitted := (handle_process_request node data submission start).
Definition after : SentinelState := match admitted with Some (s, _) => s | None => start end.

Lemma submission_admitted : admitted = Some (after, Ok ()).
Proof.
  assert (match admitted with Some (_, Ok _) => true | _ => false end = true) as Hv by (by vm_compute).
  unfold after. destruct admitted as [[s [[]|e]]|]; done.
Qed.

Lemma transfer_authentic : authentic submission transfer.
Proof. split_and!; by vm_compute. Qed.

Definition owner_of (o : option PendingTransaction) : bytes :=
  match o with Some (mkPending _ (Validated _ v) _) => finalizer_public_key v | _ => [] end.


(** The same id with no amount, which the rules refuse. *)
Definition invalid : Transaction := Eval vm_compute in signed (unsigned None).
Definition resubmission : Message := message "Process" (ser_Transaction invalid).
Abbreviation resubmitted := (handle_process_request node data resubmission after).

Lemma unseated_witness :
  ∃ s' r, resubmitted = Some (s', r) ∧ is_ok (get_ordered_transactions [1%N] 1 (sn_pending s')).2 = false.
Proof.
  assert (match resubmitted with Some _ => true | None => false end = true) as Hv by (by vm_compute).
  destruct resubmitted as [[s' r]|] eqn:E; [|discriminate Hv].
  assert (match pt_state <$> transactions (sn_pending after) !! "tx" with Some (Validated _ _) => true | _ => false end = true) as Hs
    by (by vm_compute).
  destruct (pt_state <$> transactions (sn_pending after) !! "tx") as [[| |t v| | | |]|] eqn:Ht; try discriminate Hs.
  assert (authentic resubmission invalid) as Ha by (split_and!; by vm_compute).
  assert (tx_id invalid ∈ peek_top [1%N] 1 (pool (sn_pending after))) as Hq by (refine (bool_decide_unpack _ _); by vm_compute).
  destruct (reused_id_unseats_the_queued node data resubmission invalid t v 1 [1%N] after s' r Ha Ht Hq E) as [_ Hb].
  exists s', r. split; [reflexivity|]. destruct (get_ordered_transactions _ _ _). exact (proj1 Hb).
Defined.

Lemma unheard_witness : handle_rejection node data (message "Reject" (SStr "tx")) after = None.
Proof.
  assert (match transactions (sn_pending after) !! "tx" with
          | Some (mkPending i (Validated _ v) _) => bool_decide (i = "tx" ∧ finalizer_public_key v = key)
          | _ => false
          end = true) as Hv by (by vm_compute).
  destruct (transactions (sn_pending after) !! "tx") as [[i [| |t v| | | |] l]|] eqn:He; try discriminate Hv.
  apply bool_decide_eq_true in Hv as [-> Hv].
  refine (proj2 (answers_before_finalizing node data (message "Reject" (SStr "tx")) "tx" t v l other_key after _ He Hv _ _ _)).
  - by vm_compute.
  - done.
  - done.
  - refine (bool_decide_unpack _ _). by vm_compute.
Defined.

(** The transaction in the hands of the only staked Finalizer, which rejects it. *)
Definition finalizing : SentinelState :=
  put_pending (with_transactions {[ "tx" := mkPending "tx" (Finalizing transfer key) 0 ]} Registry_new) start.
Abbreviation rejected := (handle_rejection node data (message "Reject" (SStr "tx")) finalizing).
Definition deletion : bytes := ok_or [] (framed node "Delete" (SStr "tx")).

Lemma deletion_witness : ∃ s', rejected = Some (s', Ok ()) ∧ ToAll Sentinel deletion ∈ outbox s'.
Proof.
  assert (match rejected with Some (_, Ok _) => true | _ => false end = true) as Hv by (by vm_compute).
  destruct rejected as [[s' [[]|e]]|] eqn:E; try discriminate Hv.
  exists s'. split; [reflexivity|].
  refine (proj1 (reassignment_deletes_the_transaction node data (message "Reject" (SStr "tx")) "tx" deletion finalizing s' _ _ E)).
  - by vm_compute.
  - reflexivity.
Defined.

(** A block of the last epoch, from a registered Finalizer. *)
Definition claimed_block : Block := mkBlock (signed_trans genesis) ∅ [] [] 0 Optimistic [] u64_max.
Definition claim : Message := message "BlockFinalized" (ser_Block claimed_block).
Definition no_view : ShieldedValidationDeps := mkDeps ∅ [] 0.
Abbreviation claimed := (on_message node data no_view 0 claim start).

Lemma stuck_witness :
  ∃ s1 r s3, claimed = Some (s1, r) ∧ sn_epoch s1 = u64_max ∧
    routing_decision_for node data transfer executed_token s1 = Some (s3, Err (SErrRouting "no snapshot")).
Proof.
  assert (match claimed with Some _ => true | None => false end = true) as Hv by (by vm_compute).
  destruct claimed as [[s1 r]|] eqn:E; try discriminate Hv.
  destruct (claimed_epoch_stops_routing node "tokens" data no_view 0 claim claimed_block start s1 r s1) as [He Hr].
  - reflexivity.
  - by vm_compute.
  - reflexivity.
  - refine (bool_decide_unpack _ _). by vm_compute.
  - reflexivity.
  - reflexivity.
  - exact E.
  - apply rtc_refl.
  - destruct (Hr data transfer executed_token) as [s3 H3]; [by vm_compute|reflexivity|].
    exists s1, r, s3. exact (conj eq_refl (conj He H3)).
Defined.

Lemma forward_witness : ∃ s1 r, claimed = Some (s1, r) ∧ (sn_epoch start ≤ sn_epoch s1)%N.
Proof.
  assert (match claimed with Some _ => true | None => false end = true) as Hv by (by vm_compute).
  destruct claimed as [[s1 r]|] eqn:E; try discriminate Hv.
  exists s1, r. exact (conj eq_refl (proj1 (epoch_moves_only_forward node data no_view 0 claim start s1 r E))).
Defined.
End ConcreteSentinel.
