(* ===== verification/Genesis.v ===== *)
(** * Genesis (data-service/src/genesis.rs)

    The records a cluster needs before its first node boots, written through the
    data provider, and what the roles find when they read them. A write that fails
    ends the run with the writes before it in place. *)

From S2P Require Import Prelude Steps Utf8 Text Interfaces Types Float StakeSets Selection Environment Config Serialize Crypto Transactions Chain.
From S2P Require Import Validation DataProvider Deserialize Wire Tokens Contracts Engines WasmHost Scan NodeRegistry NodeSafety StakeIndex Messages Packets.
From S2P Require Import Pool Registry Epoch Nullifiers Merkle Roots ShieldedPool Committer CommitPipeline Signatures Finalizer FinalizerSafety Sentinel SentinelSafety.

Record GenesisNode := mkGenesisNode { gn_public_key_hex : string; gn_stake : N; gn_fuel_balance : N }.
Record GenesisAccount := mkGenesisAccount { ga_public_key_hex : string; ga_fuel_balance : N; ga_stake : N }.
Record GenesisToken := mkGenesisToken { gt_token_id_hex : string; gt_name : string }.

Record GenesisSpec := mkGenesis {
  gs_environment_id : string;
  gs_token_partition_id : string;
  stake_snapshot_epochs : list N;
  gs_shielded_root_recency : nat;
  gs_nodes : list GenesisNode;
  gs_accounts : list GenesisAccount;
  gs_tokens : list GenesisToken;
  seed_shielded_pool : bool;
  seed_partition_token : bool;
}.

Record GenesisReport := mkReport {
  users_written : nat;
  stake_snapshots_written : nat;
  gr_total_stake : N;
  pool_seeded : bool;
  partition_token_seeded : bool;
  tokens_seeded : nat;
}.

Inductive GenesisError :=
| BadPublicKey (field : string)
| BadTokenId (field : string)
| StoreRefused (op : string) (e : DataError + string)
| InvalidSpec (m : string).

Definition GenesisReport_default : GenesisReport := mkReport 0 0 0 false false 0.

Section genesis.
Context `{Poseidon} `{HashIter} `{Rmp} `{Hex} `{DataProvider}.

Abbreviation genesis := (step store GenesisError) (only parsing).

Definition genesis_pool_state : may_panic ShieldedPoolState :=
  root ← tree_root (Tree_new DEFAULT_DEPTH); Some (mkPoolRecord (root_to_bytes root) 0 [] [] []).

Definition decode_hex (s : string) : option bytes := hex_decode (bytes_string (trim (string_bytes s))).
Definition decode_key (hex_key field : string) : result GenesisError bytes := ok_or (BadPublicKey field) (decode_hex hex_key).

(** A write of the provider. [store_err] formats the operation's name and the
    provider's error into one text; they are kept apart here. *)
Definition writes (op : string) (f : store → store * result DataError ()) : genesis () := λ st,
  let '(st, r) := f st in Some (st, map_err (λ e, StoreRefused op (inl e)) r).

(** What the two user loops accumulate. *)
Record Progress := mkProgress { p_users : nat; p_total : N; p_stakers : list (bytes * N) }.

Definition seed_node (partition : string) (acc : Progress) (n : GenesisNode) : genesis Progress :=
  key ← of_result (decode_key (gn_public_key_hex n) "nodes[].public_key_hex");
  _ ← writes "save_user(node)" (λ st, save_user st key (mkUser key (gn_fuel_balance n) (gn_stake n) 0) partition);
  mret (mkProgress (S (p_users acc)) (wrap_add (p_total acc) (gn_stake n)) (p_stakers acc ++ [(key, gn_stake n)])).

Definition seed_account (partition : string) (acc : Progress) (a : GenesisAccount) : genesis Progress :=
  key ← of_result (decode_key (ga_public_key_hex a) "accounts[].public_key_hex");
  _ ← writes "save_user(account)" (λ st, save_user st key (mkUser key (ga_fuel_balance a) (ga_stake a) 0) partition);
  mret (if N.ltb 0 (ga_stake a)
        then mkProgress (S (p_users acc)) (wrap_add (p_total acc) (ga_stake a)) (p_stakers acc ++ [(key, ga_stake a)])
        else mkProgress (S (p_users acc)) (p_total acc) (p_stakers acc)).

Fixpoint fold_steps {A B} (f : B → A → genesis B) (acc : B) (l : list A) : genesis B :=
  match l with [] => mret acc | x :: l => acc ← f acc x; fold_steps f acc l end.

Definition stake_set_of (stakers : list (bytes * N)) : StakeSet := mkStakeSet (foldl (λ m kn, <[kn.1 := kn.2]> m) ∅ stakers).

Definition seed_snapshot (partition : string) (stakers : list (bytes * N)) (n : nat) (epoch : N) : genesis nat :=
  _ ← writes ("save_stake_snapshot(" +:+ pretty epoch +:+ ")") (λ st, save_stake_snapshot st epoch (stake_set_of stakers) partition); mret (S n).

(** [token.block_validation_spec_name = ..]. *)
Definition with_spec_name (name : string) (t : Token) : Token :=
  mkToken (tok_id t) (tok_metadata t) (blockchain t) (asset_data t) (asset_hash t) (security_level t) (is_self_verified t)
    (is_non_transferable t) name (tok_environment_id t) (tok_sequence_number t).

Definition seed_token (partition : string) (n : nat) (t : GenesisToken) : genesis nat :=
  id ← of_result (ok_or (BadTokenId ("tokens[].token_id_hex (" +:+ gt_token_id_hex t +:+ ")")) (decode_hex (gt_token_id_hex t)));
  let contract := mkContract (gt_name t) [] "1" ∅ [] 0 in
  let token := with_spec_name "Executed" (with_id id Token_new) in
  token ← of_result (map_err (λ e, StoreRefused "set_asset(token)" (inr e)) (set_asset (ser_SmartContract contract) token));
  _ ← writes "save_token(transfer)" (λ st, save_token st id token partition);
  mret (S n).

Definition apply (spec : GenesisSpec) : genesis GenesisReport :=
  if is_nil (stake_snapshot_epochs spec) then fails (InvalidSpec "stake_snapshot_epochs is empty")
  else
    let partition := gs_token_partition_id spec in
    users ← fold_steps (seed_node partition) (mkProgress 0 0 []) (gs_nodes spec);
    users ← fold_steps (seed_account partition) users (gs_accounts spec);
    snapshots ← fold_steps (seed_snapshot partition (p_stakers users)) 0 (stake_snapshot_epochs spec);
    _ ← (if seed_shielded_pool spec then
           state ← of_panic genesis_pool_state; writes "save_shielded_pool" (λ st, save_shielded_pool st state partition)
         else mret ());
    tokens ← fold_steps (seed_token partition) 0 (gs_tokens spec);
    _ ← (if seed_partition_token spec then
           writes "save_token(partition)" (λ st, save_token st (string_bytes (gs_environment_id spec)) Token_new (gs_environment_id spec))
         else mret ());
    mret (mkReport (p_users users) snapshots (p_total users) (seed_shielded_pool spec) (seed_partition_token spec) tokens).
End genesis.

(** ** What the store keeps *)

(** The provider's records: what was saved is read, and a write elsewhere leaves it.
    Snapshots and the pool have keys of their own. *)
Class GenesisStore `{DataProvider} := {
  reserved : bytes → Prop;
  snapshot_saved st e s p st' : save_stake_snapshot st e s p = (st', Ok ()) → get_stake_snapshot st' e p = Ok s;
  snapshot_kept_by_snapshot st e s p st' r e' :
    save_stake_snapshot st e s p = (st', r) → e' ≠ e → get_stake_snapshot st' e' p = get_stake_snapshot st e' p;
  snapshot_kept_by_pool st x p st' r e p' :
    save_shielded_pool st x p = (st', r) → get_stake_snapshot st' e p' = get_stake_snapshot st e p';
  snapshot_kept_by_token st k t p st' r e p' :
    save_token st k t p = (st', r) → ¬ reserved k → get_stake_snapshot st' e p' = get_stake_snapshot st e p';
  pool_saved st x p st' : save_shielded_pool st x p = (st', Ok ()) → get_shielded_pool st' p = Ok (Some x);
  pool_kept_by_token st k t p st' r p' :
    save_token st k t p = (st', r) → ¬ reserved k → get_shielded_pool st' p' = get_shielded_pool st p';
  user_kept_by_user st k u p st' r k' p' :
    save_user st k u p = (st', r) → p' ≠ p → get_user st' k' p' = get_user st k' p';
  user_kept_by_snapshot st e s p st' r k' p' :
    save_stake_snapshot st e s p = (st', r) → p' ≠ p → get_user st' k' p' = get_user st k' p';
  user_kept_by_pool st x p st' r k' p' :
    save_shielded_pool st x p = (st', r) → p' ≠ p → get_user st' k' p' = get_user st k' p';
  user_kept_by_token st k t p st' r k' p' :
    save_token st k t p = (st', r) → (k', p') ≠ (k, p) → get_user st' k' p' = get_user st k' p';
}.

Section runs.
Context `{Poseidon} `{HashIter} `{Rmp} `{Hex} `{DataProvider} `{!GenesisStore}.

Lemma writes_preserves (R : relation store) op f : (∀ st st' r, f st = (st', r) → R st st') → preserves R (writes op f).
Proof. intros Hf st st' r. unfold writes. destruct (f st) as [st1 r1] eqn:E. intros [= <- _]. by eapply Hf. Qed.

Lemma writes_ok op f st st' a : writes op f st = Some (st', Ok a) → f st = (st', Ok ()).
Proof. unfold writes. destruct (f st) as [st1 [[]|e]]; [|done]. by intros [= <- _]. Qed.

Lemma fold_preserves {A B} (R : relation store) `{!PreOrder R} (f : B → A → step store GenesisError B) acc l :
  (∀ acc x, x ∈ l → preserves R (f acc x)) → preserves R (fold_steps f acc l).
Proof.
  revert acc. induction l as [|x l IH]; intros acc Hf; cbn [fold_steps]; [apply preserves_ret, _|].
  apply preserves_bind; [apply _|apply Hf; left|]. intros b. apply IH. intros. apply Hf. by right.
Qed.

(** The tokens a spec names have keys of their own. *)
Definition tokens_apart (spec : GenesisSpec) : Prop :=
  (∀ t id, t ∈ gs_tokens spec → decode_hex (gt_token_id_hex t) = Some id → ¬ reserved id) ∧
  ¬ reserved (string_bytes (gs_environment_id spec)).

Lemma preserves_result_bind {A B} (R : relation store) `{!PreOrder R} (x : result GenesisError A) (f : A → step store GenesisError B) :
  (∀ a, x = Ok a → preserves R (f a)) → preserves R (of_result x ≫= f).
Proof.
  intros Hf. destruct x as [a|e]; intros st st' r Hs.
  - erewrite step_bind_Ok in Hs by reflexivity. by eapply Hf.
  - erewrite step_bind_Err in Hs by reflexivity. by injection Hs as <- _.
Qed.

Lemma seed_token_preserves (R : relation store) `{!PreOrder R} p n t :
  (∀ id tok st st' r, decode_hex (gt_token_id_hex t) = Some id → save_token st id tok p = (st', r) → R st st') →
  preserves R (seed_token p n t).
Proof.
  intros HR. unfold seed_token. apply preserves_result_bind; [done|]. intros id Hid.
  destruct (decode_hex _) as [id'|] eqn:E; [|done]. injection Hid as ->.
  apply preserves_result_bind; [done|]. intros tok _. apply preserves_bind; [done| |intros []; by apply preserves_ret].
  apply writes_preserves. intros st st' r. by apply HR.
Qed.

(** *** The users of a partition *)

Definition same_users (p : string) (k : bytes) (st st' : store) : Prop := get_user st' k p = get_user st k p.
#[local] Instance same_users_preorder p k : PreOrder (same_users p k).
Proof. split; unfold same_users; [done|]. intros ??? -> ->. done. Qed.

Lemma apply_keeps_users spec p k :
  gs_token_partition_id spec ≠ p → (p = gs_environment_id spec → k ≠ string_bytes p) →
  preserves (same_users p k) (apply spec).
Proof.
  intros Hp Hk. unfold apply. case_match; [apply preserves_fails, _|]. cbv zeta.
  apply preserves_bind; [apply _|apply fold_preserves; [apply _|]|intros users].
  { intros acc x _. apply preserves_result_bind; [apply _|]. intros key _. apply preserves_bind; [apply _| |intros; apply preserves_ret, _].
    apply writes_preserves. intros st st' r Hs. eapply user_kept_by_user; [exact Hs|done]. }
  apply preserves_bind; [apply _|apply fold_preserves; [apply _|]|intros users'].
  { intros acc x _. apply preserves_result_bind; [apply _|]. intros key _. apply preserves_bind; [apply _| |intros; apply preserves_ret, _].
    apply writes_preserves. intros st st' r Hs. eapply user_kept_by_user; [exact Hs|done]. }
  apply preserves_bind; [apply _|apply fold_preserves; [apply _|]|intros n].
  { intros acc x _. apply preserves_bind; [apply _| |intros; apply preserves_ret, _].
    apply writes_preserves. intros st st' r Hs. eapply user_kept_by_snapshot; [exact Hs|done]. }
  apply preserves_bind; [apply _|case_match; [|apply preserves_ret, _]|intros []].
  { apply preserves_bind; [apply _|apply preserves_of_panic, _|]. intros x. apply writes_preserves. intros st st' r Hs.
    eapply user_kept_by_pool; [exact Hs|done]. }
  apply preserves_bind; [apply _|apply fold_preserves; [apply _|]|intros m].
  { intros acc t _. apply seed_token_preserves; [apply _|]. intros id tok st st' r _ Hs. eapply user_kept_by_token; [exact Hs|]. intros [= _ Heq]; by destruct Hp. }
  apply preserves_bind; [apply _|case_match; [|apply preserves_ret, _]|intros; apply preserves_ret, _].
  apply writes_preserves. intros st st' r Hs. eapply user_kept_by_token; [exact Hs|]. intros [= -> ->]. by apply Hk.
Qed.

(** *** The records a boot reads *)

Definition same_boot (st st' : store) : Prop :=
  (∀ e p, get_stake_snapshot st' e p = get_stake_snapshot st e p) ∧ ∀ p, get_shielded_pool st' p = get_shielded_pool st p.
#[local] Instance same_boot_preorder : PreOrder same_boot.
Proof. split; [done|]. intros st1 st2 st3 [Ha Hb] [Hc Hd]. split; intros; by rewrite ?Hc, ?Hd. Qed.

Lemma token_keeps_boot k t p st st' r : ¬ reserved k → save_token st k t p = (st', r) → same_boot st st'.
Proof. intros Hk Hs. split; intros; [by eapply snapshot_kept_by_token|by eapply pool_kept_by_token]. Qed.

Lemma snapshots_written_ok p stk epochs n st st' n' :
  fold_steps (seed_snapshot p stk) n epochs st = Some (st', Ok n') →
  n' = n + length epochs ∧
  ∀ e, get_stake_snapshot st' e p = if decide (e ∈ epochs) then Ok (stake_set_of stk) else get_stake_snapshot st e p.
Proof.
  revert n st. induction epochs as [|e0 epochs IH]; intros n st; cbn [fold_steps].
  { intros [= <- <-]. split; [simpl; lia|]. intros e. by rewrite decide_False by set_solver. }
  intros Hs. step_ok Hs st1 n1 Hs1. step_ok Hs1 st2 u Hw. injection Hs1 as -> <-. apply writes_ok in Hw.
  apply IH in Hs as [-> Hs]. split; [simpl; lia|]. intros e. rewrite Hs.
  destruct (decide (e ∈ epochs)); [by rewrite decide_True by set_solver|]. destruct (decide (e = e0)) as [->|Hne].
  - rewrite decide_True by set_solver. by eapply snapshot_saved.
  - rewrite decide_False by set_solver. by eapply snapshot_kept_by_snapshot.
Qed.

(** *** What a spec grants *)

Definition node_stakers (nodes : list GenesisNode) : option (list (bytes * N)) :=
  mapM (λ n, (λ k, (k, gn_stake n)) <$> decode_hex (gn_public_key_hex n)) nodes.
Definition account_stakers (accounts : list GenesisAccount) : option (list (bytes * N)) :=
  mapM (λ a, (λ k, (k, ga_stake a)) <$> decode_hex (ga_public_key_hex a)) accounts.
Definition spec_stakers (spec : GenesisSpec) : option (list (bytes * N)) :=
  ns ← node_stakers (gs_nodes spec); accs ← account_stakers (gs_accounts spec);
  Some (ns ++ filter (λ kn, 0 < kn.2)%N accs).
Definition total (l : list (bytes * N)) : N := foldl (λ t kn, wrap_add t kn.2) 0%N l.

Lemma nodes_ok p l acc st st' acc' :
  fold_steps (seed_node p) acc l st = Some (st', Ok acc') →
  ∃ ks, node_stakers l = Some ks ∧
    acc' = mkProgress (p_users acc + length l) (foldl (λ t kn, wrap_add t kn.2) (p_total acc) ks) (p_stakers acc ++ ks).
Proof.
  revert acc st. induction l as [|n l IH]; intros acc st; cbn [fold_steps].
  { intros [= <- <-]. exists []. split; [done|]. rewrite app_nil_r, Nat.add_0_r. by destruct acc. }
  intros Hs. step_ok Hs st1 acc1 Hn. step_result Hn key Hk. step_ok Hn st2 u Hw. injection Hn as -> <-.
  unfold decode_key in Hk. destruct (decode_hex _) as [k|] eqn:Hd; [|done]. injection Hk as ->.
  apply IH in Hs as (ks & Hks & ->). exists ((key, gn_stake n) :: ks). unfold node_stakers in *. cbn [mapM]. rewrite Hd. simpl. rewrite Hks.
  split; [done|]. cbn. f_equal; [lia|]. by rewrite <-app_assoc.
Qed.

Lemma accounts_ok p l acc st st' acc' :
  fold_steps (seed_account p) acc l st = Some (st', Ok acc') →
  ∃ ks, account_stakers l = Some ks ∧
    let staked := filter (λ kn, 0 < kn.2)%N ks in
    acc' = mkProgress (p_users acc + length l) (foldl (λ t kn, wrap_add t kn.2) (p_total acc) staked) (p_stakers acc ++ staked).
Proof.
  revert acc st. induction l as [|n l IH]; intros acc st; cbn [fold_steps].
  { intros [= <- <-]. exists []. split; [done|]. cbn. rewrite app_nil_r, Nat.add_0_r. by destruct acc. }
  intros Hs. step_ok Hs st1 acc1 Hn. step_result Hn key Hk. step_ok Hn st2 u Hw. injection Hn as -> <-.
  unfold decode_key in Hk. destruct (decode_hex _) as [k|] eqn:Hd; [|done]. injection Hk as ->.
  apply IH in Hs as (ks & Hks & ->). exists ((key, ga_stake n) :: ks). unfold account_stakers in *. cbn [mapM]. rewrite Hd. simpl. rewrite Hks.
  split; [done|]. rewrite filter_cons. cbn [snd]. destruct (N.ltb_spec 0 (ga_stake n)).
  - rewrite decide_True by done. cbn. f_equal; [lia|]. by rewrite <-app_assoc.
  - rewrite decide_False by lia. cbn. f_equal; lia.
Qed.

(** *** The run as a whole *)

Lemma tokens_ok spec n st st' n' :
  tokens_apart spec → fold_steps (seed_token (gs_token_partition_id spec)) n (gs_tokens spec) st = Some (st', Ok n') →
  n' = n + length (gs_tokens spec) ∧ same_boot st st'.
Proof.
  intros [Hids _] Hs. split.
  - clear Hids. revert n st Hs. induction (gs_tokens spec) as [|t l IH]; intros n st; cbn [fold_steps]; [intros [= _ <-]; simpl; lia|].
    intros Hs. step_ok Hs st1 n1 Ht. apply IH in Hs as ->. step_result Ht tid Hid. step_result Ht tok Htok. step_ok Ht st2 u Hw.
    injection Ht as _ <-. simpl. lia.
  - revert Hs. apply fold_preserves; [apply _|]. intros acc t Ht. apply seed_token_preserves; [apply _|].
    intros id tok sa sb r Hid. apply token_keeps_boot. by eapply Hids.
Qed.

Lemma partition_token_ok spec st st' u :
  tokens_apart spec →
  (if seed_partition_token spec then
     writes "save_token(partition)" (λ st, save_token st (string_bytes (gs_environment_id spec)) Token_new (gs_environment_id spec))
   else mret ()) st = Some (st', Ok u) → same_boot st st'.
Proof. intros [_ Henv]. case_match; [|by intros [= <- _]]. intros Hw%writes_ok. by eapply token_keeps_boot. Qed.

Lemma pool_ok_kept p (b : bool) st st' u :
  (if b then state ← of_panic genesis_pool_state; writes "save_shielded_pool" (λ st, save_shielded_pool st state p)
   else mret ()) st = Some (st', Ok u) →
  (∀ e p', get_stake_snapshot st' e p' = get_stake_snapshot st e p') ∧
  (b = true → get_shielded_pool st' p = Ok genesis_pool_state).
Proof.
  destruct b; [|by intros [= <- _]]. intros Hs. step_ok Hs st1 x Hx. apply writes_ok in Hs.
  unfold of_panic in Hx. destruct genesis_pool_state as [x'|]; [|done]. injection Hx as <- ->.
  split; [intros; by eapply snapshot_kept_by_pool|]. intros _. by eapply pool_saved.
Qed.

Lemma apply_ok spec st st' report :
  tokens_apart spec → apply spec st = Some (st', Ok report) →
  ∃ stk, spec_stakers spec = Some stk ∧
    (∀ e, e ∈ stake_snapshot_epochs spec → get_stake_snapshot st' e (gs_token_partition_id spec) = Ok (stake_set_of stk)) ∧
    (seed_shielded_pool spec = true → get_shielded_pool st' (gs_token_partition_id spec) = Ok genesis_pool_state) ∧
    report = mkReport (length (gs_nodes spec) + length (gs_accounts spec)) (length (stake_snapshot_epochs spec)) (total stk)
               (seed_shielded_pool spec) (seed_partition_token spec) (length (gs_tokens spec)).
Proof.
  intros Hap. unfold apply. case_match; [done|]. cbv zeta. intros Hs.
  step_ok Hs st1 users1 Hn. apply nodes_ok in Hn as (ns & Hns & ->).
  step_ok Hs st2 users2 Ha. apply accounts_ok in Ha as (accs & Hacc & ->). cbn [p_users p_total p_stakers app] in Hs.
  step_ok Hs st3 k He. apply snapshots_written_ok in He as [-> He].
  step_ok Hs st4 u Hp. apply pool_ok_kept in Hp as [Hpe Hpp].
  step_ok Hs st5 m Ht. apply tokens_ok in Ht as [-> [Hte Htp]]; [|done].
  step_ok Hs st6 u' Hq. apply partition_token_ok in Hq as [Hqe Hqp]; [|done].
  injection Hs as <- <-. eexists. unfold spec_stakers. rewrite Hns. simpl. rewrite Hacc. simpl. split; [done|].
  split_and!.
  - intros e Hin. by rewrite Hqe, Hte, Hpe, He, decide_True.
  - intros Hb. by rewrite Hqp, Htp, Hpp.
  - f_equal. unfold total. by rewrite foldl_app.
Qed.
End runs.

(** ** Properties *)

Section boot.
Context `{Poseidon} `{!Pallas} `{!Halo2} `{HashIter} `{Rmp} `{Sha256} `{Hex} `{DataProvider} `{!GenesisStore}.

Lemma genesis_pool_restored w : ∃ state, genesis_pool_state = Some state ∧ from_state state w = Some (Ok (ShieldedPool_new w)).
Proof. destruct (reload_ok (ShieldedPool_new w) (new_pool_ok w)) as (state & Hs & Hf). by exists state. Qed.

(** The stake of a key is the one its last entry grants. *)
Definition granted (stk : list (bytes * N)) (key : bytes) : N := default 0%N (snd <$> last (filter (λ kn, kn.1 = key) stk)).

Lemma stake_set_granted stk key : default 0%N (stakers (stake_set_of stk) !! key) = granted stk key.
Proof.
  unfold stake_set_of, granted. cbn [stakers]. induction stk as [|[k n] stk IH] using rev_ind; [done|].
  rewrite foldl_app, filter_app, filter_cons, filter_nil. cbn [foldl fst snd]. destruct (decide (k = key)) as [->|Hne].
  - by rewrite lookup_insert_eq, last_snoc.
  - by rewrite lookup_insert_ne, app_nil_r by done.
Qed.

(** The gate of a node that reads a seeded snapshot. *)
Lemma gate_granted st partition stk (x : StakeIndex) c key t :
  si_partition x = partition → get_stake_snapshot st (si_epoch x) partition = Ok (stake_set_of stk) →
  make_check c (si_inner (warm st x)) key t = meets_minimum_stake (granted stk key) (get_global_min_stake c) (get_min_type_stake c t).
Proof.
  intros Hx Hs. rewrite <-stake_set_granted. unfold make_check, warm, StakeIndex.refresh. rewrite build_index_ok, Hx, Hs. cbn.
  by rewrite replace_inner_map_eq.
Qed.

(** C11: A cluster boots from its genesis. When the run succeeds, every public key of
    the spec decoded, and its report counts what was written and the stake granted.
    At each seeded epoch a node's stake gate, warmed from the store, then decides by
    the stake the last entry of a key grants, so exactly the granted stakes pass the
    configured floors; and the shielded pool loads as the empty pool, with the store
    unchanged. *)
Theorem genesis_boots spec st st' report :
  tokens_apart spec → apply spec st = Some (st', Ok report) →
  ∃ stk, spec_stakers spec = Some stk ∧
    report = mkReport (length (gs_nodes spec) + length (gs_accounts spec)) (length (stake_snapshot_epochs spec)) (total stk)
               (seed_shielded_pool spec) (seed_partition_token spec) (length (gs_tokens spec)) ∧
    (∀ x c key t, si_partition x = gs_token_partition_id spec → si_epoch x ∈ stake_snapshot_epochs spec →
       make_check c (si_inner (warm st' x)) key t =
       meets_minimum_stake (granted stk key) (get_global_min_stake c) (get_min_type_stake c t)) ∧
    (seed_shielded_pool spec = true →
       ∀ w, pool_load st' (gs_token_partition_id spec) w = Some (st', Ok (ShieldedPool_new w))).
Proof.
  intros Hap Hs. destruct (apply_ok spec st st' report Hap Hs) as (stk & Hstk & He & Hp & Hr). exists stk. split_and!; [done|done| |].
  - intros x c key t Hx Hin. by eapply gate_granted; [|apply He].
  - intros Hb w. unfold pool_load. destruct (genesis_pool_restored w) as (state & Hg & Hf). rewrite (Hp Hb), Hg, Hf. done.
Qed.
End boot.

Section lockout.
Context `{Poseidon} `{!Pallas} `{!Halo2} `{HashIter} `{Rmp} `{Sha256} `{Hex} `{SignaturePrims} `{DataProvider} `{!GenesisStore}.

(** The Sentinel reads a registering user in the environment's partition, and
    genesis writes its users in the token partition. Where the two differ, as in
    the test network's genesis, and the store held no such user before, no key the
    spec funds or stakes can register with a Sentinel: the request changes nothing
    and fails. *)
Theorem genesis_users_cannot_register spec (c : SentinelConfig) st st' res now m req (s s' : SentinelState) r :
  gs_token_partition_id spec ≠ environment_id (sn_env c) →
  is_ok (get_user st (rr_requester_key req) (environment_id (sn_env c))) = false →
  (environment_id (sn_env c) = gs_environment_id spec → rr_requester_key req ≠ string_bytes (environment_id (sn_env c))) →
  apply spec st = Some (st', res) →
  deserialize_rmp_to NodeRegistryRequest (body m) = Ok req →
  handle_register_request c st' now m s = Some (s', r) →
  s' = s ∧ is_ok r = false.
Proof.
  intros Hp Hu Hk Hs Hd. assert (is_ok (get_user st' (rr_requester_key req) (environment_id (sn_env c))) = false) as Hu'.
  { by rewrite (apply_keeps_users spec _ (rr_requester_key req) Hp Hk _ _ _ Hs). }
  unfold handle_register_request. rewrite Hd. erewrite step_bind_Ok by reflexivity.
  case_match; [by intros [= <- <-]|]. erewrite step_bind_Ok by reflexivity. case_match; [by intros [= <- <-]|].
  unfold check_stake_for_type. destruct (get_user st' _ _) as [u|e]; [done|].
  erewrite step_bind_Err by reflexivity. by intros [= <- <-].
Qed.
End lockout.

(** ** A concrete cluster, and the properties at it *)

Module ConcreteGenesis.
Import ConcreteCrypto ConcreteChain ConcreteCommits ConcreteHex ConcreteWasm ConcreteScan ConcreteStore ConcreteSentinel.

#[export, refine] Instance mem_genesis : GenesisStore := {| reserved _ := False |}.
Proof.
  all: intros; simplify_eq/=; try done; cbn; rewrite ?lookup_insert_eq, ?lookup_insert_ne; try done; congruence.
Defined.

(** The partitions of the test network's file, one node and one wallet. *)
Definition spec : GenesisSpec :=
  mkGenesis "env" "tokens" [0%N; 1%N] 10 [mkGenesisNode (bytes_string key) 1000 1000000] [mkGenesisAccount " w" 500 0]
    [mkGenesisToken "t" "transfers"] true true.
Abbreviation seeded := (apply spec (empty_store : store)).
Definition after_genesis : store := match seeded with Some (s, _) => s | None => empty_store end.
Definition written : GenesisReport := mkReport 2 2 1000 true true 1.

Lemma seeded_ok : seeded = Some (after_genesis, Ok written).
Proof.
  assert (match seeded with Some (_, Ok x) => x | _ => GenesisReport_default end = written) as Hw by (by vm_compute).
  unfold after_genesis. destruct seeded as [[s [x|e]]|]; [by rewrite <-Hw|discriminate Hw..].
Qed.

Lemma boots_witness :
  ∃ stk, spec_stakers spec = Some stk ∧ granted stk key = 1000%N ∧
    pool_load after_genesis "tokens" 10 = Some (after_genesis, Ok (ShieldedPool_new 10)).
Proof.
  destruct (genesis_boots spec (empty_store : store) after_genesis written) as (stk & Hstk & _ & _ & Hp);
    [by split; [intros ?? _ _|]; intros []|exact seeded_ok|].
  exists stk. split; [done|]. split; [|by apply Hp]. vm_compute in Hstk. injection Hstk as <-. by vm_compute.
Defined.

(** A key the file stakes asks, with a valid binding, to be a Committer. *)
Definition rhash : bytes := replicate 16 9%N.
Definition asks_to_join : NodeRegistryRequest :=
  mkRegistryRequest key rhash [Committer] Committer (ok_or [] (sign_binding ConcreteNodes.signer rhash Committer [Committer])).
Definition join_message : Message := message "Register" (ser_NodeRegistryRequest asks_to_join).

Lemma join_verifies : verify_binding key rhash Committer [Committer] (rr_binding_signature asks_to_join) = true.
Proof. by vm_compute. Qed.

Lemma locked_out_witness :
  verify_binding key rhash Committer [Committer] (rr_binding_signature asks_to_join) = true ∧ ∃ s' r, handle_register_request node after_genesis 5 join_message start = Some (s', r) ∧ s' = start ∧ is_ok r = false.
Proof.
  assert (match handle_register_request node after_genesis 5 join_message start with Some _ => true | None => false end = true) as Hv
    by (by vm_compute).
  split; [exact join_verifies|]. destruct (handle_register_request _ _ _ _ _) as [[s' r]|] eqn:E; [|discriminate Hv]. exists s', r. split; [exact eq_refl|].
  refine (genesis_users_cannot_register spec node (empty_store : store) after_genesis _ 5 join_message asks_to_join start s' r _ _ _ seeded_ok _ E);
    [done|done|intros _ Hk; vm_compute in Hk; discriminate Hk|by vm_compute].
Defined.
End ConcreteGenesis.
