(* ===== verification/Topology.v ===== *)
(** * The test network's mesh (testnet-gen/src/topology.rs)

    The generator's nodes, their peer lists and their port windows. A node has one
    interface for each peer, and a peer's interface for a node listens at the
    peer's base port plus the node's index in the peer's list. *)

From S2P Require Import Prelude Utf8 Text.
From stdpp Require Import sorting pretty.

(** ** Roles *)

Inductive Role := SentinelRole | ExecutorRole | FinalizerRole | CommitterRole.
#[export] Instance Role_eq_dec : EqDecision Role.
Proof. solve_decision. Defined.

Definition Role_ALL : list Role := [SentinelRole; ExecutorRole; FinalizerRole; CommitterRole].

Definition registry_type_str (r : Role) : string :=
  match r with
  | SentinelRole => "Sentinel" | ExecutorRole => "Executor" | FinalizerRole => "Finalizer" | CommitterRole => "Committer"
  end.
Definition plural (r : Role) : string :=
  match r with
  | SentinelRole => "sentinels" | ExecutorRole => "executors" | FinalizerRole => "finalizers" | CommitterRole => "committers"
  end.

Definition FANOUT : list (Role * list Role) :=
  [(SentinelRole, [ExecutorRole; FinalizerRole; SentinelRole]);
   (ExecutorRole, [FinalizerRole]);
   (FinalizerRole, [CommitterRole; FinalizerRole; SentinelRole; ExecutorRole]);
   (CommitterRole, [CommitterRole; ExecutorRole; SentinelRole])].

Definition role_sends (from to : Role) : bool :=
  match List.find (λ rt, bool_decide (rt.1 = from)) FANOUT with Some (_, targets) => bool_decide (to ∈ targets) | None => false end.

Inductive TopologyMode := FullMesh | RoleGraph | Auto.
#[export] Instance TopologyMode_eq_dec : EqDecision TopologyMode.
Proof. solve_decision. Defined.

Definition resolve (mode : TopologyMode) (total_nodes role_graph_above : nat) : TopologyMode :=
  match mode with
  | Auto => if Nat.ltb role_graph_above total_nodes then RoleGraph else FullMesh
  | concrete => concrete
  end.

(** ** Nodes *)

Record TestNode := mkTestNode { tn_index : nat; tn_name : string; tn_role : Role; tn_roles : list Role }.

Record NodePlan := mkPlan { np_node : TestNode; base_port : N; address : string; np_peers : list nat }.

Definition u16 (n : N) : N := (n mod 65536)%N.
Definition u32 (n : N) : N := (n mod 4294967296)%N.

Definition listen_port_for (p : NodePlan) (requester_index : nat) : result string N :=
  match list_find (λ x, x = requester_index) (np_peers p) with
  | Some (j, _) => Ok (u16 (base_port p + u16 (N.of_nat j)))
  | None => Err "topology is not symmetric"
  end.

Inductive Placement := SingleHost | PerHost (addresses : list string).

Definition LOOPBACK : string := "127.0.0.1".

Definition address_for (pl : Placement) (index node_count : nat) : may_panic (result string string) :=
  match pl with
  | SingleHost => Some (Ok LOOPBACK)
  | PerHost addresses =>
      if negb (Nat.eqb (length addresses) node_count) then Some (Err "per-host placement needs exactly one address per node")
      else
        raw ← addresses !! index;
        let address := bytes_string (trim (string_bytes raw)) in
        Some (if String.eqb address "" then Err "the address for the node is empty" else Ok address)
  end.

Definition placement_label (pl : Placement) : string := match pl with SingleHost => "single-host" | PerHost _ => "per-host" end.
Definition windows_must_be_disjoint (pl : Placement) : bool := match pl with SingleHost => true | PerHost _ => false end.

Record Mesh := mkMesh { plan : list NodePlan; mode : TopologyMode; port_window : N; placement : Placement }.

Definition PORT_SLACK : N := 2.

(** ** Building *)

(** [role.plural().trim_end_matches('s')] with the node's number. *)
Fixpoint strip_s (rev : bytes) : bytes := match rev with 115%N :: rev => strip_s rev | _ => rev end.
Definition node_name (role : Role) (i : nat) : string :=
  bytes_string (rev (strip_s (rev (string_bytes (plural role))))) +:+ "-" +:+ pretty (S i).

Definition push_node (role : Role) (nodes : list TestNode) (i : nat) : list TestNode :=
  nodes ++ [mkTestNode (length nodes) (node_name role i) role [role]].
Definition push_role (nodes : list TestNode) (rc : Role * nat) : list TestNode :=
  if Nat.eqb rc.2 0 then nodes else foldl (push_node rc.1) nodes (seq 0 rc.2).
Definition build_nodes (counts : list (Role * nat)) : list TestNode := foldl push_role [] counts.

Definition linked (mode : TopologyMode) (a b : Role) : result string bool :=
  match mode with
  | FullMesh => Ok true
  | Auto => Err "Auto must be resolved to a concrete topology before building a mesh"
  | RoleGraph => Ok (role_sends a b || role_sends b a)
  end.

(** The inner loop for the node at [i], and the sort after it. *)
Fixpoint link_row (mode : TopologyMode) (i : nat) (a : TestNode) (j : nat) (rest : list TestNode) (peers : list nat)
    : result string (list nat) :=
  match rest with
  | [] => Ok peers
  | b :: rest =>
      if Nat.eqb i j || bool_decide (j ∈ peers) then link_row mode i a (S j) rest peers
      else l ← linked mode (tn_role a) (tn_role b); link_row mode i a (S j) rest (if (l : bool) then peers ++ [j] else peers)
  end.
Fixpoint link_rows (mode : TopologyMode) (all : list TestNode) (i : nat) (nodes : list TestNode) : result string (list NodePlan) :=
  match nodes with
  | [] => Ok []
  | a :: nodes =>
      peers ← link_row mode i a 0 all [];
      rows ← link_rows mode all (S i) nodes;
      Ok (mkPlan a 0 "" (merge_sort le peers) :: rows)
  end.

Definition symmetric (rows : list NodePlan) : bool :=
  forallb (λ p, forallb (λ k, match rows !! k with Some q => bool_decide (tn_index (np_node p) ∈ np_peers q) | None => false end)
                  (np_peers p)) rows.

Definition max_interfaces (rows : list NodePlan) : nat := foldr (λ p m, Nat.max (length (np_peers p)) m) 0 rows.

Fixpoint addresses_from (pl : Placement) (n i : nat) (todo : nat) : may_panic (result string (list string)) :=
  match todo with
  | O => Some (Ok [])
  | S todo =>
      r ← address_for pl i n;
      match r with
      | Err e => Some (Err e)
      | Ok a => rs ← addresses_from pl n (S i) todo; Some (l ← rs; Ok (a :: l))
      end
  end.

Definition with_port (port : N) (p : NodePlan) : NodePlan := mkPlan (np_node p) port (address p) (np_peers p).
Definition with_address (p : NodePlan) (a : string) : NodePlan := mkPlan (np_node p) (base_port p) a (np_peers p).

(** The ports of a window that fits. *)
Definition assign_ports (base window : N) (pl : Placement) (rows : list NodePlan) : result string (list NodePlan) :=
  if windows_must_be_disjoint pl then
    if N.ltb 65535 (u32 (base + u32 (u32 (N.of_nat (length rows)) * window))) then Err "port window overflows u16"
    else Ok (imap (λ i, with_port (u16 (base + u16 (u16 (N.of_nat i) * window)))) rows)
  else if N.ltb 65535 (base + window) then Err "port window overflows u16 on a single host"
  else Ok (with_port base <$> rows).

Definition build (counts : list (Role * nat)) (base : N) (mode : TopologyMode) (pl : Placement) : may_panic (result string Mesh) :=
  let nodes := build_nodes counts in
  match nodes with
  | [] => Some (Err "no nodes requested: every role count is zero")
  | [_] => Some (Err "a testnet needs at least two nodes")
  | _ =>
      match link_rows mode nodes 0 nodes with
      | Err e => Some (Err e)
      | Ok rows =>
          if negb (symmetric rows) then Some (Err "topology is not symmetric")
          else if Nat.eqb (max_interfaces rows) 0 then Some (Err "topology produced no links for these role counts")
          else
            let window := u16 (u16 (N.of_nat (max_interfaces rows)) + PORT_SLACK) in
            addresses ← addresses_from pl (length rows) 0 (length rows);
            Some (addresses ← addresses;
                  rows ← assign_ports base window pl rows;
                  Ok (mkMesh (zip_with with_address rows addresses) mode window pl))
      end
  end.

Definition ports_reserved (m : Mesh) : N :=
  if windows_must_be_disjoint (placement m) then u32 (u32 (N.of_nat (length (plan m))) * port_window m) else port_window m.
Definition by_role (m : Mesh) (role : Role) : list nat :=
  (λ p, tn_index (np_node p)) <$> filter (λ p, tn_role (np_node p) = role) (plan m).

(** ** Nodes and names *)

Lemma push_node_indexed role nodes todo :
  Forall2 (λ i n, tn_index n = i) (seq 0 (length nodes)) nodes →
  let l := foldl (push_node role) nodes todo in Forall2 (λ i n, tn_index n = i) (seq 0 (length l)) l.
Proof.
  revert nodes. induction todo as [|i todo IH]; intros nodes Hn; [done|]. cbn [foldl]. apply IH. unfold push_node.
  rewrite length_app. cbn [length]. rewrite Nat.add_1_r, seq_S. apply Forall2_app; [done|]. by repeat constructor.
Qed.

Lemma build_nodes_indexed counts : Forall2 (λ i n, tn_index n = i) (seq 0 (length (build_nodes counts))) (build_nodes counts).
Proof.
  unfold build_nodes. assert (Forall2 (λ i n, tn_index n = i) (seq 0 (length (@nil TestNode))) []) as H by done.
  revert H. generalize (@nil TestNode). induction counts as [|rc counts IH]; intros nodes Hn; [done|]. cbn [foldl]. apply IH.
  unfold push_role. case_match; [done|]. by apply push_node_indexed.
Qed.

Lemma indexed_lookup nodes i n :
  Forall2 (λ i n, tn_index n = i) (seq 0 (length nodes)) nodes → nodes !! i = Some n → tn_index n = i.
Proof. intros Hix Hn. destruct (Forall2_lookup_r _ _ _ _ _ Hix Hn) as (i' & Hi' & ->). by apply lookup_seq in Hi' as [-> _]. Qed.

Lemma push_role_names nodes rc : tn_name <$> push_role nodes rc = (tn_name <$> nodes) ++ (node_name rc.1 <$> seq 0 rc.2).
Proof.
  unfold push_role. destruct (Nat.eqb_spec rc.2 0) as [->|_]; [by rewrite app_nil_r|]. generalize (seq 0 rc.2). intros l.
  revert nodes. induction l as [|i l IH]; intros nodes; cbn [foldl fmap list_fmap]; [by rewrite app_nil_r|].
  rewrite IH. unfold push_node. rewrite fmap_app, <-app_assoc. done.
Qed.

Lemma build_names counts : tn_name <$> build_nodes counts = concat ((λ rc, node_name rc.1 <$> seq 0 rc.2) <$> counts).
Proof.
  unfold build_nodes. change (concat _) with ((tn_name <$> []) ++ concat ((λ rc, node_name rc.1 <$> seq 0 rc.2) <$> counts)).
  generalize (@nil TestNode). induction counts as [|rc counts IH]; intros nodes; cbn [foldl fmap list_fmap concat]; [by rewrite app_nil_r|].
  by rewrite IH, push_role_names, <-app_assoc.
Qed.

Lemma node_name_inj r i r' i' : node_name r i = node_name r' i' → r = r' ∧ i = i'.
Proof.
  intros Hn. assert (r = r') as ->; [by destruct r, r'|]. split; [done|]. unfold node_name in Hn.
  apply (inj (String.app _)) in Hn. apply (inj (String.app "-")) in Hn. apply (inj pretty) in Hn. lia.
Qed.

(** The names of a cluster tell its nodes apart. *)
Lemma names_distinct counts : NoDup counts.*1 → NoDup (tn_name <$> build_nodes counts).
Proof.
  rewrite build_names. induction counts as [|[r n] counts IH]; cbn; [constructor|]. intros [Hr Hnd]%NoDup_cons. apply NoDup_app. split_and!.
  - apply NoDup_fmap_2; [|apply NoDup_seq]. intros i j [_ ?]%node_name_inj. done.
  - intros x (i & -> & _)%list_elem_of_fmap Hx. apply list_elem_of_In, in_concat in Hx as (l & Hl%list_elem_of_In & Hx%list_elem_of_In).
    apply list_elem_of_fmap in Hl as ([r' n'] & -> & Hin). apply list_elem_of_fmap in Hx as (i' & [-> ->]%node_name_inj & _).
    apply Hr. by apply (list_elem_of_fmap_2 fst _ _ Hin).
  - by apply IH.
Qed.

(** ** Links *)

(** Two roles have a link. *)
Definition links (mode : TopologyMode) (a b : Role) : Prop := linked mode a b = Ok true.

Lemma links_sym mode a b : links mode a b → links mode b a.
Proof. unfold links, linked. destruct mode; [done| |done]. by rewrite orb_comm. Qed.

(** The role graph is the full mesh without the links among executors. *)
Lemma links_iff mode a b :
  links mode a b ↔ mode = FullMesh ∨ mode = RoleGraph ∧ ¬ (a = ExecutorRole ∧ b = ExecutorRole).
Proof. unfold links. destruct mode, a, b; vm_compute; split; intros; repeat (destruct_or? || destruct_and?); naive_solver. Qed.

Lemma link_row_spec mode i a j rest peers out :
  StronglySorted lt peers → Forall (λ x, x < j) peers → link_row mode i a j rest peers = Ok out →
  StronglySorted lt out ∧
  ∀ x, x ∈ out ↔ x ∈ peers ∨ (j ≤ x ∧ x ≠ i ∧ ∃ b, rest !! (x - j) = Some b ∧ links mode (tn_role a) (tn_role b)).
Proof.
  revert j peers. induction rest as [|b rest IH]; intros j peers Hs Hlt; cbn [link_row].
  { intros [= ->]. split; [done|]. intros x. split; [by left|]. intros [?|(_ & _ & b & Hb & _)]; done. }
  assert (j ∉ peers) as Hj by (intros Hj; rewrite Forall_forall in Hlt; specialize (Hlt j Hj); lia).
  assert (Forall (λ x, x < S j) peers) as Hlt' by (eapply Forall_impl; [exact Hlt|]; simpl; lia).
  rewrite (bool_decide_false (j ∈ peers)) by done. rewrite orb_false_r.
  assert (∀ x, (S j ≤ x ∧ x ≠ i ∧ ∃ c, rest !! (x - S j) = Some c ∧ links mode (tn_role a) (tn_role c)) ↔
               (j < x ∧ x ≠ i ∧ ∃ c, (b :: rest) !! (x - j) = Some c ∧ links mode (tn_role a) (tn_role c))) as Htail.
  { intros x. split; intros (Hx & Hi & c & Hc & Hl); (split; [lia|split; [done|exists c; split; [|done]]]);
      replace (x - j) with (S (x - S j)) in * by lia; done. }
  destruct (Nat.eqb_spec i j) as [<-|Hij].
  - intros Hr. apply IH in Hr as [Hso Hm]; [|done..]. split; [done|]. intros x. rewrite Hm, Htail. split; [|]; (intros [?|(? & ? & ?)]; [by left|right; split; [lia|done]]).
  - destruct (linked mode (tn_role a) (tn_role b)) as [l|e] eqn:El; [|done]. cbn. intros Hr. destruct l.
    + apply IH in Hr as [Hso Hm].
      * split; [done|]. intros x. rewrite Hm, Htail, elem_of_app, list_elem_of_singleton. split.
        -- intros [[?| ->]|(? & ? & ?)]; [by left|right|right; split; [lia|done]]. split; [lia|]. split; [done|]. exists b. by rewrite Nat.sub_diag.
        -- intros [?|(Hx & Hi & Hb)]; [by left; left|]. destruct (decide (x = j)) as [->|]; [by left; right|]. right. split; [lia|done].
      * apply StronglySorted_app_2; [|done|by repeat constructor]. intros x y Hx ->%list_elem_of_singleton. rewrite Forall_forall in Hlt. by apply Hlt.
      * apply Forall_app. split; [done|]. constructor; [lia|done].
    + apply IH in Hr as [Hso Hm]; [|done..]. split; [done|]. intros x. rewrite Hm, Htail. split; (intros [?|(? & ? & Hb)]; [by left|right]).
      * split; [lia|done].
      * destruct (decide (x = j)) as [->|]; [|split; [lia|done]]. destruct Hb as (c & Hc & Hl). rewrite Nat.sub_diag in Hc. injection Hc as ->.
        unfold links in Hl. by rewrite El in Hl.
Qed.

Lemma sorted_fixed l : StronglySorted lt l → merge_sort le l = l.
Proof.
  intros Hs. apply (StronglySorted_unique le).
  - apply StronglySorted_merge_sort; apply _.
  - clear -Hs. induction Hs as [|x l Hs IH Hx]; constructor; [done|]. eapply Forall_impl; [exact Hx|]. simpl. lia.
  - apply merge_sort_Permutation.
Qed.

(** What a row of the plan is. *)
Definition row_ok (mode : TopologyMode) (all : list TestNode) (i : nat) (p : NodePlan) : Prop :=
  all !! i = Some (np_node p) ∧ StronglySorted lt (np_peers p) ∧
  ∀ x, x ∈ np_peers p ↔ x ≠ i ∧ ∃ b, all !! x = Some b ∧ links mode (tn_role (np_node p)) (tn_role b).

Lemma link_rows_ok mode all i nodes rows :
  (∀ k a, nodes !! k = Some a → all !! (i + k) = Some a) → link_rows mode all i nodes = Ok rows →
  length rows = length nodes ∧ ∀ k p, rows !! k = Some p → row_ok mode all (i + k) p.
Proof.
  revert i rows. induction nodes as [|a nodes IH]; intros i rows Hall; cbn [link_rows]; [intros [= <-]; by split|].
  destruct (link_row mode i a 0 all []) as [peers|] eqn:Er; [|done]. simpl.
  destruct (link_rows mode all (S i) nodes) as [rows'|] eqn:Es; [|done]. simpl. intros [= <-].
  apply link_row_spec in Er as [Hs Hm]; [|constructor..]. rewrite (sorted_fixed _ Hs).
  apply IH in Es as [Hl Hok]; [|intros k b Hb; rewrite Nat.add_succ_l, <-Nat.add_succ_r; by apply Hall]. split; [by f_equal/=|].
  intros [|k] p; cbn [lookup list_lookup]; [intros [= <-]|intros Hp; rewrite Nat.add_succ_r, <-Nat.add_succ_l; by apply Hok].
  rewrite Nat.add_0_r. split; [pose proof (Hall 0 a eq_refl) as H0; by rewrite Nat.add_0_r in H0|]. split; [done|]. intros x. rewrite Hm. cbn [np_peers np_node].
  rewrite elem_of_nil, Nat.sub_0_r. split; [intros [[]|(_ & Hi & Hb)]; done|]. intros [Hi Hb]. right. split; [lia|done].
Qed.

(** The check for symmetry never fails. *)
Lemma rows_symmetric mode nodes rows :
  Forall2 (λ i n, tn_index n = i) (seq 0 (length nodes)) nodes → link_rows mode nodes 0 nodes = Ok rows → symmetric rows = true.
Proof.
  intros Hix Hr. apply link_rows_ok in Hr as [Hl Hok]; [|done]. unfold symmetric.
  apply forallb_forall. intros p Hp%list_elem_of_In. apply list_elem_of_lookup in Hp as [i Hp].
  apply forallb_forall. intros x Hx%list_elem_of_In. destruct (Hok i p Hp) as (Hn & _ & Hm). apply Hm in Hx as (Hxi & b & Hb & Hlk).
  simpl in Hn. destruct (lookup_lt_is_Some_2 rows x) as [q Hq]; [rewrite Hl; by eapply lookup_lt_Some|]. rewrite Hq.
  apply bool_decide_true. destruct (Hok x q Hq) as (Hnq & _ & Hmq). simpl in Hnq. rewrite Hb in Hnq. injection Hnq as ->.
  rewrite (indexed_lookup _ _ _ Hix Hn).
  apply Hmq. split; [done|]. exists (np_node p). split; [done|]. by apply links_sym.
Qed.

(** ** Ports *)

Lemma peers_bounded mode all i p : row_ok mode all i p → NoDup (np_peers p) ∧ length (np_peers p) ≤ length all.
Proof.
  intros (_ & Hs & Hm). assert (NoDup (np_peers p)) as Hnd.
  { clear -Hs. induction Hs as [|x l Hs IH Hx]; constructor; [|done]. intros Hin. rewrite Forall_forall in Hx. specialize (Hx x Hin). lia. }
  split; [done|]. rewrite <-(length_seq (length all) 0). apply submseteq_length, NoDup_submseteq; [done|].
  intros x (_ & b & Hb%lookup_lt_Some & _)%Hm. apply elem_of_seq. lia.
Qed.

Lemma max_interfaces_ge rows p : p ∈ rows → length (np_peers p) ≤ max_interfaces rows.
Proof. unfold max_interfaces. induction 1; simpl; lia. Qed.

Lemma max_interfaces_le rows n : (∀ p, p ∈ rows → length (np_peers p) ≤ n) → max_interfaces rows ≤ n.
Proof.
  unfold max_interfaces. induction rows as [|p rows IH]; intros Hn; simpl; [lia|].
  apply Nat.max_lub; [apply Hn; left|apply IH; intros q Hq; apply Hn; by right].
Qed.

Lemma u16_small n : (n < 65536)%N → u16 n = n.
Proof. apply N.mod_small. Qed.

Lemma listen_port_nth p k j :
  NoDup (np_peers p) → np_peers p !! k = Some j → (base_port p + N.of_nat k < 65536)%N →
  listen_port_for p j = Ok (base_port p + N.of_nat k)%N.
Proof.
  intros Hnd Hk Hlt. unfold listen_port_for. assert (list_find (λ x, x = j) (np_peers p) = Some (k, j)) as ->.
  { apply list_find_Some. split; [done|]. split; [done|]. intros k' j' Hk' Hlt' ->. by pose proof (NoDup_lookup _ _ _ _ Hnd Hk Hk'); lia. }
  rewrite (u16_small (N.of_nat k)), u16_small by lia. done.
Qed.

Lemma addresses_length pl n i todo l : addresses_from pl n i todo = Some (Ok l) → length l = todo.
Proof.
  revert i l. induction todo as [|todo IH]; intros i l; cbn [addresses_from]; [by intros [= <-]|].
  destruct (address_for pl i n) as [[a|]|]; [|done..]. simpl. destruct (addresses_from pl n (S i) todo) as [[l'|]|] eqn:E; [|done..].
  simpl. intros [= <-]. simpl. f_equal. by eapply IH.
Qed.

(** The window of the node at [i], and that it fits. *)
Lemma assign_ports_ok base window pl rows rows' :
  (base < 65536)%N → (2 ≤ window < 65536)%N → (N.of_nat (length rows) < 65534)%N → assign_ports base window pl rows = Ok rows' →
  length rows' = length rows ∧
  ∀ i p, rows' !! i = Some p → ∃ r, rows !! i = Some r ∧
    p = with_port (if windows_must_be_disjoint pl then base + N.of_nat i * window else base)%N r ∧
    (base_port p + window < 65536)%N.
Proof.
  intros Hb Hw Hn. unfold assign_ports. destruct (windows_must_be_disjoint pl); destruct (N.ltb 65535 _) eqn:Hle; [done| |done|]; apply N.ltb_ge in Hle.
  - assert (N.of_nat (length rows) * window ≤ 65533 * 65535)%N as Hs by (apply N.mul_le_mono; lia).
    unfold u32 in Hle. rewrite (N.mod_small (N.of_nat (length rows))), (N.mod_small (_ * _)%N) in Hle by lia.
    rewrite N.mod_small in Hle by lia. intros [= <-]. rewrite length_imap. split; [done|]. intros i p. rewrite list_lookup_imap.
    intros (r & Hr & ->)%fmap_Some. exists r. split; [done|].
    pose proof (lookup_lt_Some _ _ _ Hr) as Hi. assert (N.of_nat i * window + window ≤ N.of_nat (length rows) * window)%N as Hmul by nia.
    rewrite (u16_small (N.of_nat i)), (u16_small (_ * _)%N), u16_small by lia. split; [done|]. cbn. lia.
  - intros [= <-]. rewrite length_fmap. split; [done|]. intros i p. rewrite list_lookup_fmap. intros (r & Hr & ->)%fmap_Some.
    exists r. split; [done|]. split; [done|]. cbn. lia.
Qed.

Lemma build_inv counts base mode pl m :
  build counts base mode pl = Some (Ok m) →
  let nodes := build_nodes counts in
  ∃ rows rows' addrs, link_rows mode nodes 0 nodes = Ok rows ∧
    addresses_from pl (length rows) 0 (length rows) = Some (Ok addrs) ∧
    let window := u16 (u16 (N.of_nat (max_interfaces rows)) + PORT_SLACK) in
    assign_ports base window pl rows = Ok rows' ∧ m = mkMesh (zip_with with_address rows' addrs) mode window pl.
Proof.
  unfold build. cbv zeta. destruct (build_nodes counts) as [|a [|b nodes]]; [done..|].
  destruct (link_rows _ _ _ _) as [rows|] eqn:Hr; [|done]. case_match; [done|]. case_match; [done|].
  destruct (addresses_from _ _ _ _) as [[addrs|]|] eqn:Ha; [|done..]. simpl.
  destruct (assign_ports _ _ _ _) as [rows'|] eqn:Hp; [|done]. simpl. intros [= <-]. by exists rows, rows', addrs.
Qed.

(** A row of the finished plan. *)
Lemma plan_row counts base mode_ pl m :
  (base < 65536)%N → (N.of_nat (length (build_nodes counts)) < 65534)%N → build counts base mode_ pl = Some (Ok m) →
  mode m = mode_ ∧ placement m = pl ∧ length (plan m) = length (build_nodes counts) ∧
  ∀ i p, plan m !! i = Some p →
    row_ok mode_ (build_nodes counts) i p ∧
    (N.of_nat (length (np_peers p)) < port_window m)%N ∧ (base_port p + port_window m < 65536)%N ∧
    base_port p = (if windows_must_be_disjoint pl then base + N.of_nat i * port_window m else base)%N.
Proof.
  intros Hb Hn Hm. apply build_inv in Hm as (rows & rows' & addrs & Hr & Ha & Hp & ->). cbn [mode placement plan port_window].
  apply link_rows_ok in Hr as [Hl Hok]; [|done]. apply addresses_length in Ha.
  assert (max_interfaces rows ≤ length (build_nodes counts)) as Hmax.
  { apply max_interfaces_le. intros p (i & Hi)%list_elem_of_lookup. by apply (peers_bounded _ _ _ _ (Hok i p Hi)). }
  unfold PORT_SLACK in *. rewrite (u16_small (N.of_nat _)), u16_small in * by lia.
  apply assign_ports_ok in Hp as [Hl' Hports]; [|lia..]. split_and!; [done|done|rewrite length_zip_with; lia|].
  intros i p. rewrite lookup_zip_with. intros (q & Hq & (a & Haddr & [= <-])%bind_Some)%bind_Some.
  destruct (Hports i q Hq) as (r & Hr & -> & Hfit). specialize (Hok i r Hr).
  split; [done|]. split; [|split; [exact Hfit|done]]. cbn.
  pose proof (max_interfaces_ge rows r (list_elem_of_lookup_2 _ _ _ Hr)). lia.
Qed.

Lemma plan_nodes counts base mode_ pl m :
  (base < 65536)%N → (N.of_nat (length (build_nodes counts)) < 65534)%N → build counts base mode_ pl = Some (Ok m) →
  np_node <$> plan m = build_nodes counts.
Proof.
  intros Hb Hn Hm. destruct (plan_row _ _ _ _ _ Hb Hn Hm) as (_ & _ & Hlen & Hrow). apply list_eq. intros i. rewrite list_lookup_fmap.
  destruct (plan m !! i) as [p|] eqn:Hp; [by destruct (Hrow i p Hp) as [(-> & _) _]|].
  symmetry. apply lookup_ge_None. rewrite <-Hlen. by apply lookup_ge_None.
Qed.

(** Peers by the links of their roles. *)
Lemma plan_peers counts base mode_ pl m i p :
  (base < 65536)%N → (N.of_nat (length (build_nodes counts)) < 65534)%N → build counts base mode_ pl = Some (Ok m) →
  plan m !! i = Some p → tn_index (np_node p) = i ∧ ∀ j, j ∈ np_peers p ↔ j ≠ i ∧ ∃ q, plan m !! j = Some q ∧
      links mode_ (tn_role (np_node p)) (tn_role (np_node q)).
Proof.
  intros Hb Hn Hm Hp. destruct (plan_row _ _ _ _ _ Hb Hn Hm) as (_ & _ & Hlen & Hrow). split.
  { destruct (Hrow i p Hp) as [(Hnode & _) _]. by eapply indexed_lookup; [apply build_nodes_indexed|]. }
  intros j. destruct (Hrow i p Hp) as [(_ & _ & ->) _]. split; intros (Hne & q & Hq & Hl); (split; [done|]).
  - destruct (lookup_lt_is_Some_2 (plan m) j) as [r Hr]; [rewrite Hlen; by eapply lookup_lt_Some|]. exists r. split; [done|].
    destruct (Hrow j r Hr) as [(Hr' & _) _]. rewrite Hq in Hr'. by injection Hr' as <-.
  - exists (np_node q). split; [|done]. by destruct (Hrow j q Hq) as [(? & _) _].
Qed.

(** The two ends of a link. *)
Lemma links_meet counts base mode_ pl m i j p q k :
  (base < 65536)%N → (N.of_nat (length (build_nodes counts)) < 65534)%N → build counts base mode_ pl = Some (Ok m) →
  plan m !! i = Some p → plan m !! j = Some q → np_peers p !! k = Some j →
  ∃ l, np_peers q !! l = Some i ∧
    listen_port_for p j = Ok (base_port p + N.of_nat k)%N ∧ listen_port_for q i = Ok (base_port q + N.of_nat l)%N ∧
    (N.of_nat k < port_window m)%N ∧ (base_port p + port_window m < 65536)%N.
Proof.
  intros Hb Hn Hm Hp Hq Hk. destruct (plan_row _ _ _ _ _ Hb Hn Hm) as (_ & _ & Hlen & Hrow).
  destruct (Hrow i p Hp) as (Hpr & Hpw & Hpf & _), (Hrow j q Hq) as (Hqr & Hqw & Hqf & _).
  apply peers_bounded in Hpr as [Hpn _], Hqr as [Hqn _].
  assert (i ∈ np_peers q) as [l Hl]%list_elem_of_lookup.
  { apply (proj2 (plan_peers _ _ _ _ _ _ _ Hb Hn Hm Hq)). apply list_elem_of_lookup_2 in Hk.
    apply (proj2 (plan_peers _ _ _ _ _ _ _ Hb Hn Hm Hp)) in Hk as (Hne & q' & Hq' & Hlk). rewrite Hq in Hq'. injection Hq' as <-. split; [done|]. exists p. split; [done|]. by apply links_sym. }
  pose proof (lookup_lt_Some _ _ _ Hk). pose proof (lookup_lt_Some _ _ _ Hl). exists l.
  split_and!; [done|apply listen_port_nth; [done|done|lia]..|lia|done].
Qed.

(** ** Properties *)

(** C24: Every mesh the generator builds is wired (with fewer than 65534 nodes, past
    which the 16-bit window wraps, and a base port of 16 bits). The nodes are the
    counted ones, with distinct names when no role is counted twice, and are
    numbered by their place; a node's
    peers, in increasing order, are all other nodes in the full mesh, and all but
    the other executors of an executor in the role graph. Each link meets: when a
    node's interface [k] is for a peer, the peer has an interface [l] for the node,
    the port one forwards to is the port the other listens at, and all ports lie
    in windows that fit in 16 bits. And no two interfaces of the cluster share an
    address and a port, on a single host or on hosts with distinct addresses. *)
Theorem mesh_is_wired counts base mode_ pl m :
  (base < 65536)%N → (N.of_nat (length (build_nodes counts)) < 65534)%N → build counts base mode_ pl = Some (Ok m) →
  np_node <$> plan m = build_nodes counts ∧ (NoDup counts.*1 → NoDup ((λ p, tn_name (np_node p)) <$> plan m)) ∧
  (∀ i p, plan m !! i = Some p →
     tn_index (np_node p) = i ∧ StronglySorted lt (np_peers p) ∧
     ∀ j, j ∈ np_peers p ↔ j ≠ i ∧ ∃ q, plan m !! j = Some q ∧
       (mode_ = FullMesh ∨ mode_ = RoleGraph ∧ ¬ (tn_role (np_node p) = ExecutorRole ∧ tn_role (np_node q) = ExecutorRole))) ∧
  (∀ i j p q k, plan m !! i = Some p → plan m !! j = Some q → np_peers p !! k = Some j →
     ∃ l, np_peers q !! l = Some i ∧
       listen_port_for p j = Ok (base_port p + N.of_nat k)%N ∧ listen_port_for q i = Ok (base_port q + N.of_nat l)%N ∧
       (N.of_nat k < port_window m)%N ∧ (base_port p + port_window m < 65536)%N) ∧
  (pl = SingleHost ∨ NoDup (address <$> plan m) →
   ∀ i j p q a b, plan m !! i = Some p → plan m !! j = Some q → (a < port_window m)%N → (b < port_window m)%N →
     address p = address q → (base_port p + a = base_port q + b)%N → i = j ∧ a = b).
Proof.
  intros Hb Hn Hm. destruct (plan_row _ _ _ _ _ Hb Hn Hm) as (_ & _ & Hlen & Hrow).
  pose proof (plan_nodes _ _ _ _ _ Hb Hn Hm) as Hnodes. split_and!.
  - done.
  - intros Hnd. rewrite (list_fmap_compose np_node tn_name), Hnodes. by apply names_distinct.
  - intros i p Hp. destruct (plan_peers _ _ _ _ _ _ _ Hb Hn Hm Hp) as [Hix Hmem]. split; [done|].
    split; [by destruct (Hrow i p Hp) as [(_ & ? & _) _]|]. intros j. rewrite Hmem. by setoid_rewrite links_iff.
  - intros i j p q k. by apply (links_meet counts base mode_ pl).
  - intros Hpl i j p q a b Hp Hq Ha Hb' Haddr Heq. destruct (Hrow i p Hp) as (_ & _ & _ & Hpb), (Hrow j q Hq) as (_ & _ & _ & Hqb).
    rewrite Hpb, Hqb in Heq. destruct Hpl as [->|Hnd]; cbn [windows_must_be_disjoint] in Heq.
    + assert (i = j) as -> by nia. split; [done|lia].
    + assert (i = j) as ->; [|split; [done|case_match; lia]].
      apply (NoDup_lookup (address <$> plan m) i j (address p)); [done|rewrite list_lookup_fmap, Hp; done|rewrite list_lookup_fmap, Hq; by rewrite Haddr].
Qed.

(** The symmetry the generator checks before it hands out ports always holds, and
    no index is out of range: a build ends in a mesh or in one of the other refusals. *)
Theorem symmetry_never_fails counts base mode pl :
  is_Some (build counts base mode pl) ∧
  ∀ rows, link_rows mode (build_nodes counts) 0 (build_nodes counts) = Ok rows → symmetric rows = true.
Proof.
  assert (∀ n i todo, i + todo ≤ n → is_Some (addresses_from pl n i todo)) as Haddr.
  { intros n i todo. revert i. induction todo as [|todo IH]; intros i Hi; cbn [addresses_from]; [by eexists|].
    assert (is_Some (address_for pl i n)) as [r ->].
    { destruct pl as [|addrs]; cbn; [by eexists|]. destruct (Nat.eqb_spec (length addrs) n) as [Hl|]; cbn; [|by eexists].
      destruct (lookup_lt_is_Some_2 addrs i) as [a ->]; [lia|]. by eexists. }
    simpl. destruct r; [|by eexists]. destruct (IH (S i)) as [rs ->]; [lia|]. by eexists. }
  split; [|intros rows; apply rows_symmetric, build_nodes_indexed]. unfold build.
  destruct (build_nodes counts) as [|a [|b nodes]]; [by eexists..|]. destruct (link_rows _ _ _ _) as [rows|]; [|by eexists].
  case_match; [by eexists|]. case_match; [by eexists|]. destruct (Haddr (length rows) 0 (length rows)) as [r ->]; [lia|]. by eexists.
Qed.

(** ** A concrete mesh, and the property at it *)

Module ConcreteMesh.
Definition counts : list (Role * nat) := [(SentinelRole, 1); (ExecutorRole, 2); (FinalizerRole, 1); (CommitterRole, 1)].
Abbreviation built := (build counts 21000 RoleGraph SingleHost).
Definition mesh : Mesh := match built with Some (Ok m) => m | _ => mkMesh [] Auto 0 SingleHost end.

Lemma mesh_built : built = Some (Ok mesh).
Proof. by vm_compute. Qed.

(** The first executor's interface for the sentinel. *)
Lemma wired_witness :
  ∃ p q l, plan mesh !! 1 = Some p ∧ plan mesh !! 0 = Some q ∧ np_peers q !! l = Some 1 ∧ listen_port_for q 1 = Ok (base_port q + N.of_nat l)%N.
Proof.
  destruct (mesh_is_wired counts 21000 RoleGraph SingleHost mesh) as (_ & _ & _ & Hl & _); [done|done|exact mesh_built|].
  destruct (plan mesh !! 1) as [p|] eqn:Hp; [|by vm_compute in Hp]. destruct (plan mesh !! 0) as [q|] eqn:Hq; [|by vm_compute in Hq].
  destruct (Hl 1 0 p q 0 Hp Hq) as (l & Hl' & _ & Hport & _); [by vm_compute in Hp; injection Hp as <-|]. by exists p, q, l.
Defined.
End ConcreteMesh.
