(* ===== verification/Emission.v ===== *)
(** * The test network's files (testnet-gen/src/emit.rs)

    What the generator writes for the nodes, the data service and the probe, as
    JSON values, and the readers of the manifest (topology.rs) and of the genesis
    file (data-service/src/genesis.rs). The keystores and the environment template
    are read from disk: they are arguments, and the written files are the result.
    The explanatory "_about" texts are left out. *)

From S2P Require Import Prelude Utf8 Text Interfaces Types Float StakeSets Selection Environment Config Serialize Crypto Transactions Chain.
From S2P Require Import Validation DataProvider Deserialize Wire Tokens NodeRegistry StakeIndex Pool Registry Merkle Roots ShieldedPool Genesis Topology.
From stdpp Require Import pretty.

(** ** JSON values *)

Inductive json :=
| JNull
| JBool (b : bool)
| JNum (n : N)
| JStr (s : string)
| JArr (l : list json)
| JObj (fields : list (string * json)).

Fixpoint find_field (k : string) (fields : list (string * json)) : option json :=
  match fields with [] => None | (k', v) :: fields => if String.eqb k k' then Some v else find_field k fields end.

(** [Value::get] and [value[k]]. *)
Definition get (k : string) (v : json) : option json := match v with JObj fields => find_field k fields | _ => None end.
Definition index (k : string) (v : json) : json := default JNull (get k v).

Definition as_u64 (v : json) : option N := match v with JNum n => Some n | _ => None end.
Definition as_str (v : json) : option string := match v with JStr s => Some s | _ => None end.
Definition as_array (v : json) : option (list json) := match v with JArr l => Some l | _ => None end.
Definition as_bool (v : json) : option bool := match v with JBool b => Some b | _ => None end.

(** ** Spellings *)

(** [rename_all = "lowercase"] and [rename_all = "kebab-case"]. *)
Definition role_json (r : Role) : json :=
  JStr match r with
       | SentinelRole => "sentinel" | ExecutorRole => "executor" | FinalizerRole => "finalizer" | CommitterRole => "committer"
       end.
Definition role_of_json (v : json) : option Role := List.find (λ r, match v, role_json r with JStr a, JStr b => String.eqb a b | _, _ => false end) Role_ALL.

Definition mode_json (m : TopologyMode) : json := JStr match m with FullMesh => "full-mesh" | RoleGraph => "role-graph" | Auto => "auto" end.
Definition mode_of_json (v : json) : option TopologyMode :=
  match v with
  | JStr s => if String.eqb s "full-mesh" then Some FullMesh else if String.eqb s "role-graph" then Some RoleGraph
              else if String.eqb s "auto" then Some Auto else None
  | _ => None
  end.

(** ** The generator *)

Definition registry_type (r : Role) : NodeRegistryType :=
  match r with SentinelRole => Sentinel | ExecutorRole => Executor | FinalizerRole => Finalizer | CommitterRole => Committer end.

Definition template_global_min (template : json) : N :=
  default default_global_min_stake (c ← get "cost_model" template; v ← get "global_min_stake" c; as_u64 v).
Definition template_type_min (template : json) (r : Role) : N :=
  default default_min_stake (c ← get "cost_model" template; m ← get "per_type_min_stake" c; v ← get (registry_type_str r) m; as_u64 v).

Definition qualifying_roles (stake : N) (template : json) : list Role :=
  filter (λ r, meets_minimum_stake stake (template_global_min template) (template_type_min template r) = true) Role_ALL.

Record GenSpec := mkGenSpec {
  g_counts : list (Role * nat);
  g_base_port : N;
  g_mode : TopologyMode;
  g_role_graph_above : nat;
  g_stake : N;
  g_fuel_balance : N;
  g_environment_id : string;
  g_token_partition_id : string;
  g_data_addr : string;
  g_placement : Placement;
  g_bind_address : option string;
  g_tx_tokens : list string;
  g_client_accounts : list string;
}.

Definition resolve_mode (spec : GenSpec) : TopologyMode := resolve (g_mode spec) (sum_list (g_counts spec).*2) (g_role_graph_above spec).

Record NodeReport := mkNodeReport {
  nr_name : string;
  nr_role : Role;
  nr_roles : list Role;
  nr_dir : string;
  nr_address : string;
  nr_rns_port : N;
  nr_interfaces : nat;
  nr_peers : list string;
  nr_rhash_hex : string;
  nr_ed25519_hex : string;
  nr_rns_hex : string;
}.

Record GeneratedIdentity := mkIdentity { gi_rhash_hex : string; gi_ed25519_hex : string; gi_rns_hex : string }.

(** [Path::join] with a relative path. *)
Definition join (a b : string) : string :=
  match rev (string_bytes a) with
  | [] => b
  | 47%N :: _ => a +:+ b
  | _ => a +:+ "/" +:+ b
  end.
Definition node_dir (out_dir name : string) : string := join (join out_dir "nodes") name.
Definition trimmed (s : string) : string := bytes_string (trim (string_bytes s)).

(** One entry of [bootstrap_peers]. *)
Definition peer_json (mesh : Mesh) (identities : list GeneratedIdentity) (me peer_index : nat) : may_panic (result string json) :=
  peer ← plan mesh !! peer_index;
  identity ← identities !! peer_index;
  Some (port ← listen_port_for peer me;
        Ok (JObj [("public_key", JStr (gi_rns_hex identity)); ("ip", JStr (address peer)); ("port", JNum port)])).

Fixpoint peers_json (mesh : Mesh) (identities : list GeneratedIdentity) (me : nat) (peers : list nat) : may_panic (result string (list json)) :=
  match peers with
  | [] => Some (Ok [])
  | k :: peers =>
      r ← peer_json mesh identities me k;
      match r with
      | Err e => Some (Err e)
      | Ok j => rs ← peers_json mesh identities me peers; Some (l ← rs; Ok (j :: l))
      end
  end.

Definition build_config_json (mesh : Mesh) (identities : list GeneratedIdentity) (p : NodePlan) (spec : GenSpec) (dir : string)
    : may_panic (result string json) :=
  rs ← peers_json mesh identities (tn_index (np_node p)) (np_peers p);
  Some (peers ← rs;
        Ok (JObj ([("is_full_node", JBool true); ("rest_api_version", JNum 1); ("environments", JArr []);
                   ("main_env_id", JStr (g_environment_id spec)); ("reconciliation_partition_id", JStr "reconciliation");
                   ("identity_path", JStr (join dir "node_identity.json")); ("mesh_fragment_path", JStr (join dir "mesh_fragment.json"));
                   ("rns_port", JNum (base_port p)); ("transport_enabled", JBool false); ("bootstrap_peers", JArr peers)]
                  ++ match trimmed <$> g_bind_address spec with
                     | Some bind => if String.eqb bind "" then [] else [("ip_address", JStr bind)]
                     | None => []
                     end))).

Section generator.
Context `{Hex}.

Fixpoint check_hex (err : string) (l : list string) : result string () :=
  match l with [] => Ok () | x :: l => _ ← ok_or err (hex_decode (trimmed x)); check_hex err l end.

Definition validator_json (spec : GenSpec) (n : NodeReport) : json :=
  JObj [("public_key_hex", JStr (nr_ed25519_hex n)); ("stake", JNum (g_stake spec)); ("fuel_balance", JNum (g_fuel_balance spec))].
Definition account_json (spec : GenSpec) (key : string) : json :=
  JObj [("public_key_hex", JStr (trimmed key)); ("fuel_balance", JNum (g_fuel_balance spec)); ("stake", JNum 0)].
Definition token_json (id : string) : json :=
  JObj [("token_id_hex", JStr (trimmed id)); ("name", JStr ("testnet-token-" +:+ trimmed id))].

Definition build_genesis_json (spec : GenSpec) (nodes : list NodeReport) (recency : N) : result string json :=
  _ ← check_hex "--tx-token is not valid hex" (g_tx_tokens spec);
  _ ← check_hex "--client-account is not valid hex" (g_client_accounts spec);
  Ok (JObj [("environment_id", JStr (g_environment_id spec)); ("token_partition_id", JStr (g_token_partition_id spec));
            ("stake_snapshot_epochs", JArr [JNum 0; JNum 1]); ("shielded_root_recency", JNum recency);
            ("nodes", JArr (validator_json spec <$> nodes)); ("accounts", JArr (account_json spec <$> g_client_accounts spec));
            ("tokens", JArr (token_json <$> g_tx_tokens spec)); ("seed_shielded_pool", JBool true); ("seed_partition_token", JBool true)]).

(** The node's copy of the environment: the template with two fields replaced. *)
Fixpoint set_field (k : string) (v : json) (fields : list (string * json)) : list (string * json) :=
  match fields with
  | [] => [(k, v)]
  | (k', v') :: fields => if String.eqb k k' then (k, v) :: fields else (k', v') :: set_field k v fields
  end.
Definition node_env (dir : string) (template : json) (spec : GenSpec) : result string json :=
  match template with
  | JObj fields =>
      Ok (JObj (set_field "environment_id" (JStr (g_environment_id spec))
                  (set_field "log_file" (JStr (join (join dir "env") "pneumatic.log")) fields)))
  | _ => Err "env template is not a JSON object"
  end.

Definition report_json (n : NodeReport) : json :=
  JObj [("name", JStr (nr_name n)); ("role", role_json (nr_role n)); ("roles", JArr (role_json <$> nr_roles n)); ("dir", JStr (nr_dir n));
        ("address", JStr (nr_address n)); ("rns_port", JNum (nr_rns_port n)); ("interfaces", JNum (N.of_nat (nr_interfaces n)));
        ("peers", JArr (JStr <$> nr_peers n)); ("rhash_hex", JStr (nr_rhash_hex n));
        ("ed25519_public_key_hex", JStr (nr_ed25519_hex n)); ("rns_public_key_hex", JStr (nr_rns_hex n))].

Definition manifest_json (spec : GenSpec) (mesh : Mesh) (nodes : list NodeReport) (recency : N) : json :=
  JObj [("mode", mode_json (mode mesh)); ("placement", JStr (placement_label (g_placement spec))); ("base_port", JNum (g_base_port spec));
        ("ports_per_host", JNum (port_window mesh)); ("data_addr", JStr (g_data_addr spec)); ("environment_id", JStr (g_environment_id spec));
        ("token_partition_id", JStr (g_token_partition_id spec)); ("shielded_root_recency", JNum recency); ("nodes", JArr (report_json <$> nodes))].

Record Written := mkWritten {
  w_envs : list json;
  w_configs : list json;
  w_nodes : list NodeReport;
  w_genesis : json;
  w_manifest : json;
}.

(** The second pass for one node: its configuration and its report. *)
Definition emit_node (spec : GenSpec) (out_dir : string) (mesh : Mesh) (identities : list GeneratedIdentity) (runs : list Role)
    (index : nat) (p : NodePlan) : may_panic (result string (json * NodeReport)) :=
  let dir := node_dir out_dir (tn_name (np_node p)) in
  r ← build_config_json mesh identities p spec dir;
  match r with
  | Err e => Some (Err e)
  | Ok config =>
      identity ← identities !! index;
      names ← mapM (λ k, (λ q, tn_name (np_node q)) <$> plan mesh !! k) (np_peers p);
      Some (Ok (config, mkNodeReport (tn_name (np_node p)) (tn_role (np_node p)) runs dir (address p) (base_port p) (length (np_peers p))
                          names (gi_rhash_hex identity) (gi_ed25519_hex identity) (gi_rns_hex identity)))
  end.

Fixpoint emit_nodes (spec : GenSpec) (out_dir : string) (mesh : Mesh) (identities : list GeneratedIdentity) (runs : list Role)
    (index : nat) (ps : list NodePlan) : may_panic (result string (list (json * NodeReport))) :=
  match ps with
  | [] => Some (Ok [])
  | p :: ps =>
      r ← emit_node spec out_dir mesh identities runs index p;
      match r with
      | Err e => Some (Err e)
      | Ok x => rs ← emit_nodes spec out_dir mesh identities runs (S index) ps; Some (l ← rs; Ok (x :: l))
      end
  end.

(** [generate], with the template and the keystores as they are on the disk. *)
Definition generate (spec : GenSpec) (out_dir : string) (template : json) (identities : list GeneratedIdentity)
    : may_panic (result string Written) :=
  r ← build (g_counts spec) (g_base_port spec) (resolve_mode spec) (g_placement spec);
  match r with
  | Err e => Some (Err e)
  | Ok mesh =>
      match mapM (λ p, node_env (node_dir out_dir (tn_name (np_node p))) template spec) (plan mesh) with
      | Err e => Some (Err e)
      | Ok envs =>
          let runs := qualifying_roles (g_stake spec) template in
          if is_nil runs then Some (Err "genesis stake clears no role floor")
          else
            rs ← emit_nodes spec out_dir mesh identities runs 0 (plan mesh);
            Some (nodes ← rs;
                  let recency := default 10%N (v ← get "shielded_root_recency" template; as_u64 v) in
                  genesis ← build_genesis_json spec nodes.*2 recency;
                  Ok (mkWritten envs nodes.*1 nodes.*2 genesis (manifest_json spec mesh nodes.*2 recency)))
      end
  end.
End generator.

(** ** Reading the manifest *)

Fixpoint map_results {A B} (f : A → result string B) (l : list A) : result string (list B) :=
  match l with [] => Ok [] | x :: l => y ← f x; ys ← map_results f l; Ok (y :: ys) end.

Definition read_roles (node : json) (role : Role) : result string (list Role) :=
  match get "roles" node with
  | None => Ok [role]
  | Some v =>
      l ← ok_or "manifest node roles unreadable" (as_array v);
      roles ← map_results (λ r, ok_or "manifest node roles unreadable" (role_of_json r)) l;
      if is_nil roles then Err "manifest node lists an empty roles set" else Ok roles
  end.

(** The first pass: a node's identity, under the next index. *)
Definition read_node (st : list NodePlan * gmap string nat) (node : json) : result string (list NodePlan * gmap string nat) :=
  let '(rows, by_name) := st in
  role ← ok_or "manifest node role unreadable" (role_of_json (index "role" node));
  roles ← read_roles node role;
  name ← ok_or "manifest node missing name" (as_str (index "name" node));
  match by_name !! name with
  | Some _ => Err "manifest lists a name twice"
  | None =>
      port ← ok_or "manifest node missing rns_port" (as_u64 (index "rns_port" node));
      Ok (rows ++ [mkPlan (mkTestNode (length rows) name role roles) (u16 port) (default LOOPBACK (as_str (index "address" node))) []],
          <[name := length rows]> by_name)
  end.
Fixpoint read_nodes (st : list NodePlan * gmap string nat) (nodes : list json) : result string (list NodePlan * gmap string nat) :=
  match nodes with [] => Ok st | n :: nodes => st ← read_node st n; read_nodes st nodes end.

(** The second pass: names to indices. *)
Definition read_peers (by_name : gmap string nat) (node : json) : result string (list nat) :=
  l ← ok_or "manifest node missing peers" (as_array (index "peers" node));
  map_results (λ v, name ← ok_or "peer entry is not a name" (as_str v); ok_or "node lists unknown peer" (by_name !! name)) l.
Definition with_peers (p : NodePlan) (peers : list nat) : NodePlan := mkPlan (np_node p) (base_port p) (address p) peers.

Definition from_manifest (manifest : json) : result string Mesh :=
  m ← ok_or "manifest mode is unreadable" (mode_of_json (index "mode" manifest));
  _ ← ok_or "manifest base_port missing" (as_u64 (index "base_port" manifest));
  let label := default "single-host" (as_str (index "placement" manifest)) in
  nodes ← ok_or "manifest.nodes missing" (as_array (index "nodes" manifest));
  if is_nil nodes then Err "manifest lists no nodes"
  else
    '(rows, by_name) ← read_nodes ([], ∅) nodes;
    peers ← map_results (read_peers by_name) nodes;
    let rows := zip_with with_peers rows peers in
    let pl := if String.eqb label "per-host" then PerHost (address <$> rows) else SingleHost in
    let window := match as_u64 (index "ports_per_host" manifest) with
                  | Some w => u16 w
                  | None => u16 (u16 (N.of_nat (max_interfaces rows)) + PORT_SLACK)
                  end in
    Ok (mkMesh rows m window pl).

(** ** Reading the genesis file *)

Definition required {A} (k : string) (f : json → option A) (v : json) : result string A :=
  x ← ok_or ("missing field " +:+ k) (get k v); ok_or "invalid type" (f x).
Definition optional {A} (k : string) (d : A) (f : json → option A) (v : json) : result string A :=
  match get k v with None => Ok d | Some x => ok_or "invalid type" (f x) end.
Definition optional_list {A} (k : string) (f : json → result string A) (v : json) : result string (list A) :=
  match get k v with None => Ok [] | Some x => l ← ok_or "invalid type" (as_array x); map_results f l end.

Definition read_genesis_node (v : json) : result string GenesisNode :=
  key ← required "public_key_hex" as_str v; stake ← required "stake" as_u64 v; fuel ← optional "fuel_balance" 0%N as_u64 v;
  Ok (mkGenesisNode key stake fuel).
Definition read_genesis_account (v : json) : result string GenesisAccount :=
  key ← required "public_key_hex" as_str v; fuel ← required "fuel_balance" as_u64 v; stake ← optional "stake" 0%N as_u64 v;
  Ok (mkGenesisAccount key fuel stake).
Definition read_genesis_token (v : json) : result string GenesisToken :=
  id ← required "token_id_hex" as_str v; name ← optional "name" "genesis-token" as_str v; Ok (mkGenesisToken id name).

Definition load_genesis (v : json) : result string GenesisSpec :=
  env ← required "environment_id" as_str v;
  partition ← required "token_partition_id" as_str v;
  epochs ← match get "stake_snapshot_epochs" v with
           | None => Ok [0%N; 1%N]
           | Some x => l ← ok_or "invalid type" (as_array x); map_results (λ e, ok_or "invalid type" (as_u64 e)) l
           end;
  recency ← optional "shielded_root_recency" 10%N as_u64 v;
  nodes ← optional_list "nodes" read_genesis_node v;
  accounts ← optional_list "accounts" read_genesis_account v;
  tokens ← optional_list "tokens" read_genesis_token v;
  pool ← optional "seed_shielded_pool" true as_bool v;
  token ← optional "seed_partition_token" true as_bool v;
  Ok (mkGenesis env partition epochs (N.to_nat recency) nodes accounts tokens pool token).

(** ** Lemmas *)

Lemma role_roundtrip r : role_of_json (role_json r) = Some r.
Proof. by destruct r. Qed.
Lemma mode_roundtrip m : mode_of_json (mode_json m) = Some m.
Proof. by destruct m. Qed.

Lemma map_results_fmap {A B C} (f : B → result string C) (g : A → B) (h : A → C) l :
  (∀ x, x ∈ l → f (g x) = Ok (h x)) → map_results f (g <$> l) = Ok (h <$> l).
Proof.
  induction l as [|x l IH]; intros Hf; [done|]. cbn. rewrite Hf by left. simpl. rewrite IH; [done|]. intros y Hy. apply Hf. by right.
Qed.

(** What a report of the generator is read as. *)
Definition report_plan (i : nat) (n : NodeReport) : NodePlan :=
  mkPlan (mkTestNode i (nr_name n) (nr_role n) (nr_roles n)) (nr_rns_port n) (nr_address n) [].

Lemma read_node_report rows m n :
  m !! nr_name n = None → nr_roles n ≠ [] → (nr_rns_port n < 65536)%N →
  read_node (rows, m) (report_json n) = Ok (rows ++ [report_plan (length rows) n], <[nr_name n := length rows]> m).
Proof.
  intros Hm Hr Hp. unfold read_node. change (index "role" (report_json n)) with (role_json (nr_role n)). rewrite role_roundtrip. simpl.
  assert (read_roles (report_json n) (nr_role n) = Ok (nr_roles n)) as ->.
  { unfold read_roles. simpl. rewrite (map_results_fmap _ role_json id) by (intros r _; by rewrite role_roundtrip).
    rewrite list_fmap_id. simpl. by destruct (nr_roles n). }
  simpl. rewrite Hm. by rewrite u16_small.
Qed.

Lemma read_nodes_reports reports rows m :
  NoDup (nr_name <$> reports) → (∀ n, n ∈ reports → m !! nr_name n = None ∧ nr_roles n ≠ [] ∧ (nr_rns_port n < 65536)%N) →
  ∃ m', read_nodes (rows, m) (report_json <$> reports) = Ok (rows ++ imap (λ k, report_plan (length rows + k)) reports, m') ∧
    ∀ k n, reports !! k = Some n → m' !! nr_name n = Some (length rows + k).
Proof.
  intros Hnd Hn.
  enough (∃ m', read_nodes (rows, m) (report_json <$> reports) = Ok (rows ++ imap (λ k, report_plan (length rows + k)) reports, m') ∧
    (∀ x, x ∉ nr_name <$> reports → m' !! x = m !! x) ∧
    ∀ k n, reports !! k = Some n → m' !! nr_name n = Some (length rows + k)) as (m' & ? & _ & ?) by (by exists m').
  revert rows m Hn. induction reports as [|n reports IH]; intros rows m Hn; [exists m; by rewrite app_nil_r|].
  cbn [fmap list_fmap] in *. apply NoDup_cons in Hnd as [Hin Hnd].
  destruct (Hn n) as (Hm & Hr & Hp); [left|]. cbn [read_nodes]. rewrite (read_node_report _ _ _ Hm Hr Hp). simpl.
  destruct (IH Hnd (rows ++ [report_plan (length rows) n]) (<[nr_name n := length rows]> m)) as (m' & Hread & Hother & Hnames).
  { intros n' Hn'. rewrite lookup_insert_ne; [apply Hn; by right|]. intros Heq. apply Hin. rewrite Heq. by apply list_elem_of_fmap_2. }
  exists m'. split_and!.
  - rewrite Hread, length_app, <-app_assoc. simpl. rewrite Nat.add_0_r. do 3 f_equal. f_equal. apply imap_ext. intros k x _. cbn. f_equal. lia.
  - intros x Hx. rewrite Hother by set_solver. apply lookup_insert_ne. set_solver.
  - intros [|k] n'; cbn; [intros [= <-]; rewrite Hother by done; rewrite lookup_insert_eq; f_equal; lia|].
    intros Hk. rewrite (Hnames k n' Hk), length_app. simpl. f_equal. lia.
Qed.

Section roundtrip.
Context `{Hex}.

Lemma emit_nodes_ok spec out_dir mesh ids runs i ps l :
  emit_nodes spec out_dir mesh ids runs i ps = Some (Ok l) →
  length l = length ps ∧ ∀ k p, ps !! k = Some p → ∃ x, l !! k = Some x ∧ emit_node spec out_dir mesh ids runs (i + k) p = Some (Ok x).
Proof.
  revert i l. induction ps as [|p ps IH]; intros i l; cbn [emit_nodes]; [by intros [= <-]|].
  destruct (emit_node spec out_dir mesh ids runs i p) as [[x|]|] eqn:Ex; [|done..]. simpl.
  destruct (emit_nodes spec out_dir mesh ids runs (S i) ps) as [[l'|]|] eqn:El; [|done..]. simpl. intros [= <-].
  apply IH in El as [Hl Hk]. split; [by f_equal/=|]. intros [|k] q; cbn.
  - intros [= <-]. exists x. by rewrite Nat.add_0_r.
  - intros Hq. rewrite Nat.add_succ_r. by apply Hk.
Qed.

Lemma emit_node_ok spec out_dir mesh ids runs i p config n :
  emit_node spec out_dir mesh ids runs i p = Some (Ok (config, n)) →
  build_config_json mesh ids p spec (nr_dir n) = Some (Ok config) ∧
  (∃ identity, ids !! i = Some identity ∧ nr_rhash_hex n = gi_rhash_hex identity ∧ nr_ed25519_hex n = gi_ed25519_hex identity) ∧
  nr_name n = tn_name (np_node p) ∧ nr_role n = tn_role (np_node p) ∧ nr_roles n = runs ∧ nr_address n = address p ∧
  nr_rns_port n = base_port p ∧ Forall2 (λ k name, ∃ q, plan mesh !! k = Some q ∧ name = tn_name (np_node q)) (np_peers p) (nr_peers n).
Proof.
  unfold emit_node. destruct (build_config_json _ _ _ _ _) as [[c|]|] eqn:Ec; [|done..]. simpl.
  destruct (ids !! i) as [identity|] eqn:Hi; [|done]. simpl.
  destruct (mapM _ (np_peers p)) as [names|] eqn:Hn; [|done]. simpl. intros [= <- <-]. cbn. split_and!; try done; [by exists identity|].
  apply mapM_Some in Hn. eapply Forall2_impl; [exact Hn|]. intros k name (q & Hq & ->)%fmap_Some. by exists q.
Qed.

Lemma generate_inv spec out_dir template ids w :
  generate spec out_dir template ids = Some (Ok w) →
  ∃ mesh nodes, build (g_counts spec) (g_base_port spec) (resolve_mode spec) (g_placement spec) = Some (Ok mesh) ∧
    let runs := qualifying_roles (g_stake spec) template in
    let recency := default 10%N (v ← get "shielded_root_recency" template; as_u64 v) in
    runs ≠ [] ∧ emit_nodes spec out_dir mesh ids runs 0 (plan mesh) = Some (Ok nodes) ∧ w_configs w = nodes.*1 ∧ w_nodes w = nodes.*2 ∧
    build_genesis_json spec nodes.*2 recency = Ok (w_genesis w) ∧ w_manifest w = manifest_json spec mesh nodes.*2 recency.
Proof.
  unfold generate. destruct (build _ _ _ _) as [[mesh|]|] eqn:Hb; [|done..]. cbn [mbind option_bind].
  destruct (mapM _ (plan mesh)) as [envs|]; [|done]. cbv zeta. destruct (is_nil (qualifying_roles _ _)) eqn:Hruns; [done|].
  destruct (emit_nodes _ _ _ _ _ _ _) as [[nodes|]|] eqn:He; [|done..]. cbn [mbind option_bind result_bind].
  destruct (build_genesis_json _ _ _) as [g|] eqn:Hg; [|done]. intros [= <-]. exists mesh, nodes. cbn [w_configs w_nodes w_genesis w_manifest].
  split; [done|]. split; [by intros Hnil; rewrite Hnil in Hruns|]. done.
Qed.

(** The reports of the nodes, one for each row of the plan. *)
Lemma reports_of_plan spec out_dir mesh ids runs nodes :
  emit_nodes spec out_dir mesh ids runs 0 (plan mesh) = Some (Ok nodes) →
  length nodes.*2 = length (plan mesh) ∧
  ∀ i n, nodes.*2 !! i = Some n → ∃ p config, plan mesh !! i = Some p ∧ nodes.*1 !! i = Some config ∧
    emit_node spec out_dir mesh ids runs i p = Some (Ok (config, n)).
Proof.
  intros [Hl Hk]%emit_nodes_ok. rewrite length_fmap. split; [done|]. intros i n. rewrite list_lookup_fmap. intros ([config n'] & Hi & ->)%fmap_Some.
  destruct (lookup_lt_is_Some_2 (plan mesh) i) as [p Hp]; [rewrite <-Hl; by eapply lookup_lt_Some|]. exists p, config.
  rewrite list_lookup_fmap, Hi. split_and!; [done|done|]. destruct (Hk i p Hp) as (x & Hx & He). rewrite Hi in Hx. by injection Hx as <-.
Qed.

Lemma report_names spec out_dir mesh ids runs nodes base mode_ :
  (base < 65536)%N → (N.of_nat (length (build_nodes (g_counts spec))) < 65534)%N → NoDup (g_counts spec).*1 →
  build (g_counts spec) base mode_ (g_placement spec) = Some (Ok mesh) →
  emit_nodes spec out_dir mesh ids runs 0 (plan mesh) = Some (Ok nodes) → NoDup (nr_name <$> nodes.*2).
Proof.
  intros Hb Hn Hnd Hm He. destruct (plan_row _ _ _ _ _ Hb Hn Hm) as (_ & _ & Hlen & Hrow). apply reports_of_plan in He as [Hl Hr].
  replace (nr_name <$> nodes.*2) with (tn_name <$> build_nodes (g_counts spec)); [by apply names_distinct|].
  apply list_eq_same_length with (length (plan mesh)); [by rewrite length_fmap|by rewrite length_fmap|].
  intros i x y _. rewrite !(list_lookup_fmap _ (build_nodes _)), (list_lookup_fmap nr_name). intros (a & Ha & ->)%fmap_Some (n & Hin & ->)%fmap_Some.
  destruct (Hr i n Hin) as (p & config & Hp & _ & (_ & _ & -> & _)%emit_node_ok). destruct (Hrow i p Hp) as [(Hp' & _) _].
  rewrite Ha in Hp'. by injection Hp' as ->.
Qed.

Definition with_roles (runs : list Role) (p : NodePlan) : NodePlan :=
  mkPlan (mkTestNode (tn_index (np_node p)) (tn_name (np_node p)) (tn_role (np_node p)) runs) (base_port p) (address p) (np_peers p).

Lemma map_results_ok {A B} (f : A → result string B) l ys :
  Forall2 (λ x y, f x = Ok y) l ys → map_results f l = Ok ys.
Proof. induction 1 as [|x y l ys Hx _ IH]; [done|]. simpl. rewrite Hx. simpl. by rewrite IH. Qed.

Lemma read_peers_report (by_name : gmap string nat) n peers :
  Forall2 (λ k name, by_name !! name = Some k) peers (nr_peers n) → read_peers by_name (report_json n) = Ok peers.
Proof.
  intros Hp. unfold read_peers. cbn [index get find_field report_json String.eqb Ascii.eqb Bool.eqb default as_array ok_or mbind result_bind].
  apply map_results_ok, Forall2_fmap_l. apply Forall2_flip. eapply Forall2_impl; [exact Hp|]. intros k name Hk. simpl. by rewrite Hk.
Qed.

(** The probe judges the cluster that was generated: the manifest reads back as
    the mesh it was written from, with every node under the roles its stake
    qualifies for, when no role is counted twice. *)
Lemma manifest_is_read_back spec out_dir template ids w :
  (g_base_port spec < 65536)%N → (N.of_nat (length (build_nodes (g_counts spec))) < 65534)%N → NoDup (g_counts spec).*1 →
  generate spec out_dir template ids = Some (Ok w) →
  ∃ mesh, build (g_counts spec) (g_base_port spec) (resolve_mode spec) (g_placement spec) = Some (Ok mesh) ∧
    from_manifest (w_manifest w) =
      Ok (mkMesh (with_roles (qualifying_roles (g_stake spec) template) <$> plan mesh) (resolve_mode spec) (port_window mesh)
            match g_placement spec with SingleHost => SingleHost | PerHost _ => PerHost (address <$> plan mesh) end).
Proof.
  intros Hb Hn Hnd (mesh & nodes & Hm & Hruns & He & _ & _ & _ & ->)%generate_inv. exists mesh. split; [done|].
  set (runs := qualifying_roles _ _) in *. set (recency := default _ _).
  destruct (plan_row _ _ _ _ _ Hb Hn Hm) as (Hmode & _ & Hlen & Hrow).
  pose proof (report_names _ _ _ _ _ _ _ _ Hb Hn Hnd Hm He) as Hnames. destruct (reports_of_plan _ _ _ _ _ _ He) as [Hl Hr].
  destruct (read_nodes_reports nodes.*2 [] ∅ Hnames) as (m' & Hread & Hby).
  { intros n (i & Hi)%list_elem_of_lookup. destruct (Hr i n Hi) as (p & config & Hp & _ & (_ & _ & _ & _ & Hro & _ & Hpo & _)%emit_node_ok).
    destruct (Hrow i p Hp) as (_ & _ & Hfit & _). rewrite Hro, Hpo. split; [done|]. split; [done|]. lia. }
  assert (map_results (read_peers m') (report_json <$> nodes.*2) = Ok (np_peers <$> plan mesh)) as Hpeers.
  { apply map_results_ok. apply Forall2_fmap_l, Forall2_fmap_r, Forall2_same_length_lookup. split; [done|]. intros i n p Hin Hp.
    apply read_peers_report. destruct (Hr i n Hin) as (p' & config & Hp' & _ & (_ & _ & _ & _ & _ & _ & _ & Hps)%emit_node_ok).
    rewrite Hp in Hp'. injection Hp' as <-. eapply Forall2_impl; [exact Hps|]. intros k name (q & Hq & ->).
    destruct (lookup_lt_is_Some_2 nodes.*2 k) as [n' Hn']; [rewrite Hl; by eapply lookup_lt_Some|].
    destruct (Hr k n' Hn') as (q' & c' & Hq' & _ & (_ & _ & Hname & _)%emit_node_ok). rewrite Hq in Hq'. injection Hq' as <-.
    rewrite <-Hname. apply (Hby k n' Hn'). }
  unfold from_manifest. set (man := manifest_json _ _ _ _).
  change (index "mode" man) with (mode_json (mode mesh)). change (index "base_port" man) with (JNum (g_base_port spec)).
  change (index "placement" man) with (JStr (placement_label (g_placement spec))). change (index "nodes" man) with (JArr (report_json <$> nodes.*2)).
  change (index "ports_per_host" man) with (JNum (port_window mesh)). rewrite mode_roundtrip. cbn [ok_or mbind result_bind as_u64 as_str as_array default].
  assert (is_nil (report_json <$> nodes.*2) = false) as ->.
  { destruct (nodes.*2) eqn:E; [|done]. exfalso. rewrite Hlen in Hl. revert Hm Hl.
    unfold build. by destruct (build_nodes (g_counts spec)). }
  rewrite Hread. cbn [mbind result_bind]. rewrite Hpeers. cbn [mbind result_bind app].
  assert (zip_with with_peers (imap (λ k, report_plan (length (@nil NodePlan) + k)) nodes.*2) (np_peers <$> plan mesh) = with_roles runs <$> plan mesh) as ->.
  { apply list_eq_same_length with (length (plan mesh)); [by rewrite length_fmap|rewrite length_zip_with, length_imap, (length_fmap np_peers); lia|].
    intros i x y _. rewrite lookup_zip_with, list_lookup_imap, !(list_lookup_fmap _ (plan mesh)).
    destruct (nodes.*2 !! i) as [n|] eqn:Hin; [|done]. destruct (plan mesh !! i) as [p|] eqn:Hp; [|done]. simpl. intros [= <-] [= <-].
    destruct (Hr i n Hin) as (p' & config & Hp' & _ & (_ & _ & Hna & Hro & Hrs & Had & Hpo & _)%emit_node_ok).
    rewrite Hp in Hp'. injection Hp' as <-. unfold with_peers, report_plan, with_roles. cbn. rewrite Hna, Hro, Hrs, Had, Hpo. do 2 f_equal.
    destruct (Hrow i p Hp) as [(Hnode & _) _]. symmetry. by eapply indexed_lookup; [apply build_nodes_indexed|]. }
  f_equal. f_equal; [done|..].
  - apply build_inv in Hm as (rows & rows' & addrs & _ & _ & _ & ->). cbn [port_window]. unfold u16. by rewrite !N.Div0.mod_mod.
  - destruct (g_placement spec); cbn; [done|]. by rewrite <-list_fmap_compose.
Qed.

Lemma peers_json_ok mesh ids me peers l :
  peers_json mesh ids me peers = Some (Ok l) →
  ∀ k j, peers !! k = Some j → ∃ entry, l !! k = Some entry ∧ peer_json mesh ids me j = Some (Ok entry).
Proof.
  revert l. induction peers as [|j0 peers IH]; intros l; cbn [peers_json]; [done|].
  destruct (peer_json mesh ids me j0) as [[e|]|] eqn:Ej; [|done..]. simpl. destruct (peers_json mesh ids me peers) as [[l'|]|]; [|done..].
  simpl. intros [= <-] [|k] j; cbn; [intros [= <-]; by exists e|]. by apply IH.
Qed.

(** The configurations of a generated cluster dial each other. For every link of
    the mesh, the entry for the peer in a node's configuration has the peer's
    address and identity, and the port at which the peer's interface for this node
    listens. *)
Theorem configs_dial_each_other spec out_dir template ids w mesh i j p q k :
  (g_base_port spec < 65536)%N → (N.of_nat (length (build_nodes (g_counts spec))) < 65534)%N →
  generate spec out_dir template ids = Some (Ok w) →
  build (g_counts spec) (g_base_port spec) (resolve_mode spec) (g_placement spec) = Some (Ok mesh) →
  plan mesh !! i = Some p → plan mesh !! j = Some q → np_peers p !! k = Some j →
  ∃ config peers entry identity l,
    w_configs w !! i = Some config ∧ index "rns_port" config = JNum (base_port p) ∧ index "bootstrap_peers" config = JArr peers ∧
    peers !! k = Some entry ∧ ids !! j = Some identity ∧ np_peers q !! l = Some i ∧
    entry = JObj [("public_key", JStr (gi_rns_hex identity)); ("ip", JStr (address q)); ("port", JNum (base_port q + N.of_nat l))].
Proof.
  intros Hb Hn (mesh' & nodes & Hm & _ & He & -> & _)%generate_inv Hm' Hp Hq Hk. rewrite Hm' in Hm. injection Hm as <-.
  destruct (emit_nodes_ok _ _ _ _ _ _ _ _ He) as [_ Hx]. destruct (Hx i p Hp) as ([config n] & Hi & Hen).
  apply emit_node_ok in Hen as [Hc _]. unfold build_config_json in Hc.
  destruct (peers_json _ _ _ _) as [[peers|]|] eqn:Hps; [|done..]. cbn [mbind option_bind result_bind] in Hc. injection Hc as <-.
  destruct (peers_json_ok _ _ _ _ _ Hps k j Hk) as (entry & Hentry & Hj). unfold peer_json in Hj. rewrite Hq in Hj. cbn [mbind option_bind] in Hj.
  destruct (ids !! j) as [identity|] eqn:Hid; [|done]. cbn [mbind option_bind] in Hj.
  destruct (links_meet _ _ _ _ _ _ _ _ _ _ Hb Hn Hm' Hp Hq Hk) as (l & Hl & _ & Hport & _).
  destruct (plan_peers _ _ _ _ _ _ _ Hb Hn Hm' Hp) as [Hix _]. rewrite Hix, Hport in Hj. injection Hj as <-.
  eexists _, peers, _, identity, l. rewrite list_lookup_fmap, Hi. split_and!; try done.
Qed.

(** The genesis the generator writes, as the data service reads it. *)
Lemma genesis_is_read spec nodes recency j :
  build_genesis_json spec nodes recency = Ok j →
  load_genesis j = Ok (mkGenesis (g_environment_id spec) (g_token_partition_id spec) [0%N; 1%N] (N.to_nat recency)
    ((λ n, mkGenesisNode (nr_ed25519_hex n) (g_stake spec) (g_fuel_balance spec)) <$> nodes)
    ((λ k, mkGenesisAccount (trimmed k) (g_fuel_balance spec) 0) <$> g_client_accounts spec)
    ((λ id, mkGenesisToken (trimmed id) ("testnet-token-" +:+ trimmed id)) <$> g_tx_tokens spec) true true).
Proof.
  unfold build_genesis_json. destruct (check_hex _ (g_tx_tokens spec)); [|done]. cbn [mbind result_bind].
  destruct (check_hex _ (g_client_accounts spec)); [|done]. cbn [mbind result_bind]. intros [= <-]. unfold load_genesis, optional_list. simpl.
  rewrite (map_results_fmap _ (validator_json spec) (λ n, mkGenesisNode (nr_ed25519_hex n) (g_stake spec) (g_fuel_balance spec))) by done.
  simpl. rewrite (map_results_fmap _ (account_json spec) (λ k, mkGenesisAccount (trimmed k) (g_fuel_balance spec) 0)) by done.
  simpl. by rewrite (map_results_fmap _ token_json (λ id, mkGenesisToken (trimmed id) ("testnet-token-" +:+ trimmed id))) by done.
Qed.
End roundtrip.

Section boot.
Context `{Poseidon} `{HashIter} `{Rmp} `{Hex} `{DataProvider} `{!GenesisStore}.

Lemma granted_uniform stk key s : (∀ kn, kn ∈ stk → kn.2 = s) → key ∈ stk.*1 → granted stk key = s.
Proof.
  intros Hs ([k n] & -> & Hin)%list_elem_of_fmap. unfold granted. cbn [fst].
  destruct (last (filter (λ kn, kn.1 = k) stk)) as [kn|] eqn:El.
  - cbn. apply Hs. apply last_Some_elem_of in El. by apply list_elem_of_filter in El as [_ ?].
  - apply last_None in El. exfalso. assert ((k, n) ∈ filter (λ kn, kn.1 = k) stk) as Hf by (by apply list_elem_of_filter).
    rewrite El in Hf. by apply elem_of_nil in Hf.
Qed.

(** Everyone the generator's genesis stakes has the same stake. *)
Lemma generated_stakers spec nodes recency j g stk n key :
  build_genesis_json spec nodes recency = Ok j → load_genesis j = Ok g → spec_stakers g = Some stk →
  n ∈ nodes → decode_hex (nr_ed25519_hex n) = Some key → granted stk key = g_stake spec.
Proof.
  intros Hj Hg Hs Hn Hk. rewrite (genesis_is_read _ _ _ _ Hj) in Hg. injection Hg as <-. unfold spec_stakers in Hs. cbn [gs_nodes gs_accounts] in Hs.
  destruct (node_stakers _) as [ns|] eqn:Hns; [|done]. cbn [mbind option_bind] in Hs. destruct (account_stakers _) as [accs|] eqn:Hac; [|done].
  cbn [mbind option_bind] in Hs. injection Hs as <-. apply mapM_Some in Hns, Hac.
  assert (filter (λ kn, 0 < kn.2)%N accs = []) as ->.
  { clear -Hac. remember ((λ k, mkGenesisAccount (trimmed k) (g_fuel_balance spec) 0) <$> g_client_accounts spec) as l eqn:El.
    revert El. generalize (g_client_accounts spec). induction Hac as [|a kn l accs Ha _ IH]; intros ks El; [done|].
    destruct ks as [|k ks]; [done|]. injection El as -> El. apply fmap_Some in Ha as (key & _ & ->). rewrite filter_cons, decide_False by done. by apply (IH ks). }
  rewrite app_nil_r. apply granted_uniform.
  - intros kn (i & Hi)%list_elem_of_lookup. eapply Forall2_lookup_r in Hns as (x & Hx & (k & _ & ->)%fmap_Some); [|exact Hi].
    rewrite list_lookup_fmap in Hx. by apply fmap_Some in Hx as (n' & _ & ->).
  - apply list_elem_of_lookup in Hn as [i Hi]. eapply Forall2_lookup_l in Hns as (kn & Hkn & Hf); [|rewrite list_lookup_fmap, Hi; done].
    cbn in Hf. rewrite Hk in Hf. injection Hf as <-. apply (list_elem_of_fmap_2 fst _ (key, g_stake spec)). by eapply list_elem_of_lookup_2.
Qed.

(** C23: From the generator to the gate. A cluster is generated, its genesis file read
    and applied, and a node warms its stake gate from the store, with the floors of
    the template it was generated from: then each generated node passes the gate
    for exactly the roles its manifest entry lists. *)
Theorem generated_nodes_pass_the_gate spec out_dir template ids w g st st' report (x : StakeIndex) c n key r :
  generate spec out_dir template ids = Some (Ok w) → load_genesis (w_genesis w) = Ok g →
  tokens_apart g → Genesis.apply g st = Some (st', Ok report) →
  si_partition x = g_token_partition_id spec → si_epoch x ∈ [0%N; 1%N] →
  get_global_min_stake c = template_global_min template → get_min_type_stake c (registry_type r) = template_type_min template r →
  n ∈ w_nodes w → decode_hex (nr_ed25519_hex n) = Some key →
  make_check c (si_inner (warm st' x)) key (registry_type r) = true ↔ r ∈ nr_roles n.
Proof.
  intros (mesh & nodes & Hm & _ & He & _ & Hw & Hj & _)%generate_inv Hg Hap Hs Hx Hep Hgm Htm Hn Hk. rewrite Hw in Hn.
  destruct (apply_ok g st st' report Hap Hs) as (stk & Hstk & Hsnap & _).
  assert (granted stk key = g_stake spec) as Hgr by (eapply generated_stakers; done).
  rewrite (genesis_is_read _ _ _ _ Hj) in Hg. injection Hg as <-. cbn [stake_snapshot_epochs gs_token_partition_id] in Hsnap.
  rewrite (gate_granted st' _ stk x c key _ Hx (Hsnap _ Hep)), Hgr, Hgm, Htm.
  apply list_elem_of_lookup in Hn as [i Hi]. apply reports_of_plan in He as [_ Hr].
  destruct (Hr i n Hi) as (p & config & _ & _ & (_ & _ & _ & _ & -> & _)%emit_node_ok). unfold qualifying_roles.
  rewrite list_elem_of_filter. split; [intros Hc; split; [done|by destruct r; set_solver]|by intros [? _]].
Qed.
End boot.

(** ** A concrete cluster, and the properties at it *)

Module ConcreteCluster.
Import ConcreteCrypto ConcreteChain ConcreteHex ConcreteStore ConcreteField ConcreteGenesis.

Definition template : json := JObj [("cost_model", JObj [("per_type_min_stake", JObj [("Committer", JNum 5000)])])].
Definition spec : GenSpec :=
  mkGenSpec [(SentinelRole, 1); (ExecutorRole, 1); (FinalizerRole, 1); (CommitterRole, 1)] 21000 FullMesh 8 1000 1000000 "env" "tokens"
    "127.0.0.1:55555" SingleHost None [] ["w"].
Definition identity (s : string) : GeneratedIdentity := mkIdentity ("h" +:+ s) s ("r" +:+ s).
Definition ids : list GeneratedIdentity := [identity "a"; identity "b"; identity "c"; identity "d"].
Abbreviation generated := (generate spec "/tmp/net" template ids).
Definition files : Written := match generated with Some (Ok w) => w | _ => mkWritten [] [] [] JNull JNull end.
Abbreviation built := (build (g_counts spec) (g_base_port spec) (resolve_mode spec) (g_placement spec)).
Definition mesh : Mesh := match built with Some (Ok m) => m | _ => mkMesh [] Auto 0 SingleHost end.

Lemma generated_ok : generated = Some (Ok files).
Proof. by vm_compute. Qed.
Lemma built_ok : built = Some (Ok mesh).
Proof. by vm_compute. Qed.

Lemma dial_witness : ∃ config peers entry, w_configs files !! 0 = Some config ∧ index "bootstrap_peers" config = JArr peers ∧ peers !! 0 = Some entry.
Proof.
  destruct (plan mesh !! 0) as [p|] eqn:Hp; [|by vm_compute in Hp]. destruct (plan mesh !! 1) as [q|] eqn:Hq; [|by vm_compute in Hq].
  destruct (configs_dial_each_other spec "/tmp/net" template ids files mesh 0 1 p q 0) as (config & peers & entry & _ & _ & Hc & _ & Hps & He & _);
    [done|done|exact generated_ok|exact built_ok|done|done|by vm_compute in Hp; injection Hp as <-|]. by exists config, peers, entry.
Defined.

Definition genesis : GenesisSpec := match load_genesis (w_genesis files) with Ok g => g | Err _ => ConcreteGenesis.spec end.
Abbreviation applied := (Genesis.apply genesis (empty_store : store)).
Definition store_after : store := match applied with Some (s, _) => s | None => empty_store end.
Definition report : GenesisReport := match applied with Some (_, Ok r) => r | _ => GenesisReport_default end.
Lemma applied_ok : applied = Some (store_after, Ok report).
Proof. by vm_compute. Qed.

Definition index_of_node : StakeIndex := StakeIndex_new "tokens" 1.
Definition config : Config :=
  mkConfig [1%N] [2%N] false Full all_types "env" "" ∅ {[ Committer := mkTypeConfig 1 10 5000 ]}.

(** Three roles and not the fourth, whose floor is above the stake. *)
Lemma gate_witness :
  make_check config (si_inner (warm store_after index_of_node)) [97%N] Sentinel = true ∧
  make_check config (si_inner (warm store_after index_of_node)) [97%N] Committer = false.
Proof.
  destruct (w_nodes files !! 0) as [n|] eqn:Hn; [|by vm_compute in Hn]. pose proof (list_elem_of_lookup_2 _ _ _ Hn) as Hin.
  assert (decode_hex (nr_ed25519_hex n) = Some [97%N]) as Hk by (by vm_compute in Hn; injection Hn as <-).
  assert (nr_roles n = [SentinelRole; ExecutorRole; FinalizerRole]) as Hr by (by vm_compute in Hn; injection Hn as <-).
  assert (∀ r, get_min_type_stake config (registry_type r) = template_type_min template r) as Hfl by (by intros []).
  assert (tokens_apart genesis) as Hap by (split; [intros ?? _ _|]; intros []).
  split.
  - apply (generated_nodes_pass_the_gate spec "/tmp/net" template ids files genesis (empty_store : store) store_after report index_of_node config
             n [97%N] SentinelRole generated_ok eq_refl Hap applied_ok eq_refl); [by right; left|done|apply Hfl|done|done|rewrite Hr; left].
  - apply not_true_is_false. intros Hc.
    apply (generated_nodes_pass_the_gate spec "/tmp/net" template ids files genesis (empty_store : store) store_after report index_of_node config
             n [97%N] CommitterRole generated_ok eq_refl Hap applied_ok eq_refl) in Hc; [|by right; left|done|apply Hfl|done|done].
    rewrite Hr in Hc. by repeat (apply elem_of_cons in Hc as [Hc|Hc]; [done|]); apply elem_of_nil in Hc.
Defined.
End ConcreteCluster.
