(* ===== verification/Probe.v ===== *)
(** * The mesh probe (testnet-gen/src/probe.rs)

    What the nodes of a cluster report of their directories, judged against the mesh
    the generator built. *)

From S2P Require Import Prelude Utf8 Text Interfaces Validation Topology Emission.
From stdpp Require Import sorting pretty.

(** ** Reports *)

Record NodeSnapshot := mkSnapshot { s_name : string; s_rhash_hex : string; s_buckets : gmap string (list string) }.

Inductive Finding :=
| Missing (observer role missing_node : string)
| UnknownPeer (observer role rhash_hex : string)
| WrongBucket (observer node found_in : string) (should_be : list string)
| SelfPresent (observer : string)
| NotReported (node : string)
| Unreachable (node peer : string) (failures : N)
| IdentityMismatch (node expected found : string).

Definition concerns (f : Finding) (node : string) : bool :=
  match f with
  | Missing observer _ _ | UnknownPeer observer _ _ | WrongBucket observer _ _ _ | SelfPresent observer => String.eqb observer node
  | Unreachable owner _ _ => String.eqb owner node
  | NotReported _ | IdentityMismatch _ _ _ => false
  end.

(** The derived order: the variant, then the fields from left to right. *)
Definition finding_key (f : Finding) : list bytes :=
  match f with
  | Missing a b c => [[0%N]; string_bytes a; string_bytes b; string_bytes c]
  | UnknownPeer a b c => [[1%N]; string_bytes a; string_bytes b; string_bytes c]
  | WrongBucket a b c d => [2%N] :: string_bytes a :: string_bytes b :: string_bytes c :: (string_bytes <$> d)
  | SelfPresent a => [[3%N]; string_bytes a]
  | NotReported a => [[4%N]; string_bytes a]
  | Unreachable a b n => [[5%N]; string_bytes a; string_bytes b; be_bytes 8 n]
  | IdentityMismatch a b c => [[6%N]; string_bytes a; string_bytes b; string_bytes c]
  end.
Fixpoint keys_leb (a b : list bytes) : bool :=
  match a, b with
  | [], _ => true
  | _ :: _, [] => false
  | x :: a, y :: b => if bool_decide (x = y) then keys_leb a b else bytes_leb x y
  end.
Definition finding_le (f g : Finding) : Prop := keys_leb (finding_key f) (finding_key g) = true.
#[export] Instance finding_le_dec : RelDecision finding_le.
Proof. intros f g. unfold finding_le. apply _. Defined.

Record MeshReport := mkMeshReport {
  findings : list Finding;
  verified : list string;
  expected_edges : nat;
  observed_edges : nat;
  rejected : list string;
}.

Definition is_complete (r : MeshReport) : bool := is_nil (findings r) && is_nil (rejected r).
Definition exit_code (r : MeshReport) : N := if is_complete r then 0 else 1.

Definition add_reachability (r : MeshReport) (extra : list Finding) : MeshReport :=
  let fs := merge_sort finding_le (findings r ++ extra) in
  mkMeshReport fs (filter (λ name, existsb (λ f, concerns f name) fs = false) (verified r)) (expected_edges r) (observed_edges r) (rejected r).

(** ** The manifest's index *)

Record ManifestIndex := mkIndex { by_name : gmap string string; by_rhash : gmap string string; keys_by_name : gmap string string }.

Definition index_node (x : ManifestIndex) (node : json) : result string ManifestIndex :=
  name ← ok_or "manifest node missing name" (as_str (index "name" node));
  rhash ← ok_or "manifest node missing rhash_hex" (as_str (index "rhash_hex" node));
  match by_rhash x !! rhash with
  | Some _ => Err "rhash is claimed by two nodes"
  | None =>
      Ok (mkIndex (<[name := rhash]> (by_name x)) (<[rhash := name]> (by_rhash x))
            match as_str (index "ed25519_public_key_hex" node) with
            | Some key => <[name := key]> (keys_by_name x)
            | None => keys_by_name x
            end)
  end.
Fixpoint index_nodes (x : ManifestIndex) (nodes : list json) : result string ManifestIndex :=
  match nodes with [] => Ok x | n :: nodes => x ← index_node x n; index_nodes x nodes end.
Definition index_of_manifest (manifest : json) : result string ManifestIndex :=
  nodes ← ok_or "manifest.nodes missing" (as_array (index "nodes" manifest)); index_nodes (mkIndex ∅ ∅ ∅) nodes.

Definition rhash_for (x : ManifestIndex) (name : string) : option string := by_name x !! name.
Definition name_for (x : ManifestIndex) (rhash : string) : option string := by_rhash x !! rhash.
Definition ed25519_for (x : ManifestIndex) (name : string) : option string :=
  match keys_by_name x !! name with Some k => if String.eqb k "" then None else Some k | None => None end.

(** ** The judgment *)

(** A [BTreeMap]'s entries in order, and [entry(k).or_default().push(x)]. *)
Definition by_key {V} (m : gmap string V) : list (string * V) := sort_on (λ kv, string_bytes kv.1) (map_to_list m).
Definition push_to (m : gmap string (list string)) (kx : string * string) : gmap string (list string) :=
  <[kx.1 := default [] (m !! kx.1) ++ [kx.2]]> m.
Definition pushes (l : list (string * string)) : gmap string (list string) := foldl push_to ∅ l.

Definition expected_in (peers : list NodePlan) : list (string * string) :=
  q ← peers; r ← tn_roles (np_node q); [(plural r, tn_name (np_node q))].
Definition found_in (s : NodeSnapshot) : list (string * string) :=
  kv ← by_key (s_buckets s); h ← kv.2; [(h, kv.1)].

Definition missing (name : string) (x : ManifestIndex) (s : NodeSnapshot) (peers : list NodePlan) : list Finding :=
  rm ← by_key (pushes (expected_in peers));
  member ← rm.2;
  match rhash_for x member with
  | None => []
  | Some h => if bool_decide (h ∈ default [] (s_buckets s !! rm.1)) then [] else [Missing name rm.1 member]
  end.

Definition should_be (peers : list NodePlan) (member : string) : list string :=
  q ← filter (λ q, tn_name (np_node q) = member) peers; plural <$> tn_roles (np_node q).

Definition misplaced (name : string) (x : ManifestIndex) (s : NodeSnapshot) (peers : list NodePlan) : list Finding :=
  hb ← by_key (pushes (found_in s));
  if String.eqb hb.1 (s_rhash_hex s) then []
  else match name_for x hb.1 with
       | None => (λ role, UnknownPeer name role hb.1) <$> hb.2
       | Some member =>
           let right := should_be peers member in
           if is_nil right then (λ role, UnknownPeer name role hb.1) <$> hb.2
           else role ← hb.2; if bool_decide (role ∈ right) then [] else [WrongBucket name member role right]
       end.

Definition mismatch (name : string) (x : ManifestIndex) (s : NodeSnapshot) : list Finding :=
  let expected := default "(no rhash in manifest)" (rhash_for x name) in
  if negb (String.eqb expected "") && negb (String.eqb (s_rhash_hex s) expected) then [IdentityMismatch name expected (s_rhash_hex s)] else [].

Definition self_present (name : string) (s : NodeSnapshot) : list Finding :=
  if bool_decide (is_Some (pushes (found_in s) !! s_rhash_hex s)) then [SelfPresent name] else [].

Definition observed (x : ManifestIndex) (s : NodeSnapshot) (peers : list NodePlan) : nat :=
  length (filter (λ q, match rhash_for x (tn_name (np_node q)) with
                       | Some h => bool_decide (is_Some (pushes (found_in s) !! h))
                       | None => false
                       end = true) peers).

(** One reported node: its plan's name if it has one, its findings, and the links seen. *)
Definition judge (mesh : Mesh) (x : ManifestIndex) (s : NodeSnapshot) : may_panic (option string * list Finding * nat) :=
  match List.find (λ p, String.eqb (tn_name (np_node p)) (s_name s)) (plan mesh) with
  | None => Some (None, [UnknownPeer (s_name s) "(not in topology)" (s_rhash_hex s)], 0)
  | Some p =>
      peers ← mapM (λ i, plan mesh !! i) (np_peers p);
      let name := tn_name (np_node p) in
      Some (Some name, mismatch name x s ++ self_present name s ++ missing name x s peers ++ misplaced name x s peers, observed x s peers)
  end.

Fixpoint judge_all (mesh : Mesh) (x : ManifestIndex) (snapshots : list NodeSnapshot) (acc : list Finding * list string * nat)
    : may_panic (list Finding * list string * nat) :=
  match snapshots with
  | [] => Some acc
  | s :: snapshots =>
      let '(fs, ok, seen) := acc in
      '(name, new, n) ← judge mesh x s;
      let fs := fs ++ new in
      let ok := match name with
                | Some name => if existsb (λ f, concerns f name) fs then ok else ok ++ [name]
                | None => ok
                end in
      judge_all mesh x snapshots (fs, ok, seen + n)
  end.

Definition not_reported (mesh : Mesh) (snapshots : list NodeSnapshot) : list Finding :=
  (λ p, NotReported (tn_name (np_node p))) <$> filter (λ p, tn_name (np_node p) ∉ s_name <$> snapshots) (plan mesh).

Definition evaluate (mesh : Mesh) (snapshots : list NodeSnapshot) (x : ManifestIndex) : may_panic MeshReport :=
  '(fs, ok, seen) ← judge_all mesh x snapshots (not_reported mesh snapshots, [], 0);
  Some (mkMeshReport (merge_sort finding_le fs) ok (sum_list (length ∘ np_peers <$> plan mesh)) seen []).

(** ** Lemmas *)

Lemma bind_nil {A B} (f : A → list B) l : l ≫= f = [] ↔ ∀ x, x ∈ l → f x = [].
Proof.
  induction l as [|y l IH]; cbn; [split; [intros _ x []%not_elem_of_nil|done]|]. rewrite app_nil. fold (mbind f l). rewrite IH. split.
  - intros [Hy Hl] x [->|Hx]%elem_of_cons; [done|by apply Hl].
  - intros Hf. split; [apply Hf; left|]. intros x Hx. apply Hf. by right.
Qed.

Lemma pushes_lookup l k : pushes l !! k = match snd <$> filter (λ kx, kx.1 = k) l with [] => None | xs => Some xs end.
Proof.
  unfold pushes. induction l as [|[k' x] l IH] using rev_ind; [done|]. rewrite foldl_app, filter_app, filter_cons, filter_nil. cbn [foldl fst].
  unfold push_to at 1. cbn [fst snd]. destruct (decide (k' = k)) as [->|Hne].
  - rewrite lookup_insert_eq, IH, fmap_app. by destruct (snd <$> filter _ l).
  - by rewrite lookup_insert_ne, IH, app_nil_r by done.
Qed.

Lemma pushes_elem l k xs x : pushes l !! k = Some xs → x ∈ xs ↔ (k, x) ∈ l.
Proof.
  rewrite pushes_lookup. intros Hxs. assert (xs = snd <$> filter (λ kx, kx.1 = k) l) as -> by (by destruct (snd <$> _); simplify_eq).
  rewrite list_elem_of_fmap. split.
  - intros ([k' x'] & -> & [Hk Hin]%list_elem_of_filter). cbn in Hk. by subst.
  - intros Hin. exists (k, x). split; [done|]. by apply list_elem_of_filter.
Qed.

Lemma pushes_some l k x : (k, x) ∈ l → ∃ xs, pushes l !! k = Some xs ∧ x ∈ xs.
Proof.
  intros Hin. assert (x ∈ snd <$> filter (λ kx, kx.1 = k) l) as Hx.
  { apply list_elem_of_fmap. exists (k, x). split; [done|]. by apply list_elem_of_filter. }
  rewrite pushes_lookup. destruct (snd <$> _) as [|y ys] eqn:E; [by apply elem_of_nil in Hx|]. by eexists.
Qed.

Lemma by_key_elem {V} (m : gmap string V) k v : (k, v) ∈ by_key m ↔ m !! k = Some v.
Proof. unfold by_key, sort_on. by rewrite merge_sort_Permutation, elem_of_map_to_list. Qed.

Lemma expected_elem peers b n :
  (b, n) ∈ expected_in peers ↔ ∃ q r, q ∈ peers ∧ r ∈ tn_roles (np_node q) ∧ b = plural r ∧ n = tn_name (np_node q).
Proof.
  unfold expected_in. rewrite list_elem_of_bind. setoid_rewrite list_elem_of_bind. setoid_rewrite list_elem_of_singleton. naive_solver.
Qed.

Lemma found_elem s h b : (h, b) ∈ found_in s ↔ h ∈ default [] (s_buckets s !! b).
Proof.
  unfold found_in. rewrite list_elem_of_bind. setoid_rewrite list_elem_of_bind. setoid_rewrite list_elem_of_singleton. split.
  - intros ([k hs] & (h' & [= -> ->] & Hh) & Hk%by_key_elem). cbn in *. by rewrite Hk.
  - destruct (s_buckets s !! b) as [hs|] eqn:Hb; cbn; [|by intros ?%elem_of_nil]. intros Hh. exists (b, hs).
    split; [by exists h|by apply by_key_elem].
Qed.

Lemma missing_nil name x s peers :
  missing name x s peers = [] ↔
  ∀ q r h, q ∈ peers → r ∈ tn_roles (np_node q) → rhash_for x (tn_name (np_node q)) = Some h → h ∈ default [] (s_buckets s !! plural r).
Proof.
  unfold missing. rewrite bind_nil. split.
  - intros Hm q r h Hq Hr Hh. destruct (pushes_some (expected_in peers) (plural r) (tn_name (np_node q))) as (xs & Hxs & Hin);
      [apply expected_elem; naive_solver|]. specialize (Hm (plural r, xs)). rewrite bind_nil in Hm.
    specialize (Hm (proj2 (by_key_elem _ _ _) Hxs) _ Hin). cbn in Hm. rewrite Hh in Hm. by case_bool_decide.
  - intros Hall [b xs] Hb%by_key_elem. apply bind_nil. intros n Hn. cbn in *. rewrite (pushes_elem _ _ _ _ Hb) in Hn.
    apply expected_elem in Hn as (q & r & Hq & Hr & -> & ->). destruct (rhash_for x _) as [h|] eqn:Hh; [|done].
    rewrite bool_decide_true; [done|]. by apply (Hall q r h).
Qed.

Lemma should_be_elem peers member b :
  b ∈ should_be peers member ↔ ∃ q r, q ∈ peers ∧ tn_name (np_node q) = member ∧ r ∈ tn_roles (np_node q) ∧ b = plural r.
Proof.
  unfold should_be. rewrite list_elem_of_bind. setoid_rewrite list_elem_of_fmap. setoid_rewrite list_elem_of_filter. naive_solver.
Qed.

Lemma misplaced_nil name x s peers :
  misplaced name x s peers = [] ↔
  ∀ h b, h ∈ default [] (s_buckets s !! b) → h ≠ s_rhash_hex s → ∃ member, name_for x h = Some member ∧ b ∈ should_be peers member.
Proof.
  unfold misplaced. rewrite bind_nil. split.
  - intros Hm h b Hh Hne. destruct (pushes_some (found_in s) h b) as (bs & Hbs & Hin); [by apply found_elem|].
    specialize (Hm (h, bs) (proj2 (by_key_elem _ _ _) Hbs)). cbv zeta in Hm. cbn [fst snd] in Hm. destruct (String.eqb_spec h (s_rhash_hex s)); [done|].
    assert (bs ≠ []) as Hnil by (by intros ->; apply elem_of_nil in Hin).
    destruct (name_for x h) as [member|]; [|by apply fmap_nil_inv in Hm]. exists member. split; [done|].
    destruct (is_nil (should_be peers member)); [by apply fmap_nil_inv in Hm|].
    rewrite bind_nil in Hm. specialize (Hm b Hin). by case_bool_decide.
  - intros Hall [h bs] Hbs%by_key_elem. cbv zeta. cbn [fst snd]. destruct (String.eqb_spec h (s_rhash_hex s)); [done|].
    assert (∀ b, b ∈ bs → ∃ member, name_for x h = Some member ∧ b ∈ should_be peers member) as Hb.
    { intros b Hin. apply Hall; [|done]. apply found_elem. by apply (pushes_elem _ _ _ _ Hbs). }
    assert (∃ b, b ∈ bs) as [b0 Hb0].
    { rewrite pushes_lookup in Hbs. destruct (snd <$> _) as [|b l]; [done|]. injection Hbs as <-. exists b. left. }
    destruct (Hb b0 Hb0) as (member & Hn & Hs). rewrite Hn. assert (is_nil (should_be peers member) = false) as ->
      by (by destruct (should_be peers member); [apply elem_of_nil in Hs|]). apply bind_nil. intros b Hin. destruct (Hb b Hin) as (member' & Hn' & Hs'). rewrite Hn in Hn'. injection Hn' as <-.
    by rewrite bool_decide_true.
Qed.

Lemma self_nil name s : self_present name s = [] ↔ ∀ b, s_rhash_hex s ∉ default [] (s_buckets s !! b).
Proof.
  unfold self_present. split.
  - case_bool_decide as Hs; [done|]. intros _ b Hb. apply Hs. destruct (pushes_some (found_in s) (s_rhash_hex s) b) as (xs & -> & _);
      [by apply found_elem|by eexists].
  - intros Hb. rewrite bool_decide_false; [done|]. intros [xs Hxs]. pose proof (pushes_elem _ _ _ (default "" (head xs)) Hxs) as Hx.
    rewrite pushes_lookup in Hxs. destruct (snd <$> _) as [|b l] eqn:E; [done|]. injection Hxs as <-. cbn in Hx.
    apply (Hb b). apply found_elem, Hx. left.
Qed.

(** ** The cluster and its index *)

(** A mesh and an index of the same cluster. *)
Record cluster_ok (mesh : Mesh) (x : ManifestIndex) : Prop := {
  co_names : NoDup ((λ p, tn_name (np_node p)) <$> plan mesh);
  co_peers i p j : plan mesh !! i = Some p → j ∈ np_peers p → j ≠ i ∧ is_Some (plan mesh !! j);
  co_rhash p : p ∈ plan mesh → ∃ h, rhash_for x (tn_name (np_node p)) = Some h ∧ h ≠ "";
  co_inverse h n : name_for x h = Some n ↔ rhash_for x n = Some h;
}.

(** A directory as the mesh promises it: in each bucket exactly the peers that run
    the bucket's role. *)
Definition directory_right (mesh : Mesh) (x : ManifestIndex) (p : NodePlan) (s : NodeSnapshot) : Prop :=
  rhash_for x (tn_name (np_node p)) = Some (s_rhash_hex s) ∧
  ∀ b h, h ∈ default [] (s_buckets s !! b) ↔
    ∃ j q r, j ∈ np_peers p ∧ plan mesh !! j = Some q ∧ rhash_for x (tn_name (np_node q)) = Some h ∧ r ∈ tn_roles (np_node q) ∧ b = plural r.

Lemma peers_resolved mesh x i p :
  cluster_ok mesh x → plan mesh !! i = Some p →
  ∃ peers, mapM (λ j, plan mesh !! j) (np_peers p) = Some peers ∧ ∀ q, q ∈ peers ↔ ∃ j, j ∈ np_peers p ∧ plan mesh !! j = Some q.
Proof.
  intros Hok Hp. assert (∀ j, j ∈ np_peers p → is_Some (plan mesh !! j)) as Hj by (intros j Hj; by eapply co_peers).
  destruct (mapM_is_Some_2 (λ j, plan mesh !! j) (np_peers p)) as [peers Hps]; [by apply Forall_forall|]. exists peers. split; [done|].
  apply mapM_Some in Hps. intros q. split.
  - intros (k & Hk)%list_elem_of_lookup. eapply Forall2_lookup_r in Hps as (j & Hjk & Hq); [|done]. exists j. split; [by eapply list_elem_of_lookup_2|done].
  - intros (j & (k & Hk)%list_elem_of_lookup & Hq). eapply Forall2_lookup_l in Hps as (q' & Hq' & Hjq); [|done]. rewrite Hq in Hjq.
    injection Hjq as <-. by eapply list_elem_of_lookup_2.
Qed.

Lemma mismatch_nil mesh x p s :
  cluster_ok mesh x → p ∈ plan mesh →
  mismatch (tn_name (np_node p)) x s = [] ↔ rhash_for x (tn_name (np_node p)) = Some (s_rhash_hex s).
Proof.
  intros Hok Hp. destruct (co_rhash _ _ Hok p Hp) as (h & Hh & Hne). unfold mismatch. rewrite Hh. cbn.
  destruct (String.eqb_spec h ""); [done|]. cbn. destruct (String.eqb_spec (s_rhash_hex s) h) as [->|Hn]; cbn; [done|]. split; [done|]. congruence.
Qed.

Lemma find_named (l : list NodePlan) p :
  NoDup ((λ p, tn_name (np_node p)) <$> l) → p ∈ l → List.find (λ q, String.eqb (tn_name (np_node q)) (tn_name (np_node p))) l = Some p.
Proof.
  induction l as [|q l IH]; intros Hnd Hp; [by apply elem_of_nil in Hp|]. cbn in Hnd |- *. apply NoDup_cons in Hnd as [Hq Hnd].
  apply elem_of_cons in Hp as [->|Hp]; [by rewrite String.eqb_refl|]. destruct (String.eqb_spec (tn_name (np_node q)) (tn_name (np_node p))) as [Heq|]; [|by apply IH].
  exfalso. apply Hq. rewrite Heq. by apply (list_elem_of_fmap_2 (λ p, tn_name (np_node p))).
Qed.

Lemma same_plan mesh x i j p q :
  cluster_ok mesh x → plan mesh !! i = Some p → plan mesh !! j = Some q → tn_name (np_node p) = tn_name (np_node q) → i = j.
Proof.
  intros Hok Hp Hq Hn. eapply NoDup_lookup; [apply (co_names _ _ Hok)|rewrite list_lookup_fmap, Hp; done|].
  rewrite list_lookup_fmap, Hq. cbn. by rewrite Hn.
Qed.

Lemma directory_clean mesh x i p s peers :
  cluster_ok mesh x → plan mesh !! i = Some p → (∀ q, q ∈ peers ↔ ∃ j, j ∈ np_peers p ∧ plan mesh !! j = Some q) →
  let name := tn_name (np_node p) in
  mismatch name x s ++ self_present name s ++ missing name x s peers ++ misplaced name x s peers = [] ↔ directory_right mesh x p s.
Proof.
  intros Hok Hp Hpeers. cbv zeta. pose proof (list_elem_of_lookup_2 _ _ _ Hp) as Hin.
  rewrite !app_nil, (mismatch_nil mesh) by done. rewrite self_nil, missing_nil, misplaced_nil. unfold directory_right. split.
  - intros (Hrh & Hself & Hmiss & Hmis). split; [done|]. intros b h. split.
    + intros Hh. destruct (Hmis h b Hh) as (member & Hn & Hsb); [by intros ->; apply (Hself b)|].
      apply should_be_elem in Hsb as (q & r & Hq & <- & Hr & ->). apply Hpeers in Hq as (j & Hj & Hq).
      apply (co_inverse _ _ Hok) in Hn. by exists j, q, r.
    + intros (j & q & r & Hj & Hq & Hh & Hr & ->). apply (Hmiss q r h); [|done..]. apply Hpeers. by exists j.
  - intros [Hrh Hdir]. split_and!; [done|..].
    + intros b (j & q & r & Hj & Hq & Hh & _)%Hdir. apply (co_inverse _ _ Hok) in Hh, Hrh. rewrite Hrh in Hh. injection Hh as Hname.
      assert (i = j) as <- by (by eapply same_plan). by destruct (co_peers _ _ Hok i p i Hp Hj).
    + intros q r h Hq Hr Hh. apply Hpeers in Hq as (j & Hj & Hq). apply Hdir. by exists j, q, r.
    + intros h b (j & q & r & Hj & Hq & Hh & Hr & ->)%Hdir _. exists (tn_name (np_node q)). split; [by apply (co_inverse _ _ Hok)|].
      apply should_be_elem. exists q, r. split_and!; [apply Hpeers; by exists j|done..].
Qed.

Lemma judge_iff mesh x s :
  cluster_ok mesh x → ∃ r, judge mesh x s = Some r ∧
    (r.1.2 = [] ↔ ∃ p, p ∈ plan mesh ∧ tn_name (np_node p) = s_name s ∧ directory_right mesh x p s).
Proof.
  intros Hok. unfold judge. destruct (List.find _ (plan mesh)) as [p|] eqn:Hf.
  - apply find_some in Hf as [Hin%list_elem_of_In Hn%String.eqb_eq]. apply list_elem_of_lookup in Hin as [i Hp].
    destruct (peers_resolved mesh x i p Hok Hp) as (peers & -> & Hpeers). eexists. split; [done|]. cbn [fst snd].
    rewrite (directory_clean mesh x i p s peers Hok Hp Hpeers). split.
    + intros Hd. exists p. split; [by eapply list_elem_of_lookup_2|done].
    + intros (p' & (i' & Hp')%list_elem_of_lookup & Hn' & Hd). rewrite <-Hn' in Hn.
      assert (i = i') as <- by (by eapply same_plan). rewrite Hp in Hp'. by injection Hp' as <-.
  - eexists. split; [done|]. split; [done|]. intros (p & Hin & Hn & _). rewrite <-Hn in Hf. by rewrite (find_named _ _ (co_names _ _ Hok) Hin) in Hf.
Qed.

Lemma judge_all_iff mesh x snaps fs ok n :
  cluster_ok mesh x → ∃ fs' ok' n', judge_all mesh x snaps (fs, ok, n) = Some (fs', ok', n') ∧
    (fs' = [] ↔ fs = [] ∧ ∀ s, s ∈ snaps → ∃ p, p ∈ plan mesh ∧ tn_name (np_node p) = s_name s ∧ directory_right mesh x p s).
Proof.
  intros Hok. revert fs ok n. induction snaps as [|s snaps IH]; intros fs ok n; cbn [judge_all].
  { exists fs, ok, n. split; [done|]. split; [|tauto]. intros ->. split; [done|]. intros s Hs. by apply elem_of_nil in Hs. }
  destruct (judge_iff mesh x s Hok) as ([[name new] k] & -> & Hj). cbn [mbind option_bind fst snd] in *.
  edestruct IH as (fs' & ok' & n' & -> & Hiff). exists fs', ok', n'. split; [done|]. rewrite Hiff, app_nil, Hj. split.
  - intros [[-> Hs] Hall]. split; [done|]. intros s' [->|Hs']%elem_of_cons; [done|by apply Hall].
  - intros [-> Hall]. split; [split; [done|apply Hall; left]|]. intros s' Hs'. apply Hall. by right.
Qed.

(** ** Properties *)

(** The probe calls a cluster complete exactly when it is: every node of the mesh
    reported, and every report is of a node of the mesh, under its identity, with
    exactly the node's peers in its buckets, each under each role it runs. *)
Lemma probe_judges_exactly mesh x snaps :
  cluster_ok mesh x → ∃ report, evaluate mesh snaps x = Some report ∧
    (is_complete report = true ↔
     (∀ p, p ∈ plan mesh → tn_name (np_node p) ∈ s_name <$> snaps) ∧
     ∀ s, s ∈ snaps → ∃ p, p ∈ plan mesh ∧ tn_name (np_node p) = s_name s ∧ directory_right mesh x p s).
Proof.
  intros Hok. unfold evaluate. destruct (judge_all_iff mesh x snaps (not_reported mesh snaps) [] 0 Hok) as (fs & ok & n & -> & Hiff).
  eexists. split; [done|]. unfold is_complete. cbn [findings rejected is_nil]. rewrite andb_true_r.
  assert (is_nil (merge_sort finding_le fs) = true ↔ fs = []) as ->.
  { pose proof (merge_sort_Permutation finding_le fs) as Hp. destruct (merge_sort finding_le fs); cbn.
    - apply Permutation_nil_l in Hp as ->. done.
    - split; [done|]. intros ->. by apply Permutation_nil_r in Hp. }
  rewrite Hiff. unfold not_reported.
  assert (∀ l : list NodePlan, (λ p, NotReported (tn_name (np_node p))) <$> l = [] ↔ l = []) as -> by (by intros []). f_equiv. split.
  - intros Hf p Hp. destruct (decide (tn_name (np_node p) ∈ s_name <$> snaps)) as [|Hn]; [done|]. exfalso.
    assert (p ∈ filter (λ p, tn_name (np_node p) ∉ s_name <$> snaps) (plan mesh)) as He by (by apply list_elem_of_filter).
    rewrite Hf in He. by apply elem_of_nil in He.
  - intros Hall. destruct (filter _ (plan mesh)) as [|p l] eqn:E; [done|]. assert (p ∈ filter (λ p, tn_name (np_node p) ∉ s_name <$> snaps) (plan mesh)) as He by (rewrite E; left).
    apply list_elem_of_filter in He as [Hn Hp]. by destruct Hn; apply Hall.
Qed.

(** *** Generated clusters *)

Definition index_report (x : ManifestIndex) (n : NodeReport) : ManifestIndex :=
  mkIndex (<[nr_name n := nr_rhash_hex n]> (by_name x)) (<[nr_rhash_hex n := nr_name n]> (by_rhash x))
    (<[nr_name n := nr_ed25519_hex n]> (keys_by_name x)).
Definition report_index (l : list NodeReport) : ManifestIndex := foldl index_report (mkIndex ∅ ∅ ∅) l.

Lemma report_index_lookup l :
  NoDup (nr_name <$> l) → NoDup (nr_rhash_hex <$> l) →
  (∀ n h, rhash_for (report_index l) n = Some h ↔ ∃ r, r ∈ l ∧ nr_name r = n ∧ nr_rhash_hex r = h) ∧
  (∀ n h, name_for (report_index l) h = Some n ↔ ∃ r, r ∈ l ∧ nr_name r = n ∧ nr_rhash_hex r = h).
Proof.
  unfold report_index, rhash_for, name_for. induction l as [|r l IH] using rev_ind; [intros _ _; split; intros; cbn; rewrite lookup_empty; set_solver|].
  rewrite !fmap_app. cbn [fmap list_fmap]. intros Hn Hh. pose proof Hn as Hn'. pose proof Hh as Hh'.
  apply NoDup_app in Hn as (Hn & Hrn & _), Hh as (Hh & Hrh & _). destruct (IH Hn Hh) as [H1 H2]. rewrite foldl_app. cbn [foldl index_report by_name by_rhash]. split.
  - intros n h. destruct (decide (n = nr_name r)) as [->|Hne].
    + rewrite lookup_insert_eq. split; [intros [= <-]; set_solver|]. intros (r' & [Hr'| ->%list_elem_of_singleton]%elem_of_app & Heq & <-); [|done].
      exfalso. apply (Hrn (nr_name r')); [by apply list_elem_of_fmap_2|rewrite Heq; left].
    + rewrite lookup_insert_ne, H1 by done. split; [set_solver|]. intros (r' & [Hr'| ->%list_elem_of_singleton]%elem_of_app & Heq & <-); set_solver.
  - intros n h. destruct (decide (h = nr_rhash_hex r)) as [->|Hne].
    + rewrite lookup_insert_eq. split; [intros [= <-]; set_solver|]. intros (r' & [Hr'| ->%list_elem_of_singleton]%elem_of_app & <- & Heq); [|done].
      exfalso. apply (Hrh (nr_rhash_hex r')); [by apply list_elem_of_fmap_2|rewrite Heq; left].
    + rewrite lookup_insert_ne, H2 by done. split; [set_solver|]. intros (r' & [Hr'| ->%list_elem_of_singleton]%elem_of_app & <- & Heq); set_solver.
Qed.

Lemma index_nodes_reports l0 l :
  NoDup (nr_name <$> l0 ++ l) → NoDup (nr_rhash_hex <$> l0 ++ l) →
  index_nodes (report_index l0) (report_json <$> l) = Ok (report_index (l0 ++ l)).
Proof.
  revert l0. induction l as [|n l IH]; intros l0 Hn Hh; [by rewrite app_nil_r|]. cbn [fmap list_fmap index_nodes].
  assert (index_node (report_index l0) (report_json n) = Ok (report_index (l0 ++ [n]))) as ->.
  { unfold index_node. change (index "name" (report_json n)) with (JStr (nr_name n)). change (index "rhash_hex" (report_json n)) with (JStr (nr_rhash_hex n)).
    change (index "ed25519_public_key_hex" (report_json n)) with (JStr (nr_ed25519_hex n)). cbn [as_str ok_or mbind result_bind].
    destruct (by_rhash (report_index l0) !! nr_rhash_hex n) as [m|] eqn:E; [|unfold report_index; by rewrite foldl_app].
    exfalso. rewrite !fmap_app in Hn, Hh. apply NoDup_app in Hn as (Hn & _ & _), Hh as (Hh & Hd & _).
    apply (proj2 (report_index_lookup l0 Hn Hh)) in E as (r & Hr & _ & Heq). apply (Hd (nr_rhash_hex r)); [by apply list_elem_of_fmap_2|rewrite Heq; left]. }
  cbn [mbind result_bind]. rewrite IH; [by rewrite <-app_assoc|by rewrite <-app_assoc..].
Qed.

Section generated.
Context `{Hex}.

Lemma report_rhashes spec out_dir mesh ids runs nodes :
  NoDup (gi_rhash_hex <$> ids) → emit_nodes spec out_dir mesh ids runs 0 (plan mesh) = Some (Ok nodes) → NoDup (nr_rhash_hex <$> nodes.*2).
Proof.
  intros Hnd [_ Hr]%reports_of_plan. apply NoDup_alt. intros i j h. rewrite !(list_lookup_fmap nr_rhash_hex).
  intros (n & Hi & ->)%fmap_Some (n' & Hj & Heq)%fmap_Some.
  destruct (Hr i n Hi) as (p & c & _ & _ & (_ & (d & Hd & Hrh & _) & _)%emit_node_ok).
  destruct (Hr j n' Hj) as (p' & c' & _ & _ & (_ & (d' & Hd' & Hrh' & _) & _)%emit_node_ok).
  eapply NoDup_lookup; [exact Hnd|rewrite list_lookup_fmap, Hd; done|]. rewrite list_lookup_fmap, Hd'. cbn. by rewrite <-Hrh, Heq, Hrh'.
Qed.

Lemma generated_cluster_ok spec out_dir template ids w :
  (g_base_port spec < 65536)%N → (N.of_nat (length (build_nodes (g_counts spec))) < 65534)%N → NoDup (g_counts spec).*1 →
  NoDup (gi_rhash_hex <$> ids) → (∀ d, d ∈ ids → gi_rhash_hex d ≠ "") → generate spec out_dir template ids = Some (Ok w) →
  ∃ mesh x, from_manifest (w_manifest w) = Ok mesh ∧ index_of_manifest (w_manifest w) = Ok x ∧ cluster_ok mesh x.
Proof.
  intros Hb Hn Hnd Hrh Hne Hg. destruct (manifest_is_read_back _ _ _ _ _ Hb Hn Hnd Hg) as (mesh & Hm & Hread).
  apply generate_inv in Hg as (mesh' & nodes & Hm' & _ & He & _ & _ & _ & Hw). rewrite Hm in Hm'. injection Hm' as <-.
  set (runs := qualifying_roles _ _) in *. eexists _, (report_index nodes.*2). split; [exact Hread|].
  pose proof (report_names _ _ _ _ _ _ _ _ Hb Hn Hnd Hm He) as Hnames. pose proof (report_rhashes _ _ _ _ _ _ Hrh He) as Hrhs.
  split. { rewrite Hw. apply (index_nodes_reports []); done. }
  destruct (report_index_lookup nodes.*2 Hnames Hrhs) as [H1 H2]. destruct (reports_of_plan _ _ _ _ _ _ He) as [Hl Hr].
  split; cbn [plan].
  - rewrite <-list_fmap_compose. replace (_ <$> plan mesh) with (nr_name <$> nodes.*2); [done|].
    apply list_eq_same_length with (length (plan mesh)); [by rewrite length_fmap|by rewrite length_fmap|]. intros i a b _.
    rewrite (list_lookup_fmap nr_name), (list_lookup_fmap _ (plan mesh)). intros (n & Hi & ->)%fmap_Some (p & Hp & ->)%fmap_Some.
    destruct (Hr i n Hi) as (p' & c & Hp' & _ & (_ & _ & -> & _)%emit_node_ok). rewrite Hp in Hp'. by injection Hp' as <-.
  - intros i p j. rewrite !list_lookup_fmap. intros (p0 & Hp & ->)%fmap_Some Hj. cbn [np_peers with_roles] in Hj.
    apply (proj2 (plan_peers _ _ _ _ _ _ _ Hb Hn Hm Hp)) in Hj as (Hji & q & Hq & _). split; [done|]. rewrite Hq. by eexists.
  - intros p (p0 & -> & (i & Hp)%list_elem_of_lookup)%list_elem_of_fmap. cbn [np_node with_roles tn_name].
    destruct (lookup_lt_is_Some_2 nodes.*2 i) as [n Hi]; [rewrite Hl; by eapply lookup_lt_Some|].
    destruct (Hr i n Hi) as (p' & c & Hp' & _ & (_ & (d & Hd & Hdr & _) & Hnm & _)%emit_node_ok). rewrite Hp in Hp'. injection Hp' as <-.
    exists (nr_rhash_hex n). split; [apply H1; exists n; split; [by eapply list_elem_of_lookup_2|done]|].
    rewrite Hdr. apply Hne. by eapply list_elem_of_lookup_2.
  - intros h n. by rewrite H1, H2.
Qed.

(** From the generator to the probe. The probe reads the manifest of a generated
    cluster (its nodes with distinct, non-empty transport addresses) and judges what
    the nodes report. It calls the cluster complete exactly when it is: every node of
    the mesh reported, and every report is of a node of the mesh, under its
    identity, with exactly the node's peers in its buckets, each under each role it
    runs. *)
Theorem generated_cluster_is_judged spec out_dir template ids w :
  (g_base_port spec < 65536)%N → (N.of_nat (length (build_nodes (g_counts spec))) < 65534)%N → NoDup (g_counts spec).*1 →
  NoDup (gi_rhash_hex <$> ids) → (∀ d, d ∈ ids → gi_rhash_hex d ≠ "") → generate spec out_dir template ids = Some (Ok w) →
  ∃ mesh x, from_manifest (w_manifest w) = Ok mesh ∧ index_of_manifest (w_manifest w) = Ok x ∧
    ∀ snaps, ∃ report, evaluate mesh snaps x = Some report ∧
      (is_complete report = true ↔
       (∀ p, p ∈ plan mesh → tn_name (np_node p) ∈ s_name <$> snaps) ∧
       ∀ s, s ∈ snaps → ∃ p, p ∈ plan mesh ∧ tn_name (np_node p) = s_name s ∧ directory_right mesh x p s).
Proof.
  intros Hb Hn Hnd Hrh Hne Hg. destruct (generated_cluster_ok _ _ _ _ _ Hb Hn Hnd Hrh Hne Hg) as (mesh & x & Hm & Hx & Hok).
  exists mesh, x. split; [done|]. split; [done|]. intros snaps. by apply probe_judges_exactly.
Qed.
End generated.

(** ** A concrete cluster, and the properties at it *)

Module ConcreteProbe.
Import ConcreteHex ConcreteCluster.

Definition reads : option (Mesh * ManifestIndex) :=
  match from_manifest (w_manifest files), index_of_manifest (w_manifest files) with Ok m, Ok x => Some (m, x) | _, _ => None end.

(** Every node holds the other three under the three roles they run. *)
Definition others (me : string) : list string := filter (λ h, h ≠ me) (gi_rhash_hex <$> ids).
Definition honest (name h : string) : NodeSnapshot :=
  mkSnapshot name h {[ "sentinels" := others h; "executors" := others h; "finalizers" := others h ]}.
Definition reports : list NodeSnapshot :=
  [honest "sentinel-1" "ha"; honest "executor-1" "hb"; honest "finalizer-1" "hc"; honest "committer-1" "hd"].

Lemma judged_witness :
  ∃ mesh x report, from_manifest (w_manifest files) = Ok mesh ∧ evaluate mesh reports x = Some report.
Proof.
  destruct (generated_cluster_is_judged spec "/tmp/net" template ids files) as (mesh & x & Hm & Hx & Hj);
    [done|done|refine (bool_decide_unpack _ _); by vm_compute..| |exact generated_ok|].
  - intros d Hd. assert (Forall (λ d, gi_rhash_hex d ≠ "") ids) as Hall by (refine (bool_decide_unpack _ _); by vm_compute).
    rewrite Forall_forall in Hall. by apply Hall.
  - destruct (Hj reports) as (report & Hr & _). exists mesh, x, report. split; [exact Hm|exact Hr].
Defined.

Lemma honest_reports_complete : match reads with Some (m, x) => is_complete <$> evaluate m reports x | None => None end = Some true.
Proof. by vm_compute. Qed.

(** A node that reports under another identity is a finding, and is still listed
    among the verified. *)
Lemma mismatched_node_is_verified :
  match reads with
  | Some (m, x) =>
      (λ r, (findings r, bool_decide ("sentinel-1" ∈ verified r))) <$>
      evaluate m (mkSnapshot "sentinel-1" "zz" (s_buckets (honest "sentinel-1" "ha")) :: drop 1 reports) x
  | None => None
  end = Some ([IdentityMismatch "sentinel-1" "ha" "zz"], true).
Proof. by vm_compute. Qed.
End ConcreteProbe.
