(* ===== verification/Fragments.v ===== *)
(** * Mesh fragments (src/src/node/registry/fragment.rs, testnet-gen/src/fragments.rs)

    A node's signed report of its own directories, and what the probe makes of a
    directory of such files. The JSON text of a fragment is an interface; a file is
    its path, by components, and what reading it gives. *)

From S2P Require Import Prelude Utf8 Text Interfaces Types Serialize Crypto Validation NodeRegistry Topology Emission Probe.
From stdpp Require Import sorting pretty.

Record FragmentPeer := mkPeer { fp_rhash_hex : string; vouched : bool; last_seen_age_secs : N }.
Record FragmentIdentity := mkFragmentIdentity { fi_rhash_hex : string; fi_ed25519_hex : string }.

Record MeshFragment := mkFragment {
  version : N;
  written_at_unix : N;
  fg_node : FragmentIdentity;
  fg_buckets : gmap string (list FragmentPeer);
  fg_failures : gmap string N;
  fg_signature : string;
}.

Definition FRAGMENT_VERSION : N := 1.

Definition bucket_key (t : NodeRegistryType) : string :=
  match t with
  | Committer => "committers" | Sentinel => "sentinels" | Executor => "executors" | Finalizer => "finalizers" | Archiver => "archivers"
  end.

(** What a JSON file is to the probe, and serde_json on fragments: what is written
    is read back. *)
Inductive file_shape := NotJson (e : string) | OtherJson | BadFragment (e : string) | AFragment (f : MeshFragment).
Class FragmentJson := {
  json_vec : MeshFragment → result string bytes;
  json_pretty : MeshFragment → result string bytes;
  json_shape : bytes → file_shape;
  json_reads f b : json_pretty f = Ok b → json_shape b = AFragment f;
}.

(** The derived order of peers. *)
Definition peer_leb (a b : FragmentPeer) : bool :=
  if bool_decide (fp_rhash_hex a = fp_rhash_hex b) then
    if bool_decide (vouched a = vouched b) then N.leb (last_seen_age_secs a) (last_seen_age_secs b) else negb (vouched a)
  else bytes_leb (string_bytes (fp_rhash_hex a)) (string_bytes (fp_rhash_hex b)).
Definition peer_le (a b : FragmentPeer) : Prop := peer_leb a b = true.
#[export] Instance peer_le_dec : RelDecision peer_le.
Proof. intros a b. unfold peer_le. apply _. Defined.

Section fragment.
Context `{HashIter} `{Hex} `{SignaturePrims} `{FragmentJson}.

(** ** Writing *)

Definition fragment_peer (now : N) (n : NodeRegistryNode) : FragmentPeer :=
  mkPeer (hex_encode (nd_rhash n)) (negb (is_nil (directory_signature n))) (now - last_seen n).
Definition bucket_peers (now : N) (r : NodeRegistry) (t : NodeRegistryType) : list FragmentPeer :=
  merge_sort peer_le (fragment_peer now <$> (hash_iter (get_nodes t r)).*2).

Definition from_registry (h : Host) (now : N) (r : NodeRegistry) : MeshFragment :=
  mkFragment FRAGMENT_VERSION 0
    (mkFragmentIdentity (hex_encode (h_rhash h)) (hex_encode match public_key (h_signer h) with Ok k => k | Err _ => [] end))
    (foldl (λ m t, <[bucket_key t := bucket_peers now r t]> m) ∅ all_types)
    (foldl (λ m kc, <[bucket_key kc.1.2 +:+ "/" +:+ hex_encode kc.1.1 := kc.2]> m) ∅ (hash_iter (delivery_failures r)))
    "".

Definition with_signature (f : MeshFragment) (s : string) : MeshFragment :=
  mkFragment (version f) (written_at_unix f) (fg_node f) (fg_buckets f) (fg_failures f) s.
Definition signing_payload (f : MeshFragment) : result PneumaticError bytes :=
  map_err (λ e, Encoding ("fragment encode: " +:+ e)) (json_vec (with_signature f "")).

Definition sign_now (signer : AsymCryptoProvider) (now_unix : N) (f : MeshFragment) : result PneumaticError MeshFragment :=
  let f := mkFragment (version f) now_unix (fg_node f) (fg_buckets f) (fg_failures f) (fg_signature f) in
  payload ← signing_payload f;
  signature ← sign_data signer payload;
  Ok (with_signature f (hex_encode signature)).

Definition verify (key : bytes) (f : MeshFragment) : bool :=
  match signing_payload f with
  | Err _ => false
  | Ok payload => match hex_decode (fg_signature f) with None => false | Some s => check_unwrap s key payload end
  end.

Definition peer_count (f : MeshFragment) : nat := sum_list (length ∘ snd <$> map_to_list (fg_buckets f)).

(** The file that lands, when the disk takes it. *)
Definition write_atomically (f : MeshFragment) : result PneumaticError bytes :=
  if String.eqb (fg_signature f) "" then Err (Encoding "refusing to write an unsigned fragment")
  else map_err (λ e, Encoding ("fragment encode: " +:+ e)) (json_pretty f).

Definition dump_to (h : Host) (now now_unix : N) (r : NodeRegistry) : result PneumaticError bytes :=
  f ← sign_now (h_signer h) now_unix (from_registry h now r); write_atomically f.

(** ** Reading *)

Inductive FragmentIssue :=
| BadSignature (node : string)
| Stale (node : string) (age_secs : N)
| UnknownReporter (rhash_hex ed25519_public_key_hex : string)
| IssueIdentityMismatch (node claimed expected : string)
| UnsupportedVersion (node : string) (v : N)
| Unreadable (path : list string) (error : string).

Record Fragments := mkFragments {
  fr_nodes : list NodeSnapshot;
  fr_failures : gmap string N;
  fr_issues : list FragmentIssue;
  files_seen : nat;
}.

Definition reject (i : FragmentIssue) (counted : bool) (a : Fragments) : Fragments :=
  mkFragments (fr_nodes a) (fr_failures a) (fr_issues a ++ [i]) (if counted then S (files_seen a) else files_seen a).
Definition accept (node : string) (f : MeshFragment) (a : Fragments) : Fragments :=
  mkFragments (fr_nodes a ++ [mkSnapshot node (fi_rhash_hex (fg_node f)) ((λ ps : list FragmentPeer, fp_rhash_hex <$> ps) <$> fg_buckets f)])
    (foldl (λ m kc, <[node +:+ "/" +:+ kc.1 := kc.2]> m) (fr_failures a) (by_key (fg_failures f)))
    (fr_issues a) (S (files_seen a)).

(** One fragment, in the order of the checks. *)
Definition take_fragment (x : ManifestIndex) (max_age now_unix : N) (path : list string) (f : MeshFragment) (a : Fragments) : Fragments :=
  if negb (N.eqb (version f) 1) then reject (UnsupportedVersion ("rhash:" +:+ fi_rhash_hex (fg_node f)) (version f)) true a
  else match name_for x (fi_rhash_hex (fg_node f)) with
  | None => reject (UnknownReporter (fi_rhash_hex (fg_node f)) (fi_ed25519_hex (fg_node f))) true a
  | Some node =>
      match ed25519_for x node with
      | None => reject (Unreadable path ("manifest.json holds no ed25519_public_key_hex for " +:+ node +:+ ", so its fragment cannot be verified")) true a
      | Some expected =>
          match hex_decode expected with
          | None => reject (Unreadable path ("manifest ed25519 key for " +:+ node +:+ " is not hex")) true a
          | Some key =>
              if negb (verify key f) then reject (BadSignature node) true a
              else if N.ltb max_age (now_unix - written_at_unix f) then reject (Stale node (now_unix - written_at_unix f)) true a
              else if negb (String.eqb (fi_ed25519_hex (fg_node f)) expected)
              then reject (IssueIdentityMismatch node (fi_ed25519_hex (fg_node f)) expected) true a
              else accept node f a
          end
      end
  end.

Definition take_file (x : ManifestIndex) (max_age now_unix : N) (a : Fragments) (file : list string * result string bytes) : Fragments :=
  match file.2 with
  | Err e => reject (Unreadable file.1 e) false a
  | Ok raw =>
      match json_shape raw with
      | NotJson e => reject (Unreadable file.1 e) true a
      | OtherJson => a
      | BadFragment e => reject (Unreadable file.1 e) true a
      | AFragment f => take_fragment x max_age now_unix file.1 f a
      end
  end.

(** A directory tree: a directory that cannot be read has no entries. *)
#[warnings="-register-all"]
Inductive tree :=
| File (name : string) (content : result string bytes)
| Dir (name : string) (entries : list tree).

Definition MAX_FRAGMENT_DEPTH : nat := 3.

(** The extension is [json], after a stem that is not empty. *)
Definition has_json_extension (name : string) : bool :=
  match rev (string_bytes name) with
  | 110%N :: 111%N :: 115%N :: 106%N :: 46%N :: _ :: _ => true
  | _ => false
  end.

Fixpoint collect_fragments (path : list string) (depth : nat) (t : tree) : list (list string * result string bytes) :=
  match t with
  | File name content =>
      if has_json_extension name && negb (String.eqb name "manifest.json") then [(path ++ [name], content)] else []
  | Dir name entries =>
      if Nat.ltb MAX_FRAGMENT_DEPTH depth then []
      else concat ((λ t, collect_fragments (path ++ [name]) (S depth) t) <$> entries)
  end.

(** Paths are compared component by component. *)
Definition path_le (a b : list string * result string bytes) : Prop := keys_leb (string_bytes <$> a.1) (string_bytes <$> b.1) = true.
#[export] Instance path_le_dec : RelDecision path_le.
Proof. intros a b. unfold path_le. apply _. Defined.

Definition load (dir : tree) (x : ManifestIndex) (max_age now_unix : N) : Fragments :=
  foldl (take_file x max_age now_unix) (mkFragments [] ∅ [] 0) (merge_sort path_le (collect_fragments [] 0 dir)).

(** [key.splitn(3, '/')]. *)
Definition split_key (key : string) : option (string * string * string) :=
  match split_once [47%N] (string_bytes key) with
  | Some (node, rest) =>
      match split_once [47%N] rest with
      | Some (bucket, rhash) => Some (bytes_string node, bytes_string bucket, bytes_string rhash)
      | None => None
      end
  | None => None
  end.

Definition unreachable (mesh : Mesh) (x : ManifestIndex) (threshold : N) (kc : string * N) : may_panic (list Finding) :=
  if N.ltb kc.2 threshold then Some []
  else match split_key kc.1 with
  | None => Some []
  | Some (node, _, rhash) =>
      match name_for x rhash with
      | None => Some []
      | Some peer =>
          match List.find (λ p, String.eqb (tn_name (np_node p)) node) (plan mesh) with
          | None => Some []
          | Some p =>
              qs ← mapM (λ i, plan mesh !! i) (np_peers p);
              Some (if bool_decide (peer ∈ (λ q, tn_name (np_node q)) <$> qs) then [Unreachable node peer kc.2] else [])
          end
      end
  end.

Definition reach_key (f : Finding) : list bytes :=
  match f with Unreachable node peer _ => [string_bytes node; string_bytes peer] | _ => [[]; []] end.
Definition reach_le (f g : Finding) : Prop := keys_leb (reach_key f) (reach_key g) = true.
#[export] Instance reach_le_dec : RelDecision reach_le.
Proof. intros f g. unfold reach_le. apply _. Defined.

Definition reachability (mesh : Mesh) (x : ManifestIndex) (threshold : N) (fr : Fragments) : may_panic (list Finding) :=
  fs ← mapM (unreachable mesh x threshold) (by_key (fr_failures fr)); Some (merge_sort reach_le (concat fs)).

(** [run] of mesh-probe, from the manifest and a directory of fragments. *)
Definition display_path (path : list string) : string :=
  match path with [] => "" | c :: cs => foldl (λ p c, p +:+ "/" +:+ c) c cs end.
Definition describe_issue (i : FragmentIssue) : string :=
  match i with
  | BadSignature node =>
      node +:+ "'s fragment did not verify under the key manifest.json holds for it — it may have been edited or signed by another node (ignored)"
  | Stale node age =>
      node +:+ "'s fragment is " +:+ pretty age +:+ "s old, past the freshness bound — its directories may no longer describe reality (ignored)"
  | UnknownReporter h key =>
      "a fragment signed by rhash " +:+ h +:+ " (ed25519 " +:+ key +:+ ") is not a node in this topology — stale deployment or wrong directory (ignored)"
  | IssueIdentityMismatch node claimed expected =>
      node +:+ "'s fragment claims rhash " +:+ claimed +:+ " but manifest.json holds " +:+ expected +:+ " — keystore and manifest disagree (ignored)"
  | UnsupportedVersion node v =>
      node +:+ "'s fragment is format version " +:+ pretty v
      +:+ ", this probe reads version 1 — refusing to judge a partial view of an unknown shape (ignored)"
  | Unreadable path e => display_path path +:+ " is not a readable fragment: " +:+ e +:+ " (ignored)"
  end.

Definition run_probe (manifest : json) (dir : tree) (max_age max_failures now_unix : N) : may_panic (result string MeshReport) :=
  match (mesh ← from_manifest manifest; x ← index_of_manifest manifest; Ok (mesh, x)) with
  | Err e => Some (Err e)
  | Ok (mesh, x) =>
      let fr := load dir x max_age now_unix in
      report ← evaluate mesh (fr_nodes fr) x;
      extra ← reachability mesh x max_failures fr;
      Some (Ok (add_reachability (mkMeshReport (findings report) (verified report) (expected_edges report) (observed_edges report)
                                    (describe_issue <$> fr_issues fr)) extra))
  end.
End fragment.

(** ** Properties *)

Lemma bucket_key_inj t t' : bucket_key t = bucket_key t' → t = t'.
Proof. by destruct t, t'. Qed.
Lemma plural_bucket r : plural r = bucket_key (registry_type r).
Proof. by destruct r. Qed.

Section properties.
Context `{HashIter} `{Hex} `{SignaturePrims} `{FragmentJson}.

(** A node that reports: its name in the manifest, its identity and registry, and
    when the report was made. *)
Record Reporter := mkReporter { rp_name : string; rp_host : Host; rp_registry : NodeRegistry; rp_now : N; rp_unix : N }.

Definition reporter_snapshot (p : Reporter) : NodeSnapshot :=
  mkSnapshot (rp_name p) (hex_encode (h_rhash (rp_host p)))
    ((λ ps : list FragmentPeer, fp_rhash_hex <$> ps) <$> fg_buckets (from_registry (rp_host p) (rp_now p) (rp_registry p))).

(** The manifest knows the reporter, its signatures verify, and its report is fresh. *)
Record reporter_ok (x : ManifestIndex) (max_age now_unix : N) (p : Reporter) : Prop := {
  ro_name : name_for x (hex_encode (h_rhash (rp_host p))) = Some (rp_name p);
  ro_key : ∃ key, public_key (h_signer (rp_host p)) = Ok key ∧ ed25519_for x (rp_name p) = Some (hex_encode key) ∧
    hex_decode (hex_encode key) = Some key ∧
    ∀ data sg, sign_data (h_signer (rp_host p)) data = Ok sg →
      hex_encode sg ≠ "" ∧ hex_decode (hex_encode sg) = Some sg ∧ check_unwrap sg key data = true;
  ro_fresh : (now_unix - rp_unix p ≤ max_age)%N;
}.

Lemma dumped p b key :
  dump_to (rp_host p) (rp_now p) (rp_unix p) (rp_registry p) = Ok b → public_key (h_signer (rp_host p)) = Ok key →
  (∀ data sg, sign_data (h_signer (rp_host p)) data = Ok sg →
     hex_encode sg ≠ "" ∧ hex_decode (hex_encode sg) = Some sg ∧ check_unwrap sg key data = true) →
  ∃ f, json_shape b = AFragment f ∧ version f = 1%N ∧ written_at_unix f = rp_unix p ∧ verify key f = true ∧
    fg_node f = mkFragmentIdentity (hex_encode (h_rhash (rp_host p))) (hex_encode key) ∧
    fg_buckets f = fg_buckets (from_registry (rp_host p) (rp_now p) (rp_registry p)).
Proof.
  intros Hd Hk Hs. apply bind_Ok in Hd as (f & Hf & Hw). unfold write_atomically in Hw. case_match; [done|].
  destruct (json_pretty f) as [b'|] eqn:Hj; [|done]. injection Hw as ->. exists f. split; [by apply json_reads|].
  unfold sign_now in Hf. apply bind_Ok in Hf as (payload & Hp & Hf). apply bind_Ok in Hf as (sg & Hsg & [= <-]).
  destruct (Hs _ _ Hsg) as (_ & Hhex & Hc). cbn. split_and!; [done|done| |by rewrite Hk|done].
  unfold verify. change (signing_payload (with_signature _ _)) with
    (signing_payload (mkFragment FRAGMENT_VERSION (rp_unix p) (fg_node (from_registry (rp_host p) (rp_now p) (rp_registry p)))
       (fg_buckets (from_registry (rp_host p) (rp_now p) (rp_registry p))) (fg_failures (from_registry (rp_host p) (rp_now p) (rp_registry p))) "")).
  cbn in Hp |- *. rewrite Hp, Hhex. exact Hc.
Qed.

Lemma take_reporter x max_age now_unix p a path b :
  reporter_ok x max_age now_unix p → dump_to (rp_host p) (rp_now p) (rp_unix p) (rp_registry p) = Ok b →
  ∃ fl n, take_file x max_age now_unix a (path, Ok b) = mkFragments (fr_nodes a ++ [reporter_snapshot p]) fl (fr_issues a) n.
Proof.
  intros [Hn (key & Hk & He & Hhex & Hs) Hfresh] Hd. destruct (dumped p b key Hd Hk Hs) as (f & Hsh & Hv & Ht & Hver & Hnode & Hbk).
  unfold take_file. cbn [fst snd]. rewrite Hsh. unfold take_fragment. rewrite Hv, Hnode. cbn [fi_rhash_hex fi_ed25519_hex].
  rewrite Hn, He, Hhex, Hver, Ht. cbn [negb N.eqb Pos.eqb]. destruct (N.ltb_spec max_age (now_unix - rp_unix p)); [lia|].
  rewrite String.eqb_refl. cbn [negb]. unfold accept, reporter_snapshot. rewrite Hnode, Hbk. by eexists _, _.
Qed.

(** The files the probe finds are reports of these nodes, one or more of each, and
    JSON that is not a report. *)
Definition reported_in (x : ManifestIndex) (max_age now_unix : N) (ps : list Reporter) (files : list (list string * result string bytes)) : Prop :=
  (∀ p, p ∈ ps → reporter_ok x max_age now_unix p) ∧
  (∀ p, p ∈ ps → ∃ path b, (path, Ok b) ∈ files ∧ dump_to (rp_host p) (rp_now p) (rp_unix p) (rp_registry p) = Ok b) ∧
  ∀ file, file ∈ files → ∃ b, file.2 = Ok b ∧
    (json_shape b = OtherJson ∨ ∃ p, p ∈ ps ∧ dump_to (rp_host p) (rp_now p) (rp_unix p) (rp_registry p) = Ok b).

Lemma take_files x max_age now_unix (ps : list Reporter) (files : list (list string * result string bytes)) (a : Fragments) :
  (∀ p, p ∈ ps → reporter_ok x max_age now_unix p) →
  (∀ file, file ∈ files → ∃ b, file.2 = Ok b ∧
    (json_shape b = OtherJson ∨ ∃ p, p ∈ ps ∧ dump_to (rp_host p) (rp_now p) (rp_unix p) (rp_registry p) = Ok b)) →
  let a' := foldl (take_file x max_age now_unix) a files in
  fr_issues a' = fr_issues a ∧
  (∀ s, s ∈ fr_nodes a' → s ∈ fr_nodes a ∨ ∃ p, p ∈ ps ∧ s = reporter_snapshot p) ∧
  (∀ s, s ∈ fr_nodes a → s ∈ fr_nodes a') ∧
  ∀ p path b, p ∈ ps → (path, Ok b) ∈ files → dump_to (rp_host p) (rp_now p) (rp_unix p) (rp_registry p) = Ok b → reporter_snapshot p ∈ fr_nodes a'.
Proof.
  intros Hok. revert a. induction files as [|[path c] files IH]; intros a Hf; cbn [foldl].
  { split_and!; [done|by left|done|]. intros p path b _ Hin. by apply elem_of_nil in Hin. }
  destruct (Hf (path, c)) as (b & Hc & Hb); [left|]. cbn in Hc. subst c.
  destruct (IH (take_file x max_age now_unix a (path, Ok b))) as (Hi & Hs & Hk & Hr); [intros file Hin; apply Hf; by right|].
  destruct Hb as [Hother|(p & Hp & Hd)].
  - unfold take_file in *. cbn [fst snd] in *. rewrite Hother in *. split_and!; [done..|]. intros p path' b' Hp [[= -> ->]|Hin]%elem_of_cons Hd; [|by eapply Hr].
    exfalso. destruct (ro_key _ _ _ _ (Hok p Hp)) as (key & Hkey & _ & _ & Hsig). destruct (dumped p b key Hd Hkey Hsig) as (f & Hsh & _). congruence.
  - destruct (take_reporter x max_age now_unix p a path b (Hok p Hp) Hd) as (fl & n & Ht). rewrite Ht in *. cbn [fr_nodes fr_issues] in *.
    split_and!; [done| | |].
    + intros s Hin. destruct (Hs s Hin) as [[?| ->%list_elem_of_singleton]%elem_of_app|?]; [by left|right; by exists p|by right].
    + intros s Hin. apply Hk, elem_of_app. by left.
    + intros p' path' b' Hp' [[= -> ->]|Hin]%elem_of_cons Hd'; [|by eapply Hr].
      destruct (take_reporter x max_age now_unix p' a path b (Hok p' Hp') Hd') as (fl' & n' & Ht'). rewrite Ht in Ht'.
      injection Ht' as Happ _ _. apply app_inj_tail in Happ as [_ Heq]. apply Hk, elem_of_app. right. rewrite Heq. left.
Qed.
(** A registry as the mesh promises it: in each bucket exactly the peers that run
    the bucket's role. *)
Definition registry_right (mesh : Mesh) (x : ManifestIndex) (q : NodePlan) (r : NodeRegistry) : Prop :=
  ∀ t h, (∃ k n, get_nodes t r !! k = Some n ∧ h = hex_encode (nd_rhash n)) ↔
    ∃ j q' role, j ∈ np_peers q ∧ plan mesh !! j = Some q' ∧ rhash_for x (tn_name (np_node q')) = Some h ∧
      role ∈ tn_roles (np_node q') ∧ t = registry_type role.

Lemma bucket_peers_elem now r t h :
  h ∈ fp_rhash_hex <$> bucket_peers now r t ↔ ∃ k n, get_nodes t r !! k = Some n ∧ h = hex_encode (nd_rhash n).
Proof.
  unfold bucket_peers. rewrite (merge_sort_Permutation peer_le), hash_iter_perm. rewrite list_elem_of_fmap. split.
  - intros (fp & -> & (n & -> & ((k, n') & -> & Hk%elem_of_map_to_list)%list_elem_of_fmap)%list_elem_of_fmap). by exists k, n'.
  - intros (k & n & Hk & ->). exists (fragment_peer now n). split; [done|]. apply list_elem_of_fmap_2, list_elem_of_fmap. exists (k, n).
    split; [done|by apply elem_of_map_to_list].
Qed.

Lemma snapshot_bucket p t :
  s_buckets (reporter_snapshot p) !! bucket_key t = Some (fp_rhash_hex <$> bucket_peers (rp_now p) (rp_registry p) t).
Proof.
  unfold reporter_snapshot, from_registry, all_types. cbn [s_buckets fg_buckets foldl]. rewrite lookup_fmap.
  destruct t; cbn [bucket_key]; by repeat (rewrite lookup_insert_eq || rewrite lookup_insert_ne by done).
Qed.

Lemma snapshot_bucket_inv p b l : s_buckets (reporter_snapshot p) !! b = Some l → ∃ t, b = bucket_key t.
Proof.
  unfold reporter_snapshot, from_registry, all_types. cbn [s_buckets fg_buckets foldl bucket_key].
  rewrite lookup_fmap. intros (ps & Hps & _)%fmap_Some.
  repeat (apply lookup_insert_Some in Hps as [[<- _]|[_ Hps]]; [first [by exists Committer|by exists Sentinel|by exists Executor|by exists Finalizer|by exists Archiver]|]).
  by rewrite lookup_empty in Hps.
Qed.

Lemma reporter_directory mesh x max_age now_unix q p :
  cluster_ok mesh x → reporter_ok x max_age now_unix p → tn_name (np_node q) = rp_name p →
  directory_right mesh x q (reporter_snapshot p) ↔ registry_right mesh x q (rp_registry p).
Proof.
  intros Hok [Hn _ _] Hq. apply (co_inverse _ _ Hok) in Hn. unfold directory_right, registry_right. rewrite Hq. split.
  - intros [_ Hd] t h. rewrite <-(bucket_peers_elem (rp_now p)). specialize (Hd (bucket_key t) h). rewrite snapshot_bucket in Hd. cbn in Hd.
    rewrite Hd. repeat f_equiv. rewrite plural_bucket. split; [apply bucket_key_inj|by intros ->].
  - intros Hr. split; [done|]. intros b h. destruct (s_buckets (reporter_snapshot p) !! b) as [l|] eqn:Hl.
    + destruct (snapshot_bucket_inv p b l Hl) as [t ->]. rewrite snapshot_bucket in Hl. injection Hl as <-. cbn [default from_option id].
      rewrite bucket_peers_elem, Hr. repeat f_equiv. rewrite plural_bucket. split; [by intros ->|apply bucket_key_inj].
    + cbn. split; [by intros ?%elem_of_nil|]. intros (j & q' & role & _ & _ & _ & _ & ->). rewrite plural_bucket, snapshot_bucket in Hl. done.
Qed.
Lemma reachability_total mesh x threshold fr : cluster_ok mesh x → is_Some (reachability mesh x threshold fr).
Proof.
  intros Hok. unfold reachability. assert (Forall (is_Some ∘ unreachable mesh x threshold) (by_key (fr_failures fr))) as Hall.
  - apply Forall_forall. intros kc _. cbn. unfold unreachable. destruct (N.ltb kc.2 threshold); [by eexists|].
    destruct (split_key kc.1) as [[[node bucket] h]|]; [|by eexists]. destruct (name_for x h); [|by eexists].
    destruct (List.find _ _) as [p|] eqn:Hf; [|by eexists]. apply find_some in Hf as [Hin%list_elem_of_In _].
    apply list_elem_of_lookup in Hin as [i Hp]. destruct (peers_resolved _ _ _ _ Hok Hp) as (peers & -> & _). by eexists.
  - destruct (mapM_is_Some_2 _ _ Hall) as [fs ->]. by eexists.
Qed.

Lemma sorted_nil {A} (R : relation A) `{!RelDecision R} (l : list A) : merge_sort R l = [] ↔ l = [].
Proof.
  split; [|by intros ->]. intros Hs. pose proof (merge_sort_Permutation R l) as Hp. rewrite Hs in Hp. by apply Permutation_nil_l in Hp.
Qed.

Lemma evaluate_rejects mesh snaps x report : evaluate mesh snaps x = Some report → rejected report = [].
Proof. unfold evaluate. intros ([[fs ok] n] & _ & [= <-])%bind_Some. done. Qed.

Lemma load_reported x max_age now_unix ps dir :
  reported_in x max_age now_unix ps (collect_fragments [] 0 dir) →
  fr_issues (load dir x max_age now_unix) = [] ∧
  ∀ s, s ∈ fr_nodes (load dir x max_age now_unix) ↔ ∃ p, p ∈ ps ∧ s = reporter_snapshot p.
Proof.
  intros (Hok & Hall & Hfiles). pose proof (merge_sort_Permutation path_le (collect_fragments [] 0 dir)) as Hperm.
  destruct (take_files x max_age now_unix ps (merge_sort path_le (collect_fragments [] 0 dir)) (mkFragments [] ∅ [] 0) Hok) as (Hi & Hs & _ & Hr).
  { intros file Hin. apply Hfiles. by rewrite <-Hperm. }
  split; [done|]. intros s. split.
  - intros Hin. destruct (Hs s Hin) as [[]%elem_of_nil|?]; done.
  - intros (p & Hp & ->). destruct (Hall p Hp) as (path & b & Hin & Hd). apply (Hr p path b); [done|by rewrite Hperm|done].
Qed.

(** C22: the probe reads the truth off the nodes' own files. Let the directory hold,
    beside any JSON that is not a fragment, fresh fragments that nodes of the
    manifest dumped from their registries. Then the probe reports without rejecting
    any, and the report is complete exactly when every node of the mesh reported,
    every reporter's registry holds, bucket by bucket, exactly the peers the mesh
    plans for it under each role they run, and no planned peer's delivery failures
    reach the threshold. *)
Theorem registries_are_judged manifest mesh x dir max_age max_failures now_unix ps :
  from_manifest manifest = Ok mesh → index_of_manifest manifest = Ok x → cluster_ok mesh x →
  reported_in x max_age now_unix ps (collect_fragments [] 0 dir) →
  ∃ report, run_probe manifest dir max_age max_failures now_unix = Some (Ok report) ∧ rejected report = [] ∧
    (is_complete report = true ↔
     (∀ q, q ∈ plan mesh → ∃ p, p ∈ ps ∧ rp_name p = tn_name (np_node q)) ∧
     (∀ p, p ∈ ps → ∃ q, q ∈ plan mesh ∧ tn_name (np_node q) = rp_name p ∧ registry_right mesh x q (rp_registry p)) ∧
     reachability mesh x max_failures (load dir x max_age now_unix) = Some []).
Proof.
  intros Hm Hx Hok Hrep. unfold run_probe. rewrite Hm, Hx. cbn [mbind result_bind]. destruct (load_reported _ _ _ _ _ Hrep) as [Hi Hn].
  destruct (probe_judges_exactly mesh x (fr_nodes (load dir x max_age now_unix)) Hok) as (r & Hev & Hiff). rewrite Hev.
  destruct (reachability_total mesh x max_failures (load dir x max_age now_unix) Hok) as [extra Hext]. rewrite Hext, Hi. cbn [mbind option_bind].
  eexists. split; [done|]. split; [done|]. unfold is_complete, add_reachability in *. cbn [findings rejected fmap list_fmap is_nil].
  apply evaluate_rejects in Hev. rewrite Hev in Hiff. rewrite !andb_true_r in *.
  assert (∀ l : list Finding, is_nil l = true ↔ l = []) as Hnil by (by intros []). rewrite Hnil, sorted_nil, app_nil. rewrite Hnil in Hiff.
  rewrite Hiff, Logic.and_assoc. destruct Hrep as (Hreps & _). f_equiv; [|f_equiv].
  - split; intros Hall q Hq.
    + destruct (proj1 (list_elem_of_fmap _ _ _) (Hall q Hq)) as (s & Hs & (p & Hp & ->)%Hn). by exists p.
    + destruct (Hall q Hq) as (p & Hp & <-). apply list_elem_of_fmap. exists (reporter_snapshot p). split; [done|]. apply Hn. by exists p.
  - split.
    + intros Hall p Hp. destruct (Hall (reporter_snapshot p)) as (q & Hq & Hname & Hd); [apply Hn; by exists p|]. exists q. split_and!; [done..|].
      by apply (reporter_directory mesh x max_age now_unix q p Hok (Hreps p Hp) Hname).
    + intros Hall s (p & Hp & ->)%Hn. destruct (Hall p Hp) as (q & Hq & Hname & Hr). exists q. split_and!; [done..|].
      by apply (reporter_directory mesh x max_age now_unix q p Hok (Hreps p Hp) Hname).
  - split; [by intros ->|by intros [= ->]].
Qed.
End properties.

(** ** A concrete cluster of two, and the property at it *)

Module ConcreteFragments.
Import ConcreteCrypto ConcreteHex.

Definition peer_tuple (p : FragmentPeer) := (fp_rhash_hex p, vouched p, last_seen_age_secs p).
Definition fragment_tuple (f : MeshFragment) :=
  (version f, written_at_unix f, fi_rhash_hex (fg_node f), fi_ed25519_hex (fg_node f), map_to_list ((λ ps : list FragmentPeer, peer_tuple <$> ps) <$> fg_buckets f : gmap string _),
   map_to_list (fg_failures f), fg_signature f).
Definition tuple_fragment (t : N * N * string * string * list (string * list (string * bool * N)) * list (string * N) * string) : MeshFragment :=
  let '(v, w, h, e, bs, fs, s) := t in
  mkFragment v w (mkFragmentIdentity h e) ((λ ps : list (string * bool * N), (λ '(r, c, a), mkPeer r c a) <$> ps) <$> (list_to_map bs : gmap string _)) (list_to_map fs) s.
Lemma tuple_round f : tuple_fragment (fragment_tuple f) = f.
Proof.
  destruct f as [v w [h e] bs fs s]. unfold tuple_fragment, fragment_tuple. cbn. rewrite !list_to_map_to_list. f_equal.
  rewrite <-map_fmap_compose. rewrite <-(map_fmap_id bs) at 2. apply map_fmap_ext. intros k ps _. cbn. rewrite <-list_fmap_compose.
  rewrite <-(list_fmap_id ps) at 2. apply list_fmap_ext. by intros i [] _.
Qed.

(** A fragment's text is its number in an enumeration of fragments. *)
#[export, refine] Instance number_json : FragmentJson := {|
  json_vec f := Ok [Npos (encode (fragment_tuple f))];
  json_pretty f := Ok [Npos (encode (fragment_tuple f))];
  json_shape b := match b with [Npos n] => match decode n with Some t => AFragment (tuple_fragment t) | None => NotJson "" end | _ => OtherJson end;
|}.
Proof. intros f b [= <-]. rewrite decode_encode. by rewrite tuple_round. Defined.

#[local] Existing Instance forward_iter.
Definition spec : GenSpec :=
  mkGenSpec [(SentinelRole, 1); (ExecutorRole, 1)] 21000 FullMesh 8 1000 1000000 "env" "tokens" "127.0.0.1:55555" SingleHost None [] ["w"].
Definition ids : list GeneratedIdentity :=
  [mkIdentity "ha" (hex_encode (ed_public [7%N])) "ra"; mkIdentity "hb" (hex_encode (ed_public [9%N])) "rb"].
Abbreviation generated := (generate spec "/tmp/net" (JObj []) ids).
Definition files : Written := match generated with Some (Ok w) => w | _ => mkWritten [] [] [] JNull JNull end.
Lemma pair_generated : generated = Some (Ok files).
Proof. by vm_compute. Qed.

(** The first node reports a directory that is still empty; the other is silent. *)
Definition reporter : Reporter :=
  mkReporter "sentinel-1" (mkHost [] [104%N; 97%N] ∅ false (provider_of 0 node_keys) (λ _ _, true) None) (NodeRegistry_init [Sentinel]) 0 1000.
Definition text : bytes :=
  match dump_to (rp_host reporter) (rp_now reporter) (rp_unix reporter) (rp_registry reporter) with Ok b => b | Err _ => [] end.
Definition dir : tree := Dir "net" [File "manifest.json" (Ok []); Dir "sentinel-1" [File "config.json" (Ok [0%N]); File "mesh.json" (Ok text)]].

Lemma signed_bytes sg data : sign_data (provider_of 0 node_keys) data = Ok sg → Forall (λ x, x < 256)%N sg ∧ hex_encode sg ≠ "".
Proof.
  intros Hs. split; [exact (node_signature_wf 0 data sg Hs)|]. cbn [sign_data provider_of] in Hs. unfold Ed25519_sign_data in Hs. apply (inj Ok) in Hs as <-.
  pose proof (ed_sign_length (signing_seed node_keys) data) as Hl. by destruct (ed_sign (signing_seed node_keys) data) as [|x a].
Qed.

Lemma pair_cluster : ∃ mesh x, from_manifest (w_manifest files) = Ok mesh ∧ index_of_manifest (w_manifest files) = Ok x ∧ cluster_ok mesh x.
Proof.
  apply (generated_cluster_ok spec "/tmp/net" (JObj []) ids files); [done|done|refine (bool_decide_unpack _ _); by vm_compute..| |exact pair_generated].
  intros d Hd. repeat (apply elem_of_cons in Hd as [->|Hd]; [done|]). by apply elem_of_nil in Hd.
Qed.

Lemma pair_index x : index_of_manifest (w_manifest files) = Ok x →
  name_for x "ha" = Some "sentinel-1" ∧ ed25519_for x "sentinel-1" = Some (hex_encode (ed_public [7%N])).
Proof. vm_compute. intros [= <-]. split; reflexivity. Qed.
Lemma pair_plan mesh : from_manifest (w_manifest files) = Ok mesh → (λ q, tn_name (np_node q)) <$> plan mesh = ["sentinel-1"; "executor-1"].
Proof. vm_compute. by intros [= <-]. Qed.

Lemma text_dumped : dump_to (rp_host reporter) (rp_now reporter) (rp_unix reporter) (rp_registry reporter) = Ok text.
Proof.
  unfold text. destruct (dump_to _ _ _ _) as [|e] eqn:E; [done|]. exfalso. unfold dump_to, sign_now in E.
  destruct (signing_payload _) as [pl|] eqn:Hp in E; [|done]. cbn [mbind result_bind] in E.
  destruct (sign_data _ pl) as [sg|] eqn:Hs in E; [|done]. apply signed_bytes in Hs as [_ Hne]. cbn [mbind result_bind] in E. unfold write_atomically in E. cbn [with_signature fg_signature] in E.
  apply String.eqb_neq in Hne. by rewrite Hne in E.
Qed.

Lemma reporter_known x : index_of_manifest (w_manifest files) = Ok x → reporter_ok x 60 1010 reporter.
Proof.
  intros [Hn He]%pair_index. split; [exact Hn| |done]. exists (ed_public [7%N]). split_and!; [done|exact He|apply hex_round, be_bytes_wf|].
  intros data sg Hs. destruct (signed_bytes _ _ Hs) as [Hb Hne]. split_and!; [done|by apply hex_round|].
  unfold check_unwrap. by rewrite (sign_then_check node_keys 0 data sg (ed_public [7%N])).
Qed.

Lemma dir_reported x : index_of_manifest (w_manifest files) = Ok x → reported_in x 60 1010 [reporter] (collect_fragments [] 0 dir).
Proof.
  intros Hx. split_and!.
  - intros p ->%list_elem_of_singleton. by apply reporter_known.
  - intros p ->%list_elem_of_singleton. exists ["net"; "sentinel-1"; "mesh.json"], text. split; [right; left|exact text_dumped].
  - intros file [->|[->|[]%elem_of_nil]%elem_of_cons]%elem_of_cons.
    + exists [0%N]. split; [done|]. by left.
    + exists text. split; [done|]. right. exists reporter. split; [left|exact text_dumped].
Qed.

(** The files are read, and the silent node keeps the report from being complete. *)
Lemma registries_witness : ∃ report, run_probe (w_manifest files) dir 60 3 1010 = Some (Ok report) ∧ rejected report = [] ∧ is_complete report = false.
Proof.
  destruct pair_cluster as (mesh & x & Hm & Hx & Hok).
  destruct (registries_are_judged _ mesh x dir 60 3 1010 [reporter] Hm Hx Hok (dir_reported x Hx)) as (report & Hrun & Hrej & Hiff).
  exists report. split; [exact Hrun|]. split; [exact Hrej|]. apply not_true_is_false. intros [Hall _]%Hiff.
  assert ("executor-1" ∈ (λ q, tn_name (np_node q)) <$> plan mesh) as Hin by (rewrite (pair_plan mesh Hm); right; left).
  apply list_elem_of_fmap in Hin as (q & Hn & Hq). destruct (Hall q Hq) as (p & Hp & Hname).
  apply list_elem_of_singleton in Hp. subst p. rewrite <-Hn in Hname. discriminate Hname.
Defined.
End ConcreteFragments.
