(* ===== verification/Gossiper.v ===== *)
(** * The gossiper (src/src/gossiper.rs)

    The front door of a standalone role: decode, verify the envelope, drop what
    was seen, hand the frame to the handlers. The cache of what was seen is
    bounded in size and time, so an entry may leave it at any moment. *)

From S2P Require Import Prelude Steps Utf8 Interfaces Types Float StakeSets Selection Environment Config Serialize Crypto Transactions Chain.
From S2P Require Import Validation DataProvider Deserialize Wire Tokens Contracts Engines WasmHost Scan NodeRegistry NodeSafety Messages Packets.
From S2P Require Import Pool Registry Epoch Nullifiers Merkle Roots ShieldedPool Committer CommitPipeline Signatures Finalizer FinalizerSafety Sentinel SentinelSafety.

Section gossiper.
Context `{HashIter} `{Rmp} `{Sha256} (crypto : AsymCryptoProvider).
(** What the handlers change. *)
Context {W : Type}.

Record Gossiper := mkGossiper {
  seen : gset bytes;
  handlers : list (bytes → W → W);
}.

Definition Gossiper_new : Gossiper := mkGossiper ∅ [].
Definition add_handler (f : bytes → W → W) (g : Gossiper) : Gossiper := mkGossiper (seen g) (handlers g ++ [f]).
Definition initialize := add_handler.

Definition dedup_key (key b : bytes) : bytes := sha256 key ++ sha256 b.

Definition fan_out (g : Gossiper) (raw : bytes) (w : W) : W := foldl (λ w f, f raw w) w (handlers g).

Definition gossip_message (raw : bytes) (g : Gossiper) (w : W) : Gossiper * W * result DataError () :=
  match deserialize_rmp_to Message raw with
  | Err e => (g, w, Err (DeserializationError e))
  | Ok m =>
      match check_signature crypto (msg_signature m) (msg_public_key m) (body m) with
      | Err e => (g, w, Err (DECryptoError "signature check"))
      | Ok false => (g, w, Err DEInvalidSignature)
      | Ok true =>
          let k := dedup_key (msg_public_key m) (body m) in
          if bool_decide (k ∈ seen g) then (g, w, Ok ())
          else
            let g := mkGossiper ({[k]} ∪ seen g) (handlers g) in
            (g, fan_out g raw w, Ok ())
      end
  end.

(** [send_to_type]: the nodes of a role one after the other, up to the first that
    fails. *)
Definition send_to_type (reach : NodeRegistryNode → result string ()) (t : NodeRegistryType) (r : NodeRegistry) : result DataError () :=
  foldl (λ acc kn, _ ← acc; map_err FromStore (reach kn.2)) (Ok ()) (hash_iter (get_nodes t r)).
End gossiper.
Arguments Gossiper _ : clear implicits.

(** ** Runs *)

Section runs.
Context `{HashIter} `{Rmp} `{Sha256} (crypto : AsymCryptoProvider).

(** The gossiper whose handler keeps what it is given. *)
Definition recorder : Gossiper (list bytes) := add_handler (λ raw log, log ++ [raw]) Gossiper_new.

Inductive gossip_event := Receive (raw : bytes) | Evict (key : bytes).

Definition gossip_run (y : Gossiper (list bytes) * list bytes) (e : gossip_event) : Gossiper (list bytes) * list bytes :=
  match e with
  | Receive raw => (gossip_message crypto raw y.1 y.2).1
  | Evict key => (mkGossiper (seen y.1 ∖ {[key]}) (handlers y.1), y.2)
  end.

Definition gossip_runs (es : list gossip_event) : Gossiper (list bytes) * list bytes := foldl gossip_run (recorder, []) es.

(** The envelope's signature is its key's, over its body. *)
Definition authentic_envelope (m : Message) : Prop :=
  check_signature crypto (msg_signature m) (msg_public_key m) (body m) = Ok true.

Lemma dedup_key_inj k b k' b' :
  dedup_key k b = dedup_key k' b' → (k = k' ∧ b = b') ∨ collision k k' ∨ collision b b'.
Proof.
  unfold dedup_key. intros [Hk Hb]%app_inj_1; [|by rewrite !sha256_length].
  apply sha256_eq in Hk as [->|Hk]; [|tauto]. apply sha256_eq in Hb as [->|Hb]; tauto.
Qed.

Lemma gossip_authentic {W} raw m (g : Gossiper W) w :
  deserialize_rmp_to Message raw = Ok m → authentic_envelope m →
  gossip_message crypto raw g w =
    if bool_decide (dedup_key (msg_public_key m) (body m) ∈ seen g) then (g, w, Ok ())
    else (mkGossiper ({[dedup_key (msg_public_key m) (body m)]} ∪ seen g) (handlers g), fan_out g raw w, Ok ()).
Proof. intros Hd Ha. unfold gossip_message. by rewrite Hd, Ha. Qed.

Lemma gossip_cases {W} raw (g : Gossiper W) w :
  (∃ m, deserialize_rmp_to Message raw = Ok m ∧ authentic_envelope m) ∨
  ((gossip_message crypto raw g w).1 = (g, w) ∧ is_ok (gossip_message crypto raw g w).2 = false ∧
   ∀ m, deserialize_rmp_to Message raw = Ok m → ¬ authentic_envelope m).
Proof.
  unfold gossip_message, authentic_envelope. destruct (deserialize_rmp_to Message raw) as [m|] eqn:E; [|right; by split_and!].
  destruct (check_signature _ _ _ _) as [[]|] eqn:Hc; [left; eauto|right; split_and!; [done|done|]; intros; simplify_eq; congruence..].
Qed.

Definition frame_key (raw : bytes) : option bytes :=
  match deserialize_rmp_to Message raw with
  | Ok m => Some (dedup_key (msg_public_key m) (body m))
  | Err _ => None
  end.

(** What the log and the cache say of each other along a run. *)
Record log_ok (es : list gossip_event) (y : Gossiper (list bytes) * list bytes) : Prop := {
  log_handlers : handlers y.1 = handlers recorder;
  log_authentic raw : raw ∈ y.2 → Receive raw ∈ es ∧ ∃ m, deserialize_rmp_to Message raw = Ok m ∧ authentic_envelope m;
  log_seen k : k ∈ seen y.1 → ∃ raw, raw ∈ y.2 ∧ frame_key raw = Some k;
  log_received raw m : Receive raw ∈ es → deserialize_rmp_to Message raw = Ok m → authentic_envelope m →
    ∃ raw', raw' ∈ y.2 ∧ frame_key raw' = Some (dedup_key (msg_public_key m) (body m));
  log_once : (∀ k, Evict k ∉ es) →
    NoDup (frame_key <$> y.2) ∧ ∀ raw k, raw ∈ y.2 → frame_key raw = Some k → k ∈ seen y.1;
}.

Lemma log_ok_receive es g log raw m :
  log_ok es (g, log) → deserialize_rmp_to Message raw = Ok m → authentic_envelope m →
  log_ok (es ++ [Receive raw]) (gossip_message crypto raw g log).1.
Proof.
  intros [Hh Ha Hs Hr Ho] Hm Hau. cbn in *. rewrite (gossip_authentic raw m) by done.
  set (k := dedup_key (msg_public_key m) (body m)).
  assert (frame_key raw = Some k) as Hk by (unfold frame_key; by rewrite Hm).
  case_bool_decide as Hin; cbn [fst].
  - split; cbn; [exact Hh| |exact Hs| |]; setoid_rewrite elem_of_app; setoid_rewrite list_elem_of_singleton.
    + intros x Hx. destruct (Ha x Hx). naive_solver.
    + intros x mx [Hx|[= ->]] Hd Hax; [by eapply Hr|]. rewrite Hm in Hd. injection Hd as <-. by apply Hs.
    + intros Hev. apply Ho. intros x Hx. apply (Hev x). tauto.
  - unfold fan_out. rewrite Hh. cbn. split; cbn; [done| | | |]; setoid_rewrite elem_of_app; setoid_rewrite list_elem_of_singleton.
    + intros x [Hx| ->]; [destruct (Ha x Hx)|]; naive_solver.
    + intros x Hx. apply elem_of_union in Hx as [->%elem_of_singleton|Hx]; [eauto|]. destruct (Hs x Hx). naive_solver.
    + intros x mx [Hx|[= ->]] Hd Hax; [destruct (Hr x mx Hx Hd Hax)|rewrite Hm in Hd; injection Hd as <-]; naive_solver.
    + intros Hev. destruct Ho as [Hnd Hall]; [intros x Hx; apply (Hev x); tauto|]. split.
      * rewrite fmap_app. cbn. rewrite Hk. apply NoDup_app. split_and!; [done| |apply NoDup_singleton].
        intros x Hx. rewrite list_elem_of_singleton. intros ->. apply list_elem_of_fmap in Hx as (y & Hy & Hin').
        apply Hin, (Hall y k); congruence.
      * intros x kx [Hx| ->] Hkx; [set_solver|]. set_solver.
Qed.

Lemma log_ok_run es y e : log_ok es y → log_ok (es ++ [e]) (gossip_run y e).
Proof.
  destruct y as [g log]. intros Hy. destruct e as [raw|k]; cbn [gossip_run fst snd].
  - destruct (gossip_cases raw g log) as [(m & Hm & Hau)|(-> & _ & Hno)]; [by eapply log_ok_receive|].
    destruct Hy as [Hh Ha Hs Hr Ho]. split; [exact Hh| |exact Hs| |]; setoid_rewrite elem_of_app; setoid_rewrite list_elem_of_singleton.
    + intros x Hx. destruct (Ha x Hx). tauto.
    + intros x mx [Hx|[= ->]] Hd Hax; [by eapply Hr|]. by destruct (Hno mx Hd).
    + intros Hev. apply Ho. intros x Hx. apply (Hev x). tauto.
  - destruct Hy as [Hh Ha Hs Hr Ho]. split; cbn in *; [done| |intros x Hx; apply Hs; set_solver| |]; setoid_rewrite elem_of_app; setoid_rewrite list_elem_of_singleton.
    + intros x Hx. destruct (Ha x Hx). tauto.
    + intros x mx [Hx|?] Hd Hax; [by eapply Hr|done].
    + intros Hev. destruct (Hev k). tauto.
Qed.

Lemma log_ok_runs es : log_ok es (gossip_runs es).
Proof.
  unfold gossip_runs. induction es as [|e es IH] using rev_ind; [|rewrite foldl_app; by apply log_ok_run].
  split; cbn; try set_solver. intros _. split; [constructor|]. set_solver.
Qed.

(** C9: Whatever arrives, in whatever order, and whatever the cache forgets: a frame is
    handed to the handlers only if it was received and its sender signed its body;
    of every authentic message received, a frame of the same sender and body was
    handed on (or SHA-256 collides); and as long as the cache forgets nothing, only
    one frame of a sender and body is. *)
Theorem gossip_delivery es :
  (∀ raw, raw ∈ (gossip_runs es).2 →
    Receive raw ∈ es ∧ ∃ m, deserialize_rmp_to Message raw = Ok m ∧ authentic_envelope m) ∧
  (∀ raw m, Receive raw ∈ es → deserialize_rmp_to Message raw = Ok m → authentic_envelope m →
    ∃ raw' m', raw' ∈ (gossip_runs es).2 ∧ deserialize_rmp_to Message raw' = Ok m' ∧
      ((msg_public_key m' = msg_public_key m ∧ body m' = body m) ∨
       collision (msg_public_key m') (msg_public_key m) ∨ collision (body m') (body m))) ∧
  ((∀ k, Evict k ∉ es) → ∀ i j raw raw' m m',
    (gossip_runs es).2 !! i = Some raw → (gossip_runs es).2 !! j = Some raw' →
    deserialize_rmp_to Message raw = Ok m → deserialize_rmp_to Message raw' = Ok m' →
    msg_public_key m = msg_public_key m' → body m = body m' → i = j).
Proof.
  destruct (log_ok_runs es) as [_ Ha _ Hr Ho]. split_and!; [done| |].
  - intros raw m Hin Hd Hau. destruct (Hr raw m Hin Hd Hau) as (raw' & Hin' & Hk). unfold frame_key in Hk.
    destruct (deserialize_rmp_to Message raw') as [m'|] eqn:Hm'; [|done]. exists raw', m'. split_and!; [done|done|].
    injection Hk as Hk. by apply dedup_key_inj.
  - intros Hev i j raw raw' m m' Hi Hj Hm Hm' Hk Hb. destruct (Ho Hev) as [Hnd _].
    apply (proj1 (NoDup_alt _) Hnd i j (Some (dedup_key (msg_public_key m) (body m)))); rewrite list_lookup_fmap.
    + rewrite Hi. cbn. unfold frame_key. by rewrite Hm.
    + rewrite Hj. cbn. unfold frame_key. by rewrite Hm', Hk, Hb.
Qed.

(** ** What the signature leaves out *)

Definition relabelled (chain act : string) (stakes : option StakeSet) (m : Message) : Message :=
  mkMessage chain act (body m) (msg_signature m) (msg_public_key m) stakes.

(** The signature covers the body alone, and so does the cache's key. A copy of an
    authentic message under another action (or chain, or stake set) is handled in
    its place: it passes, and the message itself, arriving after it, is dropped
    without any handler seeing it, and without an error. *)
Lemma copy_first {W} m chain act stakes raw raw' (g : Gossiper W) w :
  authentic_envelope m →
  deserialize_rmp_to Message raw = Ok m → deserialize_rmp_to Message raw' = Ok (relabelled chain act stakes m) →
  dedup_key (msg_public_key m) (body m) ∉ seen g →
  let '(g1, w1, r1) := gossip_message crypto raw' g w in
  r1 = Ok () ∧ w1 = fan_out g raw' w ∧ ∀ w', gossip_message crypto raw g1 w' = (g1, w', Ok ()).
Proof.
  intros Hau Hm Hm' Hin. rewrite (gossip_authentic raw' (relabelled chain act stakes m)) by done. cbn [relabelled msg_public_key body].
  rewrite bool_decide_false by done. split_and!; [done|done|]. intros w'.
  rewrite (gossip_authentic raw m) by done. cbn [seen]. by rewrite bool_decide_true by set_solver.
Qed.
End runs.

Section with_sentinel.
Context `{Poseidon} `{!Pallas} `{!Halo2} `{HashIter} `{Rmp} `{Sha256} `{StdRng} `{Hex} `{SignaturePrims} `{Wasmi} `{WasmParser}.
Context `{DataProvider} (c : SentinelConfig) (st : store) (view : ShieldedValidationDeps) (now : N) (crypto : AsymCryptoProvider).

(** A standalone Sentinel behind its gossiper: errors are logged, a panic loses the
    frame. *)
Definition sentinel_handler (raw : bytes) (s : SentinelState) : SentinelState :=
  match on_data_received c st view now raw s with Some (s', _) => s' | None => s end.
Definition guarded_sentinel : Gossiper SentinelState := initialize sentinel_handler Gossiper_new.

Lemma notice_keeps_pending id s :
  ∃ s' r, attempt (notify_delete c id) s = Some (s', Ok r) ∧ sn_pending s' = sn_pending s.
Proof.
  unfold notify_delete, attempt. destruct (framed c "Delete" (SStr id)) as [p|e].
  - erewrite step_bind_Ok by reflexivity. by eexists _, _.
  - erewrite step_bind_Err by reflexivity. by eexists _, _.
Qed.

Lemma confirmation_commits m id tx i l s :
  deserialize_rmp_to string (body m) = Ok id → msg_public_key m ≠ [] →
  transactions (sn_pending s) !! id = Some (mkPending i (Finalizing tx (msg_public_key m)) l) →
  ∃ s', handle_confirmation c m s = Some (s', Ok ()) ∧
    pt_state <$> transactions (sn_pending s') !! id = Some (Committed tx []).
Proof.
  intros Hb Hne He. unfold handle_confirmation. rewrite Hb. erewrite step_bind_Ok by reflexivity.
  erewrite step_bind_Ok by (unfold on_registry, runs, acquire_transaction; by rewrite He).
  set (s1 := put_pending _ s).
  assert (transactions (sn_pending s1) !! id = Some (mkPending i (Finalizing tx (msg_public_key m)) (S l))) as He1
    by apply lookup_insert_eq.
  erewrite step_bind_Ok by reflexivity. erewrite step_bind_Ok by reflexivity.
  unfold is_requested_finalizer. rewrite bool_decide_false by done. rewrite He1. cbn [pt_state].
  rewrite bool_decide_true by done. cbn [negb].
  erewrite step_bind_Ok by reflexivity. rewrite He1. cbn [pt_state].
  erewrite step_bind_Ok by reflexivity. set (s2 := put_pending _ s1).
  assert (transactions (sn_pending s2) !! id = Some (mkPending i (Committed tx []) (S l))) as He2.
  { unfold s2, get_transaction_mut. rewrite He1. apply lookup_insert_eq. }
  destruct (notice_keeps_pending id s2) as (s3 & r & Hn & Hs3). erewrite step_bind_Ok by exact Hn.
  erewrite step_bind_Ok by (unfold on_registry, runs, release_transaction; rewrite Hs3; by rewrite He2).
  eexists. split; [reflexivity|]. cbn [put_pending sn_pending fst with_transactions transactions]. by rewrite lookup_insert_eq.
Qed.

(** A Finalizer that refuses a transaction signs a [Reject] of it. The signature
    does not cover the action: whoever carries that frame to the Sentinel as a
    [Confirm] passes the gossiper, and the Sentinel marks the refused transaction
    committed; the rejection itself, arriving later, is dropped unseen. *)
Theorem rejection_read_as_confirmation m id tx i l raw raw' s :
  action m = "Reject" → authentic_envelope crypto m → msg_public_key m ≠ [] →
  deserialize_rmp_to Message raw = Ok m →
  deserialize_rmp_to Message raw' = Ok (relabelled (chain_id m) "Confirm" (stake_set m) m) →
  deserialize_rmp_to string (body m) = Ok id →
  transactions (sn_pending s) !! id = Some (mkPending i (Finalizing tx (msg_public_key m)) l) →
  let '(g1, s1, _) := gossip_message crypto raw' guarded_sentinel s in
  pt_state <$> transactions (sn_pending s1) !! id = Some (Committed tx []) ∧
  gossip_message crypto raw g1 s1 = (g1, s1, Ok ()).
Proof.
  intros _ Hau Hne Hm Hm' Hb He.
  pose proof (copy_first crypto m _ _ _ raw raw' guarded_sentinel s Hau Hm Hm' ltac:(set_solver)) as Hc.
  destruct (gossip_message crypto raw' guarded_sentinel s) as [[g1 s1] r1]. destruct Hc as (_ & Hs1 & Hlater).
  split; [|apply Hlater]. revert Hs1. cbn [fan_out guarded_sentinel initialize add_handler handlers Gossiper_new app foldl].
  unfold sentinel_handler, on_data_received. rewrite Hm'. erewrite step_bind_Ok by reflexivity.
  intros ->. unfold on_message. cbn [action relabelled String.eqb Ascii.eqb Bool.eqb orb].
  destruct (confirmation_commits (relabelled (chain_id m) "Confirm" (stake_set m) m) id tx i l s) as (s' & Hs' & Hp); [done..|].
  by rewrite Hs'.
Qed.
End with_sentinel.

Module ConcreteGossiper.
Import ConcreteCrypto ConcreteChain ConcreteCommits ConcreteHex ConcreteWasm ConcreteScan ConcreteSentinel.

Definition refused_body : bytes := ok_or [] (rmp_enc (SStr "tx")).
Definition refusal : Message :=
  mkMessage "tokens" "Reject" refused_body (ok_or [] (sign_data ConcreteNodes.signer refused_body)) key None.
Definition frame (m : Message) : bytes := ok_or [] (rmp_enc (ser_Message m)).

Lemma read_as_confirmation_witness :
  let '(g1, s1, _) := gossip_message ConcreteNodes.signer (frame (relabelled "tokens" "Confirm" None refusal))
    (guarded_sentinel node data no_view 0) finalizing in
  pt_state <$> transactions (sn_pending s1) !! "tx" = Some (Committed transfer []).
Proof.
  pose proof (rejection_read_as_confirmation node data no_view 0 ConcreteNodes.signer refusal "tx" transfer "tx" 0
    (frame refusal) (frame (relabelled "tokens" "Confirm" None refusal)) finalizing) as Hw.
  destruct (gossip_message _ _ _ _) as [[g1 s1] r1].
  apply Hw; [reflexivity|by vm_compute|discriminate|by vm_compute|by vm_compute|by vm_compute|by vm_compute].
Defined.
End ConcreteGossiper.
