(* ===== verification/NodeServer.v ===== *)
(** * The composite host (node-server/src/node_server.rs, node_server/{role_adapters,plugins,epoch_coord,transport,ingress_sink,build}.rs)

    One process that runs the roles its stake qualifies for. The roles' own states
    (Leadership.v, Sentinel.v, Finalizer.v, Executor.v) share the node registry, the
    pending transactions, the token cache, the data service and the shielded pool,
    which are kept with the Committer's; a role is run on its own state with the
    shared parts put in, under the dispatcher's lock. *)

From S2P Require Import Prelude Steps Utf8 Text Telemetry Interfaces Types Float StakeSets Selection Environment Config Serialize Crypto Transactions Chain.
From S2P Require Import Validation DataProvider Deserialize Wire Tokens Contracts Engines WasmHost Scan NodeRegistry NodeSafety StakeIndex RoleDispatcher.
From S2P Require Import Messages Packets Pool Registry Epoch EpochManager Committer Nullifiers Merkle Roots ShieldedPool OrphanBuffer CommitPipeline.
From S2P Require Import Confirmation Leadership Executor Signatures Finalizer Sentinel.

(** ** Action tables *)

Definition COMMITTER_ACTIONS : list string :=
  ["Commit"; "DistributeToken"; "DistributeBlock"; "EpochReconcile"; "BlockFinalized"; "BlockConfirmed"; "BlockQuorumReached"].
Definition EXECUTOR_ACTIONS : list string := ["Preload"].
Definition SENTINEL_ACTIONS : list string := ["Verify"].
Definition FINALIZER_ACTIONS : list string := ["PreloadForFinalizer"; "Sign"; "Finalize"; "SignShielded"; "ShieldedVote"].

Definition actions_of (t : NodeRegistryType) : list string :=
  match t with
  | Types.Committer => COMMITTER_ACTIONS
  | Types.Sentinel => SENTINEL_ACTIONS
  | Types.Executor => EXECUTOR_ACTIONS
  | Types.Finalizer => FINALIZER_ACTIONS
  | Archiver => []
  end.

(** ** State *)

(** What [{:?}] prints of the roles' errors; a variant's name is in its text. *)
Definition duplicate_marker : bytes := string_bytes "TransactionAlreadyExists".

Class ErrorText := {
  text_committer : CommitterError → string;
  text_executor : ExecutorError → string;
  text_finalizer : PneumaticError → string;
  text_sentinel : SentinelError → string;
  text_names_duplicate id : contains_sub duplicate_marker (string_bytes (text_sentinel (SErrTransactionAlreadyExists id))) = true;
}.

(** The wall clock in seconds, and the readings of the monotonic clock in the order
    a handler takes them. *)
Record Clock := mkClock { wall : Z; instant : nat → N }.

Section state.
Context `{Field} `{DataProvider}.

Record Composite := mkComposite {
  cp_committer : LeaderNode;
  cp_sentinel : SentinelState;
  cp_finalizer : FinalizerState;
  (** the Executor's slots and the tasks it has spawned *)
  cp_active : gset string;
  cp_tasks : list string;
  cp_stakes : StakeIndex;
  cp_selector : RoleSelector;
  (** the pool view's roots: those of the boot *)
  cp_view_roots : list RootSnapshot;
  (** the shutdown flags of the Committer and the Finalizer *)
  cp_committer_stopping : bool;
  cp_finalizer_stopping : bool;
}.

Definition cp_core (x : Composite) : CommitState := ln_core (cp_committer x).
Definition shared_nodes (x : Composite) : NodeRegistry := node_registry (cp_core x).
Definition shared_pending (x : Composite) : PendingTransactionRegistry := pending_registry (cp_core x).
Definition shared_store (x : Composite) : store := the_store (cp_core x).

Definition with_node_registry (r : NodeRegistry) (s : CommitState) : CommitState :=
  mkCommitState (committed_txs s) (pending_registry s) (conflicts s) (services s) (shielded_pool s) (current_epoch_number s) r.

Definition put_committer (n : LeaderNode) (x : Composite) : Composite :=
  mkComposite n (cp_sentinel x) (cp_finalizer x) (cp_active x) (cp_tasks x) (cp_stakes x) (cp_selector x) (cp_view_roots x)
    (cp_committer_stopping x) (cp_finalizer_stopping x).
Definition put_shared (r : NodeRegistry) (p : PendingTransactionRegistry) (x : Composite) : Composite :=
  put_committer (set_core (with_node_registry r (with_pending p (cp_core x))) (cp_committer x)) x.
Definition put_sentinel (s : SentinelState) (x : Composite) : Composite :=
  let x := put_shared (sn_nodes s) (sn_pending s) x in
  mkComposite (cp_committer x) s (cp_finalizer x) (cp_active x) (cp_tasks x) (cp_stakes x) (cp_selector x) (cp_view_roots x)
    (cp_committer_stopping x) (cp_finalizer_stopping x).
Definition put_finalizer (s : FinalizerState) (x : Composite) : Composite :=
  let x := put_shared (fz_nodes s) (fz_pending s) x in
  mkComposite (cp_committer x) (cp_sentinel x) s (cp_active x) (cp_tasks x) (cp_stakes x) (cp_selector x) (cp_view_roots x)
    (cp_committer_stopping x) (cp_finalizer_stopping x).
Definition put_executor (p : PendingTransactionRegistry) (active : gset string) (tasks : list string) (x : Composite) : Composite :=
  let x := put_shared (shared_nodes x) p x in
  mkComposite (cp_committer x) (cp_sentinel x) (cp_finalizer x) active tasks (cp_stakes x) (cp_selector x) (cp_view_roots x)
    (cp_committer_stopping x) (cp_finalizer_stopping x).
Definition put_stakes (i : StakeIndex) (x : Composite) : Composite :=
  mkComposite (cp_committer x) (cp_sentinel x) (cp_finalizer x) (cp_active x) (cp_tasks x) i (cp_selector x) (cp_view_roots x)
    (cp_committer_stopping x) (cp_finalizer_stopping x).
Definition put_selector (r : RoleSelector) (x : Composite) : Composite :=
  mkComposite (cp_committer x) (cp_sentinel x) (cp_finalizer x) (cp_active x) (cp_tasks x) (cp_stakes x) r (cp_view_roots x)
    (cp_committer_stopping x) (cp_finalizer_stopping x).
Definition put_stopping (c f : bool) (x : Composite) : Composite :=
  mkComposite (cp_committer x) (cp_sentinel x) (cp_finalizer x) (cp_active x) (cp_tasks x) (cp_stakes x) (cp_selector x)
    (cp_view_roots x) c f.

(** A role's state with the shared parts as they are now. *)
Definition sentinel_view (x : Composite) : SentinelState :=
  put_nodes (shared_nodes x) (Sentinel.put_pending (shared_pending x) (cp_sentinel x)).
Definition finalizer_view (x : Composite) : FinalizerState :=
  let s := cp_finalizer x in
  mkFinalizerState (shared_nodes x) (shared_pending x) (fz_collector s) (preload_tasks s) (fz_epoch s) (stake_cache s)
    (recorded_shielded s) (sent s).

(** [ShieldedPoolView] of the shared pool: the nullifiers live, the roots of the boot. *)
Definition pool_view (x : Composite) : ShieldedValidationDeps :=
  let p := shielded_pool (cp_core x) in mkDeps (nullifiers p) (cp_view_roots x) (pool_window p).
End state.

Record HostConfig := mkHostConfig {
  hc_config : Config;
  hc_committer : CommitterConfig;
  hc_own_key : bytes;
  hc_leader : LeaderConfig;
  hc_sentinel : SentinelConfig;
  hc_finalizer : FinalizerConfig;
  hc_max_in_flight : nat;
  (** [epoch_boundary_detector]: behind an [Arc], and the Committer has a copy *)
  hc_detector : EpochBoundaryDetector;
}.

(** ** Adapters *)

Section server.
Context `{Poseidon} `{!Pallas} `{!Halo2} `{HashIter} `{Rmp} `{Sha256} `{StdRng} `{Hex} `{SignaturePrims} `{Wasmi} `{WasmParser}.
Context `{DataProvider} `{ErrorText} (hc : HostConfig) (now : Clock).

Abbreviation composite := (step Composite RoleError) (only parsing).

Definition downstream (text : string) : RoleError := Downstream (Network text).

Definition committer_handle (m : Message) : composite () := λ x,
  '(n, r) ← handle_message (hc_committer hc) (hc_own_key hc) (hc_leader hc) (instant now) m (cp_committer x);
  Some (put_committer n x, map_err (λ e, downstream (text_committer e)) r).

(** The task is spawned, then entered among the active ones. *)
Definition executor_handle (m : Message) : composite () := λ x,
  match deserialize_rmp_to Transaction (body m) with
  | Err e => Some (x, Err (downstream (text_executor (XEncoding e))))
  | Ok tx =>
      let '(r, res) := ingest_preload (hc_max_in_flight hc) (cp_active x) tx (shared_pending x) in
      match res with
      | Err e => Some (put_executor r (cp_active x) (cp_tasks x) x, Err (downstream (text_executor e)))
      | Ok _ => Some (put_executor r ({[tx_id tx]} ∪ cp_active x) (cp_tasks x ++ [tx_id tx]) x, Ok ())
      end
  end.

Definition sentinel_handle (m : Message) : composite () := λ x,
  '(s, r) ← on_data_received (hc_sentinel hc) (shared_store x) (pool_view x) (Z.to_N (wall now)) (body m) (sentinel_view x);
  Some (put_sentinel s x, map_err (λ e, downstream (text_sentinel e)) r).

Definition in_finalizer (f : step FinalizerState PneumaticError bytes) : composite () := λ x,
  '(s, r) ← f (finalizer_view x);
  Some (put_finalizer s x, match r with Ok _ => Ok () | Err e => Err (downstream (text_finalizer e)) end).

Definition finalizer_handle (m : Message) : composite () := λ x,
  let a := action m in
  let run (h : ShieldedValidationDeps → step FinalizerState PneumaticError bytes) := in_finalizer (h (pool_view x)) x in
  if String.eqb a "PreloadForFinalizer" then
    run (λ _, handle_preload (hc_finalizer hc) (shared_store x) (wall now) m)
  else if String.eqb a "Sign" then
    run (λ _, handle_signature (hc_finalizer hc) (shared_store x) (wall now) m)
  else if String.eqb a "SignShielded" then
    run (λ view, handle_sign_shielded (hc_finalizer hc) (shared_store x) view m)
  else if String.eqb a "ShieldedVote" then
    run (λ _, handle_shielded_vote (hc_finalizer hc) (shared_store x) (wall now) m)
  else Some (x, Err (downstream ("finalizer: unhandled inbound action " +:+ a))).

(** ** Lifecycle *)

Definition committer_host : RoleHost Composite :=
  mkRoleHost Types.Committer COMMITTER_ACTIONS committer_handle (λ _ x, x) (λ x, put_stopping true (cp_finalizer_stopping x) x).
Definition executor_host : RoleHost Composite :=
  mkRoleHost Types.Executor EXECUTOR_ACTIONS executor_handle (λ _ x, x) (λ x, x).
Definition sentinel_host : RoleHost Composite :=
  mkRoleHost Types.Sentinel SENTINEL_ACTIONS sentinel_handle
    (λ epoch x, put_sentinel (sentinel_advance_epoch epoch (sentinel_view x)) x) (λ x, x).
(** The Finalizer's own [advance_epoch] takes no epoch. *)
Definition finalizer_host : RoleHost Composite :=
  mkRoleHost Types.Finalizer FINALIZER_ACTIONS finalizer_handle
    (λ _ x, put_finalizer (finalizer_advance_epoch (finalizer_view x)) x)
    (λ x, put_stopping (cp_committer_stopping x) true x).

(** [build_role_plugin]. *)
Definition build_role_plugin (t : NodeRegistryType) : option (RoleHost Composite) :=
  match t with
  | Types.Committer => Some committer_host
  | Types.Executor => Some executor_host
  | Types.Sentinel => Some sentinel_host
  | Types.Finalizer => Some finalizer_host
  | Archiver => None
  end.

Definition installed (roles : list NodeRegistryType) : list (RoleHost Composite) := omap build_role_plugin roles.

(** ** The epoch coordinator *)

Definition server_epoch : N := epoch_number (current_epoch (hc_detector hc)).

(** [roll_forward] under the dispatcher's lock. *)
Definition server_roll_forward (roles : list NodeRegistryType) (epoch : N) (x : Composite) : Composite :=
  (roll_forward (installed roles) epoch x).1.

Definition recompute_role_set (stake : bytes → N → N) (x : Composite) : Composite :=
  put_selector (select stake (cp_selector x)).1 x.

Definition poll_and_advance (roles : list NodeRegistryType) (stake : bytes → N → N) (at_time : Z) (x : Composite)
    : Composite * bool :=
  if negb (is_epoch_expired at_time (hc_detector hc)) then (x, false)
  else
    let epoch := server_epoch in
    let x := put_stakes (set_epoch (shared_store x) epoch (cp_stakes x)) x in
    let x := server_roll_forward roles epoch x in
    (recompute_role_set stake x, true).

Definition server_shutdown (roles : list NodeRegistryType) (x : Composite) : Composite :=
  RoleDispatcher.initiate_all_shutdown (installed roles) x.

(** [poll_metrics], with the process's count of signature checks. *)
Definition poll_metrics (roles : list NodeRegistryType) (verifications : N) (x : Composite) (m : Metrics) : Metrics :=
  let peers := foldl (λ n t, wrap_add n (N.of_nat (size (get_nodes t (shared_nodes x))))) 0%N
    [Types.Committer; Types.Sentinel; Types.Executor; Types.Finalizer; Archiver] in
  let m := set_gauge "pneumatic_epoch_current" server_epoch m in
  let m := set_gauge "pneumatic_installed_roles" (N.of_nat (length (installed roles))) m in
  let m := set_gauge "pneumatic_node_peers" peers m in
  let m := set_gauge "pneumatic_tokens_cached" (N.of_nat (size (tokens (services (cp_core x))))) m in
  let m := set_gauge "pneumatic_pending_transactions" (N.of_nat (in_flight_count (shared_pending x))) m in
  let m := set_gauge "pneumatic_shielded_transactions" (N.of_nat (shielded_count (shared_pending x))) m in
  let m := set_gauge "pneumatic_up" 1 m in
  set_gauge "pneumatic_signature_verifications_total" verifications m.

(** ** The inbound path *)

Definition server_dispatch (roles : list NodeRegistryType) (m : Message) : composite () := dispatch (installed roles) m.

Definition route_data_plane (roles : list NodeRegistryType) (d : bytes) : composite () :=
  match deserialize_rmp_to Message d with
  | Err _ => fails (downstream "undecodable data-plane message")
  | Ok m => server_dispatch roles m
  end.

(** The closure that receives the transport's frames and the host's own copies.
    A failure on either plane is only logged; a data frame that is not a
    directory response is dispatched on the host's runtime. *)
Definition inbound_handler (roles : list NodeRegistryType) (raw : bytes) (x : Composite) : may_panic Composite :=
  match deserialize_rmp_to NetworkPacket raw with
  | Err _ => Some x
  | Ok p =>
      let h := sn_host (hc_sentinel hc) in
      let x := match control p with
               | Some req => put_shared (handle_control h (instant now 0) req (shared_nodes x)).1 (shared_pending x) x
               | None => x
               end in
      match data p with
      | None => Some x
      | Some d =>
          match deserialize_rmp_to NodeRegistryResponse d with
          | Ok res => Some (put_shared (handle_directory_response h (instant now 0) res (shared_nodes x)).1 (shared_pending x) x)
          | Err _ => fst <$> route_data_plane roles d x
          end
      end
  end.
End server.
