(* ===== verification/NodeServerSafety.v ===== *)
(** * What the composite host promises

    Each action has one owner among the installed roles; who may move the epochs of
    the roles, and what the coordinator's ticks do to them. *)

From S2P Require Import Prelude Steps Utf8 Text Interfaces Types Float StakeSets Selection Environment Config Serialize Crypto Transactions Chain.
From S2P Require Import Validation DataProvider Deserialize Wire Tokens Contracts Engines WasmHost Scan NodeRegistry NodeSafety StakeIndex RoleDispatcher.
From S2P Require Import Messages Packets Pool Registry Epoch EpochManager Committer Nullifiers Merkle Roots ShieldedPool OrphanBuffer CommitPipeline.
From S2P Require Import Confirmation Leadership Executor Signatures Finalizer FinalizerSafety Sentinel SentinelSafety NodeServer.

Section safety.
Context `{Poseidon} `{!Pallas} `{!Halo2} `{HashIter} `{Rmp} `{Sha256} `{StdRng} `{Hex} `{SignaturePrims} `{Wasmi} `{WasmParser}.
Context `{DataProvider} `{ErrorText} (hc : HostConfig) (now : Clock).

(** ** Routing *)

(** The role whose table lists an action. *)
Definition action_owner (a : string) : option NodeRegistryType :=
  find (λ t, existsb (String.eqb a) (actions_of t)) all_types.

(** What a role does with a message; the archiver's has no plugin. *)
Definition role_handle (t : NodeRegistryType) (m : Message) : step Composite RoleError () :=
  match build_role_plugin hc now t with
  | Some h => host_handle h m
  | None => fails (UnknownAction (action m))
  end.

(** No action is in two tables. *)
Lemma tables_disjoint a t t' : a ∈ actions_of t → a ∈ actions_of t' → t = t'.
Proof.
  assert (Forall (λ t, Forall (λ t', t = t' ∨ Forall (λ a, a ∉ actions_of t') (actions_of t)) all_types) all_types) as Hd
    by (apply (bool_decide_unpack _); by vm_compute).
  intros Ha Ha'. rewrite Forall_forall in Hd. specialize (Hd t). rewrite Forall_forall in Hd.
  destruct (Hd (all_types_elem t) t' (all_types_elem t')) as [->|Hx]; [done|].
  rewrite Forall_forall in Hx. by destruct (Hx a).
Qed.

Lemma action_owner_Some a t : action_owner a = Some t ↔ a ∈ actions_of t.
Proof.
  unfold action_owner. split.
  - intros [_ Hf]%find_some. apply existsb_exists in Hf as (x & Hx%list_elem_of_In & ->%String.eqb_eq). done.
  - intros Ha. destruct (find _ all_types) as [t'|] eqn:E.
    + apply find_some in E as [_ Hf]. apply existsb_exists in Hf as (x & Hx%list_elem_of_In & ->%String.eqb_eq).
      f_equal. by eapply tables_disjoint.
    + pose proof (find_none _ _ E t (proj1 (list_elem_of_In _ _) (all_types_elem t))) as Hn.
      assert (existsb (String.eqb a) (actions_of t) = true) as Ht; [|cbn beta in Hn; congruence].
      apply existsb_exists. exists a. split; [by apply list_elem_of_In|apply String.eqb_refl].
Qed.

Lemma plugin_actions t h : build_role_plugin hc now t = Some h → host_role h = t ∧ allowed_actions h = actions_of t.
Proof. destruct t; by intros [= <-]. Qed.

Lemma installed_elem roles h : h ∈ installed hc now roles ↔ ∃ t, t ∈ roles ∧ build_role_plugin hc now t = Some h.
Proof. unfold installed. apply list_elem_of_omap. Qed.

Lemma routes roles m :
  NoDup roles →
  server_dispatch hc now roles m =
    match action_owner (action m) with
    | Some t => if bool_decide (t ∈ roles) then role_handle t m else fails (UnknownAction (action m))
    | None => fails (UnknownAction (action m))
    end.
Proof.
  intros Hnd. unfold server_dispatch.
  assert (∀ h t, h ∈ installed hc now roles → action m ∈ allowed_actions h → action_owner (action m) = Some t → t ∈ roles) as Hin.
  { intros h t (t' & Ht' & Hp)%installed_elem Ha Ho. destruct (plugin_actions _ _ Hp) as [_ Hact]. rewrite Hact in Ha.
    apply action_owner_Some in Ho. by rewrite (tables_disjoint _ _ _ Ho Ha). }
  destruct (action_owner (action m)) as [t|] eqn:Ho; [case_bool_decide as Ht|].
  - apply list_elem_of_split in Ht as (l1 & l2 & ->). pose proof (proj1 (action_owner_Some _ _) Ho) as Ha. unfold role_handle.
    destruct (build_role_plugin hc now t) as [h|] eqn:Hp; [|destruct t; try discriminate Hp; by apply not_elem_of_nil in Ha].
    destruct (plugin_actions _ _ Hp) as [_ Hact]. unfold installed. rewrite omap_app. cbn [omap list_omap]. rewrite Hp.
    apply dispatch_owned; [by rewrite Hact|]. intros h' Hh' Ha'. rewrite <-omap_app in Hh'.
    apply installed_elem in Hh' as (t' & Ht' & Hp'). destruct (plugin_actions _ _ Hp') as [_ Hact']. rewrite Hact' in Ha'.
    rewrite (tables_disjoint _ _ _ Ha' Ha) in Ht'. apply NoDup_app in Hnd as (_ & Hx & [Hy _]%NoDup_cons).
    apply elem_of_app in Ht' as [Ht'|Ht']; [|done]. apply (Hx t Ht'). left.
  - apply dispatch_unowned. intros h Hh Ha. by apply Ht, (Hin h).
  - apply dispatch_unowned. intros h (t & Ht & Hp)%installed_elem Ha. destruct (plugin_actions _ _ Hp) as [_ Hact].
    rewrite Hact in Ha. apply action_owner_Some in Ha. congruence.
Qed.

(** What the roles do with a message. *)
Definition owner_runs (roles : list NodeRegistryType) (m : Message) : step Composite RoleError () :=
  match action_owner (action m) with
  | Some t => if bool_decide (t ∈ roles) then role_handle t m else fails (UnknownAction (action m))
  | None => fails (UnknownAction (action m))
  end.

(** A message is not taken for a directory response. *)
Lemma message_is_no_response m d : rmp_enc (ser_Message m) = Ok d → ∃ e, deserialize_rmp_to NodeRegistryResponse d = Err e.
Proof.
  intros Hd. unfold deserialize_rmp_to. pose proof (rmp_round _ _ [] Hd) as Hr. rewrite app_nil_r in Hr. rewrite Hr.
  destruct m as [i a b sg k [st|]]; eexists; reflexivity.
Qed.

(** C6: what another node sends a composite host. The frame of a message, as it comes
    out of the encoder, runs the message on the one installed role whose table has
    its action: the state is what that role's handler leaves. A message whose owner
    is not installed, or that nobody owns, is refused with [UnknownAction] and
    changes nothing; no message is ambiguous. A frame that is no packet, and data
    that is no message, change nothing either. The roles are those the stake
    qualifies for. *)
Theorem composite_routes_to_the_owner stake selector m d raw x :
  wf m → wf_bytes d → rmp_enc (ser_Message m) = Ok d → rmp_enc (ser_NetworkPacket (mkPacket None (Some d))) = Ok raw →
  let roles := (select stake selector).2 in
  route_data_plane hc now roles d x = owner_runs roles m x ∧
  inbound_handler hc now roles raw x = fst <$> owner_runs roles m x ∧
  (∀ t, action m ∈ actions_of t → owner_runs roles m x =
    if bool_decide (t ∈ roles) then role_handle t m x else Some (x, Err (UnknownAction (action m)))) ∧
  (∀ raw', is_ok (deserialize_rmp_to NetworkPacket raw') = false → inbound_handler hc now roles raw' x = Some x) ∧
  (∀ d', is_ok (deserialize_rmp_to Message d') = false → route_data_plane hc now roles d' x = Some (x, Err (downstream "undecodable data-plane message"))).
Proof.
  intros Hm Hwd Hd Hraw roles. assert (route_data_plane hc now roles d x = owner_runs roles m x) as Hroute.
  { unfold route_data_plane. rewrite (written_is_read m d Hm Hd). unfold owner_runs. by rewrite routes by apply select_NoDup. }
  split_and!; [exact Hroute| | | |].
  - unfold inbound_handler. rewrite (written_is_read (mkPacket None (Some d)) raw) by done. cbn [control data].
    destruct (message_is_no_response m d Hd) as [e ->]. by rewrite Hroute.
  - intros t Ht%action_owner_Some. unfold owner_runs. rewrite Ht. by case_bool_decide.
  - intros raw' Hr. unfold inbound_handler. by destruct (deserialize_rmp_to NetworkPacket raw').
  - intros d' Hr. unfold route_data_plane. by destruct (deserialize_rmp_to Message d').
Qed.

(** ** Epochs from outside *)

(** What a data frame of the host says to its Sentinel: the message in the body of a
    [Verify], whatever the two signatures and the outer sender. *)
Definition says_to_sentinel (raw : bytes) (m : Message) : Prop :=
  ∃ p d outer, deserialize_rmp_to NetworkPacket raw = Ok p ∧ control p = None ∧ data p = Some d ∧
    is_ok (deserialize_rmp_to NodeRegistryResponse d) = false ∧ deserialize_rmp_to Message d = Ok outer ∧
    action outer = "Verify" ∧ deserialize_rmp_to Message (body outer) = Ok m.

Lemma sentinel_hears roles raw m x :
  NoDup roles → Types.Sentinel ∈ roles → says_to_sentinel raw m →
  inbound_handler hc now roles raw x =
    ('(s, _) ← on_message (hc_sentinel hc) (shared_store x) (pool_view x) (Z.to_N (wall now)) m (sentinel_view x);
     Some (put_sentinel s x)).
Proof.
  intros Hnd Hs (p & d & outer & Hp & Hc & Hd & Hr & Ho & Ha & Hm).
  unfold inbound_handler. rewrite Hp, Hc, Hd. destruct (deserialize_rmp_to NodeRegistryResponse d); [done|].
  unfold route_data_plane. rewrite Ho, routes by done. rewrite Ha. cbn [action_owner].
  replace (action_owner "Verify") with (Some Types.Sentinel) by done. rewrite bool_decide_true by done.
  cbn [role_handle build_role_plugin sentinel_host host_handle]. unfold sentinel_handle, on_data_received. rewrite Hm.
  erewrite step_bind_Ok by reflexivity. by destruct (on_message _ _ _ _ _ _) as [[s []]|].
Qed.

(** C19: the composite host takes frames without the gossiper, and the Sentinel does not
    look at the envelope's signature: whoever can send a frame names a registered
    Finalizer as the sender of a finalized block, and the Sentinel takes the block's
    epoch for its own. The pending transactions and the other roles stay as they were. *)
Theorem unsigned_frame_moves_the_epoch roles raw m b x :
  NoDup roles → Types.Sentinel ∈ roles → says_to_sentinel raw m →
  action m = "BlockFinalized" → deserialize_rmp_to Block (body m) = Ok b →
  is_Some (get_nodes Finalizer (shared_nodes x) !! msg_public_key m) →
  ∃ x', inbound_handler hc now roles raw x = Some x' ∧
    sn_epoch (cp_sentinel x') = N.max (sn_epoch (cp_sentinel x)) (blk_epoch_number b) ∧
    shared_pending x' = shared_pending x ∧ shared_store x' = shared_store x ∧ cp_finalizer x' = cp_finalizer x.
Proof.
  intros Hnd Hs Hraw Ha Hb Hf. rewrite (sentinel_hears roles raw m) by done.
  unfold on_message. rewrite Ha. cbn [String.eqb Ascii.eqb Bool.eqb orb]. unfold handle_block_finalized_for_epoch. rewrite Hb.
  do 2 (erewrite step_bind_Ok by reflexivity). rewrite bool_decide_true by done. cbn [negb updates mbind option_bind].
  eexists. split; [reflexivity|]. unfold sentinel_advance_epoch.
  destruct (N.leb_spec (blk_epoch_number b) (sn_epoch (sentinel_view x))) as [Hle|Hlt]; cbn in *; split_and!; try done; lia.
Qed.

(** ** Epochs from the coordinator *)

(** The coordinator's ticks, one at each time. *)
Definition ticks (roles : list NodeRegistryType) (stake : bytes → N → N) (times : list Z) (x : Composite) : Composite :=
  foldl (λ x t, (poll_and_advance hc now roles stake t x).1) x times.

Definition advance_role (epoch : N) (x : Composite) (t : NodeRegistryType) : Composite :=
  match build_role_plugin hc now t with Some h => host_advance_epoch h epoch x | None => x end.

Lemma roll_forward_roles roles epoch x : server_roll_forward hc now roles epoch x = foldl (advance_role epoch) x roles.
Proof.
  unfold server_roll_forward, roll_forward, installed. cbn [fst]. revert x.
  induction roles as [|t roles IH]; intros x; [done|]. cbn [omap list_omap foldl]. unfold advance_role at 2.
  destruct (build_role_plugin hc now t); [apply IH|by rewrite IH].
Qed.

(** What no role's advance does. *)
Record advanced (epoch : N) (x x' : Composite) : Prop := {
  advanced_store : shared_store x' = shared_store x;
  advanced_sentinel : (sn_epoch (cp_sentinel x') ≤ N.max (sn_epoch (cp_sentinel x)) epoch)%N;
}.

Lemma other_roles_advance epoch roles x :
  Types.Finalizer ∉ roles →
  let x' := foldl (advance_role epoch) x roles in advanced epoch x x' ∧ cp_finalizer x' = cp_finalizer x.
Proof.
  revert x. induction roles as [|t roles IH]; intros x Hno; [split; [split|]; [done|cbn; lia|done]|].
  apply not_elem_of_cons in Hno as [Hne Hno]. cbn [foldl]. destruct (IH (advance_role epoch x t) Hno) as [[Hs Hn] Hf].
  assert (advanced epoch x (advance_role epoch x t) ∧ cp_finalizer (advance_role epoch x t) = cp_finalizer x) as [[Hs' Hn'] Hf'].
  { destruct t; (split; [split|]); try done; cbn; try lia. unfold sentinel_advance_epoch. case_match; cbn; lia. }
  split; [split; [congruence|lia]|congruence].
Qed.

Lemma roll_advances_finalizer roles epoch x :
  NoDup roles → Types.Finalizer ∈ roles →
  let x' := server_roll_forward hc now roles epoch x in
  advanced epoch x x' ∧ fz_epoch (cp_finalizer x') = wrap_add (fz_epoch (cp_finalizer x)) 1 ∧
  stake_cache (cp_finalizer x') = invalidate_all (stake_cache (cp_finalizer x)).
Proof.
  intros Hnd (l1 & l2 & ->)%list_elem_of_split. apply NoDup_app in Hnd as (_ & Hx & [Hy _]%NoDup_cons).
  rewrite roll_forward_roles, foldl_app. cbn [foldl].
  destruct (other_roles_advance epoch l1 x) as [[Hs1 Hn1] Hf1]; [intros Hin; apply (Hx _ Hin); left|].
  set (x1 := foldl _ x l1) in *. destruct (other_roles_advance epoch l2 (advance_role epoch x1 Types.Finalizer) Hy) as [[Hs2 Hn2] ->].
  split; [split; [by rewrite Hs2, <-Hs1|]|by rewrite <-Hf1].
  change (sn_epoch (cp_sentinel (advance_role epoch x1 Types.Finalizer))) with (sn_epoch (cp_sentinel x1)) in Hn2. lia.
Qed.

Lemma tick_advances roles stake t x :
  NoDup roles → Types.Finalizer ∈ roles → is_epoch_expired t (hc_detector hc) = true →
  let x' := (poll_and_advance hc now roles stake t x).1 in
  advanced (server_epoch hc) x x' ∧ fz_epoch (cp_finalizer x') = wrap_add (fz_epoch (cp_finalizer x)) 1 ∧
  stake_cache (cp_finalizer x') = invalidate_all (stake_cache (cp_finalizer x)).
Proof.
  intros Hnd Hin Hexp. unfold poll_and_advance. rewrite Hexp. cbn [negb]. cbv zeta. cbn [fst].
  set (x1 := put_stakes _ x). destruct (roll_advances_finalizer roles (server_epoch hc) x1 Hnd Hin) as ([Hs Hn] & Hf & Hc).
  split; [by split|]. by split.
Qed.

Lemma ticks_snoc roles stake times t x :
  ticks roles stake (times ++ [t]) x = (poll_and_advance hc now roles stake t (ticks roles stake times x)).1.
Proof. unfold ticks. by rewrite foldl_app. Qed.

Lemma ticks_advance roles stake times x :
  NoDup roles → Types.Finalizer ∈ roles → Forall (λ t, is_epoch_expired t (hc_detector hc) = true) times →
  let x' := ticks roles stake times x in
  advanced (server_epoch hc) x x' ∧
  (fz_epoch (cp_finalizer x') mod u64_mod = wrap_add (fz_epoch (cp_finalizer x)) (N.of_nat (length times)))%N ∧
  cache_partition (stake_cache (cp_finalizer x')) = cache_partition (stake_cache (cp_finalizer x)).
Proof.
  intros Hnd Hin. induction times as [|t times IH] using rev_ind; intros Hexp.
  { split_and!; [split; [done|cbn; lia]|cbn [length]; unfold wrap_add; by rewrite N.add_0_r|done]. }
  apply Forall_app in Hexp as [Hexp Ht]. inversion_clear Ht as [|?? Htx _]. rewrite ticks_snoc.
  destruct (IH Hexp) as ([Hs Hn] & Hf & Hp). destruct (tick_advances roles stake t (ticks roles stake times x) Hnd Hin Htx) as ([Hs' Hn'] & Hf' & Hp').
  split_and!; [split; [by rewrite Hs'|lia]| |by rewrite Hp'].
  rewrite Hf'. unfold wrap_add in *. rewrite N.Div0.mod_mod, <-N.Div0.add_mod_idemp_l, Hf, N.Div0.add_mod_idemp_l, length_app.
  cbn [length]. f_equal. lia.
Qed.

Lemma last_tick roles stake times x :
  NoDup roles → Types.Finalizer ∈ roles → Forall (λ t, is_epoch_expired t (hc_detector hc) = true) times → times ≠ [] →
  let s := cp_finalizer (ticks roles stake times x) in
  (fz_epoch s mod u64_mod = fz_epoch s)%N ∧ local (stake_cache s) = ∅.
Proof.
  intros Hnd Hin Hexp Hne. destruct times as [|t times _] using rev_ind; [done|].
  apply Forall_app in Hexp as [_ Ht]. inversion_clear Ht as [|?? Htx _]. rewrite ticks_snoc.
  destruct (tick_advances roles stake t (ticks roles stake times x) Hnd Hin Htx) as (_ & Hf & Hc). cbv zeta. rewrite Hf, Hc.
  unfold wrap_add. by rewrite N.Div0.mod_mod.
Qed.

(** The epoch detector of a composite host never moves: once its epoch has ended,
    every tick of the coordinator adds one to the Finalizer's epoch, while the other
    roles are told the same epoch again; the Sentinel stays within it. Without a
    snapshot of the epoch the Finalizer has run to, it has no responsible set, which
    both shielded handlers start from. *)
Theorem coordinator_overruns_the_finalizer roles stake times x :
  NoDup roles → Types.Finalizer ∈ roles →
  Forall (λ t, is_epoch_expired t (hc_detector hc) = true) times → times ≠ [] →
  let x' := ticks roles stake times x in
  let e := wrap_add (fz_epoch (cp_finalizer x)) (N.of_nat (length times)) in
  fz_epoch (cp_finalizer x') = e ∧
  (sn_epoch (cp_sentinel x') ≤ N.max (sn_epoch (cp_sentinel x)) (server_epoch hc))%N ∧
  (fz_stake_set (hc_finalizer hc) = None → shard_count (fz_env (hc_finalizer hc)) = 1%N →
   is_ok (get_stake_snapshot (shared_store x) e (cache_partition (stake_cache (cp_finalizer x)))) = false →
   ∃ s, responsible_set (hc_finalizer hc) (shared_store x') (finalizer_view x') =
     Some (s, Err (EpochError "no stake snapshot for the current epoch"))).
Proof.
  intros Hnd Hin Hexp Hne. destruct (ticks_advance roles stake times x Hnd Hin Hexp) as ([Hs Hn] & Hf & Hp).
  destruct (last_tick roles stake times x Hnd Hin Hexp Hne) as [Hf' Hc]. cbv zeta. rewrite Hf' in Hf. split_and!; [congruence|done|].
  intros Hset Hshard Hno. unfold responsible_set. rewrite Hshard. cbn [N.ltb N.compare Pos.compare Pos.compare_cont].
  unfold get_stake_set_for_epoch. rewrite Hset. unfold runs.
  erewrite (step_bind_Ok _ _ _ _ None); [eexists; reflexivity|]. unfold cache_get. cbn [stake_cache finalizer_view fz_epoch].
  rewrite Hc, lookup_empty, Hs, Hp, Hf. unfold is_ok in Hno. by case_match.
Qed.
End safety.

Module ConcreteHost.
Import ConcreteCrypto ConcreteChain ConcreteCommits ConcreteHex ConcreteWasm ConcreteScan ConcreteLeader ConcreteSentinel ConcretePackets.

#[local] Instance error_text : ErrorText.
Proof.
  refine {| text_committer := λ _, "committer"; text_executor := λ _, "executor"; text_finalizer := λ _, "finalizer";
            text_sentinel e := match e with SErrTransactionAlreadyExists _ => "TransactionAlreadyExists" | _ => "sentinel" end |}.
  intros _. by vm_compute.
Defined.

Definition booted : EpochBoundaryDetector := EpochBoundaryDetector_new (mkEpoch 0 300 1 key).
Definition host : HostConfig :=
  mkHostConfig (sn_config node) config key leader_config node ConcreteFinalizer.node 4 booted.
Definition core : CommitState :=
  mkCommitState ∅ Registry_new (mkConflictState CandidateRegistry_new ∅) (mkServices ∅ data) pool0 0 peers.
Definition running : Composite :=
  mkComposite (mkLeaderNode (mkNode core Votes_new buffer []) (Some booted)) start ConcreteFinalizer.fresh ∅ []
    (StakeIndex_new "tokens" 1) (RoleSelector_new (sn_config node)) [] false false.
Definition roles : list NodeRegistryType := [Types.Sentinel; Types.Finalizer].

Lemma roles_NoDup : NoDup roles.
Proof. refine (bool_decide_unpack _ _). by vm_compute. Qed.

(** A frame signed by nobody. *)
Definition unsigned_outer (m : Message) : Message := mkMessage "" "Verify" (encoded (ser_Message m)) [] [] None.
Definition forged (m : Message) : bytes :=
  encoded (ser_NetworkPacket (mkPacket None (Some (encoded (ser_Message (unsigned_outer m)))))).

Lemma forged_says m : wf m → says_to_sentinel (forged m) m.
Proof.
  intros Hm. exists (mkPacket None (Some (encoded (ser_Message (unsigned_outer m))))), (encoded (ser_Message (unsigned_outer m))), (unsigned_outer m).
  refine (conj _ (conj eq_refl (conj eq_refl (conj _ (conj _ (conj eq_refl _)))))).
  - refine (encoded_read (mkPacket None (Some (encoded (ser_Message (unsigned_outer m))))) _). split; [done|apply enc_value_wf].
  - unfold deserialize_rmp_to. pose proof (rmp_round (ser_Message (unsigned_outer m)) _ [] eq_refl) as Hr.
    rewrite app_nil_r in Hr. unfold encoded. by rewrite Hr.
  - refine (encoded_read (unsigned_outer m) _). split_and!; [apply enc_value_wf|constructor|constructor|done].
  - exact (encoded_read m Hm).
Qed.

Lemma claim_wf : wf claim.
Proof. split_and!; [apply enc_value_wf|constructor|refine (bool_decide_unpack _ _); by vm_compute|done]. Qed.

Lemma unsigned_frame_witness : ∃ x', inbound_handler host (mkClock 0 (λ _, 0%N)) roles (forged claim) running = Some x' ∧ sn_epoch (cp_sentinel x') = u64_max.
Proof.
  destruct (unsigned_frame_moves_the_epoch host (mkClock 0 (λ _, 0%N)) roles (forged claim) claim claimed_block running) as (x' & Hx & He & _).
  - exact roles_NoDup.
  - refine (bool_decide_unpack _ _). by vm_compute.
  - exact (forged_says claim claim_wf).
  - reflexivity.
  - by vm_compute.
  - refine (bool_decide_unpack _ _). by vm_compute.
  - exists x'. split; [exact Hx|]. rewrite He. by vm_compute.
Defined.

(** A frame for the Sentinel of a host that stakes enough for every role. *)
Lemma routed_witness :
  let roles := (select (λ _ _, 1000000000%N) (RoleSelector_new (sn_config node))).2 in
  inbound_handler host (mkClock 0 (λ _, 0%N)) roles (forged claim) running =
    fst <$> role_handle host (mkClock 0 (λ _, 0%N)) Types.Sentinel (unsigned_outer claim) running.
Proof.
  destruct (composite_routes_to_the_owner host (mkClock 0 (λ _, 0%N)) (λ _ _, 1000000000%N) (RoleSelector_new (sn_config node))
    (unsigned_outer claim) (encoded (ser_Message (unsigned_outer claim))) (forged claim) running) as (_ & Hin & Ho & _).
  - split_and!; [apply enc_value_wf|constructor|constructor|done].
  - apply enc_value_wf.
  - reflexivity.
  - reflexivity.
  - cbv zeta. rewrite Hin, (Ho Types.Sentinel) by (refine (bool_decide_unpack _ _); by vm_compute).
    rewrite bool_decide_true; [reflexivity|]. refine (bool_decide_unpack _ _). by vm_compute.
Defined.

Lemma overrun_witness :
  let x := ticks host (mkClock 0 (λ _, 0%N)) roles (λ _ _, 5%N) [300; 305; 310]%Z running in
  fz_epoch (cp_finalizer x) = 3%N ∧
  ∃ s, responsible_set ConcreteFinalizer.node (shared_store x) (finalizer_view x) =
     Some (s, Err (EpochError "no stake snapshot for the current epoch")).
Proof.
  destruct (coordinator_overruns_the_finalizer host (mkClock 0 (λ _, 0%N)) roles (λ _ _, 5%N) [300; 305; 310]%Z running) as (He & _ & Hr).
  - exact roles_NoDup.
  - refine (bool_decide_unpack _ _). by vm_compute.
  - repeat constructor.
  - discriminate.
  - split; [exact He|]. apply Hr; by vm_compute.
Defined.
End ConcreteHost.
