(* ===== verification/Ingress.v ===== *)
(** * Transaction ingress (src/src/ingress.rs, node-server/src/node_server/ingress_sink.rs)

    The client-facing endpoint: one request per connection, a bounded head and body,
    the gates on method, path and headers, both signatures, then the sink, which in
    a composite host is its own dispatcher. The texts of wrapped errors are left out
    of the refusals. *)

From S2P Require Import Prelude Steps Utf8 Text Telemetry Interfaces Types Float StakeSets Selection Environment Config Serialize Crypto Transactions Chain.
From S2P Require Import Validation DataProvider Deserialize Wire Tokens Contracts Engines WasmHost Scan NodeRegistry NodeSafety StakeIndex RoleDispatcher.
From S2P Require Import Messages Packets Pool Registry Epoch EpochManager Committer Nullifiers Merkle Roots ShieldedPool OrphanBuffer CommitPipeline.
From S2P Require Import Confirmation Leadership Executor Signatures Finalizer FinalizerSafety Sentinel SentinelSafety NodeServer NodeServerSafety.

Definition MAX_INGRESS_BODY_BYTES : N := 1024 * 1024.
Definition INGRESS_PATH : string := "/v1/transactions".

Inductive IngressError :=
| Malformed (m : string)
| Unauthenticated (m : string)
| Rejected (m : string)
| Duplicate (m : string)
| Unavailable (m : string).

Definition error_status (e : IngressError) : N :=
  match e with
  | Malformed _ => 400
  | Unauthenticated _ => 401
  | Rejected _ => 422
  | Duplicate _ => 409
  | Unavailable _ => 503
  end%N.

Definition error_text (e : IngressError) : string :=
  match e with
  | Malformed m => "malformed submission: " +:+ m
  | Unauthenticated m => "unauthenticated: " +:+ m
  | Rejected m => "rejected by pipeline: " +:+ m
  | Duplicate m => "duplicate: " +:+ m
  | Unavailable m => "unavailable: " +:+ m
  end.

Definition ingress_reason (status : N) : string :=
  match status with
  | 200%N => "OK" | 400%N => "Bad Request" | 401%N => "Unauthorized" | 405%N => "Method Not Allowed" | 409%N => "Conflict"
  | 413%N => "Payload Too Large" | 414%N => "URI Too Long" | 415%N => "Unsupported Media Type"
  | 422%N => "Unprocessable Entity" | 503%N => "Service Unavailable" | _ => "Status"
  end.

(** ** Parsing *)

Definition header_value (headers : bytes) (name : string) : option bytes :=
  head (omap (λ line, '(key, value) ← split_once [58%N] line;
                      if eq_ignore_ascii_case (trim key) (string_bytes name) then Some (trim value) else None) (lines headers)).

(** [char]s below a space are escaped with four digits of hexadecimal. *)
Definition hex_digit (n : N) : N := if N.ltb n 10 then (48 + n)%N else (87 + n)%N.
Definition escape_byte (c : N) : bytes :=
  if N.eqb c 34 then [92; 34]%N
  else if N.eqb c 92 then [92; 92]%N
  else if N.eqb c 10 then [92; 110]%N
  else if N.eqb c 13 then [92; 114]%N
  else if N.eqb c 9 then [92; 116]%N
  else if N.ltb c 32 then [92; 117; 48; 48; hex_digit (c / 16); hex_digit (c mod 16)]%N
  else [c].
Definition json_escape (s : bytes) : bytes := mjoin (escape_byte <$> s).

Definition accepted_json (tx_id : string) : bytes :=
  string_bytes ("{" +:+ quoted "accepted" +:+ ":true," +:+ quoted "tx_id" +:+ ":" +:+ String (Ascii.ascii_of_N 34) "") ++
  json_escape (string_bytes tx_id) ++ [34; 125]%N.

(** ** The handler *)

Section ingress.
Context `{HashIter} `{Rmp} `{Sha256} `{SignaturePrims}.
(** The injected sink, on the state of the node behind it. *)
Context {W : Type} (sink : Message → step W IngressError ()).

Definition process_submission (raw : bytes) : step W IngressError string :=
  message ← of_result (map_err (λ e, Malformed ("undecodable envelope: " +:+ e)) (deserialize_rmp_to Message raw));
  if negb (String.eqb (action message) "Process") then fails (Malformed "ingress accepts only the Process action")
  else
    tx ← of_result (map_err (λ e, Malformed ("undecodable transaction body: " +:+ e)) (deserialize_rmp_to Transaction (body message)));
    if is_nil (tx_sender tx) then fails (Malformed "transaction sender is empty")
    else if String.eqb (tx_id tx) "" then fails (Malformed "transaction id is empty")
    else
      authorized ← of_result (map_err (λ _, Malformed "sender signature check failed") (verify_sender_signature tx));
      if negb authorized then fails (Unauthenticated "sender signature does not verify over the canonical transaction bytes")
      else if negb (bool_decide (msg_public_key message = tx_sender tx)) then
        fails (Unauthenticated "envelope key is not the transaction sender (C3 binding)")
      else
        envelope_ok ← of_result (map_err (λ _, Malformed "envelope signature check failed")
                                   (Ed25519_check_signature (msg_signature message) (msg_public_key message) (body message)));
        if negb envelope_ok then fails (Unauthenticated "envelope signature does not verify over the body")
        else _ ← sink message; mret (tx_id tx).

(** Reads until the declared length is there, the client stops, or a read fails. *)
Fixpoint read_body (n : N) (body : bytes) (s : list read_event) : option bytes :=
  if N.leb n (N.of_nat (length body)) then Some body
  else match s with
       | Chunk b :: rest => read_body n (body ++ b) rest
       | ReadError :: _ => None
       | Eof :: _ | ReadTimeout :: _ | [] => Some body
       end.

Definition declared_body (declared : option N) (body : bytes) (s : list read_event) : option bytes :=
  match declared with
  | None => Some body
  | Some n => take (N.to_nat (N.min n MAX_INGRESS_BODY_BYTES)) <$> read_body n body s
  end.

(** The gates behind the body, in their order. *)
Definition gates (health : HealthState) (method path : string) (headers : bytes) (declared : option N) (body : bytes)
    : option HttpResponse :=
  if negb (String.eqb method "POST") then Some (plain 405 "POST only")
  else if negb (String.eqb path INGRESS_PATH) then Some (plain 404 "not found")
  else if is_stopping health then Some (plain 503 "node is draining")
  else if negb (from_option (λ ct, starts_with (string_bytes "application/msgpack") (to_ascii_lowercase ct)) false
                  (header_value headers "content-type")) then
    Some (plain 415 "content-type must be application/msgpack")
  else match declared with
       | None => Some (plain 400 "content-length required")
       | Some n => if N.ltb (N.of_nat (length body)) n then Some (plain 400 "body shorter than content-length") else None
       end.

Definition count_rejected : Metrics → Metrics := increment "pneumatic_ingress_rejected_total" 1.
Definition count_accepted : Metrics → Metrics := increment "pneumatic_ingress_accepted_total" 1.

(** Decode, authenticate and submit, then answer. A panic of the sink ends the
    connection's task. *)
Definition submit (body : bytes) (m : Metrics) (w : W) : may_panic (W * Metrics * option HttpResponse) :=
  '(w, r) ← process_submission body w;
  Some match r with
       | Ok id => (w, count_accepted m, Some (mkHttp 200 "application/json" (accepted_json id)))
       | Err e => (w, count_rejected m, Some (mkHttp (error_status e) "text/plain" (string_bytes (error_text e))))
       end.

Definition serve_head (health : HealthState) (buf : bytes) (rest : list read_event) (m : Metrics) (w : W)
    : may_panic (W * Metrics * option HttpResponse) :=
  let head := lossy (length buf) buf in
  let '(request_line, headers) := default (head, []) (split_once crlf head) in
  match request_target request_line with
  | None => Some (w, m, Some (plain 400 "malformed request line"))
  | Some (method, path) =>
      let declared := header_value headers "content-length" ≫= λ v, parse_usize (trim v) in
      if from_option (N.ltb MAX_INGRESS_BODY_BYTES) false declared then
        Some (w, count_rejected m, Some (plain 413 "body exceeds the ingress cap"))
      else
        let head_len := from_option (λ i, i + 4) (length buf) (find_sub crlf2 head) in
        match declared_body declared (drop (Nat.min head_len (length buf)) buf) rest with
        | None => Some (w, m, None)
        | Some body =>
            match gates health method path headers declared body with
            | Some refusal => Some (w, count_rejected m, Some refusal)
            | None => submit body m w
            end
        end
  end.

Definition serve_ingress (health : HealthState) (s : list read_event) (m : Metrics) (w : W)
    : may_panic (W * Metrics * option HttpResponse) :=
  match read_head [] s with
  | HeadDropped => Some (w, m, None)
  | HeadTooLarge => Some (w, m, Some (plain 414 "head too large"))
  | HeadRead buf rest => serve_head health buf rest m w
  end.
End ingress.

(** ** The sink of a composite host *)

Section sink.
Context `{Poseidon} `{!Pallas} `{!Halo2} `{HashIter} `{Rmp} `{Sha256} `{StdRng} `{Hex} `{SignaturePrims} `{Wasmi} `{WasmParser}.
Context `{DataProvider} `{ErrorText} (hc : HostConfig) (now : Clock) (roles : list NodeRegistryType).

Definition map_role_error (e : RoleError) : IngressError :=
  match e with
  | UnknownAction _ => Unavailable "no installed role owns the action"
  | AmbiguousAction _ _ => Unavailable "the action is claimed by multiple installed roles"
  | Downstream (Network s) => if contains_sub duplicate_marker (string_bytes s) then Duplicate s else Rejected s
  | Downstream _ => Rejected "downstream"
  end.

(** Signed with the identity the node's peers know. *)
Definition ingress_sink (inner : Message) : step Composite IngressError () := λ x,
  let env := main_environment_id (hc_config hc) in
  if negb (String.eqb (chain_id inner) env) then Some (x, Err (Rejected "chain id is not this node's environment"))
  else
    match rmp_enc (ser_Message inner) with
    | Err e => Some (x, Err (Rejected ("re-encoding the submission failed: " +:+ e)))
    | Ok b =>
        match signed_message (h_signer (sn_host (hc_sentinel hc))) env "Verify" b None with
        | Err _ => Some (x, Err (Rejected "signing the relay envelope failed"))
        | Ok outer => '(x, r) ← server_dispatch hc now roles outer x; Some (x, map_err map_role_error r)
        end
    end.
End sink.

(** ** A request in pieces *)

Lemma split_byte_nonempty c b : split_byte c b ≠ [].
Proof. destruct b as [|x b]; cbn; [done|]. by repeat case_match. Qed.

Lemma split_byte_app c a b : split_byte c (a ++ c :: b) = split_byte c a ++ split_byte c b.
Proof.
  induction a as [|x a IH]; cbn [app split_byte]; [by rewrite N.eqb_refl|].
  rewrite IH. destruct (N.eqb x c); [done|]. pose proof (split_byte_nonempty c a). by destruct (split_byte c a).
Qed.

(** What follows an end of line does not change the lines before it. *)
Lemma lines_app a b : lines (a ++ 10%N :: b) = (strip_cr <$> split_byte 10 a) ++ lines b.
Proof.
  unfold lines. rewrite split_byte_app. pose proof (split_byte_nonempty 10 b) as Hne.
  rewrite removelast_app, fmap_app by done. rewrite last_app.
  destruct (last (split_byte 10 b)) as [[|x y]|] eqn:E; [done|by rewrite app_assoc|].
  by apply last_None in E.
Qed.

Lemma header_value_app a b name v :
  header_value (a ++ [10%N]) name = Some v → header_value (a ++ 10%N :: b) name = Some v.
Proof.
  unfold header_value. rewrite !lines_app, !omap_app. destruct (omap _ (strip_cr <$> split_byte 10 a)); [done|]. done.
Qed.

Section requests.
Context `{HashIter} `{Rmp} `{Sha256} `{SignaturePrims} {W : Type} (sink : Message → step W IngressError ()).

(** A complete body, however it arrives behind the part that came with the head. *)
Lemma read_body_segmented n got chunks tail b :
  got ++ concat chunks = b → N.of_nat (length b) = n → read_body n got ((Chunk <$> chunks) ++ tail) = Some b.
Proof.
  intros Hb Hn. revert got Hb. induction chunks as [|c chunks IH]; intros got Hb.
  - rewrite app_nil_r in Hb. subst got. destruct tail; cbn [fmap list_fmap app read_body]; by rewrite (proj2 (N.leb_le _ _)) by lia.
  - cbn [fmap list_fmap app read_body concat] in *. destruct (N.leb_spec n (N.of_nat (length got))) as [Hle|Hlt].
    + f_equal. assert (c ++ concat chunks = []) as Hnil; [|by rewrite Hnil, app_nil_r in Hb].
      apply (f_equal length) in Hb. rewrite length_app in Hb. apply length_zero_iff_nil. lia.
    + apply IH. by rewrite <-app_assoc.
Qed.

(** A request the endpoint is for: a head of text with a request line, that ends in
    the first empty line, declares the length of the body and its type. *)
Record good_request (line headers b : bytes) : Prop := {
  good_text : utf8_valid (length (line ++ crlf ++ headers)) (line ++ crlf ++ headers) = true;
  good_line : find_sub crlf (line ++ crlf ++ headers) = Some (length line);
  good_end : find_sub crlf2 ((line ++ crlf ++ headers) ++ crlf2) = Some (length (line ++ crlf ++ headers));
  good_size : length (line ++ crlf ++ headers) + 3 ≤ MAX_HEAD_BYTES;
  good_target : request_target line = Some ("POST", INGRESS_PATH);
  good_length : ∃ v, header_value (headers ++ crlf) "content-length" = Some v ∧ parse_usize (trim v) = Some (N.of_nat (length b));
  good_body : (N.of_nat (length b) ≤ MAX_INGRESS_BODY_BYTES)%N;
  good_type : ∃ ct, header_value (headers ++ crlf) "content-type" = Some ct ∧
    starts_with (string_bytes "application/msgpack") (to_ascii_lowercase ct) = true;
}.

Lemma good_header headers L name v :
  header_value (headers ++ crlf) name = Some v → header_value (headers ++ crlf2 ++ L) name = Some v.
Proof.
  intros Hv. replace (headers ++ crlf2 ++ L) with ((headers ++ [13%N]) ++ 10%N :: crlf ++ L) by (by rewrite <-app_assoc).
  apply header_value_app. by rewrite <-app_assoc.
Qed.

(** What the handler makes of the head's buffer with some of the body behind it. *)
Lemma serve_good_head line headers b health j chunks tail m w :
  good_request line headers b → is_stopping health = false → concat chunks = drop j b →
  serve_head sink health ((line ++ crlf ++ headers) ++ crlf2 ++ take j b) ((Chunk <$> chunks) ++ tail) m w = submit sink b m w.
Proof.
  intros [Ht Hl He Hs Hr (v & Hv & Hn) Hb (ct & Hct & Hty)] Hstop Hrest. unfold serve_head. set (hd := line ++ crlf ++ headers) in *.
  set (L := lossy (length (take j b)) (take j b)).
  assert (lossy (length (hd ++ crlf2 ++ take j b)) (hd ++ crlf2 ++ take j b) = hd ++ crlf2 ++ L) as ->.
  { rewrite lossy_app by done. by f_equal. }
  assert (split_once crlf (hd ++ crlf2 ++ L) = Some (line, headers ++ crlf2 ++ L)) as ->.
  { unfold split_once. rewrite (find_sub_app _ _ _ _ Hl). cbn [fmap option_fmap option_map].
    unfold hd. by rewrite <-!app_assoc, take_app_length, drop_app_add. }
  cbn [default from_option id]. rewrite Hr, (good_header _ _ _ _ Hv). cbn [mbind option_bind]. rewrite Hn. cbn [from_option].
  rewrite (proj2 (N.ltb_ge _ _)) by done. rewrite (app_assoc hd crlf2 L), (find_sub_app _ _ _ _ He). cbn [from_option].
  change 4 with (length crlf2). rewrite (app_assoc hd crlf2), <-length_app, Nat.min_l by (rewrite (length_app (hd ++ crlf2)); lia).
  rewrite drop_app_length. unfold declared_body.
  rewrite (read_body_segmented _ _ chunks tail b) by (done || by rewrite Hrest, take_drop). cbn [fmap option_fmap option_map].
  rewrite take_ge by lia. unfold gates. rewrite (good_header _ _ _ _ Hct), Hstop. cbn [from_option]. rewrite Hty.
  by rewrite N.ltb_irrefl.
Qed.

(** However the network cuts a well-formed request into reads, and whatever comes
    after it, the endpoint submits exactly the declared body and answers with the
    outcome. *)
Lemma segmented_request_serves line headers b chunks tail health m w :
  good_request line headers b → concat chunks = (line ++ crlf ++ headers) ++ crlf2 ++ b → is_stopping health = false →
  serve_ingress sink health ((Chunk <$> chunks) ++ tail) m w = submit sink b m w.
Proof.
  intros Hgood Hreq Hstop. pose proof Hgood as [_ _ He Hs _ _ _ _]. unfold serve_ingress.
  set (hd := line ++ crlf ++ headers) in *.
  assert (find_sub crlf2 (hd ++ crlf2 ++ b) = Some (length hd)) as Hi by (rewrite app_assoc; by apply find_sub_app).
  destruct (read_head_segmented (length hd) chunks [] (hd ++ crlf2 ++ b) tail) as (k & chunks' & -> & Hk & Hle & Hrest); [done..|].
  assert (k = length hd + (length crlf2 + (k - length hd - 4))) as Hk' by (cbn; lia). rewrite Hk' in Hrest |- *.
  rewrite take_app_add, take_app_add. rewrite drop_app_add, drop_app_add in Hrest. by apply serve_good_head.
Qed.
End requests.

(** ** The endpoint and the Sentinel behind it *)

Section edge.
Context `{Poseidon} `{!Pallas} `{!Halo2} `{HashIter} `{Rmp} `{Sha256} `{StdRng} `{Hex} `{SignaturePrims} `{Wasmi} `{WasmParser}.
Context `{DataProvider} `{ErrorText} (hc : HostConfig) (now : Clock) (roles : list NodeRegistryType).

(** What the edge has checked of a submission when it hands it on. *)
Definition edge_checked (m : Message) (tx : Transaction) : Prop :=
  action m = "Process" ∧ authentic m tx ∧ tx_id tx ≠ "" ∧
  Ed25519_check_signature (msg_signature m) (msg_public_key m) (body m) = Ok true.

Lemma checked_reaches_sink {W} (sink : Message → step W IngressError ()) raw m tx w :
  deserialize_rmp_to Message raw = Ok m → edge_checked m tx →
  process_submission sink raw w = (_ ← sink m; mret (tx_id tx)) w.
Proof.
  intros Hm (Ha & (Ht & Hs & Hv & Hk) & Hid & He). unfold process_submission. rewrite Hm. erewrite step_bind_Ok by reflexivity.
  rewrite Ha. cbn [String.eqb Ascii.eqb Bool.eqb negb]. rewrite Ht. erewrite step_bind_Ok by reflexivity.
  destruct (tx_sender tx) eqn:Hsd; [done|]. cbn [is_nil]. rewrite (proj2 (String.eqb_neq _ _)) by done.
  rewrite Hv. erewrite step_bind_Ok by reflexivity. cbn [negb]. rewrite bool_decide_true by done. cbn [negb].
  rewrite He. by erewrite step_bind_Ok by reflexivity.
Qed.

(** A refusal at the edge. *)
Ltac refused := right; eexists; split; [reflexivity|cbn; set_solver].

Lemma unchecked_is_refused {W} (sink : Message → step W IngressError ()) raw w :
  (∃ m tx, deserialize_rmp_to Message raw = Ok m ∧ edge_checked m tx) ∨
  ∃ e, process_submission sink raw w = Some (w, Err e) ∧ error_status e ∈ [400; 401]%N.
Proof.
  unfold process_submission. destruct (deserialize_rmp_to Message raw) as [m|]; [|refused]. erewrite step_bind_Ok by reflexivity.
  destruct (String.eqb_spec (action m) "Process") as [Ha|]; cbn [negb]; [|refused].
  destruct (deserialize_rmp_to Transaction (body m)) as [tx|] eqn:Ht; [|refused]. erewrite step_bind_Ok by reflexivity.
  destruct (tx_sender tx) eqn:Hs; cbn [is_nil]; [refused|]. destruct (String.eqb_spec (tx_id tx) "") as [|Hid]; [refused|].
  destruct (verify_sender_signature tx) as [[]|] eqn:Hv; [|refused..]. erewrite step_bind_Ok by reflexivity. cbn [negb].
  case_bool_decide as Hk; cbn [negb]; [|refused]. destruct (Ed25519_check_signature _ _ _) as [[]|] eqn:He; [|refused..].
  left. exists m, tx. split; [done|]. unfold edge_checked, authentic. split_and!; (done || congruence).
Qed.

(** A sink that takes everything tells the two cases apart. *)
Lemma checked_or_not raw :
  (∃ m tx, deserialize_rmp_to Message raw = Ok m ∧ edge_checked m tx) ∨ ¬ ∃ m tx, deserialize_rmp_to Message raw = Ok m ∧ edge_checked m tx.
Proof.
  destruct (unchecked_is_refused (W:=unit) (λ _, mret ()) raw ()) as [|(e & He & _)]; [by left|right].
  intros (m & tx & Hm & Hc). by rewrite (checked_reaches_sink _ _ _ _ _ Hm Hc) in He.
Qed.

Abbreviation host_env := (main_environment_id (hc_config hc)).
Abbreviation relay b := (signed_message (h_signer (sn_host (hc_sentinel hc))) host_env "Verify" b None).

Lemma sink_runs raw m b x :
  NoDup roles → Types.Sentinel ∈ roles → deserialize_rmp_to Message raw = Ok m → action m = "Process" → chain_id m = host_env →
  rmp_enc (ser_Message m) = Ok b → is_ok (relay b) = true →
  ingress_sink hc now roles m x =
    ('(s, r) ← handle_process_request (hc_sentinel hc) (shared_store x) m (sentinel_view x);
     Some (put_sentinel s x, map_err (λ e, map_role_error (downstream (text_sentinel e))) r)).
Proof.
  intros Hnd Hs Hm Ha Hc Hb Ho. unfold ingress_sink. rewrite Hc, String.eqb_refl, Hb. cbn [negb].
  destruct (relay b) as [outer|] eqn:Hr; [|done].
  assert (action outer = "Verify" ∧ body outer = b) as [Hv Hbo].
  { revert Hr. unfold signed_message. destruct (sign_data _ _); [|done]. cbn. destruct (public_key _); [|done]. cbn. by intros [= <-]. }
  rewrite NodeServerSafety.routes by done. rewrite Hv. replace (action_owner "Verify") with (Some Types.Sentinel) by done.
  rewrite bool_decide_true by done.
  cbn [role_handle build_role_plugin sentinel_host host_handle]. unfold sentinel_handle, on_data_received. rewrite Hbo.
  rewrite (read_message_travels raw m b Hm Hb). erewrite step_bind_Ok by reflexivity. unfold on_message. rewrite Ha.
  cbn [String.eqb Ascii.eqb Bool.eqb orb]. by destruct (handle_process_request _ _ _ _) as [[s []]|].
Qed.

(** What the sink asks of a submission before it dispatches it. *)
Definition relayed (m : Message) : Prop :=
  Types.Sentinel ∈ roles ∧ chain_id m = host_env ∧ ∃ b, rmp_enc (ser_Message m) = Ok b ∧ is_ok (relay b) = true.

Lemma sink_refuses m x :
  NoDup roles →
  relayed m ∨ ¬ relayed m ∧ ∃ e, ingress_sink hc now roles m x = Some (x, Err e) ∧ error_status e ∈ [422; 503]%N.
Proof.
  intros Hnd. unfold ingress_sink, relayed.
  destruct (String.eqb_spec (chain_id m) host_env) as [Hc|Hc]; [|right; split; [tauto|eexists; split; [reflexivity|cbn; set_solver]]].
  cbn [negb]. destruct (rmp_enc (ser_Message m)) as [b'|] eqn:Hb;
    [|right; split; [by intros (_ & _ & b & Hx & _)|eexists; split; [reflexivity|cbn; set_solver]]].
  destruct (relay b') as [outer|] eqn:Hr;
    [|right; split; [intros (_ & _ & b & [= <-] & Hx); by rewrite Hr in Hx|eexists; split; [reflexivity|cbn; set_solver]]].
  destruct (decide (Types.Sentinel ∈ roles)) as [Hs|Hs]; [left; split_and!; [done|done|]; exists b'; by rewrite Hr|].
  assert (action outer = "Verify") as Hv.
  { revert Hr. unfold signed_message. destruct (sign_data _ _); [|done]. cbn. destruct (public_key _); [|done]. cbn. by intros [= <-]. }
  rewrite NodeServerSafety.routes by done. rewrite Hv. replace (action_owner "Verify") with (Some Types.Sentinel) by done.
  rewrite bool_decide_false by done. right. split; [tauto|]. eexists. split; [reflexivity|cbn; set_solver].
Qed.

(** A body the Sentinel gets to see, and the answer it gives then. *)
Definition admissible (raw : bytes) (m : Message) (tx : Transaction) : Prop :=
  deserialize_rmp_to Message raw = Ok m ∧ edge_checked m tx ∧ relayed m.

Definition refusal (e : IngressError) : HttpResponse := mkHttp (error_status e) "text/plain" (string_bytes (error_text e)).

Lemma not_ok_status e : error_status e = 200%N → False.
Proof. by destruct e. Qed.

Definition sentinel_answers (m : Message) (tx : Transaction) (metrics : Metrics) (x : Composite)
    : may_panic (Composite * Metrics * option HttpResponse) :=
  '(s, r) ← handle_process_request (hc_sentinel hc) (shared_store x) m (sentinel_view x);
  Some match r with
       | Ok _ => (put_sentinel s x, count_accepted metrics, Some (mkHttp 200 "application/json" (accepted_json (tx_id tx))))
       | Err e => (put_sentinel s x, count_rejected metrics, Some (refusal (map_role_error (downstream (text_sentinel e)))))
       end.

Lemma admissible_is_answered raw m tx metrics x :
  NoDup roles → admissible raw m tx → submit (ingress_sink hc now roles) raw metrics x = sentinel_answers m tx metrics x.
Proof.
  intros Hnd (Hm & Hc & Hs & Hch & b & Hb & Hr). unfold submit, sentinel_answers. rewrite (checked_reaches_sink _ _ _ _ _ Hm Hc).
  pose proof (sink_runs raw m b x Hnd Hs Hm (proj1 Hc) Hch Hb Hr) as Hrun. destruct (handle_process_request _ _ _ _) as [[s [[]|e]]|].
  - by erewrite step_bind_Ok by exact Hrun.
  - by erewrite step_bind_Err by exact Hrun.
  - unfold mbind at 2, step_bind. by rewrite Hrun.
Qed.

Lemma inadmissible_is_refused raw metrics x :
  NoDup roles →
  (∃ m tx, admissible raw m tx) ∨
  (¬ ∃ m tx, admissible raw m tx) ∧
    ∃ e, submit (ingress_sink hc now roles) raw metrics x = Some (x, count_rejected metrics, Some (refusal e)) ∧
      error_status e ∈ [400; 401; 422; 503]%N.
Proof.
  intros Hnd. destruct (checked_or_not raw) as [(m & tx & Hm & Hc)|Hno].
  - destruct (sink_refuses m x Hnd) as [Hr|(Hr & e & He & Hst)]; [left; by exists m, tx|]. right. split.
    + intros (m' & tx' & Hm' & _ & Hr'). rewrite Hm in Hm'. by injection Hm' as <-.
    + exists e. split; [|set_solver]. unfold submit. rewrite (checked_reaches_sink _ _ _ _ _ Hm Hc). by erewrite step_bind_Err by exact He.
  - right. split; [intros (m & tx & Hm & Hc & _); apply Hno; by exists m, tx|].
    destruct (unchecked_is_refused (ingress_sink hc now roles) raw x) as [|(e & He & Hst)]; [done|].
    exists e. split; [|set_solver]. unfold submit. by rewrite He.
Qed.

(** C14: a well-formed request, however the network cuts it, is answered with [200]
    exactly when its body is a submission on which both signatures hold for one
    key, which names this chain and can be relayed to an installed Sentinel, and
    that Sentinel's handler succeeds on it. The node's state is then what the
    handler left, and the answer names the transaction. If the handler fails, its
    error is the answer; a body the Sentinel does not get to see is refused with
    400, 401, 422 or 503, and the state stays as it was. *)
Theorem ingress_submits_to_the_sentinel line headers raw chunks tail health metrics x :
  NoDup roles → good_request line headers raw → concat chunks = (line ++ crlf ++ headers) ++ crlf2 ++ raw → is_stopping health = false →
  let answer := serve_ingress (ingress_sink hc now roles) health ((Chunk <$> chunks) ++ tail) metrics x in
  (∀ m tx, admissible raw m tx → answer = sentinel_answers m tx metrics x) ∧
  ((¬ ∃ m tx, admissible raw m tx) →
     ∃ e, answer = Some (x, count_rejected metrics, Some (refusal e)) ∧ error_status e ∈ [400; 401; 422; 503]%N) ∧
  ((∃ x' metrics' rsp, answer = Some (x', metrics', Some rsp) ∧ status rsp = 200%N) ↔
     ∃ m tx s, admissible raw m tx ∧
       handle_process_request (hc_sentinel hc) (shared_store x) m (sentinel_view x) = Some (s, Ok ())).
Proof.
  intros Hnd Hgood Hreq Hstop answer. assert (answer = submit (ingress_sink hc now roles) raw metrics x) as Ha
    by (by eapply segmented_request_serves).
  clearbody answer. split_and!.
  - intros m tx Hadm. rewrite Ha. by apply admissible_is_answered.
  - intros Hno. destruct (inadmissible_is_refused raw metrics x Hnd) as [Hyes|(_ & e & He & Hst)]; [done|]. exists e. by rewrite Ha.
  - split.
    + intros (x' & mt & rsp & He & H200). destruct (inadmissible_is_refused raw metrics x Hnd) as [(m & tx & Hadm)|(_ & e & Hr & Hst)].
      * rewrite Ha, (admissible_is_answered raw m tx) in He by done. unfold sentinel_answers in He. exists m, tx.
        destruct (handle_process_request _ _ _ _) as [[s [[]|e]]|]; [by exists s| |done]. cbn [mbind option_bind] in He. injection He as _ _ <-.
        unfold refusal in H200. cbn [status] in H200. by apply not_ok_status in H200.
      * rewrite Ha, Hr in He. injection He as _ _ <-. unfold refusal in H200. cbn [status] in H200. rewrite H200 in Hst. set_solver.
    + intros (m & tx & s & Hadm & Hh). rewrite Ha, (admissible_is_answered raw m tx) by done. unfold sentinel_answers. rewrite Hh. cbn. by eauto.
Qed.

Lemma refused_is_taken raw m tx e b x :
  NoDup roles → Types.Sentinel ∈ roles → deserialize_rmp_to Message raw = Ok m → edge_checked m tx →
  chain_id m = host_env → rmp_enc (ser_Message m) = Ok b → is_ok (relay b) = true →
  validate_transaction (hc_sentinel hc) (shared_store x) tx = Some (Err e) →
  transactions (shared_pending x) !! tx_id tx = None →
  ∃ x', process_submission (ingress_sink hc now roles) raw x = Some (x', Ok (tx_id tx)) ∧ shared_pending x' = shared_pending x.
Proof.
  intros Hnd Hin Hm Hc Hch Hb Hsig Hval Hnew. rewrite (checked_reaches_sink _ _ _ _ _ Hm Hc).
  pose proof (sink_runs raw m b x Hnd Hin Hm (proj1 Hc) Hch Hb Hsig) as Hrun.
  rewrite (authentic_runs _ _ m tx) in Hrun by apply Hc.
  erewrite (step_bind_Ok (of_panic _) _ _ _ (Err e)) in Hrun by (unfold of_panic; by rewrite Hval).
  erewrite step_bind_Ok by exact Hrun. eexists. split; [reflexivity|].
  unfold get_transaction_mut. cbn [sentinel_view sn_pending put_nodes Sentinel.put_pending]. rewrite Hnew.
  unfold shared_pending, cp_core, ln_core. by destruct x as [[[[]]]].
Qed.

(** A transaction the rules refuse is answered [200] with [accepted]: the Sentinel
    tries to mark it failed and reports success, although nothing of it is kept when
    its id is new. *)
Theorem refused_transaction_is_answered_accepted raw m tx e b metrics x :
  NoDup roles → Types.Sentinel ∈ roles → deserialize_rmp_to Message raw = Ok m → edge_checked m tx →
  chain_id m = host_env → rmp_enc (ser_Message m) = Ok b → is_ok (relay b) = true →
  validate_transaction (hc_sentinel hc) (shared_store x) tx = Some (Err e) →
  transactions (shared_pending x) !! tx_id tx = None →
  ∃ x', submit (ingress_sink hc now roles) raw metrics x =
    Some (x', count_accepted metrics, Some (mkHttp 200 "application/json" (accepted_json (tx_id tx)))) ∧
    shared_pending x' = shared_pending x.
Proof.
  intros Hnd Hin Hm Hc Hch Hb Hsig Hval Hnew.
  destruct (refused_is_taken raw m tx e b x) as (x' & Hp & Hsame); [done..|]. exists x'. unfold submit. by rewrite Hp.
Qed.
End edge.

Module ConcreteIngress.
Import ConcreteCrypto ConcreteChain ConcreteCommits ConcreteHex ConcreteWasm ConcreteScan ConcreteLeader ConcreteSentinel ConcretePackets ConcreteHost.
#[local] Existing Instance error_text.

Definition line : bytes := string_bytes "POST /v1/transactions HTTP/1.1".
Definition headers : bytes := string_bytes "Content-Type: application/msgpack" ++ crlf ++ string_bytes "content-length: 3".
Definition posted : bytes := [1; 2; 255]%N.

Lemma request_good : good_request line headers posted.
Proof.
  split.
  - by vm_compute.
  - by vm_compute.
  - by vm_compute.
  - apply Nat.leb_le. by vm_compute.
  - by vm_compute.
  - exists [51%N]. split; by vm_compute.
  - by vm_compute.
  - exists (string_bytes "application/msgpack"). split; by vm_compute.
Qed.

(** Cut inside the empty line. *)
Definition pieces : list bytes :=
  [line ++ crlf; headers ++ [13; 10; 13]%N; [10; 1]%N; [2; 255]%N].

Lemma segmented_witness :
  serve_ingress (λ _, mret ()) (HealthState_new "node" "0.1.0") ((Chunk <$> pieces) ++ [Eof]) Metrics_new () =
  submit (λ _, mret ()) posted Metrics_new ().
Proof.
  refine (segmented_request_serves (λ _, mret ()) line headers posted pieces [Eof] (HealthState_new "node" "0.1.0") Metrics_new () request_good _ _); reflexivity.
Defined.

(** A signed submission of the transaction without an amount. *)
Definition invalid_body : bytes := encoded (ser_Transaction invalid).
Definition invalid_message : Message :=
  mkMessage "env" "Process" invalid_body (ok_or [] (sign_data ConcreteNodes.signer invalid_body)) key None.

Lemma invalid_wf : wf invalid_message.
Proof. split_and!; [apply enc_value_wf|refine (bool_decide_unpack _ _); by vm_compute|refine (bool_decide_unpack _ _); by vm_compute|done]. Qed.

Lemma invalid_checked : edge_checked invalid_message invalid.
Proof. unfold edge_checked, authentic. split_and!; by vm_compute. Qed.

Lemma sentinel_installed : Types.Sentinel ∈ roles.
Proof. refine (bool_decide_unpack _ _). by vm_compute. Qed.

Abbreviation host_sink := (ingress_sink host (mkClock 0 (λ _, 0%N)) roles).

Lemma invalid_refused : ∃ e, validate_transaction node data invalid = Some (Err e).
Proof.
  assert (match validate_transaction node data invalid with Some (Err _) => true | _ => false end = true) as Hv by (by vm_compute).
  destruct (validate_transaction node data invalid) as [[|e]|]; [discriminate Hv|by exists e|discriminate Hv].
Qed.

Lemma encodes v : rmp_enc v = Ok (encoded v).
Proof. done. Qed.
Lemma relays b : is_ok (signed_message (h_signer (sn_host (hc_sentinel host))) "env" "Verify" b None) = true.
Proof. done. Qed.

Lemma answered_accepted_witness :
  ∃ x', submit host_sink (encoded (ser_Message invalid_message)) Metrics_new running =
    Some (x', count_accepted Metrics_new, Some (mkHttp 200 "application/json" (accepted_json "tx"))) ∧
    shared_pending x' = shared_pending running.
Proof.
  destruct invalid_refused as [e He].
  exact (refused_transaction_is_answered_accepted host (mkClock 0 (λ _, 0%N)) roles (encoded (ser_Message invalid_message)) invalid_message
    invalid e (encoded (ser_Message invalid_message)) Metrics_new running roles_NoDup sentinel_installed
    (encoded_read invalid_message invalid_wf) invalid_checked eq_refl (encodes _) (relays _) He eq_refl).
Defined.

(** The submission in a request of its own, in two pieces. *)
Definition submission_body : bytes := encoded (ser_Message invalid_message).
Definition submission_headers : bytes :=
  string_bytes "Content-Type: application/msgpack" ++ crlf ++ string_bytes ("content-length: " +:+ pretty (length submission_body)).

Lemma invalid_admissible : admissible host roles submission_body invalid_message invalid.
Proof.
  split; [exact (encoded_read invalid_message invalid_wf)|]. split; [exact invalid_checked|]. split; [exact sentinel_installed|].
  split; [reflexivity|]. exists submission_body. exact (conj (encodes _) (relays _)).
Qed.

Lemma submission_good : good_request line submission_headers submission_body.
Proof.
  split.
  - by vm_compute.
  - by vm_compute.
  - by vm_compute.
  - apply Nat.leb_le. by vm_compute.
  - by vm_compute.
  - exists (string_bytes (pretty (length submission_body))). split; by vm_compute.
  - by vm_compute.
  - exists (string_bytes "application/msgpack"). split; by vm_compute.
Qed.

Lemma submits_witness :
  let reads := [Chunk (line ++ crlf ++ submission_headers); Chunk (crlf2 ++ submission_body); Eof] in
  ∃ x' metrics' rsp, serve_ingress host_sink (HealthState_new "node" "0.1.0") reads Metrics_new running = Some (x', metrics', Some rsp) ∧
    status rsp = 200%N.
Proof.
  destruct invalid_refused as [e He].
  destruct (ingress_submits_to_the_sentinel host (mkClock 0 (λ _, 0%N)) roles line submission_headers submission_body
    [line ++ crlf ++ submission_headers; crlf2 ++ submission_body] [Eof] (HealthState_new "node" "0.1.0") Metrics_new running
    roles_NoDup submission_good) as (_ & _ & H200).
  - cbn [concat]. by rewrite app_nil_r.
  - reflexivity.
  - apply H200. exists invalid_message, invalid. eexists. split; [exact invalid_admissible|].
    rewrite (authentic_runs node data invalid_message invalid) by apply invalid_checked.
    by erewrite (step_bind_Ok (of_panic _) _ _ _ (Err e)) by (unfold of_panic; by rewrite He).
Defined.
End ConcreteIngress.
