(* ===== verification/Client.v ===== *)
(** * The transaction client (client/src/lib.rs)

    A sender signs a transaction, wraps it in the envelope the network expects and
    posts it to a node's ingress; the answer is read with a parser of the one JSON
    shape that the ingress writes. The connection is a step on the state behind it.
    The texts of errors are their fixed parts. *)

From S2P Require Import Prelude Steps Utf8 Text Telemetry Interfaces Types StakeSets Serialize Crypto Transactions Chain.
From S2P Require Import Validation Deserialize Wire Messages Packets SentinelSafety NodeServerSafety Ingress.
From stdpp Require Import pretty.

Inductive ClientError :=
| Transport (m : string)
| ClientRejected (status : N) (reason : bytes)
| BadResponse (m : string).

(** ** One response shape *)

Inductive json_value := VString (s : bytes) | VBool (b : bool).
Definition JsonObject : Type := list (bytes * json_value).
Definition json_get (o : JsonObject) (key : bytes) : option json_value :=
  snd <$> List.find (λ kv, bool_decide (kv.1 = key)) o.
Definition json_as_str (v : json_value) : option bytes := match v with VString s => Some s | VBool _ => None end.

(** [u32::from_str_radix] at 16, on at most four characters, and [String::push] of a
    character below 2^16. *)
Definition hex_value (c : N) : option N :=
  if Utf8.between 48 57 c then Some (c - 48)%N
  else if Utf8.between 65 70 c then Some (c - 55)%N
  else if Utf8.between 97 102 c then Some (c - 87)%N else None.
Fixpoint hex_digits (acc : N) (b : bytes) : option N :=
  match b with [] => Some acc | c :: b => d ← hex_value c; hex_digits (acc * 16 + d) b end.
Definition from_str_radix_16 (b : bytes) : option N :=
  match b with
  | [] => None
  | c :: r => if N.eqb c 43 then match r with [] => None | _ => hex_digits 0 r end else hex_digits 0 b
  end.
Definition encode_char (c : N) : option bytes :=
  if N.ltb c 128 then Some [c]
  else if N.ltb c 2048 then Some [192 + c / 64; 128 + c mod 64]%N
  else if Utf8.between 55296 57343 c then None
  else Some [224 + c / 4096; 128 + (c / 64) mod 64; 128 + c mod 64]%N.

(** The body of a string: the escapes that the server writes. A character that is no
    ASCII is copied byte by byte. *)
Fixpoint unescape (fuel : nat) (b : bytes) : option bytes :=
  match fuel, b with
  | S fuel, c :: b =>
      if negb (N.eqb c 92) then (c ::.) <$> unescape fuel b
      else match b with
           | [] => None
           | e :: b =>
               if N.eqb e 34 then (34%N ::.) <$> unescape fuel b
               else if N.eqb e 92 then (92%N ::.) <$> unescape fuel b
               else if N.eqb e 110 then (10%N ::.) <$> unescape fuel b
               else if N.eqb e 114 then (13%N ::.) <$> unescape fuel b
               else if N.eqb e 116 then (9%N ::.) <$> unescape fuel b
               else if N.eqb e 117 then
                 cp ← from_str_radix_16 (take 4 b); ch ← encode_char cp; (ch ++.) <$> unescape fuel (drop 4 b)
               else None
           end
  | _, _ => Some []
  end.

Definition strip_prefix (c : N) (b : bytes) : option bytes := match b with x :: r => if N.eqb x c then Some r else None | [] => None end.
Definition strip_suffix (c : N) (b : bytes) : option bytes := if bool_decide (last b = Some c) then Some (removelast b) else None.

Definition unquote (raw : bytes) : option bytes :=
  inner ← strip_prefix 34 raw; inner ← strip_suffix 34 inner; unescape (length inner) inner.

(** The position of the quote that closes the string, counted from the string's own. *)
Fixpoint closing_quote (i : nat) (b : bytes) : option nat :=
  match b with
  | [] => None
  | c :: r =>
      if N.eqb c 92 then match r with [] => None | _ :: r => closing_quote (i + 2) r end
      else if N.eqb c 34 then Some i
      else closing_quote (S i) r
  end.
Definition find_string_end (s : bytes) : option nat :=
  match s with c :: r => if N.eqb c 34 then closing_quote 1 r else None | [] => None end.

Definition parse_value (rest : bytes) : result string (json_value * bytes) :=
  if starts_with (string_bytes "true") rest then Ok (VBool true, drop 4 rest)
  else if starts_with (string_bytes "false") rest then Ok (VBool false, drop 5 rest)
  else
    e ← ok_or "unterminated string value" (find_string_end rest);
    s ← ok_or "value not a JSON string" (unquote (take (e + 1) rest));
    Ok (VString s, drop (e + 1) rest).

(** Every turn takes a colon: the length is enough turns. *)
Fixpoint parse_fields (fuel : nat) (fields : JsonObject) (rest : bytes) : result string JsonObject :=
  match fuel with
  | O => Err "out of turns"
  | S fuel =>
      let rest := trim_start rest in
      '(key_raw, rest) ← ok_or "expected ':'" (split_once [58%N] rest);
      key ← ok_or "key not a JSON string" (unquote (trim key_raw));
      '(value, rest) ← parse_value (trim_start rest);
      let fields := fields ++ [(key, value)] in
      let rest := trim_start rest in
      match strip_prefix 44 rest with
      | Some r => parse_fields fuel fields r
      | None => if is_nil rest then Ok fields else Err "trailing garbage"
      end
  end.

Definition parse_object (text : bytes) : result string JsonObject :=
  inner ← ok_or "not a JSON object" (t ← strip_prefix 123 (trim text); strip_suffix 125 t);
  let rest := trim inner in
  if is_nil rest then Ok [] else parse_fields (S (length rest)) [] rest.

(** ** The response *)

(** [split_whitespace]: the pieces between white space. *)
Fixpoint words (fuel : nat) (word b : bytes) : list bytes :=
  let close ws := if is_nil word then ws else word :: ws in
  match fuel with
  | O => close []
  | S fuel =>
      match strip_space b with
      | Some r => close (words fuel [] r)
      | None => match b with [] => close [] | x :: r => words fuel (word ++ [x]) r end
      end
  end.
Definition split_whitespace (b : bytes) : list bytes := words (length b) [] b.
Definition parse_u16 (b : bytes) : option N := n ← parse_usize b; if N.leb n 65535 then Some n else None.

(** What [post] makes of the bytes read up to the end of the connection. *)
Definition read_response (raw : bytes) : result ClientError (N * bytes) :=
  let text := lossy (length raw) raw in
  status ← ok_or (BadResponse "no status line") (split_whitespace text !! 1 ≫= parse_u16);
  Ok (status, from_option (λ i, drop (i + 4) text) [] (find_sub crlf2 text)).

Definition receipt (tx_id : string) (response : N * bytes) : result ClientError string :=
  let '(status, resp_body) := response in
  if negb (N.eqb status 200) then Err (ClientRejected status resp_body)
  else
    v ← map_err BadResponse (parse_object resp_body);
    match json_get v (string_bytes "accepted") with
    | Some (VBool true) =>
        echoed ← ok_or (BadResponse "missing tx_id") (json_get v (string_bytes "tx_id") ≫= json_as_str);
        if bool_decide (echoed = string_bytes tx_id) then Ok tx_id else Err (BadResponse "node echoed a different tx_id")
    | _ => Err (BadResponse "accepted!=true")
    end.

(** ** Submission *)

Section client.
Context `{HashIter} `{Rmp} `{Sha256} `{SignaturePrims}.

Record TxClient := mkClient { cl_addr : string; cl_chain_id : string; cl_account : AsymCryptoProvider }.

Definition signed_by (sender signature : bytes) (t : Transaction) : Transaction :=
  mkTransaction (tx_id t) (tx_action t) (tx_token_id t) (tx_bid t) (tx_sequence_number t) sender (tx_receiver t) (tx_amount t)
    (tx_timestamp t) (tx_result_hash t) signature (tx_payload t) (tx_gas_limit t) (tx_result_data t) (tx_selection t).

Definition sign_tx (c : TxClient) (tx : Transaction) : result ClientError Transaction :=
  sender ← map_err (λ _, Transport "public key") (public_key (cl_account c));
  canonical ← map_err (λ _, Transport "canonical bytes") (canonical_signature_bytes (signed_by sender (tx_sender_signature tx) tx));
  signature ← map_err (λ _, Transport "sender signature") (sign_data (cl_account c) canonical);
  Ok (signed_by sender signature tx).

Definition client_envelope (c : TxClient) (tx : Transaction) : result ClientError Message :=
  b ← map_err (λ e, Transport ("tx encoding: " +:+ e)) (rmp_enc (ser_Transaction tx));
  signature ← map_err (λ _, Transport "envelope signature") (sign_data (cl_account c) b);
  Ok (mkMessage (cl_chain_id c) "Process" b signature (tx_sender tx) None).

Definition http_request (addr : string) (b : bytes) : bytes :=
  string_bytes ("POST " +:+ INGRESS_PATH +:+ " HTTP/1.1" +:+ crlf_s +:+ "Host: " +:+ addr +:+ crlf_s +:+
    "Content-Type: application/msgpack" +:+ crlf_s +:+ "Content-Length: " +:+ pretty (length b) +:+ crlf_s +:+ crlf_s) ++ b.

(** The connection: what is written, and what is read until it closes. *)
Context {W : Type} (exchange : bytes → step W ClientError bytes).

Definition post (c : TxClient) (b : bytes) : step W ClientError (N * bytes) :=
  raw ← exchange (http_request (cl_addr c) b); of_result (read_response raw).

Definition client_submit (c : TxClient) (tx : Transaction) : step W ClientError string :=
  tx ← of_result (sign_tx c tx);
  envelope ← of_result (client_envelope c tx);
  raw ← of_result (map_err (λ e, Transport ("envelope encoding: " +:+ e)) (rmp_enc (ser_Message envelope)));
  response ← post c raw;
  of_result (receipt (tx_id tx) response).

Definition submit_transfer (c : TxClient) (id : string) (token_id receiver : bytes) (amount : N) (sequence_number : nat)
    : step W ClientError string :=
  client_submit c (mkTransaction id "Transfer" token_id None sequence_number [] receiver (Some amount) 0 [] [] [] 0 [] None).
End client.

(** ** Lemmas: text without white space *)

Definition printable (x : N) : Prop := (33 ≤ x ≤ 126)%N.

Lemma strip_space_printable x r : printable x → strip_space (x :: r) = None.
Proof.
  intros [Hl Hu]. cbn [strip_space]. unfold Utf8.between.
  rewrite (proj2 (N.leb_gt x 13)), andb_false_r, (proj2 (N.eqb_neq x 32)) by lia. cbn [orb]. destruct r as [|y r]; [done|].
  rewrite (proj2 (N.eqb_neq x 194)) by lia. cbn [andb]. destruct r as [|z r]; [done|].
  by rewrite (proj2 (N.eqb_neq x 225)), (proj2 (N.eqb_neq x 226)), (proj2 (N.eqb_neq x 227)) by lia.
Qed.

Lemma strip_space_rev_printable x r : printable x → strip_space_rev (x :: r) = None.
Proof.
  intros [Hl Hu]. cbn [strip_space_rev]. unfold Utf8.between.
  rewrite (proj2 (N.leb_gt x 13)), andb_false_r, (proj2 (N.eqb_neq x 32)) by lia. cbn [orb]. destruct r as [|y r]; [done|].
  rewrite (proj2 (N.eqb_neq x 133)), (proj2 (N.eqb_neq x 160)), andb_false_r by lia. destruct r as [|z r]; [done|].
  rewrite (proj2 (N.eqb_neq x 128)), (proj2 (N.leb_gt 128 x)), (proj2 (N.eqb_neq x 168)), (proj2 (N.eqb_neq x 169)) by lia.
  by rewrite (proj2 (N.eqb_neq x 175)), (proj2 (N.eqb_neq x 159)), !andb_false_r by lia.
Qed.

Lemma trim_start_printable x r : printable x → trim_start (x :: r) = x :: r.
Proof. intros Hx. unfold trim_start. cbn [length strip_all]. by rewrite strip_space_printable. Qed.

Lemma trim_end_printable r x : printable x → trim_end (r ++ [x]) = r ++ [x].
Proof.
  intros Hx. unfold trim_end. rewrite rev_app_distr, length_app, Nat.add_comm. cbn [rev app length Nat.add strip_all].
  rewrite strip_space_rev_printable by done. cbn [rev]. by rewrite rev_involutive.
Qed.

(** Text between two characters that are no white space. *)
Lemma trim_framed x m y : printable x → printable y → trim (x :: m ++ [y]) = x :: m ++ [y].
Proof. intros Hx Hy. unfold trim. rewrite trim_start_printable by done. rewrite app_comm_cons. by apply trim_end_printable. Qed.

Lemma trim_printable b : Forall printable b → trim b = b.
Proof.
  intros Hb. destruct b as [|x b]; [done|]. apply Forall_cons in Hb as [Hx Hb]. destruct b as [|y b] using rev_ind.
  - unfold trim. rewrite trim_start_printable by done. by apply (trim_end_printable []).
  - apply Forall_app in Hb as [_ [Hy _]%Forall_cons]. by apply trim_framed.
Qed.

(** ** Lemmas: numbers *)

Lemma digit_byte d : (d < 10)%N → Ascii.N_of_ascii (pretty_N_char d) = (48 + d)%N.
Proof. intros Hd. repeat (destruct d as [|d] || destruct d as [d|d|]; try lia); done. Qed.

Lemma last_digit x : ∃ q d, (x `div` 10 = q ∧ x `mod` 10 = d ∧ d < 10 ∧ x = q * 10 + d)%N.
Proof.
  eexists _, _. split_and!; [done|done|by apply N.mod_lt|]. rewrite N.mul_comm. by apply N.Div0.div_mod.
Qed.

Lemma parse_pretty_go x s :
  (x ≤ usize_max)%N → parse_digits 0 (string_bytes (pretty_N_go x s)) = parse_digits x (string_bytes s).
Proof.
  revert s. induction (N.lt_wf_0 x) as [x _ IH]. intros s Hx. destruct (decide (x = 0)%N) as [->|Hne]; [by rewrite pretty_N_go_0|].
  destruct (last_digit x) as (q & d & Hq & Hm & Hd & E). rewrite pretty_N_go_step, Hq, Hm by lia. rewrite IH by lia.
  cbn [string_bytes parse_digits]. rewrite digit_byte by done. unfold Utf8.between.
  rewrite (proj2 (N.leb_le 48 _)), (proj2 (N.leb_le _ 57)) by lia. cbn [andb].
  replace (q * 10 + (48 + d - 48))%N with x by lia. by rewrite (proj2 (N.leb_le _ _)).
Qed.

Lemma pretty_go_digits x s : Forall (Utf8.between 48 57) (string_bytes s) → Forall (Utf8.between 48 57) (string_bytes (pretty_N_go x s)).
Proof.
  revert s. induction (N.lt_wf_0 x) as [x _ IH]. intros s Hs. destruct (decide (x = 0)%N) as [->|Hne]; [by rewrite pretty_N_go_0|].
  destruct (last_digit x) as (q & d & Hq & Hm & Hd & E). rewrite pretty_N_go_step, Hq, Hm by lia. apply IH; [lia|].
  cbn [string_bytes]. constructor; [|done]. rewrite digit_byte by done. unfold Utf8.between. apply Is_true_true, andb_true_iff.
  split; apply N.leb_le; lia.
Qed.

Lemma pretty_digits (n : N) : Forall (Utf8.between 48 57) (string_bytes (pretty n)).
Proof. unfold pretty, pretty_N. destruct (decide _); [by constructor|]. by apply pretty_go_digits. Qed.

Lemma digits_printable b : Forall (Utf8.between 48 57) b → Forall printable b.
Proof.
  intros Hb. eapply Forall_impl; [exact Hb|]. intros x Hx. apply Is_true_true, andb_true_iff in Hx as [H1%N.leb_le H2%N.leb_le]. unfold printable. lia.
Qed.

(** A number in decimal is read back. *)
Lemma parse_pretty (n : N) : (n ≤ usize_max)%N → parse_usize (string_bytes (pretty n)) = Some n.
Proof.
  intros Hn. pose proof (pretty_digits n) as Hd.
  assert (parse_digits 0 (string_bytes (pretty n)) = Some n ∧ string_bytes (pretty n) ≠ []) as [Hp Hne].
  - unfold pretty, pretty_N. destruct (decide (n = 0)%N) as [->|Hz]; [done|]. rewrite parse_pretty_go by done. split; [done|].
    intros E. pose proof (parse_pretty_go n "" Hn) as Hg. rewrite E in Hg. cbn in Hg. congruence.
  - unfold parse_usize. destruct (string_bytes (pretty n)) as [|x b]; [done|]. apply Forall_cons in Hd as [Hx _].
    apply Is_true_true, andb_true_iff in Hx as [Hx%N.leb_le _]. by rewrite (proj2 (N.eqb_neq x 43)) by lia.
Qed.

(** ** Lemmas: heads *)

Lemma find_skip c p l r : c ∉ l → find_sub (c :: p) (l ++ r) = (λ i, length l + i) <$> find_sub (c :: p) r.
Proof.
  induction l as [|x l IH]; cbn [app length Nat.add]; intros Hc.
  - destruct (find_sub (c :: p) r); done.
  - apply not_elem_of_cons in Hc as [Hx Hc]. cbn [find_sub starts_with]. rewrite (proj2 (N.eqb_neq c x)) by done. cbn [andb].
    rewrite IH by done. by destruct (find_sub (c :: p) r).
Qed.

Lemma find_crlf l r : 13%N ∉ l → find_sub crlf (l ++ crlf ++ r) = Some (length l).
Proof. intros Hl. unfold crlf. rewrite find_skip by done. cbn. by rewrite Nat.add_0_r. Qed.

(** The empty line is behind this one, unless the next line is empty. *)
Lemma find_crlf2 l x r i :
  13%N ∉ l → head r = Some x → x ≠ 13%N → find_sub crlf2 r = Some i → find_sub crlf2 (l ++ crlf ++ r) = Some (length (l ++ crlf) + i).
Proof.
  intros Hl Hr Hx Hi. destruct r as [|y r]; [done|]. injection Hr as ->. unfold crlf2 at 1. rewrite find_skip by done.
  unfold crlf, crlf2 in *. cbn [app]. rewrite length_app. cbn [length].
  change (13%N :: 10%N :: x :: r) with ([13; 10]%N ++ x :: r). cbn [find_sub app]. cbn [starts_with].
  rewrite (proj2 (N.eqb_neq 13 x)) by done. cbn [N.eqb Pos.eqb andb]. cbn [find_sub] in Hi. cbn [starts_with] in Hi.
  rewrite (proj2 (N.eqb_neq 13 x)) in Hi by done. cbn [andb] in Hi. rewrite Hi. cbn. f_equal. lia.
Qed.
Lemma find_crlf2_end l r : 13%N ∉ l → find_sub crlf2 (l ++ crlf2 ++ r) = Some (length l).
Proof. intros Hl. unfold crlf2 at 1. rewrite find_skip by done. cbn. by rewrite Nat.add_0_r. Qed.

Lemma split_byte_none c l : c ∉ l → split_byte c l = [l].
Proof.
  induction l as [|x l IH]; [done|]. intros [Hx Hc]%not_elem_of_cons. cbn [split_byte]. rewrite (proj2 (N.eqb_neq x c)) by done. by rewrite IH.
Qed.

(** One header in front of others. *)
Lemma header_step key v rest name :
  10%N ∉ key ++ v → 58%N ∉ key →
  header_value (key ++ [58%N] ++ v ++ crlf ++ rest) name =
    if eq_ignore_ascii_case (trim key) (string_bytes name) then Some (trim v) else header_value rest name.
Proof.
  intros [Hk Hv]%not_elem_of_app Hc. unfold header_value.
  replace (key ++ [58%N] ++ v ++ crlf ++ rest) with (((key ++ 58%N :: v) ++ [13%N]) ++ 10%N :: rest) by (by rewrite <-!app_assoc).
  rewrite lines_app, split_byte_none by (rewrite !not_elem_of_app, !not_elem_of_cons; split_and!; (done || apply not_elem_of_nil)).
  cbn [fmap list_fmap app omap list_omap]. unfold strip_cr. rewrite last_snoc, bool_decide_true by done.
  rewrite removelast_last. unfold split_once. rewrite find_skip by done. cbn [find_sub starts_with N.eqb Pos.eqb andb fmap option_fmap option_map].
  rewrite Nat.add_0_r, take_app_length. cbn [length]. rewrite drop_app_add. cbn [drop mbind option_bind]. by destruct (eq_ignore_ascii_case _ _).
Qed.

(** ** Lemmas: the client's request *)

Lemma printable_ascii b : Forall printable b → Forall (λ x, x < 128)%N b.
Proof. intros Hb. eapply Forall_impl; [exact Hb|]. unfold printable. intros x Hx. lia. Qed.

Lemma printable_none c b : ¬ printable c → Forall printable b → c ∉ b.
Proof. intros Hc Hb Hin. rewrite Forall_forall in Hb. by apply Hc, Hb. Qed.

Lemma pretty_go_length k x s : (x < 10 ^ N.of_nat k)%N → length (string_bytes (pretty_N_go x s)) ≤ k + length (string_bytes s).
Proof.
  revert x s. induction k as [|k IH]; intros x s Hx; [assert (x = 0)%N as -> by (cbn in Hx; lia); by rewrite pretty_N_go_0|].
  destruct (decide (x = 0)%N) as [->|Hne]; [rewrite pretty_N_go_0; lia|]. rewrite pretty_N_go_step by lia.
  rewrite Nat2N.inj_succ, N.pow_succ_r' in Hx. etrans; [apply IH|cbn; lia]. by apply N.Div0.div_lt_upper_bound.
Qed.

Lemma pretty_length k n : (n < 10 ^ N.of_nat k)%N → 0 < k → length (string_bytes (pretty n)) ≤ k.
Proof.
  intros Hn Hk. unfold pretty, pretty_N. destruct (decide _); [cbn; lia|]. pose proof (pretty_go_length k n "" Hn) as Hl. by rewrite Nat.add_0_r in Hl.
Qed.

(** What the client knows its peer by prints as a short text. *)
Definition address_text (addr : string) : Prop := Forall printable (string_bytes addr) ∧ length (string_bytes addr) ≤ 64.

Definition client_line : bytes := string_bytes "POST /v1/transactions HTTP/1.1".
Definition client_headers (addr : string) (n : nat) : bytes :=
  string_bytes "Host" ++ [58%N] ++ (32%N :: string_bytes addr) ++ crlf ++
  string_bytes "Content-Type" ++ [58%N] ++ string_bytes " application/msgpack" ++ crlf ++
  string_bytes "Content-Length" ++ [58%N] ++ (32%N :: string_bytes (pretty n)).

Lemma http_request_eq addr b : http_request addr b = (client_line ++ crlf ++ client_headers addr (length b)) ++ crlf2 ++ b.
Proof.
  unfold http_request, client_headers. rewrite !string_bytes_app.
  change (string_bytes crlf_s) with crlf. change (string_bytes "Host: ") with (string_bytes "Host" ++ [58; 32]%N).
  change (string_bytes "Content-Type: application/msgpack") with (string_bytes "Content-Type" ++ [58%N] ++ string_bytes " application/msgpack").
  change (string_bytes "Content-Length: ") with (string_bytes "Content-Length" ++ [58; 32]%N). change crlf2 with (crlf ++ crlf).
  replace client_line with (string_bytes "POST " ++ string_bytes INGRESS_PATH ++ string_bytes " HTTP/1.1") by (by vm_compute).
  by rewrite <-!app_assoc.
Qed.

Lemma pretty_nat (n : nat) : pretty n = pretty (N.of_nat n).
Proof. done. Qed.

Ltac concrete_bytes := refine (bool_decide_unpack _ _); by vm_compute.

Definition host_line (addr : string) : bytes := string_bytes "Host" ++ [58%N] ++ (32%N :: string_bytes addr).
Definition type_line : bytes := string_bytes "Content-Type" ++ [58%N] ++ string_bytes " application/msgpack".
Definition length_line (n : nat) : bytes := string_bytes "Content-Length" ++ [58%N] ++ (32%N :: string_bytes (pretty n)).

Lemma client_head_ends addr n r :
  13%N ∉ host_line addr → 13%N ∉ length_line n →
  find_sub crlf2 ((client_line ++ crlf ++ client_headers addr n) ++ crlf2 ++ r) = Some (length (client_line ++ crlf ++ client_headers addr n)).
Proof.
  intros Ha Hd. replace (client_headers addr n) with (host_line addr ++ crlf ++ type_line ++ crlf ++ length_line n)
    by (unfold client_headers, host_line, type_line, length_line; by rewrite <-!app_assoc).
  rewrite <-!app_assoc.
  rewrite (find_crlf2 _ 72 _ (length (host_line addr ++ crlf) + (length (type_line ++ crlf) + length (length_line n)))); [|concrete_bytes|done|done|].
  - f_equal. rewrite !length_app. lia.
  - apply (find_crlf2 _ 67); [done|done|done|]. apply (find_crlf2 _ 67); [concrete_bytes|done|done|]. by apply find_crlf2_end.
Qed.

Lemma not_in_header c key v : c ∉ string_bytes key → c ≠ 58%N → c ≠ 32%N → c ∉ v → c ∉ (string_bytes key ++ [58%N] ++ (32%N :: v)).
Proof. intros Hk H1 H2 Hv. rewrite !not_elem_of_app, !not_elem_of_cons. split_and!; try done. apply not_elem_of_nil. Qed.

Lemma client_header_value addr n name :
  10%N ∉ string_bytes addr → 10%N ∉ string_bytes (pretty n) →
  header_value (client_headers addr n ++ crlf) name =
    if eq_ignore_ascii_case (trim (string_bytes "Host")) (string_bytes name) then Some (trim (32%N :: string_bytes addr))
    else if eq_ignore_ascii_case (trim (string_bytes "Content-Type")) (string_bytes name) then Some (trim (string_bytes " application/msgpack"))
    else if eq_ignore_ascii_case (trim (string_bytes "Content-Length")) (string_bytes name) then Some (trim (32%N :: string_bytes (pretty n)))
    else None.
Proof.
  intros Ha Hn. unfold client_headers. rewrite <-!app_assoc.
  rewrite header_step; [|rewrite not_elem_of_app, not_elem_of_cons; split_and!; [concrete_bytes|done|done]|concrete_bytes].
  rewrite header_step by concrete_bytes. rewrite <-(app_nil_r crlf).
  rewrite header_step; [done|rewrite not_elem_of_app, not_elem_of_cons; split_and!; [concrete_bytes|done|done]|concrete_bytes].
Qed.

Lemma trim_spaced b : Forall printable b → trim (32%N :: b) = b.
Proof.
  intros Hb. rewrite <-(trim_printable b Hb) at 2. unfold trim. apply (f_equal trim_end). destruct b as [|x b]; [done|]. apply Forall_cons in Hb as [Hx _].
  rewrite (trim_start_printable x) by done. unfold trim_start. cbn [length strip_all]. change (strip_space (32%N :: x :: b)) with (Some (x :: b)).
  cbn beta iota. by rewrite strip_space_printable.
Qed.

Lemma client_request_good addr b :
  address_text addr → (N.of_nat (length b) ≤ MAX_INGRESS_BODY_BYTES)%N → good_request client_line (client_headers addr (length b)) b.
Proof.
  intros [Ha Hl] Hb. set (digits := string_bytes (pretty (length b))).
  assert (Forall printable digits) as Hd by (unfold digits; rewrite pretty_nat; apply digits_printable, pretty_digits).
  assert (∀ c : N, ¬ (33 ≤ c ≤ 126)%N → (c ∉ string_bytes addr) ∧ (c ∉ digits)) as Hno by (intros c Hc; split; by apply printable_none).
  destruct (Hno 13%N) as [Ha13 Hd13]; [lia|]. destruct (Hno 10%N) as [Ha10 Hd10]; [lia|].
  assert (length digits ≤ 7) as Hlen. { unfold digits. rewrite pretty_nat. apply pretty_length; [|lia]. eapply N.le_lt_trans; [exact Hb|done]. }
  split.
  - apply ascii_valid. unfold client_headers. repeat (apply Forall_app; split); first [constructor; [done|by apply printable_ascii]|concrete_bytes].
  - apply find_crlf. concrete_bytes.
  - rewrite <-(app_nil_r crlf2). apply client_head_ends; apply not_in_header; (done || concrete_bytes).
  - unfold client_headers. rewrite !length_app. cbn [length]. fold digits. apply Nat.le_trans with (300 + 64 + 7); [|by apply Nat.leb_le; vm_compute].
    assert (∀ s k, Nat.leb (length (string_bytes s)) k = true → length (string_bytes s) ≤ k) as Hk by (intros s k; apply Nat.leb_le).
    pose proof (Hk "Host" 4 eq_refl). pose proof (Hk "Content-Type" 12 eq_refl). pose proof (Hk " application/msgpack" 20 eq_refl).
    pose proof (Hk "Content-Length" 14 eq_refl). assert (length client_line ≤ 30) by (apply Nat.leb_le; by vm_compute). cbn [crlf length]. lia.
  - by vm_compute.
  - exists digits. split.
    + rewrite client_header_value by done. fold digits. rewrite (trim_spaced digits) by done.
      replace (eq_ignore_ascii_case (trim (string_bytes "Host")) (string_bytes "content-length")) with false by (by vm_compute).
      replace (eq_ignore_ascii_case (trim (string_bytes "Content-Type")) (string_bytes "content-length")) with false by (by vm_compute).
      by replace (eq_ignore_ascii_case (trim (string_bytes "Content-Length")) (string_bytes "content-length")) with true by (by vm_compute).
    + rewrite trim_printable by done. unfold digits. rewrite pretty_nat. apply parse_pretty. eapply N.le_trans; [exact Hb|done].
  - exact Hb.
  - exists (string_bytes "application/msgpack"). split; [|by vm_compute]. rewrite client_header_value by done.
    replace (eq_ignore_ascii_case (trim (string_bytes "Host")) (string_bytes "content-type")) with false by (by vm_compute). by vm_compute.
Qed.

(** ** Lemmas: the response's head *)

Lemma words_run w f acc r : Forall printable w → words (length w + f) acc (w ++ r) = words f (acc ++ w) r.
Proof.
  intros Hw. revert acc. induction Hw as [|x w Hx Hw IH]; intros acc; [by rewrite app_nil_r|].
  cbn [length Nat.add app words]. rewrite strip_space_printable by done. rewrite IH. by rewrite <-app_assoc.
Qed.

Lemma words_space f acc r : words (S f) acc (32%N :: r) = if is_nil acc then words f [] r else acc :: words f [] r.
Proof. done. Qed.

(** The second word of a text that starts with two. *)
Lemma second_word a b r : Forall printable a → Forall printable b → a ≠ [] → b ≠ [] →
  split_whitespace (a ++ 32%N :: b ++ 32%N :: r) !! 1 = Some b.
Proof.
  intros Ha Hb Hna Hnb. unfold split_whitespace. rewrite length_app, words_run by done. cbn [length app]. rewrite words_space.
  rewrite length_app, words_run by done. cbn [length app]. rewrite words_space. destruct a; [done|]. by destruct b.
Qed.

Definition response_head (r : HttpResponse) : bytes :=
  string_bytes "HTTP/1.1" ++ [32%N] ++ string_bytes (pretty (status r)) ++ [32%N] ++ string_bytes (ingress_reason (status r)) ++ crlf ++
  string_bytes "Content-Type: " ++ string_bytes (content_type r) ++ crlf ++
  string_bytes "Content-Length: " ++ string_bytes (pretty (length (response_body r))) ++ crlf ++ string_bytes "Connection: close".

Lemma write_response_eq r : write_response ingress_reason r = response_head r ++ crlf2 ++ response_body r.
Proof.
  unfold write_response, response_head. rewrite !string_bytes_app. change (string_bytes crlf_s) with crlf. change crlf2 with (crlf ++ crlf).
  change (string_bytes "HTTP/1.1 ") with (string_bytes "HTTP/1.1" ++ [32%N]). change (string_bytes " ") with [32%N]. by rewrite <-!app_assoc.
Qed.

Lemma reason_text s : Forall (λ x, 32 ≤ x ≤ 126)%N (string_bytes (ingress_reason s)).
Proof. unfold ingress_reason. repeat case_match; refine (bool_decide_unpack _ _); by vm_compute. Qed.

Definition line1 (r : HttpResponse) : bytes :=
  string_bytes "HTTP/1.1" ++ [32%N] ++ string_bytes (pretty (status r)) ++ [32%N] ++ string_bytes (ingress_reason (status r)).
Definition line2 (r : HttpResponse) : bytes := string_bytes "Content-Type: " ++ string_bytes (content_type r).
Definition line3 (r : HttpResponse) : bytes := string_bytes "Content-Length: " ++ string_bytes (pretty (length (response_body r))).
Definition text_byte (x : N) : Prop := (32 ≤ x ≤ 126)%N.

Lemma printable_text b : Forall printable b → Forall text_byte b.
Proof. intros Hb. eapply Forall_impl; [exact Hb|]. unfold printable, text_byte. intros x Hx. lia. Qed.

Lemma response_lines r : Forall printable (string_bytes (content_type r)) → Forall text_byte (line1 r) ∧ Forall text_byte (line2 r) ∧ Forall text_byte (line3 r).
Proof.
  intros Ht. assert (∀ n : N, Forall text_byte (string_bytes (pretty n))) as Hd by (intros n; apply printable_text, digits_printable, pretty_digits).
  pose proof (reason_text (status r)) as Hr. unfold line1, line2, line3. rewrite pretty_nat.
  split_and!; repeat (apply Forall_app; split); first [apply Hd|exact Hr|by apply printable_text|concrete_bytes].
Qed.

Lemma text_no_cr b : Forall text_byte b → 13%N ∉ b.
Proof. intros Hb Hin. rewrite Forall_forall in Hb. apply Hb in Hin. unfold text_byte in Hin. lia. Qed.

(** A response of the ingress, with a type that is plain text. *)
Lemma response_read r :
  (status r ≤ 65535)%N → Forall printable (string_bytes (content_type r)) →
  read_response (write_response ingress_reason r) = Ok (status r, lossy (length (response_body r)) (response_body r)).
Proof.
  intros Hs Ht. rewrite write_response_eq. destruct (response_lines r Ht) as (H1 & H2 & H3).
  assert (response_head r = line1 r ++ crlf ++ line2 r ++ crlf ++ line3 r ++ crlf ++ string_bytes "Connection: close") as Hhead.
  { unfold response_head, line1, line2, line3. by rewrite <-!app_assoc. }
  set (L := lossy (length (response_body r)) (response_body r)). unfold read_response.
  assert (lossy (length (response_head r ++ crlf2 ++ response_body r)) (response_head r ++ crlf2 ++ response_body r) = response_head r ++ crlf2 ++ L) as ->.
  { rewrite app_assoc, lossy_app; [by rewrite <-app_assoc|]. apply ascii_valid. rewrite Hhead.
    assert (∀ b, Forall text_byte b → Forall (λ x, x < 128)%N b) as Ha.
    { intros b Hb. eapply Forall_impl; [exact Hb|]. unfold text_byte. intros x Hx. lia. }
    rewrite !Forall_app. split_and!; first [by apply Ha|concrete_bytes]. }
  assert (find_sub crlf2 (response_head r ++ crlf2 ++ L) = Some (length (response_head r))) as Hf.
  { rewrite Hhead, <-!app_assoc.
    rewrite (find_crlf2 _ 67 _ (length (line2 r ++ crlf) + (length (line3 r ++ crlf) + length (string_bytes "Connection: close"))));
      [f_equal; rewrite !length_app; lia|by apply text_no_cr|done|done|].
    apply (find_crlf2 _ 67); [by apply text_no_cr|done|done|]. apply (find_crlf2 _ 67); [by apply text_no_cr|done|done|].
    apply find_crlf2_end. concrete_bytes. }
  assert (string_bytes (pretty (status r)) ≠ []) as Hne.
  { intros E. pose proof (parse_pretty (status r)) as Hp. rewrite E in Hp. discriminate Hp. eapply N.le_trans; [exact Hs|done]. }
  assert (split_whitespace (response_head r ++ crlf2 ++ L) !! 1 = Some (string_bytes (pretty (status r)))) as ->.
  { rewrite Hhead. unfold line1. rewrite <-!app_assoc.
    apply second_word; [concrete_bytes|apply digits_printable, pretty_digits|done|exact Hne]. }
  rewrite Hf. cbn [mbind option_bind from_option]. unfold parse_u16. rewrite parse_pretty by (eapply N.le_trans; [exact Hs|done]).
  cbn [mbind option_bind]. rewrite (proj2 (N.leb_le _ _)) by done. cbn [ok_or mbind result_bind].
  change 4 with (length crlf2). by rewrite <-length_app, app_assoc, drop_app_length.
Qed.

(** ** Lemmas: the answer *)

Lemma json_escape_cons c s : json_escape (c :: s) = escape_byte c ++ json_escape s.
Proof. done. Qed.

(** The characters that are escaped with hexadecimal digits. *)
Lemma control_decoded c : (c < 32)%N → from_str_radix_16 [48; 48; hex_digit (c / 16); hex_digit (c mod 16)]%N = Some c.
Proof. intros Hc. repeat (destruct c as [|c] || destruct c as [c|c|]; try lia); done. Qed.

Lemma unescape_step fuel c r : unescape (S fuel) (escape_byte c ++ r) = (c ::.) <$> unescape fuel r.
Proof.
  unfold escape_byte. destruct (N.eqb_spec c 34) as [->|]; [done|]. destruct (N.eqb_spec c 92) as [->|]; [done|].
  destruct (N.eqb_spec c 10) as [->|]; [done|]. destruct (N.eqb_spec c 13) as [->|]; [done|]. destruct (N.eqb_spec c 9) as [->|]; [done|].
  destruct (N.ltb_spec c 32) as [Hc|Hc].
  - cbn [app unescape N.eqb Pos.eqb negb take drop]. rewrite control_decoded by done. cbn [mbind option_bind]. unfold encode_char.
    by rewrite (proj2 (N.ltb_lt c 128)) by lia.
  - cbn [app unescape]. by rewrite (proj2 (N.eqb_neq c 92)) by done.
Qed.

Lemma escape_length c : 1 ≤ length (escape_byte c).
Proof. unfold escape_byte. repeat case_match; cbn; lia. Qed.

Lemma unescape_escape fuel s : length (json_escape s) ≤ fuel → unescape fuel (json_escape s) = Some s.
Proof.
  revert fuel. induction s as [|c s IH]; intros fuel Hf; [by destruct fuel|]. rewrite json_escape_cons in *. rewrite length_app in Hf.
  pose proof (escape_length c). destruct fuel as [|fuel]; [lia|]. rewrite unescape_step, IH by lia. done.
Qed.

Lemma control_digits c : (c < 32)%N →
  (N.eqb (hex_digit (c / 16)) 92 = false ∧ N.eqb (hex_digit (c / 16)) 34 = false) ∧
  N.eqb (hex_digit (c mod 16)) 92 = false ∧ N.eqb (hex_digit (c mod 16)) 34 = false.
Proof. intros Hc. repeat (destruct c as [|c] || destruct c as [c|c|]; try lia); done. Qed.

Lemma closing_quote_step i c t : closing_quote i (escape_byte c ++ t) = closing_quote (i + length (escape_byte c)) t.
Proof.
  unfold escape_byte. destruct (N.eqb_spec c 34) as [->|H34]; [done|]. destruct (N.eqb_spec c 92) as [->|H92]; [done|].
  repeat (case_match; [done|]). destruct (N.ltb_spec c 32) as [Hc|Hc].
  - destruct (control_digits c Hc) as [[Ha Hb] [Hd He]]. cbn [app length]. cbn [closing_quote N.eqb Pos.eqb].
    rewrite Ha, Hb, Hd, He. f_equal. lia.
  - cbn [app closing_quote length]. rewrite (proj2 (N.eqb_neq c 92)), (proj2 (N.eqb_neq c 34)) by done. f_equal. lia.
Qed.

Lemma closing_quote_escape i s r : closing_quote i (json_escape s ++ 34%N :: r) = Some (i + length (json_escape s)).
Proof.
  revert i. induction s as [|c s IH]; intros i; [cbn; f_equal; lia|].
  rewrite json_escape_cons, <-app_assoc, closing_quote_step, IH, length_app. f_equal. lia.
Qed.

(** The string of an escaped text is read whole, whatever follows. *)
Lemma quoted_read s r : parse_value (34%N :: json_escape s ++ 34%N :: r) = Ok (VString s, r).
Proof.
  unfold parse_value. change (starts_with (string_bytes "true") (34%N :: json_escape s ++ 34%N :: r)) with false.
  change (starts_with (string_bytes "false") (34%N :: json_escape s ++ 34%N :: r)) with false. unfold find_string_end. rewrite N.eqb_refl, closing_quote_escape. cbn [ok_or mbind result_bind].
  assert (1 + length (json_escape s) + 1 = S (length (json_escape s ++ [34%N]))) as -> by (rewrite length_app; cbn; lia).
  replace (json_escape s ++ 34%N :: r) with ((json_escape s ++ [34%N]) ++ r) by (by rewrite <-app_assoc).
  cbn [take drop]. rewrite take_app_length, drop_app_length. unfold unquote, strip_prefix, strip_suffix. rewrite N.eqb_refl. cbn [mbind option_bind].
  rewrite last_snoc, bool_decide_true by done. cbn [mbind option_bind]. by rewrite removelast_last, unescape_escape.
Qed.

Lemma field_turn fuel fields k kb t v rest :
  Forall printable k → 58%N ∉ k → unquote k = Some kb → k ≠ [] → (∀ x, head t = Some x → printable x) → parse_value t = Ok (v, rest) →
  parse_fields (S fuel) fields (k ++ 58%N :: t) =
    match strip_prefix 44 (trim_start rest) with
    | Some r => parse_fields fuel (fields ++ [(kb, v)]) r
    | None => if is_nil (trim_start rest) then Ok (fields ++ [(kb, v)]) else Err "trailing garbage"
    end.
Proof.
  intros Hk Hc Hu Hne Ht Hv. cbn [parse_fields].
  assert (trim_start (k ++ 58%N :: t) = k ++ 58%N :: t) as ->.
  { destruct k as [|x k]; [done|]. apply Forall_cons in Hk as [Hx _]. by apply trim_start_printable. }
  assert (trim_start t = t) as Htt. { destruct t as [|x t]; [done|]. apply trim_start_printable. by apply Ht. }
  unfold split_once. rewrite find_skip by done. cbn [find_sub starts_with N.eqb Pos.eqb andb fmap option_fmap option_map].
  rewrite Nat.add_0_r, take_app_length. cbn [length]. rewrite drop_app_add. cbn [drop ok_or mbind result_bind].
  rewrite trim_printable, Hu by done. cbn [ok_or mbind result_bind]. by rewrite drop_0, Htt, Hv.
Qed.

Ltac flat_apps := repeat (progress (cbn [app]; rewrite <-?app_assoc)); reflexivity.

Lemma accepted_json_read id :
  parse_object (accepted_json id) = Ok [(string_bytes "accepted", VBool true); (string_bytes "tx_id", VString (string_bytes id))].
Proof.
  set (k1 := 34%N :: string_bytes "accepted" ++ [34%N]). set (k2 := 34%N :: string_bytes "tx_id" ++ [34%N]).
  set (t2 := 34%N :: json_escape (string_bytes id) ++ 34%N :: []). set (t1 := string_bytes "true" ++ 44%N :: k2 ++ 58%N :: t2).
  assert (accepted_json id = 123%N :: (k1 ++ 58%N :: t1) ++ [125%N]) as ->.
  { unfold accepted_json, t1, t2. replace (string_bytes (_ +:+ _)) with (123%N :: k1 ++ 58%N :: string_bytes "true" ++ 44%N :: k2 ++ [58; 34]%N) by (by vm_compute).
    flat_apps. }
  unfold parse_object. rewrite trim_framed by (unfold printable; lia). cbn [strip_prefix N.eqb Pos.eqb]. cbn [mbind option_bind].
  unfold strip_suffix. rewrite last_snoc, bool_decide_true by done. rewrite removelast_last. cbn [ok_or mbind result_bind].
  assert (∃ m, k1 ++ 58%N :: t1 = 34%N :: m ++ [34%N]) as [m Hm].
  { exists (string_bytes "accepted" ++ [34%N] ++ 58%N :: string_bytes "true" ++ 44%N :: k2 ++ 58%N :: 34%N :: json_escape (string_bytes id)).
    unfold k1, t1, t2. flat_apps. }
  assert (trim (k1 ++ 58%N :: t1) = k1 ++ 58%N :: t1) as -> by (rewrite Hm; apply trim_framed; unfold printable; lia).
  assert (is_nil (k1 ++ 58%N :: t1) = false) as -> by done. rewrite Hm at 1. cbn [length]. 
  rewrite (field_turn _ _ k1 (string_bytes "accepted") t1 (VBool true) (44%N :: k2 ++ 58%N :: t2));
    [|concrete_bytes|concrete_bytes|by vm_compute|done|by intros x [= <-]|done].
  rewrite trim_start_printable by (unfold printable; lia). cbn [strip_prefix N.eqb Pos.eqb].
  rewrite (field_turn _ _ k2 (string_bytes "tx_id") t2 (VString (string_bytes id)) []);
    [done|concrete_bytes|concrete_bytes|by vm_compute|done|by intros x [= <-]|apply quoted_read].
Qed.

Lemma accepted_receipt id : receipt id (200%N, accepted_json id) = Ok id.
Proof.
  unfold receipt. rewrite accepted_json_read. cbn [N.eqb Pos.eqb negb map_err mbind result_bind]. set (o := [_; _]).
  assert (json_get o (string_bytes "accepted") = Some (VBool true)) as -> by (by vm_compute).
  assert (json_get o (string_bytes "tx_id") = Some (VString (string_bytes id))) as -> by (by vm_compute).
  cbn [mbind option_bind json_as_str ok_or result_bind]. by rewrite bool_decide_true.
Qed.

(** ** Lemmas: escaping keeps text valid *)

Lemma cont_high y : is_cont y = true → (128 ≤ y)%N.
Proof. unfold is_cont. by intros [?%N.leb_le _]%andb_true_iff. Qed.
Lemma between_high lo hi y : (128 ≤ lo)%N → Utf8.between lo hi y = true → (128 ≤ y)%N.
Proof. unfold Utf8.between. intros Hl [?%N.leb_le _]%andb_true_iff. lia. Qed.
Lemma second3_high x y : second3 x y = true → (128 ≤ y)%N.
Proof.
  unfold second3. rewrite !orb_true_iff, !andb_true_iff.
  intros [[[[_ Hy]|[_ Hy]]|[_ Hy]]|[_ Hy]]; eapply between_high; try exact Hy; lia.
Qed.
Lemma second4_high x y : second4 x y = true → (128 ≤ y)%N.
Proof. unfold second4. rewrite !orb_true_iff, !andb_true_iff. intros [[[_ Hy]|[_ Hy]]|[_ Hy]]; eapply between_high; try exact Hy; lia. Qed.

Lemma step_high x rest n :
  utf8_step x rest = (true, n) → (128 ≤ x)%N →
  ∃ tl, take n (x :: rest) = x :: tl ∧ Forall (λ y, 128 ≤ y)%N tl ∧ utf8_step x tl = (true, n) ∧ n = S (length tl).
Proof.
  intros Hn Hx. assert (N.ltb x 128 = false) as E1 by (by apply N.ltb_ge). unfold utf8_step in Hn. rewrite E1 in Hn. revert Hn.
  assert (∀ P : N → bool, (∀ y, P y = true → 128 ≤ y)%N → ∀ k : nat, P (default 0%N (rest !! k)) = true → ∃ y, rest !! k = Some y ∧ (128 ≤ y)%N) as Hat.
  { intros P HP k Hk. destruct (rest !! k) as [y|]; [|apply HP in Hk; cbn in Hk; lia]. exists y. split; [done|by apply HP]. }
  destruct (Utf8.between 194 223 x) eqn:E2.
  { destruct (is_cont _) eqn:C0; [|done]. intros [= <-]. destruct (Hat is_cont cont_high 0 C0) as (y & Hy & Hhy). destruct rest as [|y' rest]; [done|].
    injection Hy as ->. exists [y]. cbn in C0. unfold utf8_step. rewrite E1, E2. cbn [lookup list_lookup default from_option id]. rewrite C0. split_and!; [done|by constructor|done|done]. }
  destruct (Utf8.between 224 239 x) eqn:E3.
  { destruct (second3 _ _) eqn:S0; [|done]. destruct (is_cont _) eqn:C1; [|done]. intros [= <-].
    destruct (Hat _ (second3_high x) 0 S0) as (y & Hy & Hhy). destruct (Hat is_cont cont_high 1 C1) as (z & Hz & Hhz).
    destruct rest as [|y' [|z' rest]]; try done. injection Hy as ->. injection Hz as ->. exists [y; z]. cbn in S0, C1.
    unfold utf8_step. rewrite E1, E2, E3. cbn [lookup list_lookup default from_option id]. rewrite S0, C1.
    split_and!; [done|by repeat constructor|done|done]. }
  destruct (Utf8.between 240 244 x) eqn:E4; [|done].
  destruct (second4 _ _) eqn:S0; [|done]. destruct (is_cont (default 0%N (rest !! 1))) eqn:C1; [|done].
  destruct (is_cont (default 0%N (rest !! 2))) eqn:C2; [|done]. intros [= <-].
  destruct (Hat _ (second4_high x) 0 S0) as (y & Hy & Hhy). destruct (Hat is_cont cont_high 1 C1) as (z & Hz & Hhz).
  destruct (Hat is_cont cont_high 2 C2) as (w & Hw & Hhw). destruct rest as [|y' [|z' [|w' rest]]]; try done.
  injection Hy as ->. injection Hz as ->. injection Hw as ->. exists [y; z; w]. cbn in S0, C1, C2.
  unfold utf8_step. rewrite E1, E2, E3, E4. cbn [lookup list_lookup default from_option id]. rewrite S0, C1, C2.
  split_and!; [done|by repeat constructor|done|done].
Qed.

Lemma escape_high b : Forall (λ y, 128 ≤ y)%N b → json_escape b = b.
Proof.
  induction 1 as [|x b Hx _ IH]; [done|]. rewrite json_escape_cons, IH. unfold escape_byte.
  rewrite (proj2 (N.eqb_neq x 34)), (proj2 (N.eqb_neq x 92)), (proj2 (N.eqb_neq x 10)), (proj2 (N.eqb_neq x 13)), (proj2 (N.eqb_neq x 9)) by lia.
  by rewrite (proj2 (N.ltb_ge x 32)) by lia.
Qed.
Lemma escape_app a b : json_escape (a ++ b) = json_escape a ++ json_escape b.
Proof. induction a as [|x a IH]; [done|]. cbn [app]. by rewrite !json_escape_cons, IH, app_assoc. Qed.

Lemma escape_ascii x : (x < 128)%N → Forall (λ y, y < 128)%N (escape_byte x).
Proof.
  intros Hx. unfold escape_byte. repeat (case_match; [concrete_bytes|]). destruct (N.ltb_spec x 32) as [Hc|]; [|by constructor].
  assert (∀ n, (n < 16)%N → (hex_digit n < 128)%N) as Hh by (intros n Hn; unfold hex_digit; case_match; lia).
  rewrite !Forall_cons. split_and!; try lia; [apply Hh; apply N.Div0.div_lt_upper_bound; lia|apply Hh; by apply N.mod_lt|by apply Forall_nil].
Qed.

Lemma high_char_valid x tl : utf8_step x tl = (true, S (length tl)) → utf8_valid (length (x :: tl)) (x :: tl) = true.
Proof.
  intros Hs. cbn [length utf8_valid]. rewrite Hs. cbn [andb]. rewrite (drop_ge (x :: tl)) by (cbn; lia). by destruct (length tl).
Qed.

(** Text, escaped, in front of text that is read as it is. *)
Lemma escape_lossless fuel s t :
  length s ≤ fuel → utf8_valid fuel s = true → lossy (length t) t = t → lossy (length (json_escape s ++ t)) (json_escape s ++ t) = json_escape s ++ t.
Proof.
  revert s. induction fuel as [|fuel IH]; intros [|x s] Hl Hv Ht; cbn in Hl; try done; [lia|]. cbn [utf8_valid] in Hv.
  destruct (utf8_step x s) as [[] n] eqn:Hn; [|done]. cbn [andb] in Hv. destruct (N.ltb_spec x 128) as [Hx|Hx].
  - assert (n = 1) as -> by (unfold utf8_step in Hn; rewrite (proj2 (N.ltb_lt x 128)) in Hn by done; congruence). cbn [drop] in Hv. rewrite drop_0 in Hv.
    rewrite json_escape_cons, <-app_assoc, lossy_app by (by apply ascii_valid, escape_ascii). by rewrite IH by (done || lia).
  - destruct (step_high x s n Hn Hx) as (tl & Htl & Hhigh & Hs & ->).
    rewrite <-(take_drop (S (length tl)) (x :: s)), Htl, escape_app. rewrite (escape_high (x :: tl)) by (by constructor).
    rewrite <-app_assoc, lossy_app by (by apply high_char_valid). f_equal. apply IH; [rewrite length_drop; cbn; lia|done|done].
Qed.

Lemma accepted_json_text id : utf8_valid (length (string_bytes id)) (string_bytes id) = true → lossy (length (accepted_json id)) (accepted_json id) = accepted_json id.
Proof.
  intros Hv. unfold accepted_json. rewrite lossy_app by (by vm_compute). f_equal. by apply (escape_lossless (length (string_bytes id))).
Qed.

(** ** The client and the ingress *)

Section submission.
Context `{HashIter} `{Rmp} `{Sha256} `{SignaturePrims} `{KemPrims}.
Context {W : Type} (sink : Message → step W IngressError ()) (health : HealthState).
(** How the network cuts what is written into reads. *)
Context (cut : bytes → list bytes).

(** A connection to the ingress: a silent close leaves nothing to read. *)
Definition ingress_exchange (request : bytes) : step (Metrics * W) ClientError bytes := λ mw,
  '(w, m, r) ← serve_ingress sink health ((Chunk <$> cut request) ++ [Eof]) mw.1 mw.2;
  Some ((m, w), Ok (from_option (write_response ingress_reason) [] r)).

Lemma signed_is_checked c p r tx stx m :
  cl_account c = provider_of r p → provider_wf p → tx_id tx ≠ "" → sign_tx c tx = Ok stx → client_envelope c stx = Ok m → wf stx →
  edge_checked m stx.
Proof.
  intros Hc Hp Hid Hs Hm Hwf. unfold sign_tx in Hs. rewrite Hc in Hs.
  apply bind_Ok in Hs as (key & Hk%map_err_Ok & Hs). apply bind_Ok in Hs as (canonical & Hcan%map_err_Ok & Hs).
  apply bind_Ok in Hs as (sg & Hsg%map_err_Ok & [= <-]).
  unfold client_envelope in Hm. rewrite Hc in Hm. apply bind_Ok in Hm as (b & Hb%map_err_Ok & Hm). apply bind_Ok in Hm as (sg' & Hsg'%map_err_Ok & [= <-]).
  split; [done|]. split; [|split; [done|exact (sign_then_check p r b sg' key Hp Hsg' Hk)]].
  split; [exact (written_is_read _ _ Hwf Hb)|]. split; [|split; [|done]].
  - injection Hk as <-. cbn. intros E. apply (f_equal length) in E. by rewrite ed_public_length in E.
  - unfold verify_sender_signature. change (canonical_signature_bytes (signed_by key sg tx)) with (canonical_signature_bytes (signed_by key (tx_sender_signature tx) tx)).
    rewrite Hcan. exact (sign_then_check p r canonical sg key Hp Hsg Hk).
Qed.

(** C13: a submission goes through from end to end. Whatever the transaction and
    however the network cuts the request, the ingress hands the client's own
    envelope to its sink, both signatures verified; the client holds a receipt for
    its transaction exactly when the sink took it, and otherwise the status and the
    reason of the refusal. *)
Theorem client_submission_is_answered c p r tx stx m raw metrics w :
  cl_account c = provider_of r p → provider_wf p → address_text (cl_addr c) → (∀ b, concat (cut b) = b) → is_stopping health = false →
  tx_id tx ≠ "" → utf8_valid (length (string_bytes (tx_id tx))) (string_bytes (tx_id tx)) = true →
  sign_tx c tx = Ok stx → client_envelope c stx = Ok m → rmp_enc (ser_Message m) = Ok raw → wf stx → wf m →
  (N.of_nat (length raw) ≤ MAX_INGRESS_BODY_BYTES)%N →
  edge_checked m stx ∧
  client_submit ingress_exchange c tx (metrics, w) =
    match sink m w with
    | Some (w', Ok _) => Some ((count_accepted metrics, w'), Ok (tx_id tx))
    | Some (w', Err e) =>
        let reason := string_bytes (error_text e) in
        Some ((count_rejected metrics, w'), Err (ClientRejected (error_status e) (lossy (length reason) reason)))
    | None => None
    end.
Proof.
  intros Hc Hp Ha Hcut Hh Hid Hu Hs Hm Hraw Hwt Hwm Hlen. pose proof (signed_is_checked c p r tx stx m Hc Hp Hid Hs Hm Hwt) as Hck. split; [done|].
  assert (tx_id stx = tx_id tx) as Hids.
  { unfold sign_tx in Hs. apply bind_Ok in Hs as (? & _ & Hs). apply bind_Ok in Hs as (? & _ & Hs). by apply bind_Ok in Hs as (? & _ & [= <-]). }
  unfold client_submit. erewrite step_bind_Ok by (unfold of_result; rewrite Hs; reflexivity).
  erewrite step_bind_Ok by (unfold of_result; rewrite Hm; reflexivity).
  erewrite step_bind_Ok by (unfold of_result; rewrite Hraw; reflexivity).
  assert (submit sink raw metrics w = match sink m w with
    | Some (w', Ok _) => Some (w', count_accepted metrics, Some (mkHttp 200 "application/json" (accepted_json (tx_id stx))))
    | Some (w', Err e) => Some (w', count_rejected metrics, Some (mkHttp (error_status e) "text/plain" (string_bytes (error_text e))))
    | None => None end) as Hsub.
  { unfold submit. rewrite (checked_reaches_sink sink raw m stx w (written_is_read m raw Hwm Hraw) Hck). unfold mbind at 2, step_bind.
    by destruct (sink m w) as [[w' []]|]. }
  assert (ingress_exchange (http_request (cl_addr c) raw) (metrics, w) =
    ('(w, m, r) ← submit sink raw metrics w; Some ((m, w), Ok (from_option (write_response ingress_reason) [] r)))) as Hex.
  { unfold ingress_exchange. cbn [fst snd]. rewrite (segmented_request_serves sink client_line (client_headers (cl_addr c) (length raw)) raw); [done| |by rewrite Hcut, http_request_eq|done].
    by apply client_request_good. }
  rewrite Hsub in Hex. unfold post. destruct (sink m w) as [[w' [[]|e]]|]; cbn [mbind option_bind from_option] in Hex.
  - erewrite step_bind_Ok; [|erewrite step_bind_Ok by exact Hex; unfold of_result; rewrite response_read by (done || concrete_bytes); reflexivity].
    cbn [status response_body]. rewrite accepted_json_text by (by rewrite Hids). unfold of_result. by rewrite accepted_receipt, Hids.
  - erewrite step_bind_Ok; [|erewrite step_bind_Ok by exact Hex; unfold of_result; rewrite response_read by ((by destruct e) || concrete_bytes); reflexivity].
    cbn [status response_body]. unfold of_result, receipt. by destruct e.
  - unfold mbind at 1, step_bind at 1. unfold mbind, step_bind. by rewrite Hex.
Qed.
End submission.

(** ** A concrete submission *)

Module ConcreteClient.
Import ConcreteCrypto ConcreteChain ConcretePackets.

Definition client : TxClient := mkClient "127.0.0.1:8080" "env" (provider_of 0 node_keys).
Definition transfer : Transaction := mkTransaction "tx" "Transfer" [1%N] None 1 [] [2%N] (Some 5%N) 0 [] [] [] 0 [] None.
Definition halves (b : bytes) : list bytes := [take 40 b; drop 40 b].
Definition taken (r : result ClientError Transaction) : Transaction := match r with Ok t => t | Err _ => transfer end.
Definition signed : Transaction := taken (sign_tx client transfer).
Definition envelope : Message := match client_envelope client signed with Ok m => m | Err _ => mkMessage "" "" [] [] [] None end.

Lemma transfer_signed : sign_tx client transfer = Ok signed.
Proof. reflexivity. Qed.
Lemma transfer_wrapped : client_envelope client signed = Ok envelope.
Proof. reflexivity. Qed.

Lemma signed_wf : wf signed.
Proof.
  assert (∀ sg, wf_bytes sg → wf (signed_by (ed_public [7%N]) sg transfer)) as Hwf.
  { intros sg Hsg. split_and!; cbn; try done; first [exact Hsg|exact (be_bytes_wf 32 _)|refine (bool_decide_unpack _ _); by vm_compute]. }
  apply Hwf. exact (node_signature_wf 0 _ _ eq_refl).
Qed.
Lemma envelope_wf : wf envelope.
Proof. split_and!; [apply enc_value_wf|exact (node_signature_wf 0 _ _ eq_refl)|exact (be_bytes_wf 32 _)|done]. Qed.

Lemma envelope_fits : (N.of_nat (length (encoded (ser_Message envelope))) ≤ MAX_INGRESS_BODY_BYTES)%N.
Proof. apply N.leb_le. by vm_compute. Qed.

(** One node takes the transfer, another one refuses it. *)
Lemma answered_witness :
  client_submit (ingress_exchange (λ _, mret ()) (HealthState_new "node" "0.1.0") halves) client transfer (Metrics_new, ()) =
    Some ((count_accepted Metrics_new, ()), Ok "tx") ∧
  client_submit (ingress_exchange (λ _, fails (Duplicate "seen")) (HealthState_new "node" "0.1.0") halves) client transfer (Metrics_new, ()) =
    Some ((count_rejected Metrics_new, ()), Err (ClientRejected 409 (string_bytes "duplicate: seen"))).
Proof.
  assert (∀ b, concat (halves b) = b) as Hcut by (intros b; cbn; rewrite app_nil_r; apply take_drop).
  assert (address_text (cl_addr client)) as Ha by (split; [concrete_bytes|apply Nat.leb_le; by vm_compute]).
  split.
  - exact (proj2 (client_submission_is_answered (λ _, mret ()) (HealthState_new "node" "0.1.0") halves client node_keys 0 transfer signed envelope
      (encoded (ser_Message envelope)) Metrics_new () eq_refl (conj eq_refl eq_refl) Ha Hcut eq_refl (λ E, ltac:(discriminate E)) eq_refl
      transfer_signed transfer_wrapped eq_refl signed_wf envelope_wf envelope_fits)).
  - exact (proj2 (client_submission_is_answered (λ _, fails (Duplicate "seen")) (HealthState_new "node" "0.1.0") halves client node_keys 0 transfer signed envelope
      (encoded (ser_Message envelope)) Metrics_new () eq_refl (conj eq_refl eq_refl) Ha Hcut eq_refl (λ E, ltac:(discriminate E)) eq_refl
      transfer_signed transfer_wrapped eq_refl signed_wf envelope_wf envelope_fits)).
Defined.
End ConcreteClient.
