(* ===== verification/DataService.v ===== *)
(** * The data service and its client (src/src/data.rs, data-service/src/store.rs, server.rs)

    [DefaultDataProvider], the client every role holds, over a channel; the
    service behind it, a byte-opaque store that answers one request per
    connection; and the two put together. The file system is the outcome of a
    write, given with the channel; the state file is the entries it holds. *)

From S2P Require Import Prelude Interfaces Types StakeSets Serialize DataProvider Deserialize Wire Channel Validation.
From S2P Require Import Chain Merkle Roots Committer ShieldedPool.

(** ** Requests *)

Inductive GetOp := GToken | GData | GUser | GStakeSnapshot (epoch : N) | GExecutorSet (epoch : N) | GShieldedPool.

Inductive SaveOp :=
| SToken (t : Token)
| SData (b : bytes)
| SUser (u : User)
| SStakeSnapshot (e : StakeSnapshotEnvelope)
| SExecutorSet (e : ExecutorSetEnvelope)
| SShieldedPool (e : ShieldedPoolStateEnvelope).

Inductive DataOp := Get (op : GetOp) | Save (op : SaveOp).

Record DataRequest := mkRequest { rq_key : bytes; rq_op : DataOp; rq_partition_id : string }.

Definition display_GetOp (op : GetOp) : string :=
  match op with
  | GToken => "Token"
  | GData => "Data"
  | GUser => "User"
  | GStakeSnapshot e => "StakeSnapshot(" +:+ pretty e +:+ ")"
  | GExecutorSet e => "ExecutorSet(" +:+ pretty e +:+ ")"
  | GShieldedPool => "ShieldedPool"
  end.

Definition display_SaveOp (op : SaveOp) : string :=
  match op with
  | SToken _ => "Token"
  | SData _ => "Data"
  | SUser _ => "User"
  | SStakeSnapshot _ => "StakeSnapshot"
  | SExecutorSet _ => "ExecutorSet"
  | SShieldedPool _ => "ShieldedPool"
  end.

Definition display_DataOp (op : DataOp) : string :=
  match op with
  | Get op => "Get(" +:+ display_GetOp op +:+ ")"
  | Save op => "Save(" +:+ display_SaveOp op +:+ ")"
  end.

Definition ser_GetOp (op : GetOp) : serde :=
  match op with
  | GToken => SStr "Token"
  | GData => SStr "Data"
  | GUser => SStr "User"
  | GStakeSnapshot e => variant "StakeSnapshot" (ser_N e)
  | GExecutorSet e => variant "ExecutorSet" (ser_N e)
  | GShieldedPool => SStr "ShieldedPool"
  end.

Definition of_GetOp (v : serde) : result string GetOp :=
  '(n, x) ← of_variant v;
  match x with
  | None =>
      if String.eqb n "Token" then Ok GToken else if String.eqb n "Data" then Ok GData
      else if String.eqb n "User" then Ok GUser else if String.eqb n "ShieldedPool" then Ok GShieldedPool
      else Err "unknown variant"
  | Some x =>
      if String.eqb n "StakeSnapshot" then e ← of_u64 x; Ok (GStakeSnapshot e)
      else if String.eqb n "ExecutorSet" then e ← of_u64 x; Ok (GExecutorSet e)
      else Err "unknown variant"
  end.

Section requests.
Context `{HashIter}.

(** The value inside a save: what the matching get must hand back. *)
Definition save_payload (op : SaveOp) : serde :=
  match op with
  | SToken t => to_serde t
  | SData b => to_serde b
  | SUser u => to_serde u
  | SStakeSnapshot e => to_serde e
  | SExecutorSet e => to_serde e
  | SShieldedPool e => to_serde e
  end.

Definition ser_SaveOp (op : SaveOp) : serde := variant (display_SaveOp op) (save_payload op).

Definition of_SaveOp (v : serde) : result string SaveOp :=
  '(n, x) ← of_variant v;
  match x with
  | None => Err "invalid type: unit variant"
  | Some x =>
      if String.eqb n "Token" then t ← of_serde x; Ok (SToken t)
      else if String.eqb n "Data" then b ← of_serde x; Ok (SData b)
      else if String.eqb n "User" then u ← of_serde x; Ok (SUser u)
      else if String.eqb n "StakeSnapshot" then e ← of_serde x; Ok (SStakeSnapshot e)
      else if String.eqb n "ExecutorSet" then e ← of_serde x; Ok (SExecutorSet e)
      else if String.eqb n "ShieldedPool" then e ← of_serde x; Ok (SShieldedPool e)
      else Err "unknown variant"
  end.

Definition wf_SaveOp (op : SaveOp) : Prop :=
  match op with
  | SToken t => wf t
  | SData b => wf b
  | SUser u => wf u
  | SStakeSnapshot e => wf e
  | SExecutorSet e => wf e
  | SShieldedPool e => wf e
  end.

Definition wf_GetOp (op : GetOp) : Prop :=
  match op with GStakeSnapshot e | GExecutorSet e => wf_u64 e | _ => True end.

Definition ser_DataOp (op : DataOp) : serde :=
  match op with Get op => variant "Get" (ser_GetOp op) | Save op => variant "Save" (ser_SaveOp op) end.

Definition of_DataOp (v : serde) : result string DataOp :=
  '(n, x) ← of_variant v;
  match x with
  | None => Err "invalid type: unit variant"
  | Some x =>
      if String.eqb n "Get" then op ← of_GetOp x; Ok (Get op)
      else if String.eqb n "Save" then op ← of_SaveOp x; Ok (Save op)
      else Err "unknown variant"
  end.

Lemma of_SaveOp_ser op : wf_SaveOp op → of_SaveOp (ser_SaveOp op) = Ok op.
Proof. destruct op; intros Hw; unfold of_SaveOp, ser_SaveOp, variant; cbn -[of_serde to_serde]; by rewrite of_to_serde. Qed.

Lemma of_GetOp_ser op : wf_GetOp op → of_GetOp (ser_GetOp op) = Ok op.
Proof. destruct op; intros Hw; try done; unfold of_GetOp; cbn; by rewrite of_u64_ser. Qed.

Definition ser_DataRequest (r : DataRequest) : serde :=
  ser_struct [
    fld "key" (ser_bytes (rq_key r)); fld "op" (ser_DataOp (rq_op r)); fld "partition_id" (SStr (rq_partition_id r))].

Definition of_DataRequest (v : serde) : result string DataRequest :=
  fs ← get_struct ["key"; "op"; "partition_id"] v;
  match fs with
  | [a; b; c] => k ← of_bytes a; op ← of_DataOp b; p ← of_string c; Ok (mkRequest k op p)
  | _ => Err "invalid length"
  end.

#[export, refine] Instance DataRequest_serde : Serde DataRequest := {|
  to_serde := ser_DataRequest; of_serde := of_DataRequest;
  wf r := wf_bytes (rq_key r) ∧ match rq_op r with Get op => wf_GetOp op | Save op => wf_SaveOp op end;
|}.
Proof.
  intros [k op p] [Hk Ho]. unfold of_DataRequest. cbn -[ser_DataOp of_DataOp]. rewrite of_bytes_ser by done.
  cbn -[ser_DataOp of_DataOp]. assert (of_DataOp (ser_DataOp op) = Ok op) as ->; [|done].
  destruct op as [op|op]; unfold of_DataOp; cbn -[of_GetOp ser_GetOp of_SaveOp ser_SaveOp];
    [by rewrite of_GetOp_ser|by rewrite of_SaveOp_ser].
Defined.
End requests.

(** ** The client: [DefaultDataProvider] *)

(** [trait Sender]: one request, one response. The state is what is behind it. *)
Class Sender (Chan : Type) := { get_response : Chan → bytes → Chan * result ConnError bytes }.

(** The [Debug] form of a [str]. *)
Class StrDebug := { str_debug : string → string }.

Section display.
Context `{StrDebug}.

Definition debug_option_str (o : option string) : string :=
  match o with None => "None" | Some m => "Some(" +:+ str_debug m +:+ ")" end.

Definition display_ConnError (e : ConnError) : string :=
  match e with
  | IO msg => "IO(" +:+ msg +:+ ")"
  | MalformedData msg => "MalformedData(" +:+ msg +:+ ")"
  | WriteError msg => "WriteError(" +:+ debug_option_str msg +:+ ")"
  | ReadError msg => "ReadError(" +:+ debug_option_str msg +:+ ")"
  | DecryptError msg => "DecryptError(" +:+ str_debug msg +:+ ")"
  | ConnTimeout msg => "Timeout(" +:+ msg +:+ ")"
  | Unauthenticated msg => "Unauthenticated(" +:+ msg +:+ ")"
  end.

Definition conn_error_to_data_error (e : ConnError) : DataError :=
  match e with
  | ConnTimeout msg => Timeout msg
  | Unauthenticated msg => PeerUnauthenticated msg
  | other => FromStore (display_ConnError other)
  end.
End display.

(** The provider: where it connects to, and the channel there. *)
Record DefaultDataProvider (Chan : Type) := mkProvider { provider_source : ConnTarget; provider_sender : Chan }.
Arguments mkProvider {Chan} _ _.
Arguments provider_source {Chan} _.
Arguments provider_sender {Chan} _.

Section client.
Context `{HashIter} `{Rmp} `{Sha256} `{StrDebug} `{Sender Chan} (cfg_unix : bool).

(** [ConnFactory::get_sender] fails only for a Unix path off Unix. *)
Definition get_sender (p : DefaultDataProvider Chan) : result ConnError Chan :=
  match provider_source p with
  | Remote _ | LocalTcp _ => Ok (provider_sender p)
  | LocalUnix _ =>
      if cfg_unix then Ok (provider_sender p)
      else Err (MalformedData "This is not a Unix runtime environment. Use the TCP loopback address for internal communication.")
  end.

Definition serialize_request (key : bytes) (op : DataOp) (partition : string) : result DataError bytes :=
  map_err SerializationError (serialize_to_bytes_rmp (mkRequest key op partition)).

Definition with_sender (p : DefaultDataProvider Chan) (s : Chan) : DefaultDataProvider Chan := mkProvider (provider_source p) s.

Definition get_data_internal (T : Type) `{Serde T} (p : DefaultDataProvider Chan) (key : bytes) (op : DataOp)
    (partition : string) : DefaultDataProvider Chan * result DataError T :=
  match op with
  | Save _ => (p, Err (InvalidOperation (display_DataOp op)))
  | Get _ =>
      match get_sender p with
      | Err _ => (p, Err StoreNotFound)
      | Ok sender =>
          match serialize_request key op partition with
          | Err e => (p, Err e)
          | Ok data =>
              let '(sender', r) := get_response sender data in
              (with_sender p sender',
               match r with
               | Err err => Err (conn_error_to_data_error err)
               | Ok response => map_err DeserializationError (deserialize_rmp_to T response)
               end)
          end
      end
  end.

Definition save_data_internal (p : DefaultDataProvider Chan) (key : bytes) (op : DataOp) (partition : string)
    : DefaultDataProvider Chan * result DataError unit :=
  match op with
  | Get _ => (p, Err (InvalidOperation (display_DataOp op)))
  | Save _ =>
      match get_sender p with
      | Err _ => (p, Err StoreNotFound)
      | Ok sender =>
          match serialize_request key op partition with
          | Err e => (p, Err e)
          | Ok data =>
              let '(sender', r) := get_response sender data in
              (with_sender p sender',
               match r with Ok _ => Ok () | Err err => Err (conn_error_to_data_error err) end)
          end
      end
  end.

Definition epoch_key (epoch : N) : bytes := u64_be epoch.
Definition pool_key : bytes := string_bytes "shielded_pool".

Definition client_get_stake_snapshot (p : DefaultDataProvider Chan) (epoch : N) (partition : string) : result DataError StakeSet :=
  env ← (get_data_internal StakeSnapshotEnvelope p (epoch_key epoch) (Get (GStakeSnapshot epoch)) partition).2;
  _ ← StakeSnapshotEnvelope_verify env;
  Ok (se_payload env).

Definition client_save_stake_snapshot (p : DefaultDataProvider Chan) (epoch : N) (snapshot : StakeSet) (partition : string) :=
  save_data_internal p (epoch_key epoch) (Save (SStakeSnapshot (StakeSnapshotEnvelope_new snapshot epoch))) partition.

Definition client_get_executor_set (p : DefaultDataProvider Chan) (epoch : N) (partition : string) : result DataError ExecutorSet :=
  env ← (get_data_internal ExecutorSetEnvelope p (epoch_key epoch) (Get (GExecutorSet epoch)) partition).2;
  _ ← ExecutorSetEnvelope_verify env;
  Ok (ee_payload env).

Definition client_save_executor_set (p : DefaultDataProvider Chan) (epoch : N) (set : ExecutorSet) (partition : string) :=
  save_data_internal p (epoch_key epoch) (Save (SExecutorSet (ExecutorSetEnvelope_new set epoch))) partition.

Definition client_get_shielded_pool (p : DefaultDataProvider Chan) (partition : string) : result DataError (option ShieldedPoolState) :=
  env ← (get_data_internal ShieldedPoolStateEnvelope p pool_key (Get GShieldedPool) partition).2;
  _ ← ShieldedPoolStateEnvelope_verify env;
  Ok (Some (pe_payload env)).

Definition client_save_shielded_pool (p : DefaultDataProvider Chan) (state : ShieldedPoolState) (partition : string) :=
  save_data_internal p pool_key (Save (SShieldedPool (ShieldedPoolStateEnvelope_new state))) partition.

(** [impl DataProvider for DefaultDataProvider]. *)
#[export] Instance default_data_provider : DataProvider := {|
  store := DefaultDataProvider Chan;
  get_token p key part := (get_data_internal Token p key (Get GToken) part).2;
  save_token p key token part := save_data_internal p key (Save (SToken token)) part;
  get_user p key part := (get_data_internal User p key (Get GUser) part).2;
  save_user p key user part := save_data_internal p key (Save (SUser user)) part;
  get_stake_snapshot := client_get_stake_snapshot;
  save_stake_snapshot := client_save_stake_snapshot;
  get_executor_set := client_get_executor_set;
  save_executor_set := client_save_executor_set;
  get_shielded_pool := client_get_shielded_pool;
  save_shielded_pool := client_save_shielded_pool;
|}.
End client.

(** ** The store *)

Record PersistedEntry := mkEntry { en_partition_id : string; en_key : string; en_value : string }.

(** The map, whether a state file is configured, and what the file holds. *)
Record DataStore := mkDataStore {
  entries : gmap (string * bytes) bytes;
  has_state_file : bool;
  state_file : option (list PersistedEntry);
}.

Definition DataStore_new : DataStore := mkDataStore ∅ false None.

Definition store_get (s : DataStore) (partition_id : string) (key : bytes) : option bytes :=
  entries s !! (partition_id, key).

Definition store_len (s : DataStore) : nat := size (entries s).
Definition store_is_empty (s : DataStore) : bool := bool_decide (store_len s = 0).

(** Tuples of strings are compared lexicographically. *)
Definition pair_leb (a b : bytes * bytes) : bool :=
  if bool_decide (a.1 = b.1) then bytes_leb a.2 b.2 else bytes_leb a.1 b.1.
Definition entry_order (a b : PersistedEntry) : Prop :=
  pair_leb (string_bytes (en_partition_id a), string_bytes (en_key a))
    (string_bytes (en_partition_id b), string_bytes (en_key b)) = true.
#[export] Instance entry_order_dec : RelDecision entry_order.
Proof. intros a b. unfold entry_order. apply _. Defined.

Definition key_order (a b : string * bytes) : Prop := pair_leb (string_bytes a.1, a.2) (string_bytes b.1, b.2) = true.
#[export] Instance key_order_dec : RelDecision key_order.
Proof. intros a b. unfold key_order. apply _. Defined.

Section store.
Context `{HashIter} `{Hex}.

Definition store_keys (s : DataStore) : list (string * bytes) := merge_sort key_order (hash_iter (entries s)).*1.

Definition persisted (m : gmap (string * bytes) bytes) : list PersistedEntry :=
  merge_sort entry_order ((λ kv, mkEntry kv.1.1 (hex_encode kv.1.2) (hex_encode kv.2)) <$> hash_iter m).

(** [disk] is the outcome of writing the file; the rename makes it all or nothing. *)
Definition persist (disk : result string unit) (s : DataStore) : DataStore * result string unit :=
  if has_state_file s then
    match disk with
    | Ok _ => (mkDataStore (entries s) true (Some (persisted (entries s))), Ok ())
    | Err e => (s, Err e)
    end
  else (s, Ok ()).

Definition store_put (disk : result string unit) (s : DataStore) (partition_id : string) (key value : bytes)
    : DataStore * result string unit :=
  persist disk (mkDataStore (<[(partition_id, key) := value]> (entries s)) (has_state_file s) (state_file s)).

Fixpoint load_entries (l : list PersistedEntry) (m : gmap (string * bytes) bytes)
    : result string (gmap (string * bytes) bytes) :=
  match l with
  | [] => Ok m
  | e :: l' =>
      key ← ok_or "invalid hex" (hex_decode (en_key e));
      value ← ok_or "invalid hex" (hex_decode (en_value e));
      load_entries l' (<[(en_partition_id e, key) := value]> m)
  end.

(** Opening the store on the file's contents, [None] when there is no file. *)
Definition with_state_file (file : option (list PersistedEntry)) : result string DataStore :=
  m ← match file with Some l => load_entries l ∅ | None => Ok ∅ end;
  Ok (mkDataStore m true file).
End store.

(** ** The service *)

Section service.
Context `{HashIter} `{Hex} `{Rmp} `{Hmac}.

Definition handle_get (s : DataStore) (req : DataRequest) : bytes :=
  match rq_op req with
  | Get _ => default [] (store_get s (rq_partition_id req) (rq_key req))
  | Save _ => []
  end.

Definition handle_save (disk : result string unit) (s : DataStore) (req : DataRequest)
    : DataStore * result string bytes :=
  match rq_op req with
  | Get _ => (s, Ok [])
  | Save op =>
      match rmp_enc (save_payload op) with
      | Err e => (s, Err ("re-serializing save payload: " +:+ e))
      | Ok value =>
          let '(s', r) := store_put disk s (rq_partition_id req) (rq_key req) value in
          (s', match r with Ok _ => Ok [] | Err e => Err ("store put failed: " +:+ e) end)
      end
  end.

Definition dispatch (disk : result string unit) (s : DataStore) (payload : bytes) : DataStore * bytes :=
  match deserialize_rmp_to DataRequest payload with
  | Err _ => (s, [])
  | Ok req =>
      match rq_op req with
      | Get _ => (s, handle_get s req)
      | Save _ =>
          let '(s', r) := handle_save disk s req in
          (s', match r with Ok body => body | Err _ => [] end)
      end
  end.

(** One accepted connection: what the peer sent, and what it gets back before
    the stream is closed ([write_body] frames like the client's [write_frame]). *)
Definition serve_connection (disk : result string unit) (secret : option bytes) (s : DataStore) (stream : bytes)
    : DataStore * bytes :=
  match read_body stream with
  | Ok (Some body) =>
      let tag := take AUTH_TAG_LEN body in
      let payload := drop AUTH_TAG_LEN body in
      if verify_payload secret tag payload then
        let '(s', response) := dispatch disk s payload in (s', write_frame secret response)
      else (s, [])
  | Ok None => (s, [])
  | Err _ => (s, [])
  end.

(** A client's TCP channel to a service: each side's secret, the service's store
    and the state of its disk. *)
Record TcpChannel := mkTcp {
  tcp_secret : option bytes;
  service_secret : option bytes;
  service_disk : result string unit;
  service_store : DataStore;
}.

#[export] Instance TcpSender : Sender TcpChannel := {|
  get_response c data :=
    let '(s', stream) := serve_connection (service_disk c) (service_secret c) (service_store c) (write_frame (tcp_secret c) data) in
    (mkTcp (tcp_secret c) (service_secret c) (service_disk c) s', read_response (tcp_secret c) stream)
|}.
End service.

(** ** One request and its answer *)

Section exchange.
Context `{HashIter} `{Hex} `{Rmp} `{Hmac}.

Definition with_store (c : TcpChannel) (s : DataStore) : TcpChannel :=
  mkTcp (tcp_secret c) (service_secret c) (service_disk c) s.

(** With one secret on both sides the service sees the request and the client
    its answer. *)
Lemma get_response_shared c data :
  tcp_secret c = service_secret c → fits data →
  let '(s', r) := dispatch (service_disk c) (service_store c) data in
  fits r → get_response c data = (with_store c s', Ok r).
Proof.
  intros Hs Hf. destruct (dispatch _ _ _) as [s' r] eqn:Hd. intros Hr. simpl. unfold serve_connection.
  rewrite read_body_frame by done. destruct (split_frame (tcp_secret c) data) as [-> ->].
  rewrite Hs, verify_payload_tag, Hd. unfold with_store. by rewrite read_response_frame, Hs.
Qed.

(** With different secrets the request is dropped and the stream closed. *)
Lemma get_response_rejected c data :
  fits data → verify_payload (service_secret c) (tag_of (tcp_secret c) data) data = false →
  get_response c data = (c, Err (ReadError (Some eof_message))).
Proof.
  intros Hf Hv. simpl. unfold serve_connection. rewrite read_body_frame by done.
  destruct (split_frame (tcp_secret c) data) as [-> ->]. rewrite Hv. by destruct c.
Qed.

Lemma decode_request key op part b :
  wf (mkRequest key op part) → serialize_to_bytes_rmp (mkRequest key op part) = Ok b →
  deserialize_rmp_to DataRequest b = Ok (mkRequest key op part).
Proof.
  intros Hw Hb. unfold deserialize_rmp_to. apply (rmp_round _ _ []) in Hb. rewrite app_nil_r in Hb. rewrite Hb.
  cbn [mbind result_bind]. by apply of_to_serde.
Qed.

Lemma dispatch_get disk s key g part b :
  wf (mkRequest key (Get g) part) → serialize_to_bytes_rmp (mkRequest key (Get g) part) = Ok b →
  dispatch disk s b = (s, default [] (store_get s part key)).
Proof. intros Hw Hb. unfold dispatch. by rewrite (decode_request key (Get g) part). Qed.

Lemma dispatch_save disk s key op part b v :
  wf (mkRequest key (Save op) part) → serialize_to_bytes_rmp (mkRequest key (Save op) part) = Ok b →
  rmp_enc (save_payload op) = Ok v →
  dispatch disk s b = ((store_put disk s part key v).1, []).
Proof.
  intros Hw Hb Hv. unfold dispatch. rewrite (decode_request key (Save op) part) by done. cbn [rq_op].
  unfold handle_save. cbn [rq_op rq_partition_id rq_key]. rewrite Hv.
  by destruct (store_put disk s part key v) as [s' [[]|]].
Qed.

Lemma fits_nil : fits [].
Proof. unfold fits, MAX_FRAME_SIZE, AUTH_TAG_LEN. simpl. lia. Qed.
End exchange.

(** ** Client and service together *)

Section end_to_end.
Context `{HashIter} `{Hex} `{Rmp} `{Sha256} `{Hmac} `{StrDebug} (cfg_unix : bool).

Abbreviation provider := (DefaultDataProvider TcpChannel) (only parsing).

Definition store_of (p : provider) : DataStore := service_store (provider_sender p).
Definition disk_of (p : provider) : result string unit := service_disk (provider_sender p).

(** The provider reaches its service and shares its secret. *)
Definition connected (p : provider) : Prop :=
  get_sender cfg_unix p = Ok (provider_sender p) ∧
  tcp_secret (provider_sender p) = service_secret (provider_sender p).

(** A request of well-formed values that fits in a frame. *)
Definition sendable (key : bytes) (op : DataOp) (part : string) : Prop :=
  wf (mkRequest key op part) ∧ ∃ b, serialize_to_bytes_rmp (mkRequest key op part) = Ok b ∧ fits b.

Definition updated (p : provider) (s : DataStore) : provider := with_sender p (with_store (provider_sender p) s).

Lemma save_internal_spec p key op part v :
  connected p → sendable key (Save op) part → rmp_enc (save_payload op) = Ok v →
  save_data_internal cfg_unix p key (Save op) part =
    (updated p (store_put (disk_of p) (store_of p) part key v).1, Ok ()).
Proof.
  intros [Hc Hs] (Hw & b & Hb & Hf) Hv. unfold save_data_internal. rewrite Hc.
  unfold serialize_request. rewrite Hb. cbn [map_err].
  pose proof (get_response_shared (provider_sender p) b Hs Hf) as Hr.
  rewrite (dispatch_save _ _ key op part b v Hw Hb Hv) in Hr. by rewrite (Hr fits_nil).
Qed.

Lemma get_internal_spec T `{Serde T} p key g part :
  connected p → sendable key (Get g) part → fits (default [] (store_get (store_of p) part key)) →
  get_data_internal cfg_unix T p key (Get g) part =
    (p, map_err DeserializationError (deserialize_rmp_to T (default [] (store_get (store_of p) part key)))).
Proof.
  intros [Hc Hs] (Hw & b & Hb & Hf) Hv. unfold get_data_internal. rewrite Hc.
  unfold serialize_request. rewrite Hb. cbn [map_err].
  pose proof (get_response_shared (provider_sender p) b Hs Hf) as Hr.
  rewrite (dispatch_get _ _ key g part b Hw Hb) in Hr. rewrite (Hr Hv). by destruct p as [src [a b' c d]].
Qed.

Lemma store_of_updated p s : store_of (updated p s) = s.
Proof. done. Qed.

Lemma connected_updated p s : connected p → connected (updated p s).
Proof. intros [Hc Hs]. split; [|done]. revert Hc. unfold get_sender. simpl. by destruct (provider_source p), cfg_unix. Qed.

Lemma put_get disk s part key v part' key' :
  store_get (store_put disk s part key v).1 part' key' =
    if bool_decide ((part', key') = (part, key)) then Some v else store_get s part' key'.
Proof.
  assert (entries (store_put disk s part key v).1 = <[(part, key) := v]> (entries s)) as He.
  { unfold store_put, persist. simpl. by destruct (has_state_file s), disk. }
  unfold store_get. rewrite He. case_bool_decide as Hk; [rewrite Hk; apply lookup_insert_eq|].
  by rewrite lookup_insert_ne.
Qed.

Lemma decode_value T `{Serde T} w v : rmp_enc w = Ok v → deserialize_rmp_to T v = of_serde w.
Proof.
  intros Hv. unfold deserialize_rmp_to. apply (rmp_round _ _ []) in Hv. rewrite app_nil_r in Hv. by rewrite Hv.
Qed.

Lemma decode_nothing T `{Serde T} : ∃ e, deserialize_rmp_to T [] = Err e.
Proof. unfold deserialize_rmp_to. destruct rmp_dec_nil as [e ->]. by exists e. Qed.

(** C20: the client and the service together are a map. A well-formed value whose
    request fits in a frame is saved and acknowledged, and from then on every
    read of its key, at whatever type, decodes exactly the value saved; reads of
    other keys are what they were, and a key never written is an error, never a
    value. *)
Theorem service_is_a_map p key op part v :
  connected p → sendable key (Save op) part → rmp_enc (save_payload op) = Ok v → fits v →
  ∃ p', save_data_internal cfg_unix p key (Save op) part = (p', Ok ()) ∧ connected p' ∧
    ∀ T (HT : Serde T) key' g part', sendable key' (Get g) part' →
      let now := (get_data_internal cfg_unix T p' key' (Get g) part').2 in
      if bool_decide ((part', key') = (part, key)) then now = map_err DeserializationError (of_serde (save_payload op))
      else match store_get (store_of p) part' key' with
           | Some w => fits w → now = (get_data_internal cfg_unix T p key' (Get g) part').2
           | None => ∃ e, now = Err (DeserializationError e)
           end.
Proof.
  intros Hc Hs Hv Hf. exists (updated p (store_put (disk_of p) (store_of p) part key v).1).
  split; [by apply save_internal_spec|]. split; [by apply connected_updated|]. intros T HT key' g part' Hg now.
  pose proof (put_get (disk_of p) (store_of p) part key v part' key') as Hp.
  unfold now. case_bool_decide as Hk.
  - rewrite get_internal_spec; rewrite ?store_of_updated, ?Hp; [|by apply connected_updated|done|done].
    cbn [snd default]. by rewrite (decode_value T _ _ Hv).
  - destruct (store_get (store_of p) part' key') as [w|] eqn:Hw.
    + intros Hfw. rewrite (get_internal_spec T p) by (done || by rewrite Hw).
      rewrite get_internal_spec; rewrite ?store_of_updated, ?Hp, ?Hw; [done|by apply connected_updated|done|done].
    + rewrite get_internal_spec; rewrite ?store_of_updated, ?Hp; [|by apply connected_updated|done|apply fits_nil].
      cbn [snd default]. destruct (decode_nothing T) as [e ->]. by exists e.
Qed.

(** Persisting an epoch's executor set destroys its stake snapshot. Both are
    stored under the big-endian epoch in the token partition, and the service
    keeps one value per key whatever its type. So when the committer, advancing
    its epoch, saves the stake snapshot and then the executor set, both saves
    are acknowledged and the stake snapshot can no longer be read. *)
Theorem executor_set_overwrites_stake_snapshot p epoch stakes executors part v1 v2 :
  connected p →
  let env1 := StakeSnapshotEnvelope_new stakes epoch in
  let env2 := ExecutorSetEnvelope_new executors epoch in
  sendable (epoch_key epoch) (Save (SStakeSnapshot env1)) part →
  sendable (epoch_key epoch) (Save (SExecutorSet env2)) part →
  sendable (epoch_key epoch) (Get (GStakeSnapshot epoch)) part →
  rmp_enc (to_serde env1) = Ok v1 → rmp_enc (to_serde env2) = Ok v2 → fits v1 → fits v2 →
  let '(p1, r1) := client_save_stake_snapshot cfg_unix p epoch stakes part in
  let '(p2, r2) := client_save_executor_set cfg_unix p1 epoch executors part in
  r1 = Ok () ∧ client_get_stake_snapshot cfg_unix p1 epoch part = Ok stakes ∧
  r2 = Ok () ∧ ∃ e, client_get_stake_snapshot cfg_unix p2 epoch part = Err (DeserializationError e).
Proof.
  intros Hc env1 env2 Hs1 Hs2 Hg Hv1 Hv2 Hf1 Hf2. unfold client_save_stake_snapshot.
  rewrite (save_internal_spec p _ _ _ v1) by done. set (p1 := updated p _).
  assert (connected p1) as Hc1 by by apply connected_updated.
  unfold client_save_executor_set. rewrite (save_internal_spec p1 _ _ _ v2) by done. set (p2 := updated p1 _).
  assert (connected p2) as Hc2 by by apply connected_updated.
  assert (store_get (store_of p1) part (epoch_key epoch) = Some v1) as Hg1.
  { unfold p1. by rewrite store_of_updated, put_get, bool_decide_true. }
  assert (store_get (store_of p2) part (epoch_key epoch) = Some v2) as Hg2.
  { unfold p2. by rewrite store_of_updated, put_get, bool_decide_true. }
  split; [done|]. unfold client_get_stake_snapshot.
  rewrite (get_internal_spec _ p1) by (done || by rewrite Hg1). rewrite (get_internal_spec _ p2) by (done || by rewrite Hg2).
  rewrite Hg1, Hg2. cbn [default snd]. rewrite (decode_value _ _ _ Hv1), (decode_value _ _ _ Hv2).
  split; [|split; [done|]].
  - rewrite of_to_serde by apply Hs1. cbn. unfold StakeSnapshotEnvelope_verify. by rewrite decide_True.
  - by eexists.
Qed.

(** A save that failed is acknowledged. When the service cannot write its
    state file, [handle_save] reports the error but the service still answers
    with an empty frame, which the client takes for success: the caller is told
    its value is stored, and the file a restart loads does not have it. *)
Theorem failed_save_is_acknowledged p key op part v e :
  connected p → sendable key (Save op) part → rmp_enc (save_payload op) = Ok v →
  has_state_file (store_of p) = true → disk_of p = Err e →
  ∃ p', save_data_internal cfg_unix p key (Save op) part = (p', Ok ()) ∧
    (handle_save (disk_of p) (store_of p) (mkRequest key (Save op) part)).2 = Err ("store put failed: " +:+ e) ∧
    with_state_file (state_file (store_of p')) = with_state_file (state_file (store_of p)).
Proof.
  intros Hc Hs Hv Hf Hd. eexists. split; [by eapply save_internal_spec|].
  rewrite store_of_updated. unfold handle_save. cbn [rq_op rq_partition_id rq_key]. rewrite Hv, Hd.
  unfold store_put, persist. cbn [has_state_file]. by rewrite Hf.
Qed.

(** A client without the service's secret can neither write nor read. If the
    tag does not verify, the store is unchanged and every call is an error; the
    error is the closed stream ([FromStore]), not [PeerUnauthenticated]. *)
Theorem unauthenticated_client_refused p key op part :
  get_sender cfg_unix p = Ok (provider_sender p) → sendable key op part →
  (∀ b, serialize_to_bytes_rmp (mkRequest key op part) = Ok b →
     verify_payload (service_secret (provider_sender p)) (tag_of (tcp_secret (provider_sender p)) b) b = false) →
  let refused := FromStore (display_ConnError (ReadError (Some eof_message))) in
  match op with
  | Save _ => save_data_internal cfg_unix p key op part = (p, Err refused)
  | Get _ => ∀ T (HT : Serde T), get_data_internal cfg_unix T p key op part = (p, Err refused)
  end.
Proof.
  intros Hc (Hw & b & Hb & Hf) Ht refused. specialize (Ht b Hb).
  destruct op as [g|o]; [intros T HT; unfold get_data_internal|unfold save_data_internal];
    rewrite Hc; unfold serialize_request; rewrite Hb; cbn [map_err];
    rewrite get_response_rejected by done; by destruct p.
Qed.
End end_to_end.

(** ** The state file *)

Section state_file.
Context `{HashIter} `{Hex}.

Definition wf_entries (m : gmap (string * bytes) bytes) : Prop := map_Forall (λ k v, wf_bytes k.2 ∧ wf_bytes v) m.

Definition to_entry (kv : string * bytes * bytes) : PersistedEntry :=
  mkEntry kv.1.1 (hex_encode kv.1.2) (hex_encode kv.2).

Lemma load_entries_ok kvs acc :
  Forall (λ kv : string * bytes * bytes, wf_bytes kv.1.2 ∧ wf_bytes kv.2) kvs →
  load_entries (to_entry <$> kvs) acc = Ok (foldl (λ m kv, <[kv.1 := kv.2]> m) acc kvs).
Proof.
  intros Hk. revert acc. induction Hk as [|[[part key] v] kvs [Hkey Hv] _ IH]; intros acc; [done|]. simpl in *.
  rewrite !hex_round by done. simpl. apply IH.
Qed.

Lemma load_persisted m : wf_entries m → load_entries (persisted m) ∅ = Ok m.
Proof.
  intros Hm. assert (persisted m ≡ₚ to_entry <$> hash_iter m) as Hp by apply merge_sort_Permutation.
  apply Permutation_map_inv in Hp as (kvs & -> & Hp). change (map to_entry kvs) with (to_entry <$> kvs).
  rewrite load_entries_ok.
  - f_equal. apply foldl_insert_perm. by rewrite <-Hp, hash_iter_perm.
  - rewrite <-Hp. apply Forall_forall. intros [k v] Hin%elem_of_hash_iter. by apply Hm in Hin.
Qed.

(** A put on a disk that works. *)
Definition put_ok (s : DataStore) (kv : string * bytes * bytes) : DataStore :=
  (store_put (Ok ()) s kv.1.1 kv.1.2 kv.2).1.

Lemma put_ok_eq s kv :
  has_state_file s = true →
  put_ok s kv = mkDataStore (<[kv.1 := kv.2]> (entries s)) true (Some (persisted (<[kv.1 := kv.2]> (entries s)))).
Proof. intros Hs. destruct kv as [[part key] v]. unfold put_ok, store_put, persist. simpl. by rewrite Hs. Qed.

Lemma puts_ok puts s :
  has_state_file s = true →
  entries (foldl put_ok s puts) = foldl (λ m kv, <[kv.1 := kv.2]> m) (entries s) puts ∧
  (puts ≠ [] → state_file (foldl put_ok s puts) = Some (persisted (entries (foldl put_ok s puts)))).
Proof.
  revert s. induction puts as [|kv puts IH]; intros s Hs; [done|]. cbn [foldl]. rewrite put_ok_eq by done.
  destruct (IH (mkDataStore (<[kv.1 := kv.2]> (entries s)) true
    (Some (persisted (<[kv.1 := kv.2]> (entries s))))) eq_refl) as [H1 H2].
  split; [done|]. intros _. destruct puts; [done|]. by apply H2.
Qed.

(** An acknowledged write survives a restart. On a store with a state file
    and a disk that works, after any sequence of puts opening the file gives
    back the map with all of them. *)
Theorem store_survives_restart s puts :
  has_state_file s = true → puts ≠ [] →
  let s' := foldl put_ok s puts in
  wf_entries (entries s') →
  entries s' = foldl (λ m kv, <[kv.1 := kv.2]> m) (entries s) puts ∧
  ∃ s'', with_state_file (state_file s') = Ok s'' ∧ entries s'' = entries s' ∧ has_state_file s'' = true.
Proof.
  intros Hf Hne s' Hw. destruct (puts_ok puts s Hf) as [He Hfile]. split; [done|].
  unfold s' in *. rewrite (Hfile Hne). unfold with_state_file. rewrite load_persisted by done. by eexists.
Qed.
End state_file.

(** ** The pool across a restart *)

Section pool_restart.
Context `{Poseidon} `{!Pallas} `{!Halo2} `{HashIter} `{Hex} `{Rmp} `{Sha256} `{Hmac} `{StrDebug} (cfg_unix : bool).

#[local] Instance the_provider : DataProvider := default_data_provider (Chan := TcpChannel) cfg_unix.

(** The service keeps the law the pool's restart relies on. *)
Lemma pool_record_roundtrip p part s v :
  connected cfg_unix p →
  sendable pool_key (Save (SShieldedPool (ShieldedPoolStateEnvelope_new s))) part →
  sendable pool_key (Get GShieldedPool) part →
  rmp_enc (to_serde (ShieldedPoolStateEnvelope_new s)) = Ok v → fits v →
  ∃ p', save_shielded_pool p s part = (p', Ok ()) ∧ get_shielded_pool p' part = Ok (Some s).
Proof.
  intros Hc Hs Hg Hv Hf. exists (updated p (store_put (disk_of p) (store_of p) part pool_key v).1).
  split; [by apply save_internal_spec|]. simpl. unfold client_get_shielded_pool.
  assert (connected cfg_unix (updated p (store_put (disk_of p) (store_of p) part pool_key v).1)) as Hc'
    by by apply connected_updated.
  rewrite get_internal_spec; rewrite ?store_of_updated, ?put_get, ?bool_decide_true by done; [|done|done|done].
  cbn [snd default]. rewrite (decode_value _ _ _ Hv), of_to_serde by apply Hs. cbn.
  unfold ShieldedPoolStateEnvelope_verify. by rewrite decide_True.
Qed.

(** The committer's pool survives a restart. A well-formed pool saved through
    the data service, whatever that store held, is loaded back as the same pool:
    no spent nullifier is forgotten. *)
Theorem pool_survives_restart p part pool s v :
  pool_ok pool → state_snapshot pool = Some s → connected cfg_unix p →
  sendable pool_key (Save (SShieldedPool (ShieldedPoolStateEnvelope_new s))) part →
  sendable pool_key (Get GShieldedPool) part →
  rmp_enc (to_serde (ShieldedPoolStateEnvelope_new s)) = Ok v → fits v →
  ∃ p', pool_save p part pool = Some (p', Ok ()) ∧
    pool_load p' part (pool_window pool) =
      Some (p', Ok (mkShieldedPool (nullifiers pool) (pool_window pool) (pl_roots (guard pool)) (guard pool))).
Proof.
  intros Hp Hsnap Hc Hs Hg Hv Hf. destruct (pool_record_roundtrip p part s v Hc Hs Hg Hv Hf) as (p' & Hsave & Hget).
  exists p'. assert (pool_save p part pool = Some (p', Ok ())) as Hps.
  { unfold pool_save. rewrite Hsnap. cbn [mbind option_bind]. by rewrite Hsave. }
  split; [done|]. eapply save_then_load; [done| |done]. intros s' Hs' _. congruence.
Qed.
End pool_restart.

(** ** Concrete runs *)

Module ConcreteService.
Export ConcretePool ConcreteHex.
Import ConcreteChain.

#[export, refine] Instance keyed_digest : Hmac := {| hmac_sha256 k m := digest (k ++ m) |}.
Proof. intros. apply be_bytes_length. Defined.

#[export] Instance bare_debug : StrDebug := {| str_debug s := s |}.

Definition channel (client service : option bytes) (disk : result string unit) : DefaultDataProvider TcpChannel :=
  mkProvider (Remote "127.0.0.1:55555") (mkTcp client service disk (mkDataStore ∅ true None)).
Definition online : DefaultDataProvider TcpChannel := channel None None (Ok ()).

Lemma online_connected : connected true online.
Proof. by split. Qed.

Lemma byte_list (b : bytes) : forallb (λ x, N.ltb x 256) b = true → wf_bytes b.
Proof. intros Hb. apply Forall_forall. intros x Hx%list_elem_of_In. apply N.ltb_lt. by eapply forallb_forall in Hb. Qed.

Lemma encoded_fits (b : bytes) : N.leb (N.of_nat (32 + length b)) MAX_FRAME_SIZE = true → fits b.
Proof. apply N.leb_le. Qed.

Definition user : User := mkUser [1%N] 10 20 0.

Lemma user_sendable : sendable [1%N] (Save (SUser user)) "token".
Proof.
  split; [|eexists; split; [reflexivity|]; apply encoded_fits; by vm_compute].
  split; [by apply byte_list|]. split_and!; [by apply byte_list|by vm_compute..].
Qed.

Lemma service_is_a_map_witness :
  ∃ p', save_data_internal true online [1%N] (Save (SUser user)) "token" = (p', Ok ()) ∧ connected true p'.
Proof.
  destruct (service_is_a_map true online [1%N] (SUser user) "token" (enc_value (to_serde user))
    online_connected user_sendable eq_refl) as (p' & Hs & Hc & _).
  - apply encoded_fits. by vm_compute.
  - exists p'. exact (conj Hs Hc).
Defined.

(** One staker, at epoch 3. *)
Definition stakes : StakeSet := mkStakeSet {[ [7%N] := 100%N ]}.
Definition stake_env : StakeSnapshotEnvelope := StakeSnapshotEnvelope_new stakes 3.
Definition executor_env : ExecutorSetEnvelope := ExecutorSetEnvelope_new (to_executor_set stakes) 3.

Lemma stakes_wf : wf_stakes (stakers stakes).
Proof. apply map_Forall_singleton. split; [by apply byte_list|by vm_compute]. Qed.

Lemma digest_array x : forallb (λ y, N.ltb y 256) (digest x) = true → wf_array32 (digest x).
Proof. intros Hd. split; [by apply byte_list|apply be_bytes_length]. Qed.

Lemma stake_sendable : sendable (epoch_key 3) (Save (SStakeSnapshot stake_env)) "token".
Proof.
  split; [|eexists; split; [reflexivity|]; apply encoded_fits; by vm_compute].
  split; [by apply byte_list|]. split_and!; [apply stakes_wf| |by vm_compute].
  split; [apply byte_list; by vm_compute|by vm_compute].
Qed.

Lemma executor_sendable : sendable (epoch_key 3) (Save (SExecutorSet executor_env)) "token".
Proof.
  split; [|eexists; split; [reflexivity|]; apply encoded_fits; by vm_compute].
  split; [by apply byte_list|]. split_and!; [apply stakes_wf| |by vm_compute].
  split; [apply byte_list; by vm_compute|by vm_compute].
Qed.

Lemma get_sendable key g part :
  wf_bytes key → wf_GetOp g →
  N.leb (N.of_nat (32 + length (enc_value (to_serde (mkRequest key (Get g) part))))) MAX_FRAME_SIZE = true →
  sendable key (Get g) part.
Proof. intros Hk Hg Hf. split; [by split|]. eexists. split; [reflexivity|]. by apply encoded_fits. Qed.

Lemma overwrite_witness :
  let '(p1, r1) := client_save_stake_snapshot true online 3 stakes "token" in
  let '(p2, r2) := client_save_executor_set true p1 3 (to_executor_set stakes) "token" in
  r1 = Ok () ∧ client_get_stake_snapshot true p1 3 "token" = Ok stakes ∧
  r2 = Ok () ∧ ∃ e, client_get_stake_snapshot true p2 3 "token" = Err (DeserializationError e).
Proof.
  apply (executor_set_overwrites_stake_snapshot true online 3 stakes (to_executor_set stakes) "token"
    (enc_value (to_serde stake_env)) (enc_value (to_serde executor_env))).
  - apply online_connected.
  - apply stake_sendable.
  - apply executor_sendable.
  - apply get_sendable; [by apply byte_list|by vm_compute|by vm_compute].
  - reflexivity.
  - reflexivity.
  - apply encoded_fits. by vm_compute.
  - apply encoded_fits. by vm_compute.
Defined.

Definition full_disk : DefaultDataProvider TcpChannel := channel None None (Err "no space left on device").

Lemma failed_save_witness :
  ∃ p', save_data_internal true full_disk [1%N] (Save (SUser user)) "token" = (p', Ok ()) ∧
    with_state_file (state_file (store_of p')) = with_state_file (state_file (store_of full_disk)).
Proof.
  destruct (failed_save_is_acknowledged true full_disk [1%N] (SUser user) "token" (enc_value (to_serde user))
    "no space left on device" (conj eq_refl eq_refl) user_sendable eq_refl eq_refl eq_refl) as (p' & Hs & _ & Hf).
  exists p'. exact (conj Hs Hf).
Defined.

Definition intruder : DefaultDataProvider TcpChannel := channel (Some [1%N]) (Some [2%N]) (Ok ()).

Lemma unauthenticated_witness :
  save_data_internal true intruder [1%N] (Save (SUser user)) "token" =
    (intruder, Err (FromStore (display_ConnError (ReadError (Some eof_message))))).
Proof.
  apply (unauthenticated_client_refused true intruder [1%N] (Save (SUser user)) "token").
  - reflexivity.
  - apply user_sendable.
  - intros b Hb. apply (inj Ok) in Hb as <-. by vm_compute.
Defined.

Definition empty_store : DataStore := mkDataStore ∅ true None.

Lemma restart_witness :
  ∃ s'', with_state_file (state_file (put_ok empty_store ("token", [1%N], [2%N; 3%N]))) = Ok s'' ∧
    entries s'' = {[ ("token", [1%N]) := [2%N; 3%N] ]}.
Proof.
  destruct (store_survives_restart empty_store [("token", [1%N], [2%N; 3%N])]) as (He & s'' & Hs & Hent & _).
  - reflexivity.
  - discriminate.
  - rewrite (proj1 (puts_ok _ empty_store eq_refl)). cbn [foldl entries empty_store fst snd].
    apply map_Forall_insert_2; [split; by apply byte_list|apply map_Forall_empty].
  - exists s''. split; [exact Hs|]. rewrite Hent, He. reflexivity.
Defined.

(** The pool of one applied block, restarted through the service. *)
Definition pool_record : ShieldedPoolState :=
  Eval vm_compute in default (mkPoolRecord [] 0 [] [] []) (state_snapshot pool1).

Lemma array_list (b : bytes) : forallb (λ x, N.ltb x 256) b && bool_decide (length b = 32) = true → wf_array32 b.
Proof. intros [Hb Hl%bool_decide_eq_true]%andb_true_iff. split; [by apply byte_list|done]. Qed.

Lemma pool_record_sendable :
  sendable pool_key (Save (SShieldedPool (ShieldedPoolStateEnvelope_new pool_record))) "token".
Proof.
  split; [|eexists; split; [reflexivity|]; apply encoded_fits; by vm_compute].
  split; [apply byte_list; by vm_compute|]. split; [|apply array_list; by vm_compute].
  split_and!; [apply array_list; by vm_compute|by vm_compute|..].
  - repeat constructor; apply byte_list; by vm_compute.
  - repeat constructor; apply byte_list; by vm_compute.
  - constructor; [|constructor].
    split_and!; [apply byte_list; by vm_compute|repeat constructor; apply byte_list; by vm_compute..|].
    apply array_list. by vm_compute.
Qed.

Lemma pool_restart_witness :
  ∃ p', pool_save (H6 := default_data_provider true) online "token" pool1 = Some (p', Ok ()).
Proof.
  destruct (pool_survives_restart true online "token" pool1 pool_record
    (enc_value (to_serde (ShieldedPoolStateEnvelope_new pool_record)))) as (p' & Hs & _).
  - apply (pool_reachable_ok 10), pool1_reachable.
  - by vm_compute.
  - apply online_connected.
  - apply pool_record_sendable.
  - apply get_sendable; [by apply byte_list|done|by vm_compute].
  - reflexivity.
  - apply encoded_fits. by vm_compute.
  - exists p'. exact Hs.
Defined.
End ConcreteService.
